(* ===== verification/_CoqProject ===== *)
-Q . S2P
Prelude.v
WrappingIntegers.v
ByteStream.v
StreamReassembler.v
InternetChecksum.v
Buffer.v
Parser.v
TCPHeader.v
TCPSegment.v
IPv4Header.v
IPv4Datagram.v
SegmentOf.v
TCPReceiver.v
TCPConfig.v
NetAddress.v
Text.v
Clock.v
RETimer.v
TCPSender.v
EndToEnd.v
Transfer.v
TCPState.v
HeaderText.v
TCPConnection.v
ConnectionPair.v
Progress.v
Exchange.v
Delivery.v
FdAdapter.v
TcpDump.v
Sendable.v
Benchmark.v
FileDescriptor.v
Handles.v
Sockets.v
Monitors.v
Options.v
EventLoop.v
StreamCopy.v
Native.v
SpongeSocket.v
Lifecycle.v
Programs.v
Mains.v
Usage.v
