(* ===== verification/Prelude.v ===== *)
(** * A user-space TCP stack, verified

    The program under [src/] is a TCP implementation in C++ ("sponge"): a library,
    [src/libsponge], and a few programs on top of it, [src/apps].  This library
    models its code as functions and proves what makes it correct.

    ** The parts of the program

    Bytes written by an application enter a [ByteStream]; [TCPSender] cuts the
    stream into segments, keeps them until they are acknowledged and sends them
    again when its [RETimer] expires.  At the other end [TCPReceiver] turns
    sequence numbers into stream positions and hands the payloads to the
    [StreamReassembler], whose output is a [ByteStream] again.  [TCPConnection]
    joins a sender and a receiver to an endpoint.  Segments travel as bytes:
    [TCPSegment] and [IPv4Datagram] are parsed and serialized through
    [NetParser], [Buffer] and [InternetChecksum], and the datagram adapters put
    them into UDP or IPv4 datagrams, possibly dropping some.  [TCPSpongeSocket]
    runs a connection in a thread, driven by an [EventLoop] over
    [FileDescriptor]s; programs such as [tcp_udp] and [tcp_ipv4] copy their
    input and output through such a socket.

    ** Which file models what

    - [Prelude]: machine words, byte strings, outcomes, tactics (this file).
    - [WrappingIntegers], [ByteStream], [StreamReassembler], [TCPReceiver],
      [RETimer] and [TCPSender] (both of [tcp_sender.cc]), [TCPConnection]: the
      files of the same names in [src/libsponge].
    - [InternetChecksum], [Buffer], [Parser], [FileDescriptor] (reading and
      writing), [Handles] (how [FileDescriptor]s share a descriptor),
      [EventLoop], [NetAddress] ([address.cc]), [Sockets] ([socket.cc],
      [tun.cc], and the program [webget]), [Text] (output streams and
      [hexdump]) and [Clock] (time and exceptions, all of [util.cc]):
      [src/libsponge/util].
    - [TCPHeader], [TCPSegment], [IPv4Header], [IPv4Datagram], [TCPConfig],
      [TCPState], [HeaderText] (headers and states in words), [FdAdapter] (all
      adapters), [SpongeSocket] and [Lifecycle] ([tcp_sponge_socket.cc]: the TCP
      thread, and its owner): [src/libsponge/tcp_helpers].
    - [StreamCopy] ([bidirectional_stream_copy.cc]), [Benchmark]
      ([tcp_benchmark.cc]), [TcpDump] (dissection and options of
      [udp_tcpdump.cc]), [Monitors] (mains of [udp_tcpdump.cc] and [tun.cc]),
      [Native] ([tcp_native.cc]), [Options], [Programs], [Mains] and [Usage]
      (command lines, setting up, mains and usage texts of [tcp_ipv4.cc] and
      [tcp_udp.cc]): [src/apps].
    - [SegmentOf], [EndToEnd], [Transfer], [ConnectionPair], [Progress],
      [Exchange], [Delivery] and [Sendable] hold no code of their own: they state
      the contracts between the parts and compose them.

    ** How the code is modelled

    A class is a record of its members, under the source's names, and a member
    function is a function from the record to the new record; a C++ exception is
    the outcome [Throw], an early return an [if].  An unsigned integer of [w]
    bits is a [Z] reduced modulo [2^w] where the source's arithmetic may leave
    the range ([u16], [u32], [u64]), a cast to a signed type is [i32] or [i64].
    Bytes are numbers below 256, strings lists of them.  A read outside of a
    buffer and the use of a handle that was closed, undefined in the source, are
    exceptions here, so that a theorem that excludes exceptions excludes them.

    What the code does not define is a parameter: the kernel ([Kernel],
    [UDPKernel], [SocketKernel]: the answer to each system call, also partial
    and failing ones), [poll], the name resolver ([Resolver]), the steady clock,
    the capture library ([Pcap], [Ntop]), the random number
    generator ([Generator], and the number an initial sequence number is made
    of), the conversion of a loss rate from floating point, and the value of the
    flag [_abort] that the other thread may set.  Theorems that need documented
    behaviour of these name it: [NumericResolver], [poll_fills], kernels that
    store bytes, and the order of a socket pair.

    Loops without a structural bound take fuel, and the functions of the program
    start them with enough of it: [push_substring_total] (two levels of
    recursion), [fill_window_total] (a unit per buffered byte and two more), the
    loops of [FileDescriptor.write] (a unit per byte), the inner loop of the
    benchmark (a unit per byte) and the loop over extension headers (a unit per
    byte of the packet) are shown to end within it.  The event loops and the
    benchmark's outer loops run for a given number of rounds, and theorems about
    them hold for every number; where a theorem says that something is finished
    it says after how many ([transfer_completes], [conversation_completes]).

    ** What the theorems show

    - Words and bytes: [unwrap] finds the closest preimage; the stream is a FIFO;
      parsing and serializing are inverse; a corrupted segment is rejected.
    - Reassembly: [push_substring] terminates, and its output is the longest
      prefix of the stream that the excerpts pushed so far determine and the
      capacity admits, whatever their order and overlap.
    - Sender and receiver: the invariants of their runs; the window is filled and
      what is acknowledged is released, exactly; a retransmitted segment makes
      progress; the receiver refines the reassembler; over a network that
      delivers in order a whole transfer finishes ([transfer_completes]).
    - Connection: the invariant of a run for any peer; the handshake; how a
      connection ends; over a network that delivers in order, a client gets its
      request to a server, the server its reply to the client, and both close
      ([conversation_completes]; one lemma about an end that talks and an end that
      listens, [exchanges_transfer], serves both directions); every segment it
      sends is well formed and survives the wire of either adapter.
    - Composition: over a network that loses, reorders and duplicates, what a
      receiver, a connection, a socket or a whole program delivers is a prefix
      of what was given to the other end ([end_to_end_prefix],
      [connection_pair_prefix], [socket_pair_prefix], [udp_programs_prefix],
      [ipv4_programs_prefix]).
    - Event-driven code: [wait_next_event] makes exactly the steps that the state of
      the descriptors and the answer of [poll] call for ([wait_refines]); the
      socket's thread refines the connection it runs; the copy loses nothing; a
      descriptor is closed exactly once ([closed_exactly_once]); a program that
      exits with success has finished its work ([exit_success_means_done]).
    - Text: what [hexdump] prints can be read back, the text of a header
      determines it, and [udp_tcpdump] prints every packet it captures.
    - Departures: where the code does not do what it says, a theorem states what
      it does (for example [fin_overtakes_data], [shrunk_window_overrun],
      [bad_header_accepted], [dissect_short_packets], and the use of a closed
      handle in [tcpdump_prints_capture]).

    ** Not modelled

    Threads as such: a run of a program is a run of each of its two threads,
    related by what the socket pair carries.  What goes to the standard error
    stream (messages and, in debugging builds, traces).  The reference counts
    behind [Buffer], which are not observable.  The seeding of the random number
    generator, and the times that the benchmark prints.

    ** Bounds

    The theorems about pairs over any network bound the length of a stream by
    about 2^31 bytes, because such a network may keep a segment as long as it
    likes, and one that is 2^32 bytes late is taken for new data
    ([stale_segment_misplaced]); [receiver_refines] has the exact condition
    ([near]).  In [conversation_completes] the sequence numbers must not pass
    2^32, because [TCPSender] and [TCPConnection] compare them as plain numbers;
    the two ends talk in turn, and time passes at the end that talks.  Over a
    network that loses or reorders, a transfer need not finish correctly: see
    [fin_overtakes_data]. *)

(** * Prelude: words, strings, outcomes and the shared automation *)

From stdpp Require Export base numbers list option gmap.
From Stdlib Require Export ZArith Lia.

Declare Scope sponge_scope.
Delimit Scope sponge_scope with sponge.
Global Open Scope Z_scope.

(** ** Machine words

    A [w]-bit unsigned integer of the source is a [Z]; every arithmetic
    operation of the source that may leave the range is followed by the
    reduction its type performs.  The moduli are literals so that the
    arithmetic solver sees them. *)

Definition u8 (z : Z) : Z := z mod 256.
Definition u16 (z : Z) : Z := z mod 65536.
Definition u32 (z : Z) : Z := z mod 4294967296.
Definition u64 (z : Z) : Z := z mod 18446744073709551616.

(** Two's complement reinterpretation, [int32_t(x)] and [int64_t(x)]. *)
Definition i32 (z : Z) : Z := (z + 2147483648) mod 4294967296 - 2147483648.
Definition i64 (z : Z) : Z :=
  (z + 9223372036854775808) mod 18446744073709551616 - 9223372036854775808.

Definition is_u8 (z : Z) : Prop := 0 <= z < 256.
Definition is_u16 (z : Z) : Prop := 0 <= z < 65536.
Definition is_u32 (z : Z) : Prop := 0 <= z < 4294967296.
Definition is_u64 (z : Z) : Prop := 0 <= z < 18446744073709551616.

Global Instance is_u8_dec z : Decision (is_u8 z).
Proof. unfold is_u8. apply _. Defined.
Global Instance is_u16_dec z : Decision (is_u16 z).
Proof. unfold is_u16. apply _. Defined.
Global Instance is_u32_dec z : Decision (is_u32 z).
Proof. unfold is_u32. apply _. Defined.
Global Instance is_u64_dec z : Decision (is_u64 z).
Proof. unfold is_u64. apply _. Defined.

(** [words] unfolds the word operations; [wsolve] also turns the remaining
    [mod]s into equations for [lia]. *)
Ltac words := unfold u8, u16, u32, u64, i32, i64, is_u8, is_u16, is_u32, is_u64 in *.
Ltac wsolve := words; Z.div_mod_to_equations; lia.

Lemma u8_range z : is_u8 (u8 z).
Proof. wsolve. Qed.
Lemma u16_range z : is_u16 (u16 z).
Proof. wsolve. Qed.
Lemma u32_range z : is_u32 (u32 z).
Proof. wsolve. Qed.
Lemma u64_range z : is_u64 (u64 z).
Proof. wsolve. Qed.

Lemma u8_id z : is_u8 z -> u8 z = z.
Proof. words. intros. by apply Z.mod_small. Qed.
Lemma u16_id z : is_u16 z -> u16 z = z.
Proof. words. intros. by apply Z.mod_small. Qed.
Lemma u32_id z : is_u32 z -> u32 z = z.
Proof. words. intros. by apply Z.mod_small. Qed.
Lemma u64_id z : is_u64 z -> u64 z = z.
Proof. words. intros. by apply Z.mod_small. Qed.

Lemma u32_add_l a b : u32 (u32 a + b) = u32 (a + b).
Proof. words. apply Zplus_mod_idemp_l. Qed.
Lemma u32_u64 z : u32 (u64 z) = u32 z.
Proof. wsolve. Qed.

Create HintDb sponge discriminated.
Create Rewrite HintDb words.
Create Rewrite HintDb lens.
#[export] Hint Resolve u8_range u16_range u32_range u64_range : sponge.
#[export] Hint Rewrite u8_id u16_id u32_id u64_id using (words; lia) : words.

(** ** Strings

    A [std::string] is the list of its bytes; a byte is a [Z] in [0, 256).
    Positions and sizes are [Z] ([size_t]).  [ztake]/[zdrop] clamp the count
    to the list first, so that they evaluate even on [npos]. *)

Abbreviation byte := Z (only parsing).
Abbreviation bytes := (list Z) (only parsing).

Definition zlen {A} (l : list A) : Z := Z.of_nat (length l).
Definition ztake {A} (n : Z) (l : list A) : list A := take (Z.to_nat (Z.min n (zlen l))) l.
Definition zdrop {A} (n : Z) (l : list A) : list A := drop (Z.to_nat (Z.min n (zlen l))) l.

Global Arguments ztake : simpl never.
Global Arguments zdrop : simpl never.
Global Arguments u8 : simpl never.
Global Arguments u16 : simpl never.
Global Arguments u32 : simpl never.
Global Arguments u64 : simpl never.
Global Arguments i32 : simpl never.
Global Arguments i64 : simpl never.

Definition wf_bytes (l : bytes) : Prop := Forall is_u8 l.

Section strings.
Context {A : Type}.
Implicit Types l k : list A.

Lemma zlen_eq l : zlen l = Z.of_nat (length l).
Proof. done. Qed.

Lemma zlen_nonneg l : 0 <= zlen l.
Proof. unfold zlen. lia. Qed.

Lemma zlen_nil : zlen (@nil A) = 0.
Proof. done. Qed.

Lemma zlen_cons x l : zlen (x :: l) = 1 + zlen l.
Proof. unfold zlen. simpl. lia. Qed.

Lemma zlen_app l k : zlen (l ++ k) = zlen l + zlen k.
Proof. unfold zlen. rewrite length_app. lia. Qed.

Lemma zlen_0_inv l : zlen l = 0 -> l = [].
Proof. destruct l; [done|]. rewrite zlen_cons. pose proof (zlen_nonneg l). lia. Qed.

Lemma ztake_take n l : ztake n l = take (Z.to_nat n) l.
Proof.
  unfold ztake, zlen. destruct (Z.le_ge_cases n (Z.of_nat (length l))).
  - by rewrite Z.min_l.
  - rewrite Z.min_r, Nat2Z.id by done. by rewrite firstn_all, take_ge by lia.
Qed.

Lemma zdrop_drop n l : zdrop n l = drop (Z.to_nat n) l.
Proof.
  unfold zdrop, zlen. destruct (Z.le_ge_cases n (Z.of_nat (length l))).
  - by rewrite Z.min_l.
  - rewrite Z.min_r, Nat2Z.id by done. by rewrite drop_all, drop_ge by lia.
Qed.

Lemma zlen_ztake n l : 0 <= n -> zlen (ztake n l) = Z.min n (zlen l).
Proof. intros. unfold zlen. rewrite ztake_take, length_take. lia. Qed.

Lemma zlen_zdrop n l : 0 <= n -> zlen (zdrop n l) = Z.max 0 (zlen l - n).
Proof. intros. unfold zlen. rewrite zdrop_drop, length_drop. lia. Qed.

Lemma ztake_zdrop n l : ztake n l ++ zdrop n l = l.
Proof. unfold ztake, zdrop. apply take_drop. Qed.

Lemma ztake_all n l : zlen l <= n -> ztake n l = l.
Proof. intros. rewrite ztake_take. apply take_ge. unfold zlen in *. lia. Qed.

Lemma zdrop_all n l : zlen l <= n -> zdrop n l = [].
Proof. intros. rewrite zdrop_drop. apply drop_ge. unfold zlen in *. lia. Qed.

Lemma ztake_0 l : ztake 0 l = [].
Proof. by rewrite ztake_take. Qed.

Lemma zdrop_0 l : zdrop 0 l = l.
Proof. by rewrite zdrop_drop. Qed.

Lemma ztake_app_exact n l k : n = zlen l -> ztake n (l ++ k) = l.
Proof. intros ->. rewrite ztake_take. unfold zlen. by rewrite Nat2Z.id, take_app_length. Qed.

Lemma zdrop_app_exact n l k : n = zlen l -> zdrop n (l ++ k) = k.
Proof. intros ->. rewrite zdrop_drop. unfold zlen. by rewrite Nat2Z.id, drop_app_length. Qed.

Lemma zdrop_zdrop n m l : 0 <= n -> 0 <= m -> zdrop n (zdrop m l) = zdrop (m + n) l.
Proof. intros. rewrite !zdrop_drop, drop_drop. f_equal. lia. Qed.

Lemma lookup_ztake n i l : Z.of_nat i < n -> ztake n l !! i = l !! i.
Proof. intros. rewrite ztake_take. apply lookup_take_lt. lia. Qed.

Lemma lookup_zdrop n i l : 0 <= n -> zdrop n l !! i = l !! (Z.to_nat n + i)%nat.
Proof. intros. by rewrite zdrop_drop, lookup_drop. Qed.
End strings.

(** The shape of the source's [for (x : xs) ret.push_back(f(x))] loops. *)
Lemma fold_push_back {A B} (f : A -> B) (l : list A) : forall acc,
  fold_left (fun acc x => acc ++ [f x]) l acc = acc ++ map f l.
Proof.
  induction l as [|x l IH]; intros acc; simpl; [by rewrite app_nil_r|].
  by rewrite IH, <- app_assoc.
Qed.

#[export] Hint Resolve zlen_nonneg : sponge.
#[export] Hint Rewrite @zlen_cons @zlen_app : lens.

(** [zlen] is only rewritten by its lemmas, never unfolded by unification. *)
Global Opaque zlen.

(** [zlen []] is closed, so it is rewritten at its type, not by unification. *)
Ltac lens_nil :=
  repeat match goal with
  | |- context [zlen (@nil ?A)] => rewrite (@zlen_nil A)
  | H : context [zlen (@nil ?A)] |- _ => rewrite (@zlen_nil A) in H
  end.

(** Puts the lengths in sight into additive form, with their signs. *)
Ltac lens :=
  lens_nil; autorewrite with lens in *; lens_nil;
  repeat match goal with
  | |- context [zlen ?l] =>
      lazymatch goal with H : 0 <= zlen l |- _ => fail | _ => pose proof (zlen_nonneg l) end
  | _ : context [zlen ?l] |- _ =>
      lazymatch goal with H : 0 <= zlen l |- _ => fail | _ => pose proof (zlen_nonneg l) end
  end.

(** The two bytes of a 16-bit field in network order. *)
Definition be16 (v : Z) : bytes := [v / 256; v mod 256].
Global Arguments be16 : simpl never.

Lemma wf_be16 v : is_u16 v -> wf_bytes (be16 v).
Proof. intros. repeat constructor; wsolve. Qed.

(** [static_cast<bool>(fl_b & mask)] *)
Definition flag (fl_b mask : Z) : bool := negb (Z.land fl_b mask =? 0).

(** A one-bit mask tests that bit. *)
Lemma flag_odd z k : 0 <= k -> flag z (2 ^ k) = Z.odd (z / 2 ^ k).
Proof.
  intros Hk. rewrite <- Z.shiftr_div_pow2, <- Z.bit0_odd, Z.shiftr_spec, Z.add_0_l by lia.
  unfold flag. assert (Z.land z (2 ^ k) = if Z.testbit z k then 2 ^ k else 0) as ->.
  { apply Z.bits_inj'. intros i Hi. rewrite Z.land_spec, Z.pow2_bits_eqb by lia.
    destruct (Z.eqb_spec k i) as [->|]; [|by case_match; rewrite ?Z.bits_0, ?Z.pow2_bits_false, andb_false_r].
    case_match; by rewrite ?Z.pow2_bits_true, ?Z.bits_0. }
  case_match; [|done]. pose proof (Z.pow_pos_nonneg 2 k ltac:(lia) Hk).
  by destruct (Z.eqb_spec (2 ^ k) 0); [lia|].
Qed.

(** [std::string::resize] *)
Definition resize (s : bytes) (n : Z) : bytes := ztake n s ++ replicate (Z.to_nat (n - zlen s)) 0.

Lemma zlen_replicate {A} n (x : A) : zlen (replicate n x) = Z.of_nat n.
Proof. by rewrite zlen_eq, length_replicate. Qed.

Lemma resize_grow s n k : zlen s = k -> k <= n -> resize s n = s ++ replicate (Z.to_nat (n - k)) 0.
Proof. intros <- Hn. unfold resize. by rewrite ztake_all. Qed.

(** Decides the integer comparisons of a goal, pruning the cases [lia] refutes. *)
Ltac ztests :=
  repeat (match goal with
  | |- context [?a <? ?b] => destruct (Z.ltb_spec a b); try lia
  | |- context [?a <=? ?b] => destruct (Z.leb_spec a b); try lia
  | |- context [?a =? ?b] => destruct (Z.eqb_spec a b); try lia
  end; cbn [andb orb negb]).

(** ** Outcomes

    A C++ function that may throw returns an [outcome]; the exceptions are
    the ones the source names. *)

Inductive exn :=
  | out_of_range
  | length_error
  | runtime_error
  | unix_error (code : Z)
  | use_after_free.

Inductive outcome (A : Type) :=
  | Ret (a : A)
  | Throw (e : exn).
Arguments Ret {A} a.
Arguments Throw {A} e.

(** What has become of a program after the steps it was given. *)
Definition EXIT_SUCCESS : Z := 0.
Definition EXIT_FAILURE : Z := 1.

Inductive finish := Running | Exited (code : Z) | Terminated.

Global Instance exn_eq_dec : EqDecision exn.
Proof. solve_decision. Defined.

Definition obind {A B} (m : outcome A) (f : A -> outcome B) : outcome B :=
  match m with Ret a => f a | Throw e => Throw e end.

Notation "'try:' x <- m ; k" := (obind m (fun x => k))
  (at level 100, x pattern, m at next level, k at level 200, right associativity) : sponge_scope.
Global Open Scope sponge_scope.

Lemma obind_Ret {A B} (m : outcome A) (f : A -> outcome B) b :
  obind m f = Ret b <-> exists a, m = Ret a /\ f a = Ret b.
Proof. destruct m; naive_solver. Qed.
