(* ===== verification/WrappingIntegers.v ===== *)
(** * WrappingIntegers: 32-bit sequence numbers

    Models [src/libsponge/wrapping_integers.hh] and [.cc]: the class
    [WrappingInt32], its operators, and the conversions [wrap] and [unwrap]
    between 32-bit sequence numbers and 64-bit absolute sequence numbers.
    The theorems state that [wrap] is addition modulo 2^32 and that [unwrap]
    returns the preimage of its argument closest to the checkpoint, which
    makes the two inverse to each other within half the 32-bit space. *)

From S2P Require Import Prelude.

Record WrappingInt32 := mkW32 { raw_value : Z }.

Global Instance WrappingInt32_eq_dec : EqDecision WrappingInt32.
Proof. solve_decision. Defined.

(** The stored value is a [uint32_t]. *)
Definition wf (a : WrappingInt32) : Prop := is_u32 (raw_value a).

(** [explicit WrappingInt32(uint32_t)]: the argument is converted. *)
Definition of_uint (v : Z) : WrappingInt32 := mkW32 (u32 v).

(** [int32_t operator-(WrappingInt32, WrappingInt32)] *)
Definition offset (a b : WrappingInt32) : Z := i32 (u32 (raw_value a - raw_value b)).

(** [operator==] and [operator!=] *)
Definition eqb (a b : WrappingInt32) : bool := raw_value a =? raw_value b.
Definition neqb (a b : WrappingInt32) : bool := negb (eqb a b).

(** [WrappingInt32 operator+(WrappingInt32, uint32_t)] *)
Definition add (a : WrappingInt32) (b : Z) : WrappingInt32 := of_uint (raw_value a + b).

(** [WrappingInt32 operator-(WrappingInt32, uint32_t)] is [a + -b]. *)
Definition sub (a : WrappingInt32) (b : Z) : WrappingInt32 := add a (u32 (- b)).

Definition wrap (n : Z) (isn : WrappingInt32) : WrappingInt32 :=
  of_uint (u64 (Z.shiftr (u64 (Z.shiftl n 32)) 32 + raw_value isn)).

(** [std::abs(int64_t)] *)
Definition abs64 (z : Z) : Z := if z <? 0 then i64 (- z) else z.

Definition unwrap (n isn : WrappingInt32) (checkpoint : Z) : Z :=
  let backPart := u32 (raw_value n - raw_value isn) in
  let prePart := Z.land checkpoint 0xFFFFFFFF00000000 in
  let ans := u64 (prePart + backPart) in
  if abs64 (i64 (u64 (ans + 4294967296 - checkpoint))) <? abs64 (i64 (u64 (ans - checkpoint)))
  then u64 (ans + 4294967296)
  else if (4294967296 <=? ans) &&
          (abs64 (i64 (u64 (ans - 4294967296 - checkpoint))) <? abs64 (i64 (u64 (ans - checkpoint))))
  then u64 (ans - 4294967296)
  else ans.

(** ** Lemmas *)
Lemma wf_of_uint v : wf (of_uint v).
Proof. unfold wf, of_uint. apply u32_range. Qed.

Lemma W32_ext (a b : WrappingInt32) : raw_value a = raw_value b -> a = b.
Proof. destruct a, b; simpl. by intros ->. Qed.

(** Shifting left then right by 32 keeps the low 32 bits. *)
Lemma low32 n : Z.shiftr (u64 (Z.shiftl n 32)) 32 = u32 n.
Proof.
  rewrite Z.shiftr_div_pow2, Z.shiftl_mul_pow2 by lia.
  change (2 ^ 32) with 4294967296. wsolve.
Qed.

Lemma wrap_raw n isn : raw_value (wrap n isn) = u32 (n + raw_value isn).
Proof. unfold wrap, of_uint; simpl. by rewrite low32, u32_u64, u32_add_l. Qed.

Lemma wf_wrap n isn : wf (wrap n isn).
Proof. apply wf_of_uint. Qed.

Lemma wrap_wrap_add n k isn : add (wrap n isn) k = wrap (n + k) isn.
Proof.
  apply W32_ext. unfold add, of_uint. cbn [raw_value].
  rewrite !wrap_raw, u32_add_l. f_equal. lia.
Qed.

(** The mask of [unwrap] clears the low 32 bits. *)
Lemma high32 c : is_u64 c -> Z.land c 0xFFFFFFFF00000000 = c - u32 c.
Proof.
  intros Hc.
  assert (Z.land c 0xFFFFFFFF00000000 = Z.shiftl (Z.shiftr c 32) 32) as ->.
  { apply Z.bits_inj'. intros i Hi.
    change 0xFFFFFFFF00000000 with (Z.shiftl (Z.ones 32) 32).
    rewrite Z.land_spec, !Z.shiftl_spec by done.
    destruct (Z.lt_ge_cases i 32).
    - by rewrite !(Z.testbit_neg_r _ (i - 32)), andb_false_r by lia.
    - rewrite Z.shiftr_spec by lia. replace (i - 32 + 32) with i by lia.
      destruct (Z.lt_ge_cases i 64).
      + by rewrite Z.ones_spec_low, andb_true_r by lia.
      + rewrite Z.ones_spec_high, andb_false_r by lia. symmetry.
        apply (Z.bits_above_log2 c i); [words; lia|].
        destruct (decide (c = 0)) as [->|]; [simpl; lia|].
        apply Z.log2_lt_pow2; [words; lia|].
        apply Z.lt_le_trans with (2 ^ 64); [words; lia|].
        apply Z.pow_le_mono_r; lia. }
  rewrite Z.shiftl_mul_pow2, Z.shiftr_div_pow2 by lia.
  change (2 ^ 32) with 4294967296. wsolve.
Qed.

Lemma abs64_small z : -4611686018427387904 < z < 4611686018427387904 -> abs64 (i64 (u64 z)) = Z.abs z.
Proof.
  intros. assert (i64 (u64 z) = z) as -> by wsolve.
  unfold abs64. case_match; [|lia]. assert (i64 (- z) = - z) by wsolve. lia.
Qed.

(** [unwrap] on absolute terms: choose among the three candidates around the
    checkpoint with exact integer distances. *)
Lemma unwrap_eq n isn c :
  wf n -> wf isn -> 0 <= c < 18446744069414584320 ->
  let ans := c - u32 c + u32 (raw_value n - raw_value isn) in
  unwrap n isn c =
    if Z.abs (ans + 4294967296 - c) <? Z.abs (ans - c) then ans + 4294967296
    else if (4294967296 <=? ans) && (Z.abs (ans - 4294967296 - c) <? Z.abs (ans - c))
    then ans - 4294967296 else ans.
Proof.
  intros Hn Hi Hc ans. unfold unwrap.
  rewrite high32 by (words; lia).
  pose proof (u32_range (raw_value n - raw_value isn)) as Hb.
  set (b := u32 (raw_value n - raw_value isn)) in *.
  assert (0 <= c - u32 c <= 18446744065119617024 /\ c - u32 c <= c < c - u32 c + 4294967296) as [Hp Hp'] by wsolve.
  assert (u64 (c - u32 c + b) = ans) as ->.
  { subst ans. apply u64_id. words; lia. }
  rewrite !abs64_small by (subst ans; words; lia).
  rewrite (u64_id (ans + 4294967296)) by (subst ans; words; lia).
  repeat case_match; try done.
  rewrite u64_id; [done|]. subst ans. words. lia.
Qed.

(** The preimages of [n] under [wrap _ isn] are 2^32 apart. *)
Lemma wrap_preimage x n isn c :
  wf n -> wf isn ->
  wrap x isn = n <->
  exists k, x = c - u32 c + u32 (raw_value n - raw_value isn) + k * 4294967296.
Proof.
  intros Hn Hi. split.
  - intros Hw. apply (f_equal raw_value) in Hw. rewrite wrap_raw in Hw.
    exists ((x - (c - u32 c + u32 (raw_value n - raw_value isn))) / 4294967296).
    unfold wf in *. wsolve.
  - intros [k ->]. apply W32_ext. rewrite wrap_raw. unfold wf in *. wsolve.
Qed.

(** [unwrap] inverts [wrap] near the checkpoint. *)
Lemma unwrap_near n isn checkpoint :
  wf isn -> 0 <= n -> 0 <= checkpoint < 18446744069414584320 ->
  Z.abs (n - checkpoint) < 2147483648 ->
  unwrap (wrap n isn) isn checkpoint = n.
Proof.
  intros Hi Hn Hc Hd.
  assert (Hp : exists k, n = checkpoint - u32 checkpoint
    + u32 (raw_value (wrap n isn) - raw_value isn) + k * 4294967296)
    by (apply wrap_preimage; auto using wf_wrap).
  rewrite unwrap_eq by auto using wf_wrap.
  destruct Hp as [k Hk].
  pose proof (u32_range checkpoint) as Hl.
  pose proof (u32_range (raw_value (wrap n isn) - raw_value isn)) as Hb.
  generalize dependent (u32 (raw_value (wrap n isn) - raw_value isn)). intros b Hk Hb.
  generalize dependent (u32 checkpoint). intros l Hk Hl. words.
  assert (k <= -2 \/ k = -1 \/ k = 0 \/ k = 1 \/ 2 <= k) as Hk' by lia.
  repeat case_match; destruct_or! Hk'; subst; lia.
Qed.

Lemma unwrap_bound n isn c :
  wf n -> wf isn -> 0 <= c < 18446744069414584320 -> 0 <= unwrap n isn c < c + 8589934592.
Proof.
  intros Hn Hi Hc. rewrite unwrap_eq by done. pose proof (u32_range c) as Hl.
  pose proof (u32_range (raw_value n - raw_value isn)) as Hb.
  assert (0 <= c - u32 c) by wsolve. words. repeat case_match; lia.
Qed.

(** ** Properties *)

(** C32 [unwrap] returns the absolute sequence number that wraps to [n] and is
    closest to the checkpoint: the result is a 64-bit number, wraps to [n],
    and no other preimage of [n] is nearer. The checkpoint may be anything
    below the last 2^32 values of the 64-bit space. *)
Theorem unwrap_closest n isn checkpoint :
  wf n -> wf isn -> 0 <= checkpoint < 18446744069414584320 ->
  let r := unwrap n isn checkpoint in
  is_u64 r /\ wrap r isn = n /\
  forall x, 0 <= x -> wrap x isn = n -> Z.abs (r - checkpoint) <= Z.abs (x - checkpoint).
Proof.
  intros Hn Hi Hc r. subst r. rewrite unwrap_eq by done.
  pose proof (u32_range checkpoint) as Hl.
  pose proof (u32_range (raw_value n - raw_value isn)) as Hb.
  assert (checkpoint - u32 checkpoint <= 18446744065119617024) by wsolve.
  assert (0 <= checkpoint - u32 checkpoint) by wsolve.
  split_and!.
  - words. repeat case_match; lia.
  - apply (wrap_preimage _ n isn checkpoint); [done..|].
    repeat case_match; [exists 1|exists (-1)|exists 0]; lia.
  - intros x Hx Hw. apply (wrap_preimage _ n isn checkpoint) in Hw as [k ->]; [|done..].
    generalize dependent (u32 (raw_value n - raw_value isn)). intros b Hb Hx.
    generalize dependent (u32 checkpoint). intros l Hl ? ? Hx. words.
    assert (k <= -2 \/ k = -1 \/ k = 0 \/ k = 1 \/ 2 <= k) as Hk by lia.
    repeat case_match; destruct_or! Hk; subst; lia.
Qed.

(** [unwrap] inverts [wrap] for every absolute sequence number within 2^31
    of the checkpoint, and follows the arithmetic of sequence numbers: [k]
    past the wrapped [n] unwraps to [n + k]. *)
Theorem unwrap_wrap n k isn checkpoint :
  wf isn -> 0 <= n + k -> 0 <= checkpoint < 18446744069414584320 ->
  Z.abs (n + k - checkpoint) < 2147483648 ->
  unwrap (add (wrap n isn) k) isn checkpoint = n + k.
Proof. intros. rewrite wrap_wrap_add. by apply unwrap_near. Qed.

Lemma unwrap_closest_witness :
  let n := mkW32 17 in let isn := mkW32 4294967295 in
  unwrap n isn 4294967296 = 4294967314 /\ wrap 4294967314 isn = n.
Proof.
  intros n isn.
  destruct (unwrap_closest n isn 4294967296) as (_ & H & _); [vm_compute; split; congruence..|].
  split; [reflexivity|exact H].
Defined.

Lemma unwrap_wrap_witness :
  unwrap (add (wrap 4294967300 (mkW32 7)) 1) (mkW32 7) 4294967290 = 4294967301.
Proof. apply (unwrap_wrap 4294967300 1 (mkW32 7) 4294967290); vm_compute; try split; congruence. Defined.
