(* ===== verification/ByteStream.v ===== *)
(** * ByteStream: the in-memory flow-controlled byte stream

    Models [src/libsponge/byte_stream.hh] and [.cc].  The state is the record
    of the class members; counters are [size_t] and wrap at 2^64.  The
    theorems relate the implementation to a FIFO log: whatever is read, peeked
    or popped is exactly what was accepted, in order, and the buffer never
    exceeds the capacity. *)

From S2P Require Import Prelude.

Record ByteStream := mkByteStream {
  _buf : bytes;
  _capacity : Z;
  _write_count : Z;
  _read_count : Z;
  _is_eof : bool;
  _error : bool
}.

Definition new (capacity : Z) : ByteStream := mkByteStream [] capacity 0 0 false false.

Definition buffer_size (s : ByteStream) : Z := zlen (_buf s).
Definition buffer_empty (s : ByteStream) : bool := zlen (_buf s) =? 0.
Definition input_ended (s : ByteStream) : bool := _is_eof s.
Definition error (s : ByteStream) : bool := _error s.
Definition eof (s : ByteStream) : bool := input_ended s && buffer_empty s.
Definition bytes_written (s : ByteStream) : Z := _write_count s.
Definition bytes_read (s : ByteStream) : Z := _read_count s.
Definition remaining_capacity (s : ByteStream) : Z := u64 (_capacity s - zlen (_buf s)).

(** Returns the new stream and the number of bytes accepted. *)
Definition write (s : ByteStream) (data : bytes) : ByteStream * Z :=
  let len := zlen data in
  let len := if u64 (_capacity s - zlen (_buf s)) <? len
             then u64 (_capacity s - zlen (_buf s)) else len in
  (mkByteStream (_buf s ++ ztake len data) (_capacity s) (u64 (_write_count s + len))
     (_read_count s) (_is_eof s) (_error s), len).

Definition peek_output (s : ByteStream) (len : Z) : bytes := ztake len (_buf s).

Definition pop_output (s : ByteStream) (len : Z) : ByteStream :=
  mkByteStream (zdrop len (_buf s)) (_capacity s) (_write_count s)
    (u64 (_read_count s + len)) (_is_eof s) (_error s).

Definition read (s : ByteStream) (len : Z) : ByteStream * bytes :=
  let read_len := if zlen (_buf s) <? len then zlen (_buf s) else len in
  let ans := peek_output s read_len in
  (pop_output s read_len, ans).

Definition end_input (s : ByteStream) : ByteStream :=
  mkByteStream (_buf s) (_capacity s) (_write_count s) (_read_count s) true (_error s).

Definition set_error (s : ByteStream) : ByteStream :=
  mkByteStream (_buf s) (_capacity s) (_write_count s) (_read_count s) (_is_eof s) true.

(** ** Invariant

    The buffer fits the capacity, and the counters differ by the number of
    buffered bytes (modulo 2^64). *)

Record inv (s : ByteStream) : Prop := mkInv {
  inv_capacity : is_u64 (_capacity s);
  inv_fits : zlen (_buf s) <= _capacity s;
  inv_written : is_u64 (_write_count s);
  inv_read : is_u64 (_read_count s);
  inv_counts : _write_count s = u64 (_read_count s + zlen (_buf s))
}.

Lemma stream_inv_new cap : is_u64 cap -> inv (new cap).
Proof. intros. constructor; cbn -[u64]; lens_nil; wsolve. Qed.

Lemma remaining_capacity_eq s :
  inv s -> remaining_capacity s = _capacity s - zlen (_buf s).
Proof. intros []. unfold remaining_capacity. apply u64_id. lens. words. lia. Qed.

Lemma room_nonneg s : inv s -> 0 <= remaining_capacity s.
Proof. intros Hi. rewrite remaining_capacity_eq by done. destruct Hi. lia. Qed.

(** The number of bytes [write] accepts. *)
Lemma write_accepted s data :
  inv s -> snd (write s data) = Z.min (zlen data) (remaining_capacity s).
Proof.
  intros Hi. unfold write; simpl. change (u64 _) with (remaining_capacity s).
  case_match; lia.
Qed.

Lemma write_buf s data :
  inv s -> _buf (fst (write s data)) = _buf s ++ ztake (remaining_capacity s) data.
Proof.
  intros Hi. unfold write; simpl. change (u64 _) with (remaining_capacity s).
  case_match; [done|]. by rewrite !(ztake_all _ data) by lia.
Qed.

Lemma inv_write s data : inv s -> inv (fst (write s data)).
Proof.
  intros Hi. pose proof (remaining_capacity_eq s Hi) as Hr.
  pose proof (write_accepted s data Hi) as Ha. pose proof (write_buf s data Hi) as Hb.
  destruct Hi as [? ? ? ? Hc]. unfold write in *; simpl in *.
  set (len := if _ <? _ then _ else _) in *.
  constructor; simpl; auto using u64_range; rewrite zlen_app, zlen_ztake by (lens; lia).
  - lens; lia.
  - rewrite Hc. assert (0 <= len <= zlen data) by (lens; lia).
    rewrite Z.min_l by lia. wsolve.
Qed.

Lemma write_bounds s data : inv s -> 0 <= snd (write s data) <= zlen data.
Proof.
  intros Hi. rewrite write_accepted, remaining_capacity_eq by done. destruct Hi. lens. lia.
Qed.

(** Everything a caller of [write] relies on. *)
Lemma write_spec s data :
  inv s ->
  let '(s', n) := write s data in
  inv s' /\ n = Z.min (zlen data) (remaining_capacity s) /\
  _buf s' = _buf s ++ ztake n data /\
  remaining_capacity s' = remaining_capacity s - n /\
  bytes_written s' = u64 (bytes_written s + n) /\
  input_ended s' = input_ended s.
Proof.
  intros Hi. pose proof (inv_write s data Hi) as Hi'. pose proof (write_accepted s data Hi) as Ha.
  pose proof (write_bounds s data Hi) as Hb.
  pose proof (remaining_capacity_eq _ Hi) as Hr. pose proof (remaining_capacity_eq _ Hi') as Hr'.
  destruct (write s data) as [s' n] eqn:E. unfold write in E. injection E as <- <-.
  simpl in *. split_and!; try done.
  rewrite Hr', Hr, zlen_app, zlen_ztake by apply Hb. lia.
Qed.

Lemma inv_pop_output s len :
  inv s -> 0 <= len <= buffer_size s -> inv (pop_output s len).
Proof.
  unfold buffer_size. intros [? ? ? ? Hc] ?.
  constructor; simpl; auto using u64_range; rewrite ?zlen_zdrop by lia; [lia|].
  rewrite Hc. wsolve.
Qed.

Lemma read_pop s len :
  0 <= len -> read s len = (pop_output s (Z.min len (buffer_size s)), ztake len (_buf s)).
Proof.
  unfold read, peek_output, buffer_size. intros. case_match.
  - rewrite Z.min_r by lia. by rewrite !ztake_all by lia.
  - by rewrite Z.min_l by lia.
Qed.

Lemma inv_read_output s len : inv s -> 0 <= len -> inv (fst (read s len)).
Proof.
  intros. rewrite read_pop by done. apply inv_pop_output; [done|]. unfold buffer_size. lens. lia.
Qed.

Lemma inv_end_input s : inv s -> inv (end_input s).
Proof. by intros []. Qed.

Lemma inv_set_error s : inv s -> inv (set_error s).
Proof. by intros []. Qed.

#[export] Hint Resolve stream_inv_new inv_write inv_end_input inv_set_error inv_read_output : sponge.

(** ** Runs

    The public interface as operations; [step] returns the bytes the call
    accepted and the bytes it removed on the output side. *)

Inductive op :=
  | Write (data : bytes)
  | Read (len : Z)
  | Pop (len : Z)
  | EndInput
  | SetError.

Record io := mkIO { accepted : bytes; removed : bytes }.

Definition step (o : op) (s : ByteStream) : ByteStream * io :=
  match o with
  | Write data => let '(s', n) := write s data in (s', mkIO (ztake n data) [])
  | Read len => let '(s', out) := read s len in (s', mkIO [] out)
  | Pop len => (pop_output s len, mkIO [] (peek_output s len))
  | EndInput => (end_input s, mkIO [] [])
  | SetError => (set_error s, mkIO [] [])
  end.

Fixpoint run (ops : list op) (s : ByteStream) : ByteStream * io :=
  match ops with
  | [] => (s, mkIO [] [])
  | o :: ops =>
      let '(s', e) := step o s in
      let '(s'', e') := run ops s' in
      (s'', mkIO (accepted e ++ accepted e') (removed e ++ removed e'))
  end.

(** The callers' obligation: lengths are unsigned and a pop removes no more
    than is buffered. *)
Definition op_ok (o : op) (s : ByteStream) : Prop :=
  match o with
  | Read len => 0 <= len
  | Pop len => 0 <= len <= buffer_size s
  | _ => True
  end.

Fixpoint ops_ok (ops : list op) (s : ByteStream) : Prop :=
  match ops with
  | [] => True
  | o :: ops => op_ok o s /\ ops_ok ops (fst (step o s))
  end.

(** One operation: what was buffered plus what was accepted is what was
    removed plus what is now buffered; the counters advance accordingly. *)
Lemma step_fifo o s :
  inv s -> op_ok o s ->
  let '(s', e) := step o s in
  inv s' /\ _capacity s' = _capacity s /\
  _buf s ++ accepted e = removed e ++ _buf s' /\
  _write_count s' = u64 (_write_count s + zlen (accepted e)) /\
  _read_count s' = u64 (_read_count s + zlen (removed e)).
Proof.
  intros Hi Ho. destruct o as [data|len|len| |]; simpl in Ho.
  - pose proof (inv_write s data Hi) as Hi'. pose proof (write_bounds s data Hi) as Ha.
    cbn -[u64 ztake] in *. split_and!; try done.
    + rewrite zlen_ztake, Z.min_l by apply Ha. done.
    + lens_nil; rewrite Z.add_0_r. symmetry. apply u64_id, Hi.
  - pose proof (inv_read_output s len Hi Ho). cbn [step]. rewrite read_pop in * by done. simpl in *.
    split_and!; try done; rewrite ?app_nil_r.
    + unfold buffer_size. rewrite zdrop_drop, ztake_take, zlen_eq.
      destruct (Z.le_ge_cases len (Z.of_nat (length (_buf s)))).
      * by rewrite Z.min_l, take_drop.
      * by rewrite Z.min_r, Nat2Z.id, drop_all, take_ge, app_nil_r by lia.
    + lens_nil; rewrite Z.add_0_r. symmetry. apply u64_id, Hi.
    + by rewrite zlen_ztake.
  - pose proof (inv_pop_output s len Hi Ho). unfold buffer_size in *. simpl. unfold peek_output.
    split_and!; try done; rewrite ?app_nil_r.
    + by rewrite ztake_zdrop.
    + lens_nil; rewrite Z.add_0_r. symmetry. apply u64_id, Hi.
    + rewrite zlen_ztake by lia. f_equal. lia.
  - simpl. lens_nil; rewrite !app_nil_r, !Z.add_0_r. destruct Hi.
    split_and!; try done; symmetry; by apply u64_id.
  - simpl. lens_nil; rewrite !app_nil_r, !Z.add_0_r. destruct Hi.
    split_and!; try done; symmetry; by apply u64_id.
Qed.

Lemma run_fifo ops : forall s,
  inv s -> ops_ok ops s ->
  let '(s', e) := run ops s in
  inv s' /\ _capacity s' = _capacity s /\
  _buf s ++ accepted e = removed e ++ _buf s' /\
  _write_count s' = u64 (_write_count s + zlen (accepted e)) /\
  _read_count s' = u64 (_read_count s + zlen (removed e)).
Proof.
  induction ops as [|o ops IH]; intros s Hi Hok; cbn [run].
  - simpl. lens_nil; rewrite app_nil_r, !Z.add_0_r. destruct Hi.
    split_and!; try done; symmetry; by apply u64_id.
  - destruct Hok as [Ho Hok]. pose proof (step_fifo o s Hi Ho) as Hs.
    destruct (step o s) as [s' e]. simpl in Hok.
    destruct Hs as (Hi' & Hc & Hb & Hw & Hr).
    specialize (IH s' Hi' Hok). destruct (run ops s') as [s'' e']. simpl.
    destruct IH as (Hi'' & Hc' & Hb' & Hw' & Hr'). split_and!; try congruence.
    + by rewrite app_assoc, Hb, <- app_assoc, Hb', app_assoc.
    + rewrite Hw', Hw, zlen_app. wsolve.
    + rewrite Hr', Hr, zlen_app. wsolve.
Qed.

(** ** Properties *)

(** C33 A stream constructed with [capacity] is a bounded FIFO: after any run
    of calls in which lengths are unsigned and pops stay inside the buffer,
    the bytes accepted by [write] are the bytes removed by [read]/[pop_output]
    followed by the buffered ones, the buffer holds at most [capacity] bytes,
    and [bytes_written]/[bytes_read] count (modulo 2^64) the bytes accepted
    and removed. *)
Theorem stream_is_fifo capacity ops :
  is_u64 capacity -> ops_ok ops (new capacity) ->
  let '(s, e) := run ops (new capacity) in
  accepted e = removed e ++ _buf s /\
  buffer_size s <= capacity /\
  bytes_written s = u64 (zlen (accepted e)) /\
  bytes_read s = u64 (zlen (removed e)).
Proof.
  intros Hc Hok. pose proof (run_fifo ops (new capacity) (stream_inv_new _ Hc) Hok) as Hr.
  destruct (run ops (new capacity)) as [s e]. destruct Hr as (Hi & Hcap & Hb & Hw & Hr).
  simpl in Hb, Hcap, Hw, Hr. split_and!; try done.
  unfold buffer_size. rewrite <- Hcap. apply Hi.
Qed.

(** [write] accepts exactly as many bytes as fit and reports that number;
    the accepted bytes are the prefix of [data] appended to the buffer, and
    the capacity left shrinks by the same amount. *)
Theorem write_accepts_what_fits s data :
  inv s ->
  let '(s', n) := write s data in
  inv s' /\ n = Z.min (zlen data) (remaining_capacity s) /\
  _buf s' = _buf s ++ ztake n data /\
  remaining_capacity s' = remaining_capacity s - n /\
  bytes_written s' = u64 (bytes_written s + n) /\
  input_ended s' = input_ended s.
Proof. apply write_spec. Qed.

(** Once the writer has ended the input, a [read] of at least the buffered
    amount returns exactly the buffered bytes, reaches [eof], and leaves the
    two counters equal. *)
Theorem eof_after_drain s len :
  inv s -> input_ended s = true -> buffer_size s <= len ->
  let '(s', out) := read s len in
  eof s' = true /\ out = _buf s /\ bytes_read s' = bytes_written s'.
Proof.
  intros Hi He Hl. assert (0 <= len) by (unfold buffer_size in Hl; lens; lia).
  rewrite read_pop by done. unfold buffer_size in *.
  unfold eof, buffer_empty, input_ended, bytes_read, bytes_written in *. simpl.
  rewrite He, Z.min_r, zdrop_all, ztake_all by lia. lens_nil. split_and!; try done.
  symmetry. apply Hi.
Qed.

(** [pop_output] does not clamp its argument: popping more bytes than are
    buffered empties the buffer and puts [bytes_read] ahead of
    [bytes_written] by the excess, although [bytes_read] is documented as the
    total number of bytes popped. *)
Theorem pop_output_overcounts s len :
  inv s -> buffer_size s < len -> bytes_read s + len < 18446744073709551616 ->
  let s' := pop_output s len in
  _buf s' = [] /\ bytes_read s' - bytes_written s' = len - buffer_size s.
Proof.
  unfold buffer_size, bytes_read, bytes_written. intros [? ? ? ? Hc] Hl Hr. simpl. split.
  - apply zdrop_all. lia.
  - rewrite Hc. lens. words. rewrite !Z.mod_small by lia. lia.
Qed.

(** Witnesses *)
Lemma stream_is_fifo_witness :
  let ops := [Write [97; 98; 99; 100]; Read 2; Write [101; 102]; EndInput; Pop 1] in
  ops_ok ops (new 4) /\
  let '(s, e) := run ops (new 4) in accepted e = removed e ++ _buf s /\ _buf s = [100; 101; 102].
Proof.
  intros ops. assert (ops_ok ops (new 4)) as Hok by (vm_compute; intuition congruence).
  split; [exact Hok|].
  assert (is_u64 4) as H4 by (vm_compute; split; congruence).
  pose proof (stream_is_fifo 4 ops H4 Hok) as H. destruct (run ops (new 4)) as [s e] eqn:E.
  vm_compute in E. injection E as <- <-. split; [apply H|reflexivity].
Defined.

Lemma write_accepts_what_fits_witness :
  let s := fst (write (new 5) [1; 2; 3]) in
  write s [4; 5; 6] = (mkByteStream [1; 2; 3; 4; 5] 5 5 0 false false, 2) /\
  remaining_capacity (fst (write s [4; 5; 6])) = remaining_capacity s - 2.
Proof.
  assert (inv (fst (write (new 5) [1; 2; 3]))) as Hi.
  { apply inv_write, stream_inv_new. vm_compute; split; congruence. }
  pose proof (write_accepts_what_fits _ [4; 5; 6] Hi) as H.
  split; [reflexivity|]. exact (proj1 (proj2 (proj2 (proj2 H)))).
Defined.

Lemma eof_after_drain_witness :
  let s := end_input (fst (write (new 5) [1; 2; 3])) in
  eof (fst (read s 10)) = true /\ snd (read s 10) = [1; 2; 3].
Proof.
  assert (inv (end_input (fst (write (new 5) [1; 2; 3])))) as Hi.
  { apply inv_end_input, inv_write, stream_inv_new. vm_compute; split; congruence. }
  pose proof (eof_after_drain _ 10 Hi) as H. split; apply H; [reflexivity|vm_compute; congruence..].
Defined.

Lemma pop_output_overcounts_witness :
  let s := pop_output (fst (write (new 5) [1; 2; 3])) 5 in
  bytes_read s = 5 /\ bytes_written s = 3 /\ bytes_read s - bytes_written s = 2.
Proof.
  assert (inv (fst (write (new 5) [1; 2; 3]))) as Hi.
  { apply inv_write, stream_inv_new. vm_compute; split; congruence. }
  pose proof (pop_output_overcounts _ 5 Hi) as H. split; [reflexivity|]. split; [reflexivity|].
  apply H; vm_compute; congruence.
Defined.
