(* ===== verification/StreamReassembler.v ===== *)
(** * StreamReassembler: from excerpts to an in-order stream

    Models [src/libsponge/stream_reassembler.hh] and [.cc].  The state is the
    record of the class members; [myMap] is a finite map from stream indices
    to one-byte strings, as in the source.  Indices are [size_t] and wrap at
    2^64; the theorems that speak of positions in a stream assume that the
    excerpts end below 2^64.

    The theorems: [push_substring] terminates; the reassembled bytes are the
    prefix of the stream whose excerpts were pushed, whatever their order,
    overlap or duplication; bytes that fit the window are never lost and
    everything contiguous is handed over; and what the code makes of the
    end-of-stream flag and of the capacity, including where it departs from
    its documentation. *)

From S2P Require Import Prelude ByteStream.

Record StreamReassembler := mkSR {
  _output : ByteStream;
  _capacity : Z;
  nextIndex : Z;
  bytesUnAssembled : Z;
  eof_flag : bool;
  myMap : gmap Z bytes
}.

Definition new (capacity : Z) : StreamReassembler :=
  mkSR (ByteStream.new capacity) capacity 0 0 false ∅.

Definition stream_out (r : StreamReassembler) : ByteStream := _output r.
Definition unassembled_bytes (r : StreamReassembler) : Z := bytesUnAssembled r.
Definition empty (r : StreamReassembler) : bool := bytesUnAssembled r =? 0.

(** The mutable accessor [stream_out()]: the caller replaces the stream. *)
Definition set_output (r : StreamReassembler) (o : ByteStream) : StreamReassembler :=
  mkSR o (_capacity r) (nextIndex r) (bytesUnAssembled r) (eof_flag r) (myMap r).

Definition set_eof_flag (r : StreamReassembler) : StreamReassembler :=
  mkSR (_output r) (_capacity r) (nextIndex r) (bytesUnAssembled r) true (myMap r).

(** [myMap.count(k) != 0] *)
Definition stored (r : StreamReassembler) (k : Z) : bool := bool_decide (is_Some (myMap r !! k)).

(** Body of the loop of the [index > nextIndex] case; [chunk] is the part of
    [data] from position [i] to [maxLen], [k] is [index + i]. *)
Fixpoint store_loop (chunk : bytes) (k : Z) (r : StreamReassembler) : StreamReassembler :=
  match chunk with
  | [] => r
  | b :: chunk =>
      let r' :=
        if stored r (u64 k) then r
        else mkSR (_output r) (_capacity r) (nextIndex r) (u64 (bytesUnAssembled r + 1))
               (eof_flag r) (<[u64 k := [b]]> (myMap r)) in
      store_loop chunk (k + 1) r'
  end.

(** Body of the loop of the [index == nextIndex] case. *)
Fixpoint write_loop (chunk : bytes) (k : Z) (r : StreamReassembler) : StreamReassembler :=
  match chunk with
  | [] => r
  | b :: chunk =>
      let o' := fst (ByteStream.write (_output r) [b]) in
      let r1 := mkSR o' (_capacity r) (u64 (nextIndex r + 1)) (bytesUnAssembled r)
                  (eof_flag r) (myMap r) in
      let r' :=
        if stored r1 (u64 k)
        then mkSR o' (_capacity r1) (nextIndex r1) (u64 (bytesUnAssembled r1 - 1))
               (eof_flag r1) (delete (u64 k) (myMap r1))
        else r1 in
      write_loop chunk (k + 1) r'
  end.

(** [while (myMap.count(nextIndex) != 0)]; each iteration removes an entry, so
    the size of the map is enough fuel ([flush_loop_exit]). *)
Fixpoint flush_loop (fuel : nat) (r : StreamReassembler) : StreamReassembler :=
  match fuel with
  | O => r
  | S fuel =>
      match myMap r !! nextIndex r with
      | None => r
      | Some s =>
          if 0 <? remaining_capacity (_output r) then
            flush_loop fuel
              (mkSR (fst (ByteStream.write (_output r) s)) (_capacity r)
                 (u64 (nextIndex r + 1)) (u64 (bytesUnAssembled r - 1)) (eof_flag r)
                 (delete (nextIndex r) (myMap r)))
          else r
      end
  end.

Definition flush (r : StreamReassembler) : StreamReassembler :=
  flush_loop (size (myMap r)) r.

(** [push_substring] calls itself on the part of [data] past [nextIndex]; the
    result is [None] when the fuel runs out. *)
Fixpoint push_substring_fuel (fuel : nat) (r : StreamReassembler)
    (data : bytes) (index : Z) (eof : bool) : option StreamReassembler :=
  match fuel with
  | O => None
  | S fuel =>
      if (nextIndex r <? index) && (_capacity r <=? u64 (index - nextIndex r)) then Some r
      else if u64 (index + zlen data) <? nextIndex r then Some r
      else
        let r :=
          if eof && (u64 (zlen data - nextIndex r + index) <=? _capacity r)
          then set_eof_flag r else r in
        let maxLen := Z.min (zlen data) (remaining_capacity (stream_out r)) in
        if index <? nextIndex r then
          if nextIndex r <? u64 (index + zlen data)
          then push_substring_fuel fuel r (zdrop (u64 (nextIndex r - index)) data) (nextIndex r) eof
          else Some r
        else if nextIndex r <? index then
          Some (store_loop (ztake maxLen data) index r)
        else
          let r := write_loop (ztake maxLen data) index r in
          let r := flush r in
          if eof_flag r && empty r
          then Some (set_output r (end_input (stream_out r)))
          else Some r
  end.

(** The recursion is at most one call deep ([push_substring_total]). *)
Definition push_substring (r : StreamReassembler) (data : bytes) (index : Z) (eof : bool)
    : StreamReassembler :=
  default r (push_substring_fuel 2 r data index eof).

(** ** Invariant

    The output stream is well formed and as large as the reassembler;
    [nextIndex] is the number of bytes written to it; [bytesUnAssembled] is
    the size of the map; every entry is one byte at an index not yet written,
    below [nextIndex + 2 * capacity - 1] and below the last 64-bit index. *)

Definition entry_ok (r : StreamReassembler) (k : Z) (v : bytes) : Prop :=
  (exists b, v = [b]) /\
  nextIndex r <= k < 18446744073709551615 /\ k < nextIndex r + 2 * _capacity r - 1.

Record inv (r : StreamReassembler) : Prop := mkInv {
  inv_output : ByteStream.inv (_output r);
  inv_same_capacity : ByteStream._capacity (_output r) = _capacity r;
  inv_next : nextIndex r = bytes_written (_output r);
  inv_count : bytesUnAssembled r = Z.of_nat (size (myMap r));
  inv_map : map_Forall (entry_ok r) (myMap r)
}.

Lemma reassembler_inv_new cap : is_u64 cap -> inv (new cap).
Proof. intros. constructor; simpl; auto with sponge. apply map_Forall_empty. Qed.

Lemma inv_next_u64 r : inv r -> is_u64 (nextIndex r).
Proof. intros []. rewrite inv_next0. apply inv_output0. Qed.

Lemma inv_capacity_u64 r : inv r -> is_u64 (_capacity r).
Proof. intros []. rewrite <- inv_same_capacity0. apply inv_output0. Qed.

Lemma room_eq r :
  inv r -> remaining_capacity (_output r) = _capacity r - buffer_size (_output r).
Proof. intros []. by rewrite remaining_capacity_eq, inv_same_capacity0. Qed.

Lemma room_bounds r : inv r -> 0 <= remaining_capacity (_output r) <= _capacity r.
Proof.
  intros Hi. pose proof (room_eq r Hi) as ->. destruct Hi as [[] ? _ _ _].
  unfold buffer_size. lens. lia.
Qed.

(** A map whose keys lie in an interval has at most as many entries. *)
Lemma size_interval {V} (m : gmap Z V) lo hi :
  lo <= hi -> (forall k, is_Some (m !! k) -> lo <= k < hi) -> Z.of_nat (size m) <= hi - lo.
Proof.
  intros Hlh Hk. rewrite <- size_dom.
  assert (dom m ⊆ (list_to_set (seqZ lo (hi - lo)) : gset Z)) as Hsub.
  { intros k Hin%elem_of_dom. apply elem_of_list_to_set, elem_of_seqZ.
    specialize (Hk k Hin). lia. }
  apply subseteq_size in Hsub. rewrite size_list_to_set in Hsub by apply NoDup_seqZ.
  rewrite length_seqZ in Hsub. lia.
Qed.

Lemma entries_size r (m : gmap Z bytes) :
  0 <= nextIndex r -> map_Forall (entry_ok r) m -> Z.of_nat (size m) < 18446744073709551616.
Proof.
  intros Hn Hm. assert (Z.of_nat (size m) <= 18446744073709551615 - 0); [|lia].
  apply size_interval; [lia|]. intros k [v Hv]. destruct (Hm k v Hv) as (_ & ? & _). lia.
Qed.

Lemma count_u64 r :
  inv r -> u64 (bytesUnAssembled r) = bytesUnAssembled r.
Proof.
  intros Hi. apply u64_id. rewrite (inv_count r Hi).
  pose proof (inv_next_u64 r Hi). pose proof (entries_size r _ ltac:(words; lia) (inv_map r Hi)).
  words. lia.
Qed.

(** *** One byte forward

    Both writing loops advance the reassembler by one byte: the byte goes to
    the output, and the entry for its index leaves the map. *)

Definition advance (b : byte) (r : StreamReassembler) : StreamReassembler :=
  mkSR (fst (ByteStream.write (_output r) [b])) (_capacity r) (nextIndex r + 1)
    (Z.of_nat (size (delete (nextIndex r) (myMap r)))) (eof_flag r)
    (delete (nextIndex r) (myMap r)).

Record advanced (bs : bytes) (r r' : StreamReassembler) : Prop := mkAdvanced {
  adv_inv : inv r';
  adv_buf : _buf (_output r') = _buf (_output r) ++ bs;
  adv_next : nextIndex r' = nextIndex r + zlen bs;
  adv_room : remaining_capacity (_output r') = remaining_capacity (_output r) - zlen bs;
  adv_capacity : _capacity r' = _capacity r;
  adv_eof_flag : eof_flag r' = eof_flag r;
  adv_ended : input_ended (_output r') = input_ended (_output r);
  adv_map : forall k, myMap r' !! k =
    if decide (nextIndex r <= k < nextIndex r + zlen bs) then None else myMap r !! k
}.

Lemma advanced_refl r : inv r -> advanced [] r r.
Proof.
  intros Hi. constructor; lens_nil; try done; try lia; [by rewrite app_nil_r|].
  intros k. case_decide; [lia|done].
Qed.

Lemma advanced_trans bs bs' r r' r'' :
  advanced bs r r' -> advanced bs' r' r'' -> advanced (bs ++ bs') r r''.
Proof.
  intros [] []. constructor; rewrite ?zlen_app; try congruence; try lia.
  - by rewrite adv_buf1, adv_buf0, app_assoc.
  - intros k. rewrite adv_map1, adv_map0. lens. repeat case_decide; (done || lia).
Qed.

Lemma advance_advanced b r :
  inv r -> 0 < remaining_capacity (_output r) -> nextIndex r + 1 < 18446744073709551616 ->
  advanced [b] r (advance b r).
Proof.
  intros Hi Hroom Hnext. pose proof (inv_next_u64 r Hi) as Hu.
  pose proof (write_spec (_output r) [b] (inv_output r Hi)) as Hw.
  destruct (ByteStream.write (_output r) [b]) as [o n] eqn:E.
  destruct Hw as (Ho & Hn & Hb & Hr & Hc & He).
  assert (zlen [b] = 1) as H1 by done. rewrite H1, Z.min_l in Hn by lia. subst n.
  assert (ByteStream._capacity o = ByteStream._capacity (_output r)) as Hcap
    by (unfold ByteStream.write in E; by injection E as <- _).
  constructor; unfold advance; rewrite E; simpl; rewrite ?H1; try done.
  - constructor; simpl; try done.
    + rewrite Hcap. apply Hi.
    + rewrite Hc, <- (inv_next r Hi). symmetry. apply u64_id. words; lia.
    + intros k v (Hne & Hk)%lookup_delete_Some.
      destruct (inv_map r Hi k v Hk) as (? & ? & ?). unfold entry_ok; simpl. split_and!; try done; lia.
  - intros k. rewrite lookup_delete. repeat case_decide; (done || lia).
Qed.

Lemma write_loop_advanced chunk : forall k r,
  inv r -> k = nextIndex r -> zlen chunk <= remaining_capacity (_output r) ->
  nextIndex r + zlen chunk < 18446744073709551616 ->
  advanced chunk r (write_loop chunk k r).
Proof.
  induction chunk as [|b chunk IH]; intros k r Hi -> Hroom Hn; [by apply advanced_refl|].
  cbn [write_loop]. pose proof (inv_next_u64 r Hi) as Hu. lens.
  rewrite (u64_id (nextIndex r)), (u64_id (nextIndex r + 1)) by (words; lia).
  match goal with |- advanced _ _ (write_loop _ _ ?x) => assert (x = advance b r) as -> end.
  { unfold advance, stored; simpl. case_bool_decide as Hs.
    - f_equal. rewrite (inv_count r Hi). destruct Hs as [v Hv].
      rewrite map_size_delete_Some by eauto.
      pose proof (map_size_ne_0_lookup_2 (myMap r) (nextIndex r) ltac:(eauto)).
      pose proof (entries_size r _ ltac:(words; lia) (inv_map r Hi)).
      rewrite u64_id by (words; lia). lia.
    - apply eq_None_not_Some in Hs. rewrite !delete_id by done. f_equal. apply Hi. }
  assert (advanced [b] r (advance b r)) as Ha by (apply advance_advanced; [done|lia..]).
  apply (advanced_trans [b] chunk _ _ _ Ha).
  destruct Ha. apply IH; try done; [rewrite adv_room0|]; rewrite ?adv_next0; lens; lia.
Qed.

(** The flush loop moves the contiguous run of entries that starts at
    [nextIndex] to the output, and stops at a gap or at a full stream. *)
Lemma flush_loop_exit fuel : forall r,
  inv r -> (size (myMap r) <= fuel)%nat ->
  let r' := flush_loop fuel r in
  (exists bs, advanced bs r r' /\
    forall i b, bs !! i = Some b -> myMap r !! (nextIndex r + Z.of_nat i) = Some [b]) /\
  (myMap r' !! nextIndex r' = None \/ remaining_capacity (_output r') = 0).
Proof.
  induction fuel as [|fuel IH]; intros r Hi Hf; cbn [flush_loop].
  - split; [exists []; split; [by apply advanced_refl|done]|].
    left. assert (myMap r = ∅) as -> by (apply map_size_empty_inv; lia). apply lookup_empty.
  - destruct (myMap r !! nextIndex r) as [v|] eqn:Hv;
      [|split; [exists []; split; [by apply advanced_refl|done]|by left]].
    destruct (0 <? remaining_capacity (_output r)) eqn:Hr;
      [|split; [exists []; split; [by apply advanced_refl|done]|
        right; pose proof (room_bounds r Hi); lia]].
    destruct (inv_map r Hi _ _ Hv) as ([b ->] & Hk & _).
    pose proof (inv_next_u64 r Hi) as Hu.
    match goal with |- context [flush_loop fuel ?x] => assert (x = advance b r) as -> end.
    { unfold advance. rewrite u64_id by (words; lia). f_equal.
      rewrite (inv_count r Hi), map_size_delete_Some by eauto.
      pose proof (map_size_ne_0_lookup_2 (myMap r) (nextIndex r) ltac:(eauto)).
      pose proof (entries_size r _ ltac:(words; lia) (inv_map r Hi)).
      rewrite u64_id by (words; lia). lia. }
    assert (advanced [b] r (advance b r)) as Ha by (apply advance_advanced; [done|lia..]).
    destruct (IH (advance b r)) as [(bs & Hbs & Hmap) Hexit]; [apply Ha| |].
    { unfold advance; simpl. rewrite map_size_delete_Some by eauto. lia. }
    split; [|done]. exists (b :: bs). split; [by apply (advanced_trans [b] bs _ _ _ Ha)|].
    intros [|i] b' Hb'; simpl in Hb'; [injection Hb' as <-; by rewrite Z.add_0_r|].
    apply Hmap in Hb'. rewrite (adv_map _ _ _ Ha), (adv_next _ _ _ Ha) in Hb'.
    assert (zlen [b] = 1) as H1 by done. rewrite H1 in Hb'.
    case_decide; [lia|]. rewrite <- Hb'. f_equal. lia.
Qed.

Lemma flush_exit r :
  inv r ->
  (exists bs, advanced bs r (flush r) /\
    forall i b, bs !! i = Some b -> myMap r !! (nextIndex r + Z.of_nat i) = Some [b]) /\
  (myMap (flush r) !! nextIndex (flush r) = None \/ remaining_capacity (_output (flush r)) = 0).
Proof. intros Hi. by apply flush_loop_exit. Qed.

(** The storing loop keeps the entries it finds and adds the missing ones. *)
Lemma store_loop_spec chunk : forall k r,
  inv r -> nextIndex r < k -> k + zlen chunk < 18446744073709551616 ->
  k + zlen chunk < nextIndex r + 2 * _capacity r ->
  let r' := store_loop chunk k r in
  inv r' /\ _output r' = _output r /\ nextIndex r' = nextIndex r /\
  _capacity r' = _capacity r /\ eof_flag r' = eof_flag r /\
  forall j, myMap r' !! j =
    match myMap r !! j with
    | Some v => Some v
    | None => if decide (k <= j < k + zlen chunk)
              then (fun b => [b]) <$> chunk !! Z.to_nat (j - k) else None
    end.
Proof.
  induction chunk as [|b chunk IH]; intros k r Hi Hk Hk' Hcap; cbn [store_loop].
  - split_and!; try done. intros j. lens. case_decide; [lia|]. by destruct (_ !! j).
  - lens. pose proof (inv_next_u64 r Hi) as Hu. rewrite u64_id by (words; lia).
    set (r1 := if stored r k then _ else _).
    assert (inv r1 /\ _output r1 = _output r /\ nextIndex r1 = nextIndex r /\
      _capacity r1 = _capacity r /\ eof_flag r1 = eof_flag r /\
      myMap r1 = match myMap r !! k with Some _ => myMap r | None => <[k := [b]]> (myMap r) end)
      as (Hi1 & Ho & Hn & Hc & He & Hm).
    { subst r1. unfold stored. case_bool_decide as Hs.
      - destruct Hs as [v Hv]. by rewrite Hv.
      - apply eq_None_not_Some in Hs. rewrite Hs. split_and!; try done.
        assert (map_Forall (entry_ok r) (<[k:=[b]]> (myMap r))) as Hall.
        { apply map_Forall_insert_2; [|apply Hi]. unfold entry_ok. split_and!; eauto; lia. }
        constructor; simpl; try apply Hi; [|exact Hall].
        apply entries_size in Hall; [|words; lia]. rewrite (inv_count r Hi).
        rewrite map_size_insert_None in * by done. rewrite u64_id; [lia|words; lia]. }
    destruct (IH (k + 1) r1) as (Hi' & Ho' & Hn' & Hc' & He' & Hm'); rewrite ?Hn, ?Hc; try done; try lia.
    split_and!; try congruence. intros j. rewrite Hm', Hm. destruct (myMap r !! k) as [v|] eqn:Hv.
    + destruct (myMap r !! j) eqn:Hj; [done|].
      repeat case_decide; try lia; [|by destruct (decide (j = k)); [congruence|lia]|done].
      replace (Z.to_nat (j - k)) with (S (Z.to_nat (j - (k + 1)))) by lia. done.
    + rewrite lookup_insert. case_decide as Hjk.
      * subst j. rewrite Hv. case_decide; [|lia]. by rewrite Z.sub_diag.
      * destruct (myMap r !! j) eqn:Hj; [done|]. repeat case_decide; try lia; [|done].
        replace (Z.to_nat (j - k)) with (S (Z.to_nat (j - (k + 1)))) by lia. done.
Qed.

(** ** The four outcomes of [push_substring]

    [mark] is the update of the end-of-stream flag, [deliver] the
    [index == nextIndex] branch. *)

Definition mark (r : StreamReassembler) (eof : bool) (n : Z) : StreamReassembler :=
  if eof && (n <=? _capacity r) then set_eof_flag r else r.

Definition deliver (r : StreamReassembler) (data : bytes) : StreamReassembler :=
  let r := flush (write_loop (ztake (remaining_capacity (_output r)) data) (nextIndex r) r) in
  if eof_flag r && empty r then set_output r (end_input (_output r)) else r.

Lemma ztake_min {A} n (l : list A) : ztake (Z.min (zlen l) n) l = ztake n l.
Proof.
  destruct (Z.le_ge_cases (zlen l) n).
  - by rewrite Z.min_l, !ztake_all by lia.
  - by rewrite Z.min_r by lia.
Qed.

Lemma mark_eq r eof n :
  _output (mark r eof n) = _output r /\ nextIndex (mark r eof n) = nextIndex r /\
  _capacity (mark r eof n) = _capacity r /\ myMap (mark r eof n) = myMap r /\
  bytesUnAssembled (mark r eof n) = bytesUnAssembled r /\
  eof_flag (mark r eof n) = eof_flag r || (eof && (n <=? _capacity r)).
Proof. unfold mark. destruct (eof && _); simpl; by rewrite ?orb_true_r, ?orb_false_r. Qed.

Lemma inv_mark r eof n : inv r -> inv (mark r eof n).
Proof. intros []. unfold mark. by destruct (eof && _). Qed.

Lemma mark_mark r eof n : mark (mark r eof n) eof n = mark r eof n.
Proof. unfold mark. destruct eof; simpl; [|done]. by destruct (n <=? _capacity r) eqn:E; simpl; rewrite E. Qed.

(** One unfolding of the source, without wrap-around. *)
Lemma push_unfold fuel r data index eof :
  inv r -> 0 <= index -> index + zlen data < 18446744073709551616 ->
  push_substring_fuel (S fuel) r data index eof =
  if (nextIndex r <? index) && (_capacity r <=? index - nextIndex r) then Some r
  else if index + zlen data <? nextIndex r then Some r
  else
    let r1 := mark r eof (index + zlen data - nextIndex r) in
    if index <? nextIndex r then
      if nextIndex r <? index + zlen data
      then push_substring_fuel fuel r1 (zdrop (nextIndex r - index) data) (nextIndex r) eof
      else Some r1
    else if nextIndex r <? index
    then Some (store_loop (ztake (remaining_capacity (_output r)) data) index r1)
    else Some (deliver r1 data).
Proof.
  intros Hi Hp Hend. cbn [push_substring_fuel].
  pose proof (inv_next_u64 r Hi) as Hu. lens. rewrite !(u64_id (index + _)) by (words; lia).
  assert ((nextIndex r <? index) && (_capacity r <=? u64 (index - nextIndex r)) =
          (nextIndex r <? index) && (_capacity r <=? index - nextIndex r)) as ->.
  { destruct (Z.ltb_spec (nextIndex r) index); simpl; [|done]. by rewrite u64_id by (words; lia). }
  case_match; [done|]. destruct (Z.ltb_spec (index + zlen data) (nextIndex r)); [done|].
  rewrite (u64_id (zlen data - _ + _)) by (words; lia).
  replace (zlen data - nextIndex r + index) with (index + zlen data - nextIndex r) by lia.
  set (n := index + _ - _). fold (mark r eof n). cbv zeta.
  destruct (mark_eq r eof n) as (Ho & Hn & _). unfold stream_out. rewrite Ho, Hn, ztake_min.
  ztests; rewrite ?(u64_id (nextIndex r - index)) by (words; lia); try done.
  unfold deliver, stream_out. rewrite Ho, Hn. replace index with (nextIndex r) by lia.
  by case_match.
Qed.

Section cases.
Context (r : StreamReassembler) (data : bytes) (index : Z) (eof : bool).
Context (Hi : inv r) (Hindex : 0 <= index) (Hend : index + zlen data < 18446744073709551616).

Lemma push_drop :
  (nextIndex r < index /\ _capacity r <= index - nextIndex r) \/ index + zlen data < nextIndex r ->
  push_substring r data index eof = r.
Proof using Hi Hindex Hend.
  intros Hd. unfold push_substring. rewrite push_unfold by done. lens. by ztests.
Qed.

Lemma push_duplicate :
  index < nextIndex r -> index + zlen data = nextIndex r ->
  push_substring r data index eof = mark r eof 0.
Proof using Hi Hindex Hend.
  intros Hlt He. unfold push_substring. rewrite push_unfold by done.
  replace (index + _ - _) with 0 by lia. by ztests.
Qed.

Lemma push_store :
  nextIndex r < index -> index - nextIndex r < _capacity r ->
  push_substring r data index eof =
  store_loop (ztake (remaining_capacity (_output r)) data) index
    (mark r eof (index + zlen data - nextIndex r)).
Proof using Hi Hindex Hend.
  intros Hlt Hc. unfold push_substring. rewrite push_unfold by done. lens. by ztests.
Qed.

Lemma push_deliver :
  index <= nextIndex r -> nextIndex r < index + zlen data \/ index = nextIndex r ->
  push_substring r data index eof =
  deliver (mark r eof (index + zlen data - nextIndex r)) (zdrop (nextIndex r - index) data).
Proof using Hi Hindex Hend.
  intros Hle Hd. unfold push_substring. rewrite push_unfold by done. lens. ztests.
  - set (n := index + _ - _). destruct (mark_eq r eof n) as (Ho & Hn & _).
    pose proof (inv_next_u64 r Hi) as Hu.
    assert (nextIndex r + zlen (zdrop (nextIndex r - index) data) = index + zlen data) as Hl
      by (rewrite zlen_zdrop by lia; lia).
    rewrite push_unfold by (rewrite ?Hl; auto using inv_mark; words; lia).
    rewrite Hn, Hl. fold n. rewrite mark_mark. by ztests.
  - replace (nextIndex r - index) with 0 by lia. by rewrite zdrop_0.
Qed.
End cases.

Lemma inv_set_output r o :
  inv r -> ByteStream.inv o -> ByteStream._capacity o = ByteStream._capacity (_output r) ->
  bytes_written o = bytes_written (_output r) -> inv (set_output r o).
Proof. intros [] ? Hc Hw. constructor; simpl; try done; congruence. Qed.

Lemma inv_finish r : inv r -> inv (set_output r (end_input (_output r))).
Proof. intros Hi. apply inv_set_output; auto using inv_end_input, inv_output. Qed.

(** The in-order branch: the part of [data] that has room, then the run of
    stored bytes that follows it, then the end of input when due. *)
Lemma deliver_spec r data :
  inv r -> nextIndex r + zlen data < 18446744073709551616 ->
  exists r0 bs,
    advanced (ztake (remaining_capacity (_output r)) data ++ bs) r r0 /\
    (forall i b, bs !! i = Some b ->
       myMap r !! (nextIndex r + zlen (ztake (remaining_capacity (_output r)) data) + Z.of_nat i)
       = Some [b]) /\
    (myMap r0 !! nextIndex r0 = None \/ remaining_capacity (_output r0) = 0) /\
    deliver r data =
      if eof_flag r && (bytesUnAssembled r0 =? 0)
      then set_output r0 (end_input (_output r0)) else r0.
Proof.
  intros Hi Hn. unfold deliver. set (room := remaining_capacity (_output r)).
  pose proof (room_bounds r Hi) as Hr. fold room in Hr.
  assert (zlen (ztake room data) <= room /\ zlen (ztake room data) <= zlen data) as [Hl1 Hl2]
    by (rewrite zlen_ztake by lia; lia).
  assert (advanced (ztake room data) r (write_loop (ztake room data) (nextIndex r) r)) as Hw
    by (apply write_loop_advanced; [done|done|lia|lia]).
  set (r1 := write_loop _ _ r) in *.
  destruct (flush_exit r1 (adv_inv _ _ _ Hw)) as [(bs & Hf & Hmap) Hexit].
  exists (flush r1), bs. split_and!; try done.
  - by eapply advanced_trans.
  - intros i b Hb. apply Hmap in Hb. rewrite (adv_map _ _ _ Hw), (adv_next _ _ _ Hw) in Hb.
    by case_decide.
  - rewrite (adv_eof_flag _ _ _ Hf), (adv_eof_flag _ _ _ Hw). done.
Qed.

(** ** What a push may do to the state

    [held r p]: the byte at stream position [p] has been taken in, either
    written to the output or kept in the map. *)

Definition data_at (index : Z) (data : bytes) (p : Z) : option byte :=
  if p <? index then None else data !! Z.to_nat (p - index).

Definition held (r : StreamReassembler) (p : Z) : Prop :=
  p < nextIndex r \/ is_Some (myMap r !! p).

Lemma data_at_Some index data p b :
  data_at index data p = Some b -> index <= p < index + zlen data.
Proof.
  unfold data_at. ztests; [done|]. intros Hl%lookup_lt_Some. rewrite zlen_eq. lia.
Qed.

Lemma data_at_is_Some index data p :
  index <= p < index + zlen data -> is_Some (data_at index data p).
Proof.
  unfold data_at. rewrite zlen_eq. intros ?. ztests. apply lookup_lt_is_Some_2. lia.
Qed.

Lemma data_at_ztake n index data p b :
  data_at index (ztake n data) p = Some b -> data_at index data p = Some b.
Proof.
  unfold data_at. ztests; [done|]. rewrite ztake_take. intros Hl.
  by apply lookup_take_Some in Hl as [? _].
Qed.

Lemma data_at_zdrop n index data p b :
  0 <= n -> data_at (index + n) (zdrop n data) p = Some b -> data_at index data p = Some b.
Proof.
  intros Hn. unfold data_at. ztests; [done..|]. rewrite lookup_zdrop by done.
  intros <-. f_equal. lia.
Qed.

Record pushed (data : bytes) (index : Z) (r r' : StreamReassembler) : Prop := mkPushed {
  pushed_inv : inv r';
  pushed_capacity : _capacity r' = _capacity r;
  pushed_read : exists bs,
    _buf (_output r') = _buf (_output r) ++ bs /\
    nextIndex r' = nextIndex r + zlen bs /\
    remaining_capacity (_output r') = remaining_capacity (_output r) - zlen bs /\
    forall i b, bs !! i = Some b ->
      data_at index data (nextIndex r + Z.of_nat i) = Some b \/
      myMap r !! (nextIndex r + Z.of_nat i) = Some [b];
  pushed_map : forall k v, myMap r' !! k = Some v ->
    myMap r !! k = Some v \/ exists b, v = [b] /\ data_at index data k = Some b;
  pushed_keeps : forall p, held r p -> held r' p
}.

Lemma pushed_same data index r r' :
  inv r' -> _output r' = _output r -> nextIndex r' = nextIndex r -> _capacity r' = _capacity r ->
  (forall k v, myMap r' !! k = Some v ->
     myMap r !! k = Some v \/ exists b, v = [b] /\ data_at index data k = Some b) ->
  (forall k, is_Some (myMap r !! k) -> is_Some (myMap r' !! k)) ->
  pushed data index r r'.
Proof.
  intros Hi Ho Hn Hc Hm Hk. constructor; try done.
  - exists []. rewrite Ho, Hn, app_nil_r. lens. split_and!; try done; lia.
  - intros p [?|?]; [left; lia|right; auto].
Qed.

Lemma pushed_mark data index r eof n : inv r -> pushed data index r (mark r eof n).
Proof.
  intros Hi. destruct (mark_eq r eof n) as (? & ? & ? & Hm & _).
  apply pushed_same; auto using inv_mark; rewrite Hm; eauto.
Qed.

Lemma advanced_held bs r r' p : advanced bs r r' -> held r p -> held r' p.
Proof.
  intros [] [?|[v Hv]]; unfold held; rewrite adv_next0, adv_map0; lens; [left; lia|].
  case_decide; [left; lia|right; eauto].
Qed.

Lemma deliver_pushed r data index eof :
  inv r -> 0 <= index -> index <= nextIndex r <= index + zlen data ->
  index + zlen data < 18446744073709551616 ->
  let r1 := mark r eof (index + zlen data - nextIndex r) in
  pushed data index r (deliver r1 (zdrop (nextIndex r - index) data)).
Proof.
  intros Hi Hp Hn Hend r1. subst r1. set (n := index + zlen data - nextIndex r).
  destruct (mark_eq r eof n) as (Ho & Hnx & Hc & Hm & _ & _).
  assert (zlen (zdrop (nextIndex r - index) data) = n) as Hl by (rewrite zlen_zdrop by lia; lia).
  destruct (deliver_spec (mark r eof n) (zdrop (nextIndex r - index) data)) as (r0 & bs & Ha & Hbs & _ & ->);
    [by apply inv_mark|rewrite Hl, Hnx; lia|].
  rewrite Ho, Hnx in *. set (c := ztake _ _) in *.
  assert (pushed data index r r0) as Hp0.
  { pose proof Ha as []. rewrite Ho, Hnx, Hc, Hm in *. constructor; try done.
    - exists (c ++ bs). split_and!; try done. intros i b [Hb|[Hge Hb]]%lookup_app_Some.
      + left. apply (data_at_zdrop (nextIndex r - index)); [lia|].
        replace (index + (nextIndex r - index)) with (nextIndex r) by lia.
        apply (data_at_ztake (remaining_capacity (_output r))). fold c.
        unfold data_at. ztests. rewrite <- Hb. f_equal. lia.
      + right. apply Hbs in Hb. rewrite <- Hb. f_equal. rewrite zlen_eq. lia.
    - intros k v Hk. rewrite adv_map0 in Hk. case_decide; [done|]. auto.
    - intros p Hh. apply (advanced_held _ _ _ p Ha). unfold held in *. by rewrite Hnx, Hm. }
  case_match; [|done]. destruct Hp0. constructor; auto using inv_finish.
Qed.

Lemma store_pushed r data index eof :
  inv r -> nextIndex r < index -> index - nextIndex r < _capacity r ->
  index + zlen data < 18446744073709551616 ->
  let room := remaining_capacity (_output r) in
  let r' := store_loop (ztake room data) index (mark r eof (index + zlen data - nextIndex r)) in
  pushed data index r r' /\
  (forall p, index <= p < index + zlen (ztake room data) -> held r' p) /\
  (forall k, is_Some (myMap r' !! k) ->
     is_Some (myMap r !! k) \/ index <= k < index + zlen (ztake room data)) /\
  _output r' = _output r /\ nextIndex r' = nextIndex r.
Proof.
  intros Hi Hlt Hc Hend room r'. set (n := index + zlen data - nextIndex r) in r'.
  destruct (mark_eq r eof n) as (Ho & Hn & Hcap & Hm & _).
  pose proof (room_bounds r Hi) as Hr. fold room in Hr.
  assert (zlen (ztake room data) <= room /\ zlen (ztake room data) <= zlen data) as [Hl1 Hl2]
    by (rewrite zlen_ztake by lia; lia).
  destruct (store_loop_spec (ztake room data) index (mark r eof n)) as (Hi' & Ho' & Hn' & Hc' & _ & Hm');
    [by apply inv_mark|lia..|]. fold r' in Hi', Ho', Hn', Hc', Hm'.
  rewrite Ho, Hn, Hcap, Hm in *. split_and!; try done.
  - apply pushed_same; try done.
    + intros k v Hk. rewrite Hm' in Hk. destruct (myMap r !! k); [by left|]. case_decide; [|done].
      apply fmap_Some in Hk as (b & Hb & ->). right. exists b. split; [done|].
      apply (data_at_ztake room). unfold data_at. by ztests.
    + intros k [v Hv]. rewrite Hm', Hv. eauto.
  - intros p Hp. right. rewrite Hm'. destruct (myMap r !! p); [eauto|]. case_decide; [|lia].
    apply fmap_is_Some, lookup_lt_is_Some_2. rewrite zlen_eq in Hp. lia.
  - intros k [v Hk]. rewrite Hm' in Hk. destruct (myMap r !! k) eqn:?; [left; eauto|].
    case_decide; [by right|done].
Qed.

Lemma push_pushed r data index eof :
  inv r -> 0 <= index -> index + zlen data < 18446744073709551616 ->
  pushed data index r (push_substring r data index eof).
Proof.
  intros Hi Hp Hend.
  assert (pushed data index r r) as Hsame by (apply pushed_same; eauto).
  destruct (Z.lt_trichotomy index (nextIndex r)) as [Hlt|[He|Hgt]].
  - destruct (Z.lt_trichotomy (index + zlen data) (nextIndex r)) as [Hlt'|[He|Hgt]].
    + by rewrite push_drop by auto.
    + rewrite push_duplicate by auto. by apply pushed_mark.
    + rewrite push_deliver by (auto || lia). apply deliver_pushed; auto; lia.
  - lens. rewrite push_deliver by (auto || lia). apply deliver_pushed; auto; lia.
  - destruct (Z.lt_ge_cases (index - nextIndex r) (_capacity r)).
    + rewrite push_store by auto. by apply store_pushed.
    + by rewrite push_drop by auto.
Qed.

(** ** The window

    A push fits when its excerpt ends inside the window that starts at
    [nextIndex] and is as long as the room left in the output.  A state is
    tight when its entries lie inside that window, past its first byte. *)

Definition fits (r : StreamReassembler) (data : bytes) (index : Z) : Prop :=
  index + zlen data <= nextIndex r + remaining_capacity (_output r).

Definition tight (r : StreamReassembler) : Prop :=
  forall k, is_Some (myMap r !! k) ->
    nextIndex r < k < nextIndex r + remaining_capacity (_output r).

Lemma deliver_fits r data :
  inv r -> tight r -> nextIndex r + zlen data < 18446744073709551616 ->
  zlen data <= remaining_capacity (_output r) ->
  let r' := deliver r data in tight r' /\ nextIndex r + zlen data <= nextIndex r'.
Proof.
  intros Hi Ht Hend Hl.
  destruct (deliver_spec r data) as (r0 & bs & Ha & _ & Hexit & ->); [done..|].
  rewrite ztake_all in Ha by done. destruct Ha.
  assert (tight r0 /\ nextIndex r + zlen data <= nextIndex r0) as [Ht0 ?].
  { split; [|rewrite adv_next0; lens; lia]. intros k Hk.
    assert (k <> nextIndex r0) as Hne.
    { intros ->. destruct Hexit as [Hx|Hx]; [rewrite Hx in Hk; by destruct Hk|].
      rewrite adv_map0 in Hk. case_decide; [by destruct Hk|]. apply Ht in Hk. lia. }
    rewrite adv_room0. rewrite adv_map0 in Hk. case_decide; [by destruct Hk|].
    apply Ht in Hk. lia. }
  case_match; [|done]. done.
Qed.

Lemma push_fits r data index eof :
  inv r -> tight r -> 0 <= index -> index + zlen data < 18446744073709551616 -> fits r data index ->
  let r' := push_substring r data index eof in
  tight r' /\ (forall p, index <= p < index + zlen data -> held r' p).
Proof.
  unfold fits. intros Hi Ht Hp Hend Hf. pose proof (room_bounds r Hi) as Hr.
  assert (index <= nextIndex r <= index + zlen data ->
    let r' := deliver (mark r eof (index + zlen data - nextIndex r)) (zdrop (nextIndex r - index) data) in
    tight r' /\ (forall p, index <= p < index + zlen data -> held r' p)) as Hdel.
  { intros Hn. set (n := index + _ - _). destruct (mark_eq r eof n) as (Ho & Hnx & _ & Hm & _).
    destruct (deliver_fits (mark r eof n) (zdrop (nextIndex r - index) data)) as [Ht' Hn'].
    - by apply inv_mark.
    - unfold tight. by rewrite Ho, Hnx, Hm.
    - rewrite Hnx, zlen_zdrop by lia. lia.
    - rewrite Ho, zlen_zdrop by lia. lia.
    - rewrite Hnx, zlen_zdrop in Hn' by lia. split; [done|]. intros p ?. left. lia. }
  destruct (Z.lt_trichotomy index (nextIndex r)) as [Hlt|[He|Hgt]];
    [destruct (Z.lt_trichotomy (index + zlen data) (nextIndex r)) as [Hlt'|[He|Hgt]]|..].
  - rewrite push_drop by auto. split; [done|]. intros p ?. left. lia.
  - rewrite push_duplicate by auto. destruct (mark_eq r eof 0) as (Ho & Hn & _ & Hm & _).
    unfold tight, held. rewrite Ho, Hn, Hm. split; [done|]. intros p ?. left. lia.
  - rewrite push_deliver by (auto || lia). apply Hdel. lia.
  - lens. rewrite push_deliver by (auto || lia). apply Hdel. lia.
  - lens. destruct (Z.lt_ge_cases (index - nextIndex r) (_capacity r)).
    + rewrite push_store by auto.
      destruct (store_pushed r data index eof) as (_ & Hh & Hk & Ho & Hn); [auto; lia..|].
      rewrite ztake_all in * by lia. split; [|done].
      intros k [Hk1|Hk1]%Hk; rewrite Ho, Hn; [by apply Ht|lia].
    + rewrite push_drop by auto. split; [done|]. intros p ?. lia.
Qed.

(** ** Runs

    Pushes interleaved with reads of the output.  [run] returns the state and
    the bytes the reader got. *)

Inductive op :=
  | Push (data : bytes) (index : Z) (eof : bool)
  | ReadOut (len : Z).

Definition step (o : op) (r : StreamReassembler) : StreamReassembler * bytes :=
  match o with
  | Push data index eof => (push_substring r data index eof, [])
  | ReadOut len => let '(o', out) := ByteStream.read (stream_out r) len in (set_output r o', out)
  end.

Fixpoint run (ops : list op) (r : StreamReassembler) : StreamReassembler * bytes :=
  match ops with
  | [] => (r, [])
  | o :: ops =>
      let '(r', out) := step o r in
      let '(r'', out') := run ops r' in (r'', out ++ out')
  end.

(** [data] is the part of [stream] that starts at [index]. *)
Definition excerpt (stream : bytes) (index : Z) (data : bytes) : Prop :=
  0 <= index /\ index + zlen data <= zlen stream /\
  data = ztake (zlen data) (zdrop index stream).

Definition op_of (stream : bytes) (o : op) : Prop :=
  match o with
  | Push data index eof => excerpt stream index data
  | ReadOut len => 0 <= len
  end.

Definition stream_at (stream : bytes) (p : Z) : option byte := stream !! Z.to_nat p.

Lemma excerpt_at stream index data p b :
  excerpt stream index data -> data_at index data p = Some b -> stream_at stream p = Some b.
Proof.
  intros (Hp & Hl & He) Hd. pose proof (data_at_Some _ _ _ _ Hd) as Hr.
  unfold data_at in Hd. unfold stream_at. revert Hd. ztests. rewrite He.
  rewrite lookup_ztake, lookup_zdrop by lia. intros <-. f_equal. lia.
Qed.

(** What the reader got followed by what is buffered is the stream up to
    [nextIndex], and the stored bytes are bytes of the stream. *)
Record sound (stream out : bytes) (r : StreamReassembler) : Prop := mkSound {
  sound_inv : inv r;
  sound_out : out ++ _buf (_output r) = ztake (nextIndex r) stream;
  sound_next : nextIndex r <= zlen stream;
  sound_map : forall k v, myMap r !! k = Some v -> exists b, v = [b] /\ stream_at stream k = Some b
}.

Lemma ztake_snoc stream n bs :
  0 <= n <= zlen stream ->
  (forall i b, bs !! i = Some b -> stream_at stream (n + Z.of_nat i) = Some b) ->
  n + zlen bs <= zlen stream /\ ztake (n + zlen bs) stream = ztake n stream ++ bs.
Proof.
  intros Hn Hbs. revert n Hn Hbs. induction bs as [|b bs IH]; intros n Hn Hbs; lens.
  - rewrite Z.add_0_r, app_nil_r. split; [lia|done].
  - pose proof (Hbs 0%nat b eq_refl) as Hb. rewrite Z.add_0_r in Hb. unfold stream_at in Hb.
    pose proof (lookup_lt_Some _ _ _ Hb) as Hlt. rewrite zlen_eq in Hn.
    destruct (IH (n + 1)) as [Hl Ht].
    + rewrite zlen_eq. lia.
    + intros i c Hc. specialize (Hbs (S i) c Hc). rewrite <- Hbs. f_equal. lia.
    + replace (n + (1 + zlen bs)) with (n + 1 + zlen bs) by lia. split; [lia|].
      rewrite Ht. change (b :: bs) with ([b] ++ bs). rewrite app_assoc. f_equal.
      rewrite !ztake_take. replace (Z.to_nat (n + 1)) with (S (Z.to_nat n)) by lia.
      by apply take_S_r.
Qed.

Lemma pushed_held data index r r' p :
  pushed data index r r' -> held r' p -> held r p \/ index <= p < index + zlen data.
Proof.
  intros [Hi' Hc (bs & _ & Hn & _ & Hbs) Hm _] [Hp|[v Hv]].
  - destruct (Z.lt_ge_cases p (nextIndex r)); [left; by left|].
    rewrite Hn, zlen_eq in Hp.
    destruct (lookup_lt_is_Some_2 bs (Z.to_nat (p - nextIndex r))) as [b Hb]; [lia|].
    apply Hbs in Hb. replace (nextIndex r + Z.of_nat (Z.to_nat (p - nextIndex r))) with p in Hb by lia.
    destruct Hb as [Hb|Hb]; [right; by apply data_at_Some in Hb|left; right; eauto].
  - apply Hm in Hv as [Hv|(b & _ & Hb)]; [left; right; eauto|right; by apply data_at_Some in Hb].
Qed.

Lemma pushed_sound stream out data index r r' :
  sound stream out r -> excerpt stream index data -> pushed data index r r' -> sound stream out r'.
Proof.
  intros [Hi Ho Hn Hm] He [Hi' Hc (bs & Hb & Hn' & _ & Hbs) Hm' _].
  pose proof (inv_next_u64 r Hi) as Hu.
  destruct (ztake_snoc stream (nextIndex r) bs) as [Hl Ht]; [words; lia| |].
  { intros i b Hb'. apply Hbs in Hb' as [Hd|Hd]; [by eapply excerpt_at|].
    apply Hm in Hd as (b' & [= <-] & ?). done. }
  constructor; try done.
  - by rewrite Hb, app_assoc, Ho, Hn', Ht.
  - lia.
  - intros k v Hk. apply Hm' in Hk as [Hk|(b & -> & Hk)]; [by apply Hm|].
    exists b. split; [done|]. by eapply excerpt_at.
Qed.

(** The effect of a read on the reassembler. *)
Lemma read_out_spec r len :
  inv r -> 0 <= len ->
  let '(r', out) := step (ReadOut len) r in
  inv r' /\ _buf (_output r) = out ++ _buf (_output r') /\
  nextIndex r' = nextIndex r /\ myMap r' = myMap r /\ _capacity r' = _capacity r /\
  remaining_capacity (_output r') = remaining_capacity (_output r) + zlen out /\
  eof_flag r' = eof_flag r /\ input_ended (_output r') = input_ended (_output r).
Proof.
  intros Hi Hl. cbn [step]. unfold stream_out. rewrite read_pop by done.
  set (n := Z.min len (buffer_size (_output r))).
  assert (0 <= n <= buffer_size (_output r)) as Hn by (subst n; unfold buffer_size; lens; lia).
  assert (ByteStream.inv (pop_output (_output r) n)) as Ho by (apply inv_pop_output; [apply Hi|done]).
  assert (ztake len (_buf (_output r)) = ztake n (_buf (_output r))) as ->.
  { subst n. unfold buffer_size. by rewrite Z.min_comm, ztake_min. }
  assert (inv (set_output r (pop_output (_output r) n))) as Hi' by by apply inv_set_output.
  split_and!; try done.
  - simpl. by rewrite ztake_zdrop.
  - rewrite (room_eq _ Hi), (room_eq _ Hi'). unfold buffer_size in *. simpl.
    rewrite zlen_ztake, zlen_zdrop by lia. lia.
Qed.

Lemma step_sound stream out o r :
  zlen stream < 18446744073709551616 -> sound stream out r -> op_of stream o ->
  let '(r', out') := step o r in sound stream (out ++ out') r'.
Proof.
  intros Hs Hr Ho. destruct o as [data index eof|len]; simpl in Ho.
  - simpl. rewrite app_nil_r. pose proof Ho as (? & ? & _).
    eapply pushed_sound; [done..|]. apply push_pushed; [apply Hr|done|lia].
  - pose proof (read_out_spec r len (sound_inv _ _ _ Hr) Ho) as Hrd.
    destruct (step (ReadOut len) r) as [r' out']. destruct Hrd as (Hi' & Hb & Hn & Hm & _).
    destruct Hr. constructor; rewrite ?Hn, ?Hm; try done. by rewrite <- app_assoc, <- Hb.
Qed.

Lemma run_sound stream ops : forall out r,
  zlen stream < 18446744073709551616 -> sound stream out r -> Forall (op_of stream) ops ->
  let '(r', out') := run ops r in sound stream (out ++ out') r'.
Proof.
  induction ops as [|o ops IH]; intros out r Hs Hr Hops; cbn [run]; [by rewrite app_nil_r|].
  apply Forall_cons in Hops as [Ho Hops].
  pose proof (step_sound stream out o r Hs Hr Ho) as Hst. destruct (step o r) as [r' out'].
  specialize (IH (out ++ out') r' Hs Hst Hops). destruct (run ops r') as [r'' out''].
  by rewrite app_assoc.
Qed.

Lemma sound_new stream cap : is_u64 cap -> sound stream [] (new cap).
Proof.
  intros. constructor; simpl; auto using reassembler_inv_new; [by rewrite ztake_0|lens; lia|].
  intros k v Hk. by rewrite lookup_empty in Hk.
Qed.

(** Every push of the run ends inside the window of its time. *)
Fixpoint ops_fit (ops : list op) (r : StreamReassembler) : Prop :=
  match ops with
  | [] => True
  | o :: ops =>
      match o with Push data index _ => fits r data index | ReadOut _ => True end /\
      ops_fit ops (fst (step o r))
  end.

Definition covered (ops : list op) (p : Z) : Prop :=
  exists data index eof, Push data index eof ∈ ops /\ index <= p < index + zlen data.

Lemma covered_cons o ops p :
  covered (o :: ops) p <-> covered [o] p \/ covered ops p.
Proof.
  unfold covered. split.
  - intros (d & i & e & [<-|Hin]%elem_of_cons & Hp); [left|right]; exists d, i, e; split; set_solver.
  - intros [(d & i & e & Hin & Hp)|(d & i & e & Hin & Hp)]; exists d, i, e; split; set_solver.
Qed.

Lemma step_exact stream out o r :
  zlen stream < 18446744073709551616 -> sound stream out r -> tight r -> op_of stream o ->
  ops_fit [o] r ->
  let r' := fst (step o r) in
  tight r' /\ forall p, held r' p <-> held r p \/ covered [o] p.
Proof.
  intros Hs Hr Ht Ho [Hf _]. destruct o as [data index eof|len]; simpl in Ho.
  - cbn [step fst]. pose proof Ho as (? & ? & _).
    assert (pushed data index r (push_substring r data index eof)) as Hp
      by (apply push_pushed; [apply Hr|done|lia]).
    destruct (push_fits r data index eof) as [Ht' Hh]; [apply Hr|done|done|lia|done|].
    split; [done|]. intros p. split.
    + intros [?|?]%(pushed_held _ _ _ _ p Hp); [by left|].
      right. exists data, index, eof. split; [set_solver|done].
    + intros [Hx|(d & i & e & Hin & Hx)]; [by apply Hp|].
      apply list_elem_of_singleton in Hin. simplify_eq. auto.
  - pose proof (read_out_spec r len (sound_inv _ _ _ Hr) Ho) as Hrd.
    destruct (step (ReadOut len) r) as [r' out']. destruct Hrd as (_ & _ & Hn & Hm & _ & Hroom & _).
    cbn [fst]. unfold tight, held. rewrite Hn, Hm, Hroom. split.
    + intros k Hk%Ht. lens. lia.
    + intros p. split; [by left|]. intros [?|(d & i & e & Hin & _)]; [done|].
      by apply list_elem_of_singleton in Hin.
Qed.

Lemma run_exact stream ops : forall out r,
  zlen stream < 18446744073709551616 -> sound stream out r -> tight r ->
  Forall (op_of stream) ops -> ops_fit ops r ->
  let r' := fst (run ops r) in
  tight r' /\ forall p, held r' p <-> held r p \/ covered ops p.
Proof.
  induction ops as [|o ops IH]; intros out r Hs Hr Ht Hops Hf; cbn [run fst].
  - split; [done|]. intros p. split; [by left|]. intros [?|(d & i & e & Hin & _)]; [done|set_solver].
  - apply Forall_cons in Hops as [Ho Hops]. destruct Hf as [Hf1 Hf].
    destruct (step_exact stream out o r Hs Hr Ht Ho) as [Ht' Hh']; [done|].
    pose proof (step_sound stream out o r Hs Hr Ho) as Hst. destruct (step o r) as [r' out'].
    cbn [fst] in *. destruct (IH (out ++ out') r' Hs Hst Ht' Hops Hf) as [Ht'' Hh''].
    destruct (run ops r') as [r'' out'']. cbn [fst] in *. split; [done|].
    intros p. rewrite Hh'', Hh', (covered_cons o ops). tauto.
Qed.

(** ** The end-of-stream flag *)
Lemma deliver_flags r data :
  inv r -> nextIndex r + zlen data < 18446744073709551616 ->
  let r' := deliver r data in
  eof_flag r' = eof_flag r /\
  (input_ended (_output r') = true <->
   input_ended (_output r) = true \/ (eof_flag r = true /\ myMap r' = ∅)).
Proof.
  intros Hi Hend.
  destruct (deliver_spec r data) as (r0 & bs & Ha & _ & _ & ->); [done..|].
  destruct Ha. rewrite (inv_count r0 adv_inv0).
  assert ((Z.of_nat (size (myMap r0)) =? 0) = true <-> myMap r0 = ∅) as He.
  { rewrite Z.eqb_eq, <- map_size_empty_iff. lia. }
  destruct (eof_flag r) eqn:Hf; destruct (Z.of_nat (size (myMap r0)) =? 0) eqn:Hs; simpl;
    rewrite ?adv_ended0, ?adv_eof_flag0, ?Hf; (split; [done|]); naive_solver.
Qed.

Lemma push_flags r data index eof :
  inv r -> 0 <= index -> index + zlen data < 18446744073709551616 ->
  let r' := push_substring r data index eof in
  (eof_flag r' = true -> eof_flag r = true \/ eof = true) /\
  (input_ended (_output r') = true ->
   input_ended (_output r) = true \/ (eof_flag r' = true /\ myMap r' = ∅)).
Proof.
  intros Hi Hp Hend. cbv zeta. set (n := index + zlen data - nextIndex r).
  assert (forall m, eof_flag (mark r eof m) = true -> eof_flag r = true \/ eof = true) as Hmark.
  { intros m. destruct (mark_eq r eof m) as (_ & _ & _ & _ & _ & ->).
    destruct (eof_flag r), eof; simpl; auto. }
  assert (index <= nextIndex r <= index + zlen data ->
    let r' := deliver (mark r eof n) (zdrop (nextIndex r - index) data) in
    (eof_flag r' = true -> eof_flag r = true \/ eof = true) /\
    (input_ended (_output r') = true ->
     input_ended (_output r) = true \/ (eof_flag r' = true /\ myMap r' = ∅))) as Hdel.
  { intros Hn. destruct (mark_eq r eof n) as (Ho & Hnx & _).
    destruct (deliver_flags (mark r eof n) (zdrop (nextIndex r - index) data)) as [He Hd];
      [by apply inv_mark|rewrite Hnx, zlen_zdrop by lia; lia|].
    cbv zeta. rewrite He. rewrite Ho in Hd. split; [apply Hmark|apply Hd]. }
  destruct (Z.lt_trichotomy index (nextIndex r)) as [Hlt|[He|Hgt]];
    [destruct (Z.lt_trichotomy (index + zlen data) (nextIndex r)) as [Hlt'|[He|Hgt]]|..].
  - rewrite push_drop by auto. tauto.
  - rewrite push_duplicate by auto. destruct (mark_eq r eof 0) as (-> & _). split; [apply Hmark|tauto].
  - rewrite push_deliver by (auto || lia). apply Hdel. lia.
  - lens. rewrite push_deliver by (auto || lia). apply Hdel. lia.
  - destruct (Z.lt_ge_cases (index - nextIndex r) (_capacity r)).
    + rewrite push_store by auto.
      destruct (mark_eq r eof n) as (Ho & Hnx & Hc & _). pose proof (room_bounds r Hi).
      destruct (store_loop_spec (ztake (remaining_capacity (_output r)) data) index (mark r eof n))
        as (_ & Ho' & _ & _ & He' & _);
        [by apply inv_mark|rewrite ?Hnx, ?Hc, ?zlen_ztake by lia; lens; lia..|].
      fold n. rewrite Ho', He', Ho. split; [apply Hmark|tauto].
    + rewrite push_drop by auto. tauto.
Qed.

(** An end-of-stream push carries the last byte of the stream. *)
Definition op_eof (stream : bytes) (o : op) : Prop :=
  match o with
  | Push data index true => data <> [] /\ index + zlen data = zlen stream
  | _ => True
  end.

Definition eof_sound (stream : bytes) (r : StreamReassembler) : Prop :=
  (eof_flag r = true -> held r (zlen stream - 1)) /\
  (input_ended (_output r) = true -> nextIndex r = zlen stream).

Lemma step_eof stream out o r :
  zlen stream < 18446744073709551616 -> sound stream out r -> tight r -> op_of stream o ->
  op_eof stream o -> ops_fit [o] r -> eof_sound stream r -> eof_sound stream (fst (step o r)).
Proof.
  intros Hs Hr Ht Ho He Hf [Hflag Hended].
  destruct (step_exact stream out o r Hs Hr Ht Ho Hf) as [_ Hh].
  pose proof (step_sound stream out o r Hs Hr Ho) as Hr'.
  destruct o as [data index eof|len]; simpl in Ho.
  - cbn [step fst] in *. pose proof Ho as (Hp & Hl & _).
    destruct (push_flags r data index eof) as [Hfl Hen]; [apply Hr|done|lia|].
    assert (eof_flag (push_substring r data index eof) = true ->
            held (push_substring r data index eof) (zlen stream - 1)) as Hlast.
    { intros [Hx| ->]%Hfl; apply Hh; [left; auto|]. destruct He as [Hne He].
      right. exists data, index, true. split; [set_solver|].
      destruct data; [done|]. lens. lia. }
    split; [done|]. intros [Hx|[Hx Hm]]%Hen.
    + apply Hended in Hx. pose proof (push_pushed r data index eof (sound_inv _ _ _ Hr) Hp ltac:(lia)) as [].
      destruct pushed_read0 as (bs & _ & Hn & _). destruct Hr'. lens. lia.
    + destruct (Hlast Hx) as [Hlt|[v Hv]]; [|by rewrite Hm, lookup_empty in Hv].
      destruct Hr'. lia.
  - pose proof (read_out_spec r len (sound_inv _ _ _ Hr) Ho) as Hrd.
    destruct (step (ReadOut len) r) as [r' out']. destruct Hrd as (_ & _ & Hn & Hm & _ & _ & Hfl & Hen).
    cbn [fst]. unfold eof_sound, held. rewrite Hn, Hm, Hfl, Hen. done.
Qed.

Lemma run_eof stream ops : forall out r,
  zlen stream < 18446744073709551616 -> sound stream out r -> tight r ->
  Forall (op_of stream) ops -> Forall (op_eof stream) ops -> ops_fit ops r ->
  eof_sound stream r -> eof_sound stream (fst (run ops r)).
Proof.
  induction ops as [|o ops IH]; intros out r Hs Hr Ht Hops He Hf Hsd; cbn [run fst]; [done|].
  apply Forall_cons in Hops as [Ho Hops]. apply Forall_cons in He as [He1 He].
  destruct Hf as [Hf1 Hf].
  destruct (step_exact stream out o r Hs Hr Ht Ho) as [Ht' _]; [done|].
  pose proof (step_eof stream out o r Hs Hr Ht Ho He1 (conj Hf1 I) Hsd) as Hsd'.
  pose proof (step_sound stream out o r Hs Hr Ho) as Hst. destruct (step o r) as [r' out'].
  cbn [fst] in *. specialize (IH (out ++ out') r' Hs Hst Ht' Hops He Hf Hsd').
  by destruct (run ops r').
Qed.

Lemma tight_new cap : tight (new cap).
Proof. intros k Hk. simpl in Hk. rewrite lookup_empty in Hk. by destruct Hk. Qed.

Lemma tight_memory r :
  inv r -> tight r -> buffer_size (_output r) + unassembled_bytes r <= _capacity r.
Proof.
  intros Hi Ht. pose proof (room_bounds r Hi) as Hr. pose proof (room_eq r Hi) as Hq.
  unfold unassembled_bytes. rewrite (inv_count r Hi).
  cut (Z.of_nat (size (myMap r)) <= remaining_capacity (_output r)); [lia|].
  replace (remaining_capacity (_output r)) with
    (nextIndex r + remaining_capacity (_output r) - nextIndex r) by lia.
  apply size_interval; [lia|]. intros k Hk%Ht. lia.
Qed.

(** ** Properties *)

(** The exit test of the flush loop is reached within the fuel, whatever the
    state, and more fuel changes nothing. *)
Lemma flush_loop_enough n : forall r,
  (size (myMap r) <= n)%nat ->
  flush_loop n r = flush r /\
  (myMap (flush_loop n r) !! nextIndex (flush_loop n r) = None \/
   remaining_capacity (_output (flush_loop n r)) <= 0).
Proof.
  unfold flush. induction n as [|n IH]; intros r Hn.
  - assert (size (myMap r) = 0%nat) as Hs by lia. rewrite Hs. split; [done|left; simpl].
    rewrite (map_size_empty_inv _ Hs). apply lookup_empty.
  - destruct (myMap r !! nextIndex r) as [v|] eqn:Hv.
    + pose proof (map_size_ne_0_lookup_2 (myMap r) (nextIndex r) ltac:(eauto)).
      destruct (size (myMap r)) as [|m] eqn:Hs; [done|]. cbn [flush_loop]. rewrite Hv.
      destruct (Z.ltb_spec 0 (remaining_capacity (_output r))); [|split; [done|right; lia]].
      set (r1 := mkSR _ _ _ _ _ _).
      assert (size (myMap r1) = m) as Hm by (simpl; rewrite map_size_delete_Some by eauto; lia).
      destruct (IH r1) as [He Hx]; [lia|]. split; [|done]. rewrite He, Hm. done.
    + assert (forall k, flush_loop k r = r) as Hf by (intros [|]; simpl; by rewrite ?Hv).
      rewrite !Hf. auto.
Qed.

(** A call at [nextIndex] does not call itself. *)
Lemma push_at_next n r data index eof :
  index = nextIndex r ->
  is_Some (push_substring_fuel 1 r data index eof) /\
  push_substring_fuel (S n) r data index eof = push_substring_fuel 1 r data index eof.
Proof.
  intros ->. cbn [push_substring_fuel].
  set (r1 := if eof && _ then _ else _).
  assert (nextIndex r1 = nextIndex r) as Hn by (subst r1; by case_match).
  rewrite Hn, !Z.ltb_irrefl. cbn [andb]. repeat case_match; eauto.
Qed.

(** Only the recursive call at [nextIndex] depends on the fuel. *)
Lemma push_fuel_S f g r data index eof :
  (forall r1 d, is_Some (push_substring_fuel f r1 d (nextIndex r1) eof) /\
     push_substring_fuel g r1 d (nextIndex r1) eof = push_substring_fuel f r1 d (nextIndex r1) eof) ->
  is_Some (push_substring_fuel (S f) r data index eof) /\
  push_substring_fuel (S g) r data index eof = push_substring_fuel (S f) r data index eof.
Proof.
  intros H. cbn [push_substring_fuel]. set (r1 := if eof && _ then _ else _).
  destruct (H r1 (zdrop (u64 (nextIndex r1 - index)) data)) as [Hs He]. rewrite He.
  repeat case_match; eauto.
Qed.

(** C30 [push_substring] terminates on every state and argument: its recursion is
    at most one call deep (so two units of fuel give the result, and more
    change nothing), and its [while] loop reaches its exit test after at most
    as many iterations as there are stored substrings. *)
Theorem push_substring_total r data index eof n :
  push_substring_fuel (2 + n) r data index eof = Some (push_substring r data index eof) /\
  ((size (myMap r) <= n)%nat -> flush_loop n r = flush r /\
   (myMap (flush r) !! nextIndex (flush r) = None \/
    remaining_capacity (stream_out (flush r)) <= 0)).
Proof.
  split.
  - destruct (push_fuel_S 1 (S n) r data index eof) as [[x Hx] He];
      [intros; by apply push_at_next|].
    change (2 + n)%nat with (S (S n)). unfold push_substring. by rewrite He, Hx.
  - intros Hn. destruct (flush_loop_enough n r Hn) as [He Hx]. rewrite He in Hx. auto.
Qed.

(** Reassembly is sound: whatever excerpts of [stream] are pushed, in any
    order, overlapping, repeated or partly beyond the capacity, and whenever
    the reader reads, the bytes read so far followed by the buffered ones are
    the prefix of [stream] of length [nextIndex], which is also the number of
    bytes written; the state stays well formed. *)
Theorem reassembly_sound stream capacity ops :
  is_u64 capacity -> zlen stream < 18446744073709551616 -> Forall (op_of stream) ops ->
  let '(r, out) := run ops (new capacity) in
  inv r /\ out ++ _buf (stream_out r) = ztake (nextIndex r) stream /\
  nextIndex r = bytes_written (stream_out r) /\ nextIndex r <= zlen stream.
Proof.
  intros Hc Hs Hops.
  pose proof (run_sound stream ops [] (new capacity) Hs (sound_new stream capacity Hc) Hops) as H.
  destruct (run ops (new capacity)) as [r out]. destruct H as [Hi]. split_and!; try done. apply Hi.
Qed.

(** C8 Reassembly is exact and within memory: if every pushed excerpt ended
    inside the window at its time, then [nextIndex] is the first position that
    no push has covered, every covered position below or above it is held,
    and the buffered bytes plus the unassembled bytes stay within the
    capacity. *)
Theorem reassembly_exact stream capacity ops :
  is_u64 capacity -> zlen stream < 18446744073709551616 -> Forall (op_of stream) ops ->
  ops_fit ops (new capacity) ->
  let r := fst (run ops (new capacity)) in
  (forall p, 0 <= p -> held r p <-> covered ops p) /\
  (forall p, 0 <= p < nextIndex r -> covered ops p) /\
  ~ covered ops (nextIndex r) /\
  buffer_size (stream_out r) + unassembled_bytes r <= _capacity r.
Proof.
  intros Hc Hs Hops Hf.
  pose proof (sound_new stream capacity Hc) as Hn.
  pose proof (run_sound stream ops [] (new capacity) Hs Hn Hops) as Hr.
  destruct (run_exact stream ops [] (new capacity) Hs Hn (tight_new _) Hops Hf) as [Ht Hh].
  destruct (run ops (new capacity)) as [r out]. cbn [fst] in *.
  assert (forall p, 0 <= p -> held r p <-> covered ops p) as Hcov.
  { intros p Hp. rewrite Hh. split; [|by right]. intros [[Hx|Hx]|?]; [simpl in Hx; lia| |done].
    simpl in Hx. rewrite lookup_empty in Hx. by destruct Hx. }
  pose proof (inv_next_u64 r (sound_inv _ _ _ Hr)) as Hu.
  split_and!; try done.
  - intros p Hp. apply Hcov; [lia|]. left. lia.
  - intros Hx. apply Hcov in Hx as [Hx|Hx]; [lia|apply Ht in Hx; lia|words; lia].
  - apply tight_memory; [apply Hr|done].
Qed.

(** The end of input is not announced early when the pushes fit the window
    and every end-of-stream push carries the last byte of the stream: an
    ended output has received the whole stream. *)
Theorem eof_not_early stream capacity ops :
  is_u64 capacity -> zlen stream < 18446744073709551616 ->
  Forall (op_of stream) ops -> Forall (op_eof stream) ops -> ops_fit ops (new capacity) ->
  let '(r, out) := run ops (new capacity) in
  input_ended (stream_out r) = true -> out ++ _buf (stream_out r) = stream.
Proof.
  intros Hc Hs Hops Heof Hf.
  pose proof (sound_new stream capacity Hc) as Hn.
  pose proof (run_sound stream ops [] (new capacity) Hs Hn Hops) as Hr.
  pose proof (run_eof stream ops [] (new capacity) Hs Hn (tight_new _) Hops Heof Hf) as He.
  destruct (run ops (new capacity)) as [r out]. cbn [fst] in *. intros Hend.
  destruct He as [_ He]; [done|]. specialize (He Hend). destruct Hr as [_ Ho].
  simpl in Ho. unfold stream_out. rewrite Ho, He. by apply ztake_all.
Qed.

(** The end of input is announced on time: an end-of-stream excerpt that
    fits the window and reaches [nextIndex] completes the stream and ends it. *)
Theorem eof_on_time stream out r data index :
  zlen stream < 18446744073709551616 -> sound stream out r -> tight r ->
  excerpt stream index data -> index + zlen data = zlen stream -> fits r data index ->
  index <= nextIndex r -> nextIndex r < zlen stream \/ index = nextIndex r ->
  let r' := push_substring r data index true in
  input_ended (stream_out r') = true /\ out ++ _buf (stream_out r') = stream /\
  unassembled_bytes r' = 0.
Proof.
  intros Hs Hr Ht He Hl Hf Hle Hd r'. pose proof He as (Hp & _ & _).
  pose proof (sound_inv _ _ _ Hr) as Hi. pose proof (room_bounds r Hi) as Hroom.
  pose proof (sound_next _ _ _ Hr) as Hsn.
  assert (pushed data index r r') as Hpu by (apply push_pushed; [done|done|lia]).
  pose proof (pushed_sound _ _ _ _ _ _ Hr He Hpu) as Hr'.
  destruct (push_fits r data index true) as [Ht' Hh]; [done|done|done|lia|done|]. fold r' in Ht', Hh.
  assert (nextIndex r' = zlen stream) as Hn.
  { destruct Hr'. destruct (decide (nextIndex r' = zlen stream)); [done|exfalso].
    destruct (Hh (nextIndex r')) as [Hx|Hx]; [|lia|apply Ht' in Hx; lia].
    destruct Hpu as [_ _ (bs & _ & Hx & _) _ _]. lens. lia. }
  assert (myMap r' = ∅) as Hm.
  { apply map_eq. intros k. rewrite lookup_empty. destruct (myMap r' !! k) as [v|] eqn:Hk; [|done].
    destruct (Ht' k) as [Hlt _]; [eauto|]. apply (sound_map _ _ _ Hr') in Hk as (b & _ & Hb).
    apply lookup_lt_Some in Hb. rewrite Hn, zlen_eq in Hlt. lia. }
  split_and!.
  - subst r'. rewrite push_deliver in Hm |- * by (done || lia).
    set (n := index + zlen data - nextIndex r) in *. unfold fits in Hf.
    destruct (mark_eq r true n) as (_ & Hnx & _ & _ & _ & Hfl).
    apply deliver_flags; [by apply inv_mark|rewrite Hnx, zlen_zdrop by lia; lia|].
    right. split; [|done]. rewrite Hfl. subst n. ztests; by rewrite orb_true_r.
  - unfold stream_out. rewrite (sound_out _ _ _ Hr'), Hn. by apply ztake_all.
  - unfold unassembled_bytes. by rewrite (inv_count _ (sound_inv _ _ _ Hr')), Hm.
Qed.

(** An end-of-stream push without data that arrives ahead of a gap ends the
    stream at the gap: after the empty final excerpt at [index], the first
    in-order byte closes the output although [index - 1] bytes are missing. *)
Theorem eof_before_gap capacity index b :
  is_u64 capacity -> 1 < index < capacity ->
  let r := push_substring (push_substring (new capacity) [] index true) [b] 0 false in
  input_ended (stream_out r) = true /\ bytes_written (stream_out r) = 1 /\
  nextIndex r < index.
Proof.
  intros Hc Hi. assert (zlen [b] = 1) as H1 by done.
  rewrite (push_store (new capacity) [] index true) by (auto using reassembler_inv_new; lens_nil; simpl; words; lia).
  set (r1 := store_loop _ _ _).
  assert (r1 = set_eof_flag (new capacity)) as ->.
  { subst r1. rewrite (ztake_all _ []) by (lens_nil; pose proof (room_bounds _ (reassembler_inv_new _ Hc)); lia).
    simpl. unfold mark; simpl. lens_nil. ztests. done. }
  assert (inv (set_eof_flag (new capacity))) as Hi1 by by destruct (reassembler_inv_new _ Hc).
  rewrite push_deliver by (simpl; rewrite ?H1; auto; lia). simpl. unfold mark; simpl. rewrite zdrop_0.
  destruct (deliver_spec (set_eof_flag (new capacity)) [b]) as (r0 & bs & [] & Hbs & _ & ->);
    [done|simpl; lia|].
  assert (remaining_capacity (ByteStream.new capacity) = capacity) as Hroom
    by (rewrite (remaining_capacity_eq _ (ByteStream.stream_inv_new _ Hc)); simpl; lens_nil; lia).
  simpl in *. rewrite Hroom, (ztake_all _ [b]) in * by lia.
  assert (bs = []) as ->.
  { destruct bs as [|c bs]; [done|]. by specialize (Hbs 0%nat c eq_refl). }
  rewrite app_nil_r, H1 in *.
  assert (myMap r0 = ∅) as Hm.
  { apply map_eq. intros k. rewrite adv_map0. by case_decide. }
  rewrite (inv_count r0 adv_inv0), Hm, map_size_empty. simpl.
  pose proof (inv_next r0 adv_inv0) as Hw. unfold bytes_written in *; simpl.
  rewrite <- Hw. split_and!; try done; lia.
Qed.

(** An end-of-stream push whose tail finds no room in the output still ends
    the stream: the tail is dropped, and the output closes after the part
    that fitted. *)
Theorem eof_after_truncation :
  let r0 := push_substring (new 2) [97] 0 false in
  let r := push_substring r0 [98; 99] 1 true in
  input_ended (stream_out r) = true /\ _buf (stream_out r) = [97; 98] /\ nextIndex r = 2.
Proof. vm_compute. repeat split. Qed.

(** The reassembler can hold more bytes than its capacity: the storing
    branch bounds the length of what it stores, not its position. *)
Theorem memory_exceeds_capacity :
  let r := push_substring (push_substring (new 3) [99; 100; 101] 2 false) [98; 99; 100] 1 false in
  _capacity r < buffer_size (stream_out r) + unassembled_bytes r.
Proof. vm_compute. reflexivity. Qed.

(** Witnesses *)

Definition demo_stream : bytes := [104; 101; 108; 108; 111].
Definition demo_ops : list op :=
  [Push [108; 111] 3 true; Push [101; 108] 1 false; Push [104; 101] 0 false; ReadOut 3;
   Push [108; 108] 2 false].

Lemma demo_excerpts : Forall (op_of demo_stream) demo_ops.
Proof. repeat constructor; vm_compute; congruence. Qed.

Lemma demo_fit : ops_fit demo_ops (new 6).
Proof. vm_compute. intuition congruence. Qed.

Lemma reassembly_sound_witness :
  let '(r, out) := run demo_ops (new 6) in
  out ++ _buf (stream_out r) = ztake (nextIndex r) demo_stream /\ out = [104; 101; 108].
Proof.
  pose proof (reassembly_sound demo_stream 6 demo_ops) as H.
  destruct (run demo_ops (new 6)) as [r out] eqn:E. vm_compute in E. injection E as <- <-.
  split; [|reflexivity]. apply H; [vm_compute; split; congruence|reflexivity|exact demo_excerpts].
Defined.

Lemma reassembly_exact_witness :
  let r := fst (run demo_ops (new 6)) in
  ~ covered demo_ops (nextIndex r) /\ nextIndex r = 5.
Proof.
  pose proof (reassembly_exact demo_stream 6 demo_ops) as H. cbv zeta in H.
  split; [|vm_compute; reflexivity].
  apply H; [vm_compute; split; congruence|reflexivity|exact demo_excerpts|exact demo_fit].
Defined.

Lemma eof_not_early_witness :
  let '(r, out) := run demo_ops (new 6) in
  input_ended (stream_out r) = true /\ out ++ _buf (stream_out r) = demo_stream.
Proof.
  pose proof (eof_not_early demo_stream 6 demo_ops) as H.
  destruct (run demo_ops (new 6)) as [r out] eqn:E. vm_compute in E. injection E as <- <-.
  split; [reflexivity|].
  apply H; [vm_compute; split; congruence|reflexivity|exact demo_excerpts| |exact demo_fit|reflexivity].
  repeat constructor; vm_compute; congruence.
Defined.

Lemma eof_on_time_witness :
  let r := push_substring (new 6) [108; 111] 3 true in
  input_ended (stream_out (push_substring r demo_stream 0 true)) = true /\ unassembled_bytes r = 2.
Proof.
  split; [|reflexivity].
  assert (is_u64 6) as H6 by (vm_compute; split; congruence).
  apply (eof_on_time demo_stream [] (push_substring (new 6) [108; 111] 3 true) demo_stream 0);
    [reflexivity| | |vm_compute; intuition congruence|reflexivity|vm_compute; congruence..|
     left; vm_compute; reflexivity].
  - eapply pushed_sound; [by apply sound_new| |apply push_pushed]; [|by apply reassembler_inv_new|lia|by vm_compute].
    vm_compute; intuition congruence.
  - apply push_fits; [by apply reassembler_inv_new|apply tight_new|lia|by vm_compute|by vm_compute].
Defined.

Lemma eof_before_gap_witness :
  let r := push_substring (push_substring (new 10) [] 5 true) [97] 0 false in
  input_ended (stream_out r) = true /\ bytes_written (stream_out r) = 1.
Proof.
  pose proof (eof_before_gap 10 5 97) as H. cbv zeta in H.
  split; apply H; (vm_compute; split; congruence) || lia.
Defined.

Lemma push_substring_total_witness :
  flush_loop 3 (new 4) = flush (new 4) /\ push_substring_fuel 5 (new 4) [1] 0 true <> None.
Proof.
  destruct (push_substring_total (new 4) [1] 0 true 3) as [H1 H2]. split.
  - apply H2. vm_compute. lia.
  - change 5%nat with (2 + 3)%nat. rewrite H1. congruence.
Defined.
