(* ===== verification/InternetChecksum.v ===== *)
(** * InternetChecksum: the 16-bit one's complement checksum

    Models the class [InternetChecksum] of [src/libsponge/util/util.hh] and
    [util.cc]: a 32-bit running sum with a parity bit, folded to 16 bits and
    complemented by [value].  The theorems state what [value] computes modulo
    65535, that the sum does not depend on how the data is split into [add]
    calls, and that storing the value in a zeroed field makes the checksum of
    the whole verify. *)

From S2P Require Import Prelude.

Record InternetChecksum := mkChecksum { _sum : Z; _parity : bool }.

Definition new (initial_sum : Z) : InternetChecksum := mkChecksum initial_sum false.

(** One iteration of the loop of [add]. *)
Definition add_byte (c : InternetChecksum) (b : byte) : InternetChecksum :=
  let val := u8 b in
  let val := if negb (_parity c) then u16 (Z.shiftl val 8) else val in
  mkChecksum (u32 (_sum c + val)) (negb (_parity c)).

Fixpoint add (c : InternetChecksum) (data : bytes) : InternetChecksum :=
  match data with
  | [] => c
  | b :: data => add (add_byte c b) data
  end.

(** [while (ret > 0xffff)]; three iterations reach the exit from any 32-bit
    value ([fold16_done]). *)
Fixpoint fold16 (fuel : nat) (ret : Z) : Z :=
  match fuel with
  | O => ret
  | S fuel =>
      if 0xffff <? ret
      then fold16 fuel (u32 (Z.shiftr ret 16 + Z.land ret 0xffff))
      else ret
  end.

Definition value (c : InternetChecksum) : Z := u16 (Z.lnot (fold16 3 (_sum c))).

(** ** The fold *)
Lemma fold_once z : is_u32 z ->
  u32 (Z.shiftr z 16 + Z.land z 0xffff) = z / 65536 + z mod 65536.
Proof.
  intros Hz. change 0xffff with (Z.ones 16). rewrite Z.land_ones, Z.shiftr_div_pow2 by lia.
  change (2 ^ 16) with 65536. wsolve.
Qed.

(** The loop ends within the fuel in a 16-bit value congruent to the sum
    modulo 65535, which is zero only for a zero sum. *)
Lemma fold16_done n z :
  is_u32 z -> (3 <= n)%nat ->
  0 <= fold16 n z <= 0xffff /\ fold16 n z mod 65535 = z mod 65535 /\
  (fold16 n z = 0 <-> z = 0).
Proof.
  intros Hz Hn. destruct n as [|[|[|n]]]; try lia. clear Hn.
  assert (forall m y, 0 <= y <= 0xffff -> fold16 m y = y) as Hexit.
  { intros [|m] y Hy; simpl; [done|]. by ztests. }
  assert (forall y, is_u32 y -> y / 65536 + y mod 65536 <= 131070 /\ 0 <= y / 65536 + y mod 65536 /\
            (y / 65536 + y mod 65536) mod 65535 = y mod 65535 /\
            (y / 65536 + y mod 65536 = 0 <-> y = 0)) as Hstep by (intros y Hy; wsolve).
  cbn [fold16]. rewrite !fold_once by done.
  destruct (Hstep z Hz) as (H1 & H2 & H3 & H4).
  generalize dependent (z / 65536 + z mod 65536). intros y Hy1 Hy2 Hy3 Hy4.
  assert (is_u32 y) as Hy by (words; lia).
  rewrite (fold_once y Hy). destruct (Hstep y Hy) as (_ & H5 & H6 & H7).
  assert (y / 65536 + y mod 65536 <= 0xffff) as H8 by (clear -Hy1 Hy2; wsolve).
  generalize dependent (y / 65536 + y mod 65536). intros x Hx1 Hx2 Hx3 Hx4.
  words. ztests; rewrite ?Hexit by lia; split_and!; try lia; congruence.
Qed.

(** The residue a sum folds to, complemented by [value]. *)
Lemma value_spec c :
  is_u32 (_sum c) ->
  is_u16 (value c) /\
  (value c + _sum c) mod 65535 = 0 /\
  (value c = 0 <-> 0 < _sum c /\ _sum c mod 65535 = 0).
Proof.
  intros Hs. unfold value.
  destruct (fold16_done 3 (_sum c) Hs ltac:(lia)) as (H1 & H2 & H3).
  generalize dependent (fold16 3 (_sum c)). intros r Hr Hm H0.
  unfold Z.lnot. assert (u16 (Z.pred (- r)) = 65535 - r) as -> by wsolve.
  split; [words; lia|]. words. split; [Z.div_mod_to_equations; lia|].
  split.
  - intros. assert (r = 65535) by lia. subst. split; [|done].
    destruct (decide (_sum c = 0)) as [H0'%H0|]; [done|lia].
  - intros [Hp Hz]. assert (r mod 65535 = 0) as Hr0 by congruence.
    destruct (decide (r = 0)); [lia|]. Z.div_mod_to_equations; lia.
Qed.

(** ** The sum *)

(** The mathematical sum the running sum stands for: bytes at even positions
    weigh 256. *)
Fixpoint wsum (odd : bool) (data : bytes) : Z :=
  match data with
  | [] => 0
  | b :: data => (if odd then b else 256 * b) + wsum (negb odd) data
  end.

Lemma wsum_bounds odd data : wf_bytes data -> 0 <= wsum odd data <= 65280 * zlen data.
Proof.
  intros H. revert odd. induction H as [|b data Hb _ IH]; intros odd; simpl; lens; [lia|].
  specialize (IH (negb odd)). words. destruct odd; lia.
Qed.

Definition parity_after (odd : bool) (data : bytes) : bool := xorb odd (Z.odd (zlen data)).

Lemma parity_cons odd b data : parity_after odd (b :: data) = parity_after (negb odd) data.
Proof.
  unfold parity_after. rewrite zlen_cons, Z.odd_add. by destruct odd, (Z.odd (zlen data)).
Qed.

Lemma wsum_app data data' : forall odd,
  wsum odd (data ++ data') = wsum odd data + wsum (parity_after odd data) data'.
Proof.
  induction data as [|b data IH]; intros odd; simpl.
  - unfold parity_after. lens_nil. by rewrite xorb_false_r.
  - rewrite IH, parity_cons. lia.
Qed.

Lemma add_spec data : forall c,
  wf_bytes data ->
  add c data = mkChecksum (u32 (_sum c + wsum (_parity c) data)) (parity_after (_parity c) data) \/
  data = [] /\ add c data = c.
Proof.
  induction data as [|b data IH]; intros c Hw; [by right|left].
  apply Forall_cons in Hw as [Hb Hw]. cbn [add].
  assert (add_byte c b = mkChecksum (u32 (_sum c + (if _parity c then b else 256 * b))) (negb (_parity c))) as ->.
  { unfold add_byte. rewrite u8_id by done. rewrite Z.shiftl_mul_pow2 by lia. change (2 ^ 8) with 256.
    destruct (_parity c); simpl; [done|]. rewrite (Z.mul_comm b). rewrite u16_id by (words; lia). done. }
  destruct (IH (mkChecksum (u32 (_sum c + (if _parity c then b else 256 * b))) (negb (_parity c))) Hw) as [-> |[-> ->]];
    simpl; rewrite parity_cons.
  - f_equal. rewrite u32_add_l. f_equal. lia.
  - unfold parity_after. lens_nil. rewrite xorb_false_r. f_equal. f_equal. lia.
Qed.

Lemma add_app c data data' : add c (data ++ data') = add (add c data) data'.
Proof. revert c. induction data as [|b data IH]; intros c; simpl; auto. Qed.

(** Without overflow of the 32-bit accumulator. *)
Lemma add_sum c data :
  wf_bytes data -> is_u32 (_sum c) -> _sum c + 65280 * zlen data < 4294967296 ->
  _sum (add c data) = _sum c + wsum (_parity c) data /\
  _parity (add c data) = parity_after (_parity c) data.
Proof.
  intros Hw Hs Hl. pose proof (wsum_bounds (_parity c) data Hw).
  destruct (add_spec data c Hw) as [-> |[-> ->]]; simpl.
  - rewrite u32_id by (words; lia). done.
  - unfold parity_after. lens_nil. rewrite xorb_false_r. split; [lia|done].
Qed.

(** The accumulator does not overflow on [data] from [init]. *)
Definition small (init : Z) (data : bytes) : Prop :=
  wf_bytes data /\ 0 <= init /\ init + 65280 * zlen data < 4294967296.

Lemma value_zero init data :
  small init data ->
  value (add (new init) data) = 0 <-> 0 < init + wsum false data /\ (init + wsum false data) mod 65535 = 0.
Proof.
  intros (Hw & Hi & Hl). pose proof (wsum_bounds false data Hw) as Hb. pose proof (zlen_nonneg data).
  destruct (add_sum (new init) data Hw) as [Hs _]; [words; cbn [_sum new]; lia..|]. simpl in Hs.
  rewrite <- Hs. apply value_spec. rewrite Hs. words. lia.
Qed.

Lemma value_range init data : small init data -> is_u16 (value (add (new init) data)).
Proof. intros _. apply u16_range. Qed.

Lemma wsum_be16 v : wsum false (be16 v) = v.
Proof. unfold be16; simpl. pose proof (Z.div_mod v 256). lia. Qed.

(** Storing the checksum in a zeroed 16-bit field at an even offset makes the
    whole verify. *)
Lemma store_verifies init pre post :
  small init (pre ++ be16 0 ++ post) -> Z.even (zlen pre) = true ->
  let ck := value (add (new init) (pre ++ be16 0 ++ post)) in
  value (add (new init) (pre ++ be16 ck ++ post)) = 0.
Proof.
  intros Hs He ck. pose proof (value_range _ _ Hs) as Hck. fold ck in Hck.
  assert (forall v, wsum false (pre ++ be16 v ++ post) = wsum false pre + v + wsum false post) as Hsum.
  { intros v. rewrite !wsum_app. assert (parity_after false pre = false) as ->
      by (unfold parity_after; rewrite <- Z.negb_even, He; done).
    assert (parity_after false (be16 v) = false) as -> by done. rewrite wsum_be16. lia. }
  pose proof Hs as (Hw & Hi & Hl).
  assert (small init (pre ++ be16 ck ++ post)) as Hs'.
  { split_and!; [|done|by rewrite !zlen_app in *].
    apply Forall_app in Hw as [? [_ ?]%Forall_app]. apply Forall_app; split; [done|].
    apply Forall_app; split; [by apply wf_be16|done]. }
  apply value_zero; [done|]. rewrite Hsum.
  destruct (add_sum (new init) _ Hw) as [Hx _]; [words; cbn [_sum new]; lens; lia..|].
  destruct (value_spec (add (new init) (pre ++ be16 0 ++ post))) as (_ & Hm & Hz).
  { rewrite Hx. pose proof (wsum_bounds false _ Hw). cbn [_sum _parity new]. words. lens. lia. }
  rewrite Hx in Hm, Hz. fold ck in Hm, Hz. cbn [_sum _parity new] in Hm, Hz. rewrite Hsum in Hm, Hz.
  apply Forall_app in Hw as [Hw1 [_ Hw2]%Forall_app].
  pose proof (wsum_bounds false pre Hw1). pose proof (wsum_bounds false post Hw2).
  split; [|rewrite <- Hm; f_equal; lia].
  destruct (decide (ck = 0)) as [Hc|Hc]; [apply Hz in Hc; lia|words; lia].
Qed.

(** If the data verifies, then after replacing any one byte by a different one
    it no longer does. *)
Lemma flip_detected init pre b b' post :
  small init (pre ++ b :: post) -> is_u8 b' -> b <> b' ->
  value (add (new init) (pre ++ b :: post)) = 0 ->
  value (add (new init) (pre ++ b' :: post)) <> 0.
Proof.
  intros Hs Hb' Hne Hz Hz'. pose proof Hs as (Hw & Hi & Hl).
  apply Forall_app in Hw as [Hw1 [Hb Hw2]%Forall_cons].
  assert (small init (pre ++ b' :: post)) as Hs'.
  { split_and!; [|done|by rewrite !zlen_app, !zlen_cons in *].
    apply Forall_app; split; [done|]. by constructor. }
  apply value_zero in Hz as [_ Hz]; [|done]. apply value_zero in Hz' as [_ Hz']; [|done].
  rewrite wsum_app in Hz, Hz'. cbn [wsum] in Hz, Hz'.
  set (w := wsum (negb _) post) in *. set (x := wsum false pre) in *.
  words. destruct (parity_after false pre); Z.div_mod_to_equations; lia.
Qed.

(** ** Properties *)

(** Sender and verifier agree: for data of which the 32-bit accumulator does
    not overflow, writing the computed checksum into the zeroed field at an
    even offset makes the checksum of the result zero, however the data is
    split between calls to [add]. *)
Theorem checksum_verifies init pre post k :
  small init (pre ++ be16 0 ++ post) -> Z.even (zlen pre) = true ->
  let ck := value (add (new init) (pre ++ be16 0 ++ post)) in
  let data := pre ++ be16 ck ++ post in
  value (add (add (new init) (take k data)) (drop k data)) = 0.
Proof.
  intros Hs He ck data. rewrite <- add_app, take_drop. by apply store_verifies.
Qed.

Lemma checksum_verifies_witness :
  let ck := value (add (new 6) ([69; 0] ++ be16 0 ++ [1; 2; 3])) in
  ck = 46839 /\ value (add (add (new 6) [69]) ([0] ++ be16 ck ++ [1; 2; 3])) = 0.
Proof.
  split; [reflexivity|].
  apply (checksum_verifies 6 [69; 0] [1; 2; 3] 1); [|reflexivity].
  split_and!; [repeat constructor; vm_compute; congruence|lia|reflexivity].
Defined.

