(* ===== verification/Buffer.v ===== *)
(** * Buffer: reference-counted read-only strings

    Models [src/libsponge/util/buffer.hh] and [buffer.cc]: [Buffer], a shared
    string with an offset that discards bytes from the front; [BufferList], a
    queue of buffers; and [BufferViewList], a queue of string views.  The
    storage is never written after construction, so sharing it between copies
    is not observable and a buffer is a value here.

    The theorems relate the three to the string they stand for: discarding a
    prefix is [zdrop] on the concatenation and throws exactly when the prefix
    is longer than the contents. *)

From S2P Require Import Prelude.

(** ** Buffer *)

Record Buffer := mkBuffer {
  _storage : option bytes;
  _starting_offset : Z
}.

(** [Buffer() = default] and [Buffer(std::string &&)] *)
Definition Buffer_empty : Buffer := mkBuffer None 0.
Definition Buffer_of (s : bytes) : Buffer := mkBuffer (Some s) 0.

Definition str (b : Buffer) : bytes :=
  match _storage b with
  | None => []
  | Some s => zdrop (_starting_offset b) s
  end.

(** [str().at(n)] throws out of range. *)
Definition at_ (b : Buffer) (n : Z) : outcome byte :=
  if n <? zlen (str b)
  then match str b !! Z.to_nat n with Some c => Ret (u8 c) | None => Throw out_of_range end
  else Throw out_of_range.

Definition Buffer_size (b : Buffer) : Z := zlen (str b).

Definition copy (b : Buffer) : bytes := str b.

Definition Buffer_remove_prefix (b : Buffer) (n : Z) : outcome Buffer :=
  if Buffer_size b <? n then Throw out_of_range
  else
    let off := u64 (_starting_offset b + n) in
    match _storage b with
    | Some s => if off =? zlen s then Ret (mkBuffer None off) else Ret (mkBuffer (Some s) off)
    | None => Ret (mkBuffer None off)
    end.

(** The offset stays inside the storage. *)
Definition Buffer_wf (b : Buffer) : Prop :=
  match _storage b with
  | Some s => 0 <= _starting_offset b <= zlen s /\ is_u64 (zlen s)
  | None => True
  end.

Lemma Buffer_of_wf s : is_u64 (zlen s) -> Buffer_wf (Buffer_of s).
Proof. intros. split; simpl; lens; [lia|done]. Qed.

Lemma str_Buffer_of s : str (Buffer_of s) = s.
Proof. unfold str; simpl. apply zdrop_0. Qed.

Lemma Buffer_remove_prefix_spec b n :
  Buffer_wf b -> 0 <= n ->
  match Buffer_remove_prefix b n with
  | Ret b' => n <= Buffer_size b /\ str b' = zdrop n (str b) /\ Buffer_wf b'
  | Throw e => e = out_of_range /\ Buffer_size b < n
  end.
Proof.
  unfold Buffer_wf, Buffer_remove_prefix, Buffer_size, str. intros Hw Hn.
  destruct (_storage b) as [s|]; simpl.
  - destruct Hw as [Ho Hs]. rewrite zlen_zdrop by lia.
    destruct (Z.ltb_spec (Z.max 0 (zlen s - _starting_offset b)) n); [split; [done|lia]|].
    rewrite u64_id by (words; lia).
    destruct (Z.eqb_spec (_starting_offset b + n) (zlen s)); simpl.
    + split_and!; [lia| |done]. rewrite zdrop_zdrop, zdrop_all by lia. done.
    + split; [lia|]. split; [by rewrite zdrop_zdrop by lia|]. split; [lia|done].
  - lens_nil. ztests; [split; [done|lia]|]. split_and!; [lia| |done].
    by rewrite zdrop_all by (lens_nil; lia).
Qed.

(** ** BufferList *)

Record BufferList := mkBufferList { _buffers : list Buffer }.

Definition BufferList_empty : BufferList := mkBufferList [].
Definition BufferList_of_Buffer (b : Buffer) : BufferList := mkBufferList [b].
Definition BufferList_of (s : bytes) : BufferList := mkBufferList [Buffer_of s].

(** [for (buf : other._buffers) _buffers.push_back(buf)] *)
Definition append (l other : BufferList) : BufferList :=
  mkBufferList (fold_left (fun acc buf => acc ++ [buf]) (_buffers other) (_buffers l)).

(** [operator Buffer()] *)
Definition to_Buffer (l : BufferList) : outcome Buffer :=
  match _buffers l with
  | [] => Ret Buffer_empty
  | [b] => Ret b
  | _ => Throw runtime_error
  end.

Definition concatenate (l : BufferList) : bytes :=
  fold_left (fun ret buf => ret ++ str buf) (_buffers l) [].

Definition BufferList_size (l : BufferList) : Z :=
  fold_left (fun ret buf => u64 (ret + Buffer_size buf)) (_buffers l) 0.

(** [while (n > 0)]: every iteration but the last pops a buffer, so the loop
    is structural on the queue. *)
Fixpoint remove_prefix_loop (bufs : list Buffer) (n : Z) : outcome (list Buffer) :=
  if 0 <? n then
    match bufs with
    | [] => Throw out_of_range
    | b :: rest =>
        if n <? zlen (str b)
        then try: b' <- Buffer_remove_prefix b n; Ret (b' :: rest)
        else remove_prefix_loop rest (u64 (n - zlen (str b)))
    end
  else Ret bufs.

Definition BufferList_remove_prefix (l : BufferList) (n : Z) : outcome BufferList :=
  try: bufs <- remove_prefix_loop (_buffers l) n; Ret (mkBufferList bufs).

Definition BufferList_wf (l : BufferList) : Prop := Forall Buffer_wf (_buffers l).

(** The string a queue of buffers stands for. *)
Definition flat (bufs : list Buffer) : bytes := concat (map str bufs).

Lemma append_buffers l other : _buffers (append l other) = _buffers l ++ _buffers other.
Proof.
  unfold append; simpl. rewrite (fold_push_back id). by rewrite map_id.
Qed.

Lemma concatenate_flat l : concatenate l = flat (_buffers l).
Proof.
  unfold concatenate, flat. change (concat _) with ([] ++ concat (map str (_buffers l))).
  generalize (@nil Z). induction (_buffers l) as [|b bs IH]; intros acc; simpl.
  - by rewrite app_nil_r.
  - by rewrite IH, app_assoc.
Qed.

Lemma concatenate_append l other : concatenate (append l other) = concatenate l ++ concatenate other.
Proof. rewrite !concatenate_flat, append_buffers. unfold flat. by rewrite map_app, concat_app. Qed.

(** The list the serializers build: a header string, then a payload buffer. *)
Lemma concatenate_pair s b :
  concatenate (append (append BufferList_empty (BufferList_of s)) (BufferList_of_Buffer b)) = s ++ str b.
Proof.
  rewrite !concatenate_append, !concatenate_flat. unfold flat; simpl.
  by rewrite !app_nil_r, str_Buffer_of.
Qed.

Lemma BufferList_size_flat l :
  is_u64 (zlen (concatenate l)) -> BufferList_size l = zlen (concatenate l).
Proof.
  rewrite concatenate_flat. unfold BufferList_size, flat.
  assert (forall bs acc, 0 <= acc -> acc + zlen (concat (map str bs)) < 18446744073709551616 ->
    fold_left (fun ret buf => u64 (ret + Buffer_size buf)) bs acc = acc + zlen (concat (map str bs))) as Hgen.
  { induction bs as [|b bs IH]; intros acc Ha Hl; simpl; [lens; lia|]. simpl in Hl.
    unfold Buffer_size. lens. rewrite u64_id by (words; lia). rewrite IH by lia. lia. }
  intros Hu. rewrite Hgen; words; lia.
Qed.

Lemma remove_prefix_loop_spec bufs : forall n,
  Forall Buffer_wf bufs -> 0 <= n -> is_u64 n ->
  match remove_prefix_loop bufs n with
  | Ret bufs' => n <= zlen (flat bufs) /\ flat bufs' = zdrop n (flat bufs) /\ Forall Buffer_wf bufs'
  | Throw e => e = out_of_range /\ zlen (flat bufs) < n
  end.
Proof.
  unfold flat. induction bufs as [|b bufs IH]; intros n Hw Hn Hu; cbn [remove_prefix_loop].
  - ztests; simpl; lens_nil; [split; [done|lia]|].
    split_and!; [lia| |done]. by rewrite zdrop_all by (lens_nil; lia).
  - apply Forall_cons in Hw as [Hb Hw]. destruct (Z.ltb_spec 0 n); cbn [map concat].
    2: { replace n with 0 by lia. rewrite zdrop_0. lens. split_and!; [lia|done|by constructor]. }
    destruct (Z.ltb_spec n (zlen (str b))).
    + pose proof (Buffer_remove_prefix_spec b n Hb Hn) as Hs. unfold Buffer_size in Hs.
      destruct (Buffer_remove_prefix b n) as [b'|]; simpl; [|lia].
      destruct Hs as (_ & Hs & Hb'). lens. split_and!; [lia| |by constructor].
      rewrite Hs, !zdrop_drop, drop_app_le; [done|]. rewrite zlen_eq in *. lia.
    + lens. rewrite u64_id by (words; lia).
      specialize (IH (n - zlen (str b)) Hw ltac:(lia) ltac:(words; lia)).
      destruct (remove_prefix_loop bufs _); [|split; [apply IH|lia]].
      destruct IH as (Hl & Hf & ?). lens. split_and!; [lia| |done].
      rewrite Hf, !zdrop_drop, drop_app_ge; [f_equal; rewrite zlen_eq in *; lia|].
      rewrite zlen_eq in *. lia.
Qed.

(** ** BufferViewList

    A view is the string it shows. *)

Record BufferViewList := mkBufferViewList { _views : list bytes }.

Definition BufferViewList_of (s : bytes) : BufferViewList := mkBufferViewList [s].

(** [BufferViewList(const BufferList &)] *)
Definition BufferViewList_of_list (l : BufferList) : BufferViewList :=
  mkBufferViewList (fold_left (fun acc b => acc ++ [str b]) (_buffers l) []).

Fixpoint view_remove_prefix_loop (views : list bytes) (n : Z) : outcome (list bytes) :=
  if 0 <? n then
    match views with
    | [] => Throw out_of_range
    | v :: rest =>
        if n <? zlen v
        then Ret (zdrop n v :: rest)
        else view_remove_prefix_loop rest (u64 (n - zlen v))
    end
  else Ret views.

Definition BufferViewList_remove_prefix (l : BufferViewList) (n : Z) : outcome BufferViewList :=
  try: views <- view_remove_prefix_loop (_views l) n; Ret (mkBufferViewList views).

Definition BufferViewList_size (l : BufferViewList) : Z :=
  fold_left (fun ret v => u64 (ret + zlen v)) (_views l) 0.

(** The [iovec]s point at the views; a pair holds the bytes and the length. *)
Definition as_iovecs (l : BufferViewList) : list (bytes * Z) :=
  fold_left (fun ret v => ret ++ [(v, zlen v)]) (_views l) [].

Lemma views_of_list l : _views (BufferViewList_of_list l) = map str (_buffers l).
Proof. apply (fold_push_back str _ []). Qed.

(** A view list loses its prefix as the buffers it views would. *)
Lemma view_loop_buffers bufs : forall n,
  Forall Buffer_wf bufs -> is_u64 n ->
  view_remove_prefix_loop (map str bufs) n =
  (try: bufs' <- remove_prefix_loop bufs n; Ret (map str bufs')).
Proof.
  induction bufs as [|b bufs IH]; intros n Hw Hn; cbn [view_remove_prefix_loop remove_prefix_loop map].
  - by destruct (0 <? n).
  - apply Forall_cons in Hw as [Hb Hw]. destruct (Z.ltb_spec 0 n); [|done].
    destruct (Z.ltb_spec n (zlen (str b))); [|apply IH; [done|apply u64_range]].
    pose proof (Buffer_remove_prefix_spec b n Hb) as Hs. unfold Buffer_size in Hs.
    destruct (Buffer_remove_prefix b n) as [b'|]; simpl; [|lia].
    by destruct Hs as (_ & -> & _); [lia|].
Qed.

(** ** Properties *)

(** [BufferList::remove_prefix] discards exactly the first [n] bytes of the
    concatenation, whatever the boundaries between the buffers, and throws
    [out_of_range] exactly when fewer than [n] bytes are left; the view list
    made from the buffers behaves the same. *)
Theorem remove_prefix_is_drop l n :
  BufferList_wf l -> is_u64 n ->
  match BufferList_remove_prefix l n with
  | Ret l' => n <= zlen (concatenate l) /\ concatenate l' = zdrop n (concatenate l) /\
              BufferList_wf l'
  | Throw e => e = out_of_range /\ zlen (concatenate l) < n
  end /\
  BufferViewList_remove_prefix (BufferViewList_of_list l) n =
    (try: l' <- BufferList_remove_prefix l n; Ret (BufferViewList_of_list l')).
Proof.
  intros Hw Hn. split.
  - pose proof (remove_prefix_loop_spec (_buffers l) n Hw) as Hs.
    unfold BufferList_remove_prefix. rewrite concatenate_flat.
    destruct (remove_prefix_loop (_buffers l) n); simpl; [|apply Hs; [words; lia|done]].
    rewrite concatenate_flat. apply Hs; [words; lia|done].
  - unfold BufferViewList_remove_prefix, BufferList_remove_prefix.
    rewrite views_of_list, view_loop_buffers by done.
    destruct (remove_prefix_loop (_buffers l) n); simpl; [|done].
    unfold BufferViewList_of_list; simpl. by rewrite (fold_push_back str _ []).
Qed.

Lemma remove_prefix_is_drop_witness :
  let l := append (BufferList_of [1; 2; 3]) (BufferList_of [4; 5]) in
  BufferList_remove_prefix l 6 = Throw out_of_range /\
  match BufferList_remove_prefix l 4 with Ret l' => concatenate l' = [5] | Throw _ => False end.
Proof.
  set (l := append (BufferList_of [1; 2; 3]) (BufferList_of [4; 5])).
  assert (BufferList_wf l) as Hw
    by (repeat constructor; vm_compute; congruence).
  destruct (remove_prefix_is_drop l 4 Hw) as [H _]; [vm_compute; split; congruence|].
  split; [reflexivity|].
  destruct (BufferList_remove_prefix l 4) as [l'|e] eqn:E; [|vm_compute in E; discriminate].
  destruct H as (_ & H & _). rewrite H. reflexivity.
Defined.
