(* ===== verification/Parser.v ===== *)
(** * Parser: integers in network byte order

    Models [src/libsponge/util/parser.hh] and [parser.cc]: [ParseResult],
    [NetParser] and [NetUnparser].  A member function of [NetParser] is a
    computation of the [parser] monad below: it may change the parser and may
    throw (through [Buffer]).  The theorems: no parsing step throws, errors
    are sticky, and parsing undoes unparsing. *)

From Stdlib Require Import String.
From S2P Require Import Prelude Buffer.
Local Open Scope Z_scope.

Inductive ParseResult :=
  | NoError
  | BadChecksum
  | PacketTooShort
  | WrongIPVersion
  | HeaderTooShort
  | TruncatedPacket
  | Unsupported.

Global Instance ParseResult_eq_dec : EqDecision ParseResult.
Proof. solve_decision. Defined.

(** [static_cast<size_t>(r)] *)
Definition ParseResult_to_nat (r : ParseResult) : nat :=
  match r with
  | NoError => 0 | BadChecksum => 1 | PacketTooShort => 2 | WrongIPVersion => 3
  | HeaderTooShort => 4 | TruncatedPacket => 5 | Unsupported => 6
  end.

Definition _names : list string :=
  ["NoError"; "BadChecksum"; "PacketTooShort"; "WrongIPVersion"; "HeaderTooShort";
   "TruncatedPacket"]%string.

(** [None] is a read past the end of the array. *)
Definition as_string (r : ParseResult) : option string := _names !! ParseResult_to_nat r.

Record NetParser := mkParser { _buffer : Buffer; _error : ParseResult }.

Definition new (b : Buffer) : NetParser := mkParser b NoError.
Definition get_error (p : NetParser) : ParseResult := _error p.
Definition set_error (res : ParseResult) (p : NetParser) : NetParser := mkParser (_buffer p) res.
Definition error (p : NetParser) : bool := bool_decide (get_error p <> NoError).

(** ** The parser monad *)

Definition parser (A : Type) : Type := NetParser -> outcome (A * NetParser).

Definition pret {A} (a : A) : parser A := fun p => Ret (a, p).
Definition pbind {A B} (m : parser A) (f : A -> parser B) : parser B :=
  fun p => match m p with Ret (a, p') => f a p' | Throw e => Throw e end.

Notation "'let!' x ':=' m 'in' k" := (pbind m (fun x => k))
  (at level 100, x pattern, m at next level, k at level 200, right associativity) : sponge_scope.

Definition pget : parser NetParser := fun p => Ret (p, p).
Definition pmodify (f : NetParser -> NetParser) : parser unit := fun p => Ret (tt, f p).
Definition plift {A} (m : outcome A) : parser A :=
  fun p => match m with Ret a => Ret (a, p) | Throw e => Throw e end.

(** ** NetParser *)

Definition _check_size (size : Z) : parser unit :=
  pmodify (fun p => if Buffer_size (_buffer p) <? size then set_error PacketTooShort p else p).

Definition buffer_remove_prefix (n : Z) : parser unit :=
  let! p := pget in
  let! b := plift (Buffer_remove_prefix (_buffer p) n) in
  pmodify (fun p => mkParser b (_error p)).

(** Arithmetic of an unsigned type of [len] bytes. *)
Definition uw (len : nat) (z : Z) : Z := z mod 2 ^ (8 * Z.of_nat len).
Arguments uw : simpl never.

(** [for (i = 0; i < len; i++) { ret <<= 8; ret += _buffer.at(i); }], with [n]
    iterations left. *)
Fixpoint parse_loop (len n : nat) (i : Z) (b : Buffer) (ret : Z) : outcome Z :=
  match n with
  | O => Ret ret
  | S n =>
      let ret := uw len (Z.shiftl ret 8) in
      try: c <- at_ b i;
      parse_loop len n (i + 1) b (uw len (ret + c))
  end.

Definition _parse_int (len : nat) : parser Z :=
  let! _ := _check_size (Z.of_nat len) in
  let! p := pget in
  if error p then pret 0
  else
    let! ret := plift (parse_loop len len 0 (_buffer p) 0) in
    let! _ := buffer_remove_prefix (Z.of_nat len) in
    pret ret.

Definition p_u32 : parser Z := _parse_int 4.
Definition p_u16 : parser Z := _parse_int 2.
Definition p_u8 : parser Z := _parse_int 1.

Definition remove_prefix (n : Z) : parser unit :=
  let! _ := _check_size n in
  let! p := pget in
  if error p then pret tt else buffer_remove_prefix n.

(** ** NetUnparser *)

Fixpoint unparse_loop (len n : nat) (s : bytes) (val : Z) : bytes :=
  match n with
  | O => s
  | S n' =>
      let i := (len - n)%nat in
      let the_byte := u8 (Z.land (Z.shiftr val (Z.of_nat (len - i - 1) * 8)) 0xff) in
      unparse_loop len n' (s ++ [the_byte]) val
  end.

Definition _unparse_int (len : nat) (s : bytes) (val : Z) : bytes := unparse_loop len len s val.

Definition w_u32 (s : bytes) (val : Z) : bytes := _unparse_int 4 s val.
Definition w_u16 (s : bytes) (val : Z) : bytes := _unparse_int 2 s val.
Definition w_u8 (s : bytes) (val : Z) : bytes := _unparse_int 1 s val.

(** ** Values in network byte order *)

Definition be_val (l : bytes) : Z := fold_left (fun acc b => acc * 256 + b) l 0.

Lemma be_val_snoc l b : be_val (l ++ [b]) = be_val l * 256 + b.
Proof. unfold be_val. by rewrite fold_left_app. Qed.

Lemma be_val_bound l : wf_bytes l -> 0 <= be_val l < 2 ^ (8 * zlen l).
Proof.
  induction l as [|b l IH] using rev_ind; intros Hw; [unfold be_val; simpl; lens; simpl; lia|].
  apply Forall_app in Hw as [Hw [Hb _]%Forall_cons]. specialize (IH Hw).
  rewrite be_val_snoc, zlen_app. assert (zlen [b] = 1) as -> by done.
  replace (8 * (zlen l + 1)) with (8 * zlen l + 8) by lia. rewrite Z.pow_add_r by (lens; lia).
  change (2 ^ 8) with 256. words. nia.
Qed.

(** The bytes [_unparse_int] appends. *)
Fixpoint be (len : nat) (v : Z) : bytes :=
  match len with
  | O => []
  | S n => be n (v / 256) ++ [v mod 256]
  end.

Lemma length_be n v : length (be n v) = n.
Proof. revert v. induction n as [|n IH]; intros v; simpl; [done|]. rewrite length_app, IH. simpl. lia. Qed.

Lemma zlen_be n v : zlen (be n v) = Z.of_nat n.
Proof. by rewrite zlen_eq, length_be. Qed.

Lemma wf_be n v : wf_bytes (be n v).
Proof.
  revert v. induction n as [|n IH]; intros v; simpl; [constructor|].
  apply Forall_app. split; [apply IH|]. repeat constructor; wsolve.
Qed.

Lemma be_val_be n v : be_val (be n v) = v mod 2 ^ (8 * Z.of_nat n).
Proof.
  revert v. induction n as [|n IH]; intros v; [by rewrite Z.mod_1_r|].
  cbn [be]. rewrite be_val_snoc, IH.
  replace (8 * Z.of_nat (S n)) with (8 + 8 * Z.of_nat n) by lia.
  rewrite Z.pow_add_r by lia. change (2 ^ 8) with 256.
  rewrite Z.rem_mul_r by lia. lia.
Qed.

Lemma be_be16 v : is_u16 v -> be 2 v = be16 v.
Proof. intros. unfold be, be16. simpl. repeat f_equal. wsolve. Qed.

Lemma be_cons n v : be (S n) v = (v / 256 ^ Z.of_nat n) mod 256 :: be n v.
Proof.
  revert v. induction n as [|n IH]; intros v; [simpl; by rewrite Z.div_1_r|].
  change (be (S (S n)) v) with (be (S n) (v / 256) ++ [v mod 256]). rewrite IH. simpl.
  f_equal. rewrite Z.div_div by lia. f_equal. f_equal.
  rewrite Nat2Z.inj_succ, Z.pow_succ_r by lia. done.
Qed.

Lemma unparse_loop_be len n : forall s v,
  (n <= len)%nat -> unparse_loop len n s v = s ++ be n v.
Proof.
  induction n as [|n IH]; intros s v Hn; [simpl; by rewrite app_nil_r|].
  cbn [unparse_loop]. rewrite IH, be_cons, <- app_assoc by lia. simpl. repeat f_equal.
  replace (len - (len - S n) - 1)%nat with n by lia.
  change 0xff with (Z.ones 8). rewrite Z.land_ones, Z.shiftr_div_pow2 by lia.
  rewrite (Z.mul_comm _ 8), Z.pow_mul_r by lia. change (2 ^ 8) with 256. wsolve.
Qed.

Lemma unparse_int_be len s v : _unparse_int len s v = s ++ be len v.
Proof. by apply unparse_loop_be. Qed.

(** ** Parsing steps *)

(** [parses p s]: no error so far and [s] is left to parse. *)
Record parses (p : NetParser) (s : bytes) : Prop := mkParses {
  parses_wf : Buffer_wf (_buffer p);
  parses_str : str (_buffer p) = s;
  parses_ok : _error p = NoError
}.

Definition failed (p : NetParser) : Prop := Buffer_wf (_buffer p) /\ _error p <> NoError.

Lemma parses_new s : is_u64 (zlen s) -> parses (new (Buffer_of s)) s.
Proof. intros. constructor; simpl; auto using Buffer_of_wf, str_Buffer_of. Qed.

Lemma at_lookup b i c :
  is_u8 c -> str b !! i = Some c -> at_ b (Z.of_nat i) = Ret c.
Proof.
  intros Hc Hl. unfold at_. pose proof (lookup_lt_Some _ _ _ Hl).
  rewrite Nat2Z.id, Hl, zlen_eq. ztests. by rewrite u8_id.
Qed.

Lemma parse_loop_spec len b n : forall l rest i,
  wf_bytes (l ++ rest) -> str b = l ++ rest -> (length l + n)%nat = len -> (n <= length rest)%nat ->
  i = Z.of_nat (length l) ->
  parse_loop len n i b (be_val l) = Ret (be_val (l ++ take n rest)).
Proof.
  induction n as [|n IH]; intros l rest i Hw Hs Hlen Hn ->; cbn [parse_loop].
  - by rewrite take_0, app_nil_r.
  - destruct rest as [|c rest]; [simpl in Hn; lia|].
    pose proof Hw as [Hwl [Hc _]%Forall_cons]%Forall_app.
    rewrite (at_lookup b (length l) c Hc) by (rewrite Hs; by apply list_lookup_middle).
    cbn [obind]. pose proof (be_val_bound l Hwl) as Hb.
    assert (be_val (l ++ [c]) < 2 ^ (8 * Z.of_nat len)) as Hlt.
    { eapply Z.lt_le_trans; [apply be_val_bound; apply Forall_app; split; [done|by apply Forall_singleton]|].
      apply Z.pow_le_mono_r; [lia|]. rewrite zlen_eq, length_app. simpl. lia. }
    rewrite be_val_snoc in Hlt.
    assert (uw len (uw len (Z.shiftl (be_val l) 8) + c) = be_val (l ++ [c])) as ->.
    { unfold uw. rewrite Z.shiftl_mul_pow2 by lia. change (2 ^ 8) with 256.
      rewrite Zplus_mod_idemp_l, be_val_snoc. apply Z.mod_small. words. lia. }
    rewrite (IH (l ++ [c]) rest).
    + by rewrite <- app_assoc.
    + by rewrite <- app_assoc.
    + by rewrite <- app_assoc.
    + rewrite length_app. simpl. lia.
    + simpl in Hn. lia.
    + rewrite length_app. simpl. lia.
Qed.

(** Enough data: the value of the first [len] bytes, and the rest is left. *)
Lemma parse_int_ok len p s :
  wf_bytes s -> parses p s -> Z.of_nat len <= zlen s ->
  exists p', _parse_int len p = Ret (be_val (take len s), p') /\ parses p' (drop len s).
Proof.
  intros Hw [Hb Hs He] Hl. unfold _parse_int, pbind, _check_size, pmodify.
  unfold Buffer_size. rewrite Hs. destruct (Z.ltb_spec (zlen s) (Z.of_nat len)); [lia|].
  unfold pget, error, get_error. rewrite He. cbn -[parse_loop buffer_remove_prefix].
  pose proof (parse_loop_spec len (_buffer p) len [] s 0 Hw Hs eq_refl) as Hp.
  change (be_val []) with 0 in Hp.
  rewrite Hp by (done || (rewrite zlen_eq in Hl; lia)). simpl.
  unfold buffer_remove_prefix, pbind, pget, plift, pmodify. simpl.
  pose proof (Buffer_remove_prefix_spec (_buffer p) (Z.of_nat len) Hb ltac:(lia)) as Hr.
  unfold Buffer_size in Hr. rewrite Hs in Hr.
  destruct (Buffer_remove_prefix _ _) as [b'|]; [|lia]. destruct Hr as (_ & Hs' & Hb').
  eexists. split; [done|]. constructor; simpl; auto. by rewrite Hs', zdrop_drop, Nat2Z.id.
Qed.

(** Not enough data, or an earlier error: the value is 0 and the parser has
    failed. *)
Lemma parse_int_fail len p :
  Buffer_wf (_buffer p) -> _error p <> NoError \/ zlen (str (_buffer p)) < Z.of_nat len ->
  exists p', _parse_int len p = Ret (0, p') /\ failed p' /\ str (_buffer p') = str (_buffer p).
Proof.
  intros Hb Hf. unfold _parse_int, pbind, _check_size, pmodify, Buffer_size, pget, error, get_error.
  destruct (Z.ltb_spec (zlen (str (_buffer p))) (Z.of_nat len)); simpl.
  - eexists. split; [done|]. done.
  - rewrite bool_decide_eq_true_2 by (destruct Hf; [done|lia]). eexists. split; [done|].
    split; [|done]. split; [done|]. destruct Hf; [done|lia].
Qed.

Lemma remove_prefix_ok n p s :
  parses p s -> 0 <= n <= zlen s ->
  exists p', remove_prefix n p = Ret (tt, p') /\ parses p' (zdrop n s).
Proof.
  intros [Hb Hs He] Hl. unfold remove_prefix, pbind, _check_size, pmodify, Buffer_size.
  rewrite Hs. destruct (Z.ltb_spec (zlen s) n); [lia|].
  unfold pget, error, get_error. rewrite He. simpl.
  unfold buffer_remove_prefix, pbind, pget, plift, pmodify. simpl.
  pose proof (Buffer_remove_prefix_spec (_buffer p) n Hb ltac:(lia)) as Hr.
  unfold Buffer_size in Hr. rewrite Hs in Hr.
  destruct (Buffer_remove_prefix _ _) as [b'|]; [|lia]. destruct Hr as (_ & Hs' & Hb').
  eexists. split; [done|]. constructor; simpl; auto.
Qed.

Lemma remove_prefix_fail n p :
  Buffer_wf (_buffer p) -> _error p <> NoError \/ zlen (str (_buffer p)) < n ->
  exists p', remove_prefix n p = Ret (tt, p') /\ failed p' /\ str (_buffer p') = str (_buffer p).
Proof.
  intros Hb Hf. unfold remove_prefix, pbind, _check_size, pmodify, Buffer_size, pget, error, get_error.
  destruct (Z.ltb_spec (zlen (str (_buffer p))) n); simpl.
  - eexists. split; [done|]. done.
  - rewrite bool_decide_eq_true_2 by (destruct Hf; [done|lia]). eexists. split; [done|].
    split; [|done]. split; [done|]. destruct Hf; [done|lia].
Qed.

Lemma remove_prefix_short n p :
  zlen (str (_buffer p)) < n ->
  remove_prefix n p = Ret (tt, set_error PacketTooShort p).
Proof.
  intros Hn. unfold remove_prefix, pbind, _check_size, pmodify, Buffer_size, pget.
  by destruct (Z.ltb_spec (zlen (str (_buffer p))) n); [|lia].
Qed.

(** Reading back what [_unparse_int] wrote. *)
Lemma parse_be len v p rest :
  0 <= v < 2 ^ (8 * Z.of_nat len) -> wf_bytes rest -> parses p (be len v ++ rest) ->
  exists p', _parse_int len p = Ret (v, p') /\ parses p' rest.
Proof.
  intros Hv Hw Hp. assert (wf_bytes (be len v ++ rest)) as Hw' by (apply Forall_app; split; [apply wf_be|done]).
  destruct (parse_int_ok len p _ Hw' Hp) as (p' & He & Hp'); [rewrite zlen_app, zlen_be; lens; lia|].
  rewrite take_app_length' in He by (by rewrite length_be).
  rewrite drop_app_length' in Hp' by (by rewrite length_be).
  exists p'. rewrite He, be_val_be, Z.mod_small by done. done.
Qed.

Lemma pbind_Ret {A B} (m : parser A) (f : A -> parser B) p a p' :
  m p = Ret (a, p') -> pbind m f p = f a p'.
Proof. intros E. unfold pbind. by rewrite E. Qed.

(** *** Safety: a computation that returns, with a value in [Q], on every
    well-formed parser, and does not lengthen its data *)

Definition pwf (p : NetParser) : Prop := Buffer_wf (_buffer p) /\ wf_bytes (str (_buffer p)).

Definition safe {A} (m : parser A) (Q : A -> Prop) : Prop :=
  forall p, pwf p -> exists a p', m p = Ret (a, p') /\ Q a /\ pwf p' /\
    zlen (str (_buffer p')) <= zlen (str (_buffer p)).

Lemma parses_pwf p s : parses p s -> wf_bytes s -> pwf p.
Proof. intros [] ?. split; [done|]. by rewrite parses_str0. Qed.

Lemma safe_pret {A} (a : A) (Q : A -> Prop) : Q a -> safe (pret a) Q.
Proof. intros Ha p Hp. by exists a, p. Qed.

Lemma safe_pget : safe pget (fun _ => True).
Proof. intros p Hp. by exists p, p. Qed.

Lemma safe_pbind {A B} (m : parser A) (f : A -> parser B) Q R :
  safe m Q -> (forall a, Q a -> safe (f a) R) -> safe (pbind m f) R.
Proof.
  intros Hm Hf p Hp. destruct (Hm p Hp) as (a & p' & E & Ha & Hp' & Hl).
  rewrite (pbind_Ret _ _ _ _ _ E). destruct (Hf a Ha p' Hp') as (b & p'' & E' & Hb & Hp'' & Hl').
  exists b, p''. split_and!; try done. lia.
Qed.

Lemma safe_if {A} (b : bool) (m n : parser A) Q : safe m Q -> safe n Q -> safe (if b then m else n) Q.
Proof. by destruct b. Qed.

Lemma safe_parse_int len : safe (_parse_int len) (fun v => 0 <= v < 2 ^ (8 * Z.of_nat len)).
Proof.
  intros p [Hb Hw].
  destruct (decide (_error p = NoError /\ Z.of_nat len <= zlen (str (_buffer p)))) as [[He Hl]|Hn].
  - destruct (parse_int_ok len p (str (_buffer p))) as (p' & E & []); [done..|].
    exists (be_val (take len (str (_buffer p)))), p'. split_and!; try done.
    + apply be_val_bound. by apply Forall_take.
    + eapply Z.lt_le_trans; [apply be_val_bound; by apply Forall_take|].
      apply Z.pow_le_mono_r; [lia|]. rewrite zlen_eq, length_take. lia.
    + split; [done|]. rewrite parses_str0. by apply Forall_drop.
    + rewrite parses_str0, !zlen_eq, length_drop. lia.
  - destruct (parse_int_fail len p Hb) as (p' & E & [] & Hs).
    { destruct (decide (_error p = NoError)); [right; apply Z.nle_gt; tauto|by left]. }
    exists 0, p'. split_and!; try done; [|by split; [|rewrite Hs]|by rewrite Hs]. by apply Z.pow_pos_nonneg; lia.
Qed.

Lemma safe_remove_prefix n : 0 <= n -> safe (remove_prefix n) (fun _ => True).
Proof.
  intros Hn p [Hb Hw].
  destruct (decide (_error p = NoError /\ n <= zlen (str (_buffer p)))) as [[He Hl]|Hx].
  - destruct (remove_prefix_ok n p (str (_buffer p))) as (p' & E & []); [done|lia|].
    exists tt, p'. split_and!; try done.
    + split; [done|]. rewrite parses_str0, zdrop_drop. by apply Forall_drop.
    + rewrite parses_str0, zlen_zdrop; lia.
  - destruct (remove_prefix_fail n p Hb) as (p' & E & [] & Hs).
    { destruct (decide (_error p = NoError)); [right; apply Z.nle_gt; tauto|by left]. }
    exists tt, p'. split_and!; try done; [by split; [|rewrite Hs]|by rewrite Hs].
Qed.

#[export] Hint Resolve safe_pret safe_pget safe_if safe_parse_int safe_remove_prefix : sponge.

(** *** Running out of data: fewer than [n] bytes are left, or an error is recorded *)

Definition short (n : Z) (p : NetParser) : Prop :=
  pwf p /\ (_error p <> NoError \/ zlen (str (_buffer p)) < n).

Lemma short_parse_int n len p :
  short n p -> exists v p', _parse_int len p = Ret (v, p') /\ short (n - Z.of_nat len) p'.
Proof.
  intros [[Hb Hw] Hs].
  destruct (decide (_error p = NoError /\ Z.of_nat len <= zlen (str (_buffer p)))) as [[He Hl]|Hn].
  - destruct (parse_int_ok len p (str (_buffer p))) as (p' & E & []); [done..|].
    exists (be_val (take len (str (_buffer p)))), p'. split; [done|]. split.
    + split; [done|]. rewrite parses_str0. by apply Forall_drop.
    + right. destruct Hs as [|Hs]; [done|]. rewrite parses_str0, zlen_eq, length_drop.
      rewrite zlen_eq in *. lia.
  - destruct (parse_int_fail len p Hb) as (p' & E & [] & Hs').
    { destruct (decide (_error p = NoError)); [right; apply Z.nle_gt; tauto|by left]. }
    exists 0, p'. split; [done|]. split; [split; [done|by rewrite Hs']|by left].
Qed.

Lemma short_done p : short 0 p -> failed p.
Proof. intros [[Hb _] [He|Hl]]; [done|lens; lia]. Qed.

(** [pshort] runs the first integer of the goal's computation on a parser that
    will run out of data. *)
Ltac pshort :=
  match goal with
  | H : short ?n ?p |- context [pbind (_parse_int ?len) _ ?p] =>
      let v := fresh "v" in let p' := fresh "p" in let E := fresh "E" in let H' := fresh "S" in
      destruct (short_parse_int n len p H) as (v & p' & E & H');
      rewrite (pbind_Ret _ _ _ _ _ E); clear H E
  end.

(** [pnext] runs the first integer of the goal's computation on data known to
    be long enough. *)
Ltac pnext :=
  match goal with
  | H : parses ?p ?s |- context [pbind (_parse_int ?len) _ ?p] =>
      let p' := fresh "p" in let E := fresh "E" in let H' := fresh "P" in
      destruct (parse_int_ok len p s) as (p' & E & H');
      [repeat apply Forall_drop; assumption|exact H|
       rewrite zlen_eq, ?length_drop in *; lia|];
      rewrite (pbind_Ret _ _ _ _ _ E); clear H E; rewrite ?drop_drop in H'; simpl in H'
  end.

(** [pread E P] runs the first integer of the goal's computation on the data
    that the hypothesis [parses _ (be _ _ ++ _)] has at hand. *)
Ltac pread :=
  match goal with
  | H : parses ?p (be ?len ?v ++ ?rest) |- context [pbind _ _ ?p] =>
      let p' := fresh "p" in let E := fresh "E" in let H' := fresh "P" in
      destruct (parse_be len v p rest) as (p' & E & H'); [| |exact H|];
      [| |rewrite (pbind_Ret _ _ _ _ _ E); clear H E]
  end.

(** ** Properties *)

(** Integer parsing never throws and errors are sticky: on any well-formed
    parser, [_parse_int] either yields the big-endian value of the next [len]
    bytes and advances past them, or, when an error is already recorded or
    data is short, yields 0, leaves the data and has an error recorded. *)
Theorem parse_int_total len p :
  Buffer_wf (_buffer p) -> wf_bytes (str (_buffer p)) ->
  let s := str (_buffer p) in
  exists v p', _parse_int len p = Ret (v, p') /\
    ((_error p = NoError /\ Z.of_nat len <= zlen s /\
      v = be_val (take len s) /\ _error p' = NoError /\ str (_buffer p') = drop len s) \/
     ((_error p <> NoError \/ zlen s < Z.of_nat len) /\
      v = 0 /\ _error p' <> NoError /\ str (_buffer p') = s)).
Proof.
  intros Hb Hw s. destruct (decide (_error p = NoError)) as [He|He].
  - destruct (Z.le_gt_cases (Z.of_nat len) (zlen s)).
    + destruct (parse_int_ok len p s Hw) as (p' & Hp & []); [done|done|].
      exists (be_val (take len s)), p'. split; [done|]. left. done.
    + destruct (parse_int_fail len p Hb) as (p' & Hp & [_ Hf] & Hs); [by right|].
      exists 0, p'. split; [done|]. right. auto.
  - destruct (parse_int_fail len p Hb) as (p' & Hp & [_ Hf] & Hs); [by left|].
    exists 0, p'. split; [done|]. right. auto.
Qed.

(** Parsing undoes unparsing at every width: after [_unparse_int] appended a
    [len]-byte value to a string, a parser positioned at it reads the value
    back and is left at what follows. *)
Theorem parse_unparse len v rest :
  0 <= v < 2 ^ (8 * Z.of_nat len) -> wf_bytes rest ->
  Z.of_nat len + zlen rest < 18446744073709551616 ->
  exists p', _parse_int len (new (Buffer_of (_unparse_int len [] v ++ rest))) = Ret (v, p') /\
    str (_buffer p') = rest /\ get_error p' = NoError.
Proof.
  intros Hv Hw Hl. rewrite unparse_int_be. simpl.
  destruct (parse_be len v (new (Buffer_of (be len v ++ rest))) rest) as (p' & Hp & []); auto.
  { apply parses_new. rewrite zlen_app, zlen_be. lens. words. lia. }
  exists p'. done.
Qed.

(** The name table of [as_string] covers every result but [Unsupported], for
    which the lookup is past the end of the array. *)
Theorem as_string_range r : as_string r = None <-> r = Unsupported.
Proof. destruct r; vm_compute; split; congruence. Qed.

Lemma parse_int_total_witness :
  exists v p', _parse_int 2 (new (Buffer_of [1])) = Ret (v, p') /\ v = 0 /\ _error p' <> NoError.
Proof.
  destruct (parse_int_total 2 (new (Buffer_of [1]))) as (v & p' & H & [(_ & Hl & _)|(_ & Hv & He & _)]).
  - vm_compute; split; split; congruence.
  - repeat constructor; vm_compute; congruence.
  - exfalso. vm_compute in Hl. apply Hl. reflexivity.
  - exists v, p'. auto.
Defined.

Lemma parse_unparse_witness :
  exists p', _parse_int 4 (new (Buffer_of (_unparse_int 4 [] 305419896 ++ [7]))) = Ret (305419896, p').
Proof.
  destruct (parse_unparse 4 305419896 [7]) as (p' & H & _);
    [vm_compute; split; congruence|repeat constructor; vm_compute; congruence|reflexivity|].
  exists p'. exact H.
Defined.
