(* ===== verification/TCPHeader.v ===== *)
(** * TCPHeader: the TCP header on the wire

    Models [src/libsponge/tcp_helpers/tcp_header.hh] and [tcp_header.cc] (the
    fields, [parse], [serialize] and [operator==]; [to_string] and [summary] are
    in [HeaderText]).  The theorems: a serialized header parses back
    to itself whatever follows it, parsing arbitrary bytes never throws, and
    exactly which inputs are accepted. *)

From S2P Require Import Prelude WrappingIntegers Buffer Parser.

Definition LENGTH : Z := 20.

Record TCPHeader := mkTCPHeader {
  sport : Z;
  dport : Z;
  seqno : WrappingInt32;
  ackno : WrappingInt32;
  doff : Z;
  urg : bool;
  ack : bool;
  psh : bool;
  rst : bool;
  syn : bool;
  fin : bool;
  win : Z;
  cksum : Z;
  uptr : Z
}.

(** The default member initializers. *)
Definition new : TCPHeader :=
  mkTCPHeader 0 0 (mkW32 0) (mkW32 0) (LENGTH / 4) false false false false false false 0 0 0.

Definition parse : parser (TCPHeader * ParseResult) :=
  let! sport := p_u16 in
  let! dport := p_u16 in
  let! seqno := p_u32 in
  let! ackno := p_u32 in
  let! b := p_u8 in
  let doff := u8 (Z.shiftr b 4) in
  let! fl_b := p_u8 in
  let! win := p_u16 in
  let! cksum := p_u16 in
  let! uptr := p_u16 in
  let h := mkTCPHeader sport dport (of_uint seqno) (of_uint ackno) doff
    (flag fl_b 0x20) (flag fl_b 0x10) (flag fl_b 0x08)
    (flag fl_b 0x04) (flag fl_b 0x02) (flag fl_b 0x01) win cksum uptr in
  if doff <? 5 then pret (h, HeaderTooShort)
  else
    let! _ := remove_prefix (u64 (doff * 4 - LENGTH)) in
    let! p := pget in
    if error p then pret (h, get_error p) else pret (h, NoError).

(** The byte of flags built by [serialize]. *)
Definition flags_byte (h : TCPHeader) : Z :=
  Z.lor (Z.lor (Z.lor (Z.lor (Z.lor
    (if urg h then 0x20 else 0) (if ack h then 0x10 else 0)) (if psh h then 0x08 else 0))
    (if rst h then 0x04 else 0)) (if syn h then 0x02 else 0)) (if fin h then 0x01 else 0).

Definition serialize (h : TCPHeader) : outcome bytes :=
  if doff h <? 5 then Throw runtime_error
  else
    let ret := w_u16 [] (sport h) in
    let ret := w_u16 ret (dport h) in
    let ret := w_u32 ret (raw_value (seqno h)) in
    let ret := w_u32 ret (raw_value (ackno h)) in
    let ret := w_u8 ret (u8 (Z.shiftl (doff h) 4)) in
    let ret := w_u8 ret (flags_byte h) in
    let ret := w_u16 ret (win h) in
    let ret := w_u16 ret (cksum h) in
    let ret := w_u16 ret (uptr h) in
    Ret (resize ret (4 * doff h)).

(** [operator==], which leaves out the ports and the checksum. *)
Definition eqb (a b : TCPHeader) : bool :=
  WrappingIntegers.eqb (seqno a) (seqno b) && WrappingIntegers.eqb (ackno a) (ackno b) &&
  (doff a =? doff b) && Bool.eqb (urg a) (urg b) && Bool.eqb (ack a) (ack b) &&
  Bool.eqb (psh a) (psh b) && Bool.eqb (rst a) (rst b) && Bool.eqb (syn a) (syn b) &&
  Bool.eqb (fin a) (fin b) && (win a =? win b) && (uptr a =? uptr b).

(** ** Well-formed headers: every field in the range of its wire format *)

Record wf (h : TCPHeader) : Prop := mkWf {
  wf_sport : is_u16 (sport h);
  wf_dport : is_u16 (dport h);
  wf_seqno : WrappingIntegers.wf (seqno h);
  wf_ackno : WrappingIntegers.wf (ackno h);
  wf_doff : 5 <= doff h < 16;
  wf_win : is_u16 (win h);
  wf_cksum : is_u16 (cksum h);
  wf_uptr : is_u16 (uptr h)
}.

(** The bytes of a header around its checksum field. *)
Definition before_cksum (h : TCPHeader) : bytes :=
  be 2 (sport h) ++ be 2 (dport h) ++ be 4 (raw_value (seqno h)) ++ be 4 (raw_value (ackno h)) ++
  be 1 (u8 (Z.shiftl (doff h) 4)) ++ be 1 (flags_byte h) ++ be 2 (win h).

Definition after_cksum (h : TCPHeader) : bytes :=
  be 2 (uptr h) ++ replicate (Z.to_nat (4 * doff h - LENGTH)) 0.

Lemma zlen_before h : zlen (before_cksum h) = 16.
Proof. unfold before_cksum. by rewrite !zlen_app, !zlen_be. Qed.

Lemma serialize_eq h :
  5 <= doff h -> serialize h = Ret (before_cksum h ++ be 2 (cksum h) ++ after_cksum h).
Proof.
  intros Hd. unfold serialize, w_u16, w_u32, w_u8. destruct (Z.ltb_spec (doff h) 5); [lia|].
  rewrite !unparse_int_be. f_equal. rewrite (resize_grow _ _ 20)
    by (rewrite ?zlen_app, ?zlen_be; lens_nil; lia).
  unfold before_cksum, after_cksum. by rewrite <- !app_assoc.
Qed.

Lemma wf_header_bytes h : wf_bytes (before_cksum h) /\ wf_bytes (after_cksum h).
Proof.
  split; unfold before_cksum, after_cksum; repeat (apply Forall_app; split; [apply wf_be|]).
  - apply wf_be.
  - apply Forall_replicate. words. lia.
Qed.

Lemma flags_byte_range h : 0 <= flags_byte h < 64.
Proof. unfold flags_byte. destruct (urg h), (ack h), (psh h), (rst h), (syn h), (fin h); vm_compute; split; congruence. Qed.

Lemma flags_back h :
  flag (flags_byte h) 0x20 = urg h /\ flag (flags_byte h) 0x10 = ack h /\
  flag (flags_byte h) 0x08 = psh h /\ flag (flags_byte h) 0x04 = rst h /\
  flag (flags_byte h) 0x02 = syn h /\ flag (flags_byte h) 0x01 = fin h.
Proof. unfold flags_byte. destruct (urg h), (ack h), (psh h), (rst h), (syn h), (fin h); vm_compute; repeat split. Qed.

Lemma doff_back d : 5 <= d < 16 -> u8 (Z.shiftr (u8 (Z.shiftl d 4)) 4) = d.
Proof.
  intros. rewrite Z.shiftl_mul_pow2, Z.shiftr_div_pow2 by lia. change (2 ^ 4) with 16. wsolve.
Qed.

(** Parsing the bytes of a well-formed header. *)
Lemma parse_bytes h p rest :
  wf h -> wf_bytes rest -> parses p (before_cksum h ++ be 2 (cksum h) ++ after_cksum h ++ rest) ->
  exists p', parse p = Ret ((h, NoError), p') /\ parses p' rest.
Proof.
  intros [] Hw Hp. unfold before_cksum, after_cksum in Hp. rewrite <- !app_assoc in Hp.
  assert (forall n, wf_bytes (replicate n 0 ++ rest)) as Hw0.
  { intros n. apply Forall_app. split; [apply Forall_replicate; words; lia|done]. }
  pose proof (flags_byte_range h) as Hfl.
  unfold parse, p_u16, p_u32, p_u8.
  do 9 (pread; [unfold WrappingIntegers.wf in *; words; simpl; wsolve|
                repeat (apply Forall_app; split; [apply wf_be|]); apply Hw0|]).
  rewrite doff_back by done. destruct (Z.ltb_spec (doff h) 5); [lia|].
  unfold LENGTH in *. rewrite u64_id by (words; lia).
  match goal with H : parses ?q _ |- _ =>
    destruct (remove_prefix_ok (doff h * 4 - 20) q _ H) as (p' & E & P') end.
  { lens. rewrite zlen_replicate. lia. }
  rewrite (pbind_Ret _ _ _ _ _ E). rewrite zdrop_app_exact in P' by (rewrite zlen_replicate; lia).
  exists p'. unfold pbind, pget, error, get_error. rewrite (parses_ok _ _ P'). simpl.
  destruct (flags_back h) as (-> & -> & -> & -> & -> & ->).
  split; [|done]. unfold pret. repeat f_equal. destruct h; simpl in *; f_equal;
    apply W32_ext; simpl; by apply u32_id.
Qed.

(** The fields of a parsed header have the types of the members. *)
Lemma safe_parse : safe parse (fun '(h, _) =>
  WrappingIntegers.wf (seqno h) /\ WrappingIntegers.wf (ackno h) /\ is_u16 (win h) /\
  is_u16 (sport h) /\ is_u16 (dport h)).
Proof.
  unfold parse, p_u16, p_u32, p_u8. repeat (eapply safe_pbind; [apply safe_parse_int|intros ? ?]).
  apply safe_if; [apply safe_pret;
    refine (conj (wf_of_uint _) (conj (wf_of_uint _) (conj _ (conj _ _)))); assumption|].
  eapply safe_pbind; [apply safe_remove_prefix; wsolve|]. intros _ _.
  eapply safe_pbind; [apply safe_pget|]. intros p _.
  apply safe_if; apply safe_pret;
    refine (conj (wf_of_uint _) (conj (wf_of_uint _) (conj _ (conj _ _)))); assumption.
Qed.

(** The data offset field of a raw header: the high nibble of byte 12. *)
Definition raw_doff (s : bytes) : Z := Z.shiftr (be_val (take 1 (drop 12 s))) 4.

Lemma raw_doff_range s : wf_bytes s -> 0 <= raw_doff s < 16.
Proof.
  intros Hw. unfold raw_doff. rewrite Z.shiftr_div_pow2 by lia. change (2 ^ 4) with 16.
  assert (wf_bytes (take 1 (drop 12 s))) as Hw' by by apply Forall_take, Forall_drop.
  pose proof (be_val_bound _ Hw') as Hb.
  assert (be_val (take 1 (drop 12 s)) < 2 ^ 8).
  { eapply Z.lt_le_trans; [apply Hb|]. apply Z.pow_le_mono_r; [lia|].
    rewrite zlen_eq, length_take. lia. }
  change (2 ^ 8) with 256 in *. wsolve.
Qed.

(** ** Properties *)

(** A header round-trips through the wire: serializing a well-formed header
    succeeds, and parsing the result, whatever payload follows, yields the
    same header, no error, and leaves exactly the payload. *)
Theorem header_roundtrip h rest :
  wf h -> wf_bytes rest -> zlen rest < 18446744073709551000 ->
  exists s p', serialize h = Ret s /\ zlen s = 4 * doff h /\
    parse (Parser.new (Buffer_of (s ++ rest))) = Ret ((h, NoError), p') /\
    str (_buffer p') = rest /\ get_error p' = NoError.
Proof.
  intros Hh Hw Hl. pose proof (wf_doff h Hh) as Hd. rewrite serialize_eq by lia.
  set (s := before_cksum h ++ be 2 (cksum h) ++ after_cksum h).
  assert (zlen s = 4 * doff h) as Hs.
  { subst s. unfold after_cksum. rewrite !zlen_app, zlen_before, !zlen_be, zlen_replicate.
    unfold LENGTH. lia. }
  destruct (parse_bytes h (Parser.new (Buffer_of (s ++ rest))) rest) as (p' & E & []); [done|done| |].
  { replace (before_cksum h ++ be 2 (cksum h) ++ after_cksum h ++ rest) with (s ++ rest)
      by (subst s; by rewrite <- !app_assoc).
    apply parses_new. rewrite zlen_app, Hs. lens. words. lia. }
  exists s, p'. done.
Qed.

(** Parsing arbitrary bytes never throws, and the result is decided by the
    length and the data offset alone: with 20 bytes or more, too small an
    offset gives [HeaderTooShort], an offset beyond the data [PacketTooShort],
    and anything else [NoError]; with fewer than 20 bytes the result is an
    error and the parser records one. *)
Theorem parse_decides s :
  wf_bytes s -> is_u64 (zlen s) ->
  exists h res p', parse (Parser.new (Buffer_of s)) = Ret ((h, res), p') /\
  if 20 <=? zlen s then
    doff h = raw_doff s /\
    res = if raw_doff s <? 5 then HeaderTooShort
          else if zlen s <? 4 * raw_doff s then PacketTooShort else NoError
  else res <> NoError /\ get_error p' <> NoError.
Proof.
  intros Hw Hu. assert (parses (Parser.new (Buffer_of s)) s) as Hp by by apply parses_new.
  unfold parse, p_u16, p_u32, p_u8. destruct (Z.leb_spec 20 (zlen s)).
  - do 9 pnext. fold (raw_doff s). pose proof (raw_doff_range s Hw) as Hd. rewrite u8_id by (words; lia).
    destruct (Z.ltb_spec (raw_doff s) 5); [eexists _, _, _; split; done|].
    unfold LENGTH. rewrite u64_id by (words; lia).
    match goal with H : parses ?q (drop 20 s) |- _ => rename H into P'; rename q into p' end.
    assert (zlen (drop 20 s) = zlen s - 20) as Hl by (rewrite !zlen_eq, length_drop in *; lia).
    destruct (Z.ltb_spec (zlen s) (4 * raw_doff s)).
    + rewrite (pbind_Ret _ _ _ _ _ (remove_prefix_short (raw_doff s * 4 - 20) p' ltac:(rewrite (parses_str _ _ P'); lia))).
      eexists _, _, _. split; done.
    + destruct (remove_prefix_ok (raw_doff s * 4 - 20) p' _ P') as (p'' & E & P''); [lia|].
      rewrite (pbind_Ret _ _ _ _ _ E). unfold pbind, pget, error, get_error.
      rewrite (parses_ok _ _ P''). simpl. eexists _, _, _. split; done.
  - assert (short 20 (Parser.new (Buffer_of s))) as Hs
      by (split; [by apply (parses_pwf _ s)|right; simpl; by rewrite str_Buffer_of]).
    clear Hp. do 9 pshort.
    match goal with H : short _ ?q |- _ => change (short 0 q) in H; pose proof (short_done q H) as [Hb Hf] end.
    case_match.
    + eexists _, _, _. split; [done|]. done.
    + match goal with |- context [pbind (remove_prefix ?n) _ ?q] =>
        destruct (remove_prefix_fail n q Hb) as (p' & E & [_ Hf'] & _); [by left|] end.
      rewrite (pbind_Ret _ _ _ _ _ E). unfold pbind, pget, error, get_error.
      rewrite bool_decide_eq_true_2 by done. eexists _, _, _. split; [done|]. done.
Qed.

(** Witnesses *)

Definition demo_header : TCPHeader :=
  mkTCPHeader 4660 80 (mkW32 305419896) (mkW32 7) 6 false true false false true false 512 0 0.

Lemma header_roundtrip_witness :
  exists s p', serialize demo_header = Ret s /\ zlen s = 24 /\
    parse (Parser.new (Buffer_of (s ++ [1; 2]))) = Ret ((demo_header, NoError), p').
Proof.
  destruct (header_roundtrip demo_header [1; 2]) as (s & p' & H1 & H2 & H3 & _).
  - constructor; vm_compute; split; congruence.
  - repeat constructor; vm_compute; congruence.
  - reflexivity.
  - exists s, p'. split; [exact H1|]. split; [exact H2|exact H3].
Defined.

Lemma parse_decides_witness :
  exists h p', parse (Parser.new (Buffer_of (replicate 20 0))) = Ret ((h, HeaderTooShort), p').
Proof.
  destruct (parse_decides (replicate 20 0)) as (h & res & p' & H & Hd).
  - repeat constructor; vm_compute; congruence.
  - vm_compute; split; congruence.
  - vm_compute in Hd. destruct Hd as [_ ->]. exists h, p'. exact H.
Defined.
