(* ===== verification/TCPSegment.v ===== *)
(** * TCPSegment: header, payload and checksum

    Models [src/libsponge/tcp_helpers/tcp_segment.hh] and [tcp_segment.cc].
    The theorems: a serialized segment parses back to itself under the same
    pseudo-header sum, a single corrupted byte is rejected, and how [parse]
    treats a data offset that is too small. *)

From S2P Require Import Prelude WrappingIntegers InternetChecksum Buffer Parser TCPHeader.

Record TCPSegment := mkTCPSegment { _header : TCPHeader; _payload : Buffer }.

Definition new : TCPSegment := mkTCPSegment TCPHeader.new Buffer_empty.

(** [payload().str()] *)
Definition payload (seg : TCPSegment) : bytes := str (_payload seg).

Definition length_in_sequence_space (seg : TCPSegment) : Z :=
  u64 (zlen (str (_payload seg)) + (if syn (_header seg) then 1 else 0)
       + (if fin (_header seg) then 1 else 0)).

(** [check.value()] is tested as a boolean; the result of [_header.parse] is
    not looked at. *)
Definition parse (seg : TCPSegment) (buffer : Buffer) (datagram_layer_checksum : Z)
    : outcome (TCPSegment * ParseResult) :=
  let check := InternetChecksum.add (InternetChecksum.new datagram_layer_checksum) (str buffer) in
  if negb (value check =? 0) then Ret (seg, BadChecksum)
  else
    match TCPHeader.parse (Parser.new buffer) with
    | Ret ((h, _), p) => Ret (mkTCPSegment h (_buffer p), get_error p)
    | Throw e => Throw e
    end.

Definition set_cksum (h : TCPHeader) (c : Z) : TCPHeader :=
  mkTCPHeader (sport h) (dport h) (seqno h) (ackno h) (doff h) (urg h) (ack h) (psh h) (rst h)
    (syn h) (fin h) (win h) c (uptr h).

Definition serialize (seg : TCPSegment) (datagram_layer_checksum : Z) : outcome BufferList :=
  let header_out := set_cksum (_header seg) 0 in
  let check := InternetChecksum.new datagram_layer_checksum in
  try: s <- TCPHeader.serialize header_out;
  let check := InternetChecksum.add check s in
  let check := InternetChecksum.add check (str (_payload seg)) in
  let header_out := set_cksum header_out (value check) in
  try: s <- TCPHeader.serialize header_out;
  Ret (append (append BufferList_empty (BufferList_of s)) (BufferList_of_Buffer (_payload seg))).

(** ** Lemmas *)

Record wf (seg : TCPSegment) : Prop := mkWf {
  wf_header : TCPHeader.wf (_header seg);
  wf_payload : Buffer_wf (_payload seg);
  wf_payload_bytes : wf_bytes (str (_payload seg))
}.

Lemma zlen_header_bytes h :
  5 <= doff h < 16 -> zlen (before_cksum h ++ be 2 (cksum h) ++ after_cksum h) = 4 * doff h.
Proof.
  intros. unfold after_cksum. rewrite !zlen_app, zlen_before, !zlen_be, zlen_replicate.
  unfold LENGTH. lia.
Qed.

(** What [serialize] computes: the checksum of the segment with a zeroed
    field, and the bytes with that checksum in the field. *)
Definition segment_cksum (seg : TCPSegment) (dsum : Z) : Z :=
  value (InternetChecksum.add (InternetChecksum.new dsum)
    (before_cksum (_header seg) ++ be16 0 ++ after_cksum (_header seg) ++ payload seg)).

Definition wire (seg : TCPSegment) (dsum : Z) : bytes :=
  before_cksum (_header seg) ++ be 2 (segment_cksum seg dsum) ++ after_cksum (_header seg) ++
  payload seg.

Lemma serialize_wire seg dsum :
  5 <= doff (_header seg) ->
  exists l, serialize seg dsum = Ret l /\ concatenate l = wire seg dsum.
Proof.
  intros Hd. unfold serialize. rewrite serialize_eq by done. cbn [obind].
  rewrite <- add_app. rewrite serialize_eq by done. cbn [obind]. eexists. split; [done|].
  rewrite concatenate_pair, <- !app_assoc. reflexivity.
Qed.

(** The whole segment fits the 32-bit accumulator with the pseudo-header sum. *)
Definition fits_checksum (seg : TCPSegment) (dsum : Z) : Prop :=
  0 <= dsum /\ dsum + 65280 * (4 * doff (_header seg) + zlen (payload seg)) < 4294967296.

Lemma wire_small seg dsum c :
  wf seg -> fits_checksum seg dsum -> is_u16 c ->
  small dsum (before_cksum (_header seg) ++ be16 c ++ after_cksum (_header seg) ++ payload seg).
Proof.
  intros [Hh Hb Hp] [Hd Hf] Hc. destruct (wf_header_bytes (_header seg)) as [H1 H2].
  split_and!; [|done|].
  - apply Forall_app; split; [done|]. apply Forall_app; split; [by apply wf_be16|].
    apply Forall_app; split; done.
  - pose proof (zlen_header_bytes (_header seg) (wf_doff _ Hh)) as Hl.
    rewrite !zlen_app, zlen_be in Hl. rewrite !zlen_app.
    assert (zlen (be16 c) = 2) as -> by done. unfold payload in *. lia.
Qed.

Lemma wf_wire seg dsum : wf seg -> wf_bytes (wire seg dsum).
Proof.
  intros [_ _ Hp]. destruct (wf_header_bytes (_header seg)) as [H1 H2]. unfold wire.
  apply Forall_app; split; [done|]. apply Forall_app; split; [apply wf_be|].
  apply Forall_app; split; done.
Qed.

Lemma zlen_wire seg dsum :
  TCPHeader.wf (_header seg) -> zlen (wire seg dsum) = 4 * doff (_header seg) + zlen (payload seg).
Proof.
  intros Hh. pose proof (zlen_header_bytes (_header seg) (wf_doff _ Hh)) as Hl. unfold wire.
  rewrite !zlen_app, !zlen_be in *. lia.
Qed.

Lemma wire_verifies seg dsum :
  wf seg -> fits_checksum seg dsum ->
  value (InternetChecksum.add (InternetChecksum.new dsum) (wire seg dsum)) = 0.
Proof.
  intros Hw Hf. pose proof (wire_small seg dsum 0 Hw Hf ltac:(words; lia)) as Hs.
  pose proof (value_range _ _ Hs) as Hr. fold (segment_cksum seg dsum) in Hr.
  unfold wire. rewrite be_be16 by done. apply store_verifies; [done|by rewrite zlen_before].
Qed.

(** Parsing a serialized segment, from any buffer that holds its bytes. *)
Lemma parse_wire seg dsum seg0 b :
  wf seg -> fits_checksum seg dsum -> Buffer_wf b -> str b = wire seg dsum ->
  exists seg', parse seg0 b dsum = Ret (seg', NoError) /\
    _header seg' = set_cksum (_header seg) (segment_cksum seg dsum) /\
    payload seg' = payload seg /\ Buffer_wf (_payload seg').
Proof.
  intros Hw Hf Hb Hs. unfold parse. rewrite Hs, wire_verifies by done. simpl.
  destruct (parse_bytes (set_cksum (_header seg) (segment_cksum seg dsum)) (Parser.new b) (payload seg))
    as (p' & E & [Hb' Hs' He']).
  - destruct Hw as [[] _ _]. constructor; simpl; try done. apply u16_range.
  - apply Hw.
  - constructor; simpl; [done| |done]. rewrite Hs. unfold wire, before_cksum, after_cksum.
    by rewrite <- !app_assoc.
  - rewrite E. eexists. split; [unfold get_error; rewrite He'; done|]. simpl. done.
Qed.

(** ** Properties *)

(** C24 A segment round-trips through the wire: for a well-formed segment that
    fits the checksum accumulator, [serialize] returns, and [parse] of the
    bytes under the same datagram-layer sum accepts them and yields the same
    header fields and payload, with the checksum that was computed. *)
Theorem segment_roundtrip seg dsum seg0 :
  wf seg -> fits_checksum seg dsum ->
  exists l seg', serialize seg dsum = Ret l /\
    parse seg0 (Buffer_of (concatenate l)) dsum = Ret (seg', NoError) /\
    _header seg' = set_cksum (_header seg) (segment_cksum seg dsum) /\
    TCPHeader.eqb (_header seg') (_header seg) = true /\
    payload seg' = payload seg.
Proof.
  intros Hw Hf. pose proof (wf_doff _ (wf_header _ Hw)) as Hd.
  destruct (serialize_wire seg dsum ltac:(lia)) as (l & Hl & Hc).
  destruct (parse_wire seg dsum seg0 (Buffer_of (concatenate l)) Hw Hf) as (seg' & E & Hh & Hp & _).
  - apply Buffer_of_wf. rewrite Hc, zlen_wire by apply Hw. destruct Hf. lens. words. lia.
  - by rewrite str_Buffer_of.
  - exists l, seg'. split_and!; try done. rewrite Hh. unfold TCPHeader.eqb, WrappingIntegers.eqb; simpl.
    by rewrite !Z.eqb_refl, !Bool.eqb_reflx.
Qed.

(** C26 Corruption is rejected: if the bytes of a segment are accepted by the
    checksum test, then with any one byte replaced by another value [parse]
    returns [BadChecksum] and leaves the segment object as it was.  (The segment is
    short enough that its 32-bit sum does not overflow, as every segment of a
    datagram is.) *)
Theorem corrupted_segment_rejected seg0 dsum pre b b' post :
  small dsum (pre ++ b :: post) -> is_u8 b' -> b <> b' ->
  value (InternetChecksum.add (InternetChecksum.new dsum) (pre ++ b :: post)) = 0 ->
  parse seg0 (Buffer_of (pre ++ b' :: post)) dsum = Ret (seg0, BadChecksum).
Proof.
  intros Hs Hb Hne Hz. unfold parse. rewrite str_Buffer_of.
  pose proof (flip_detected dsum pre b b' post Hs Hb Hne Hz).
  by destruct (Z.eqb_spec (value (InternetChecksum.add (InternetChecksum.new dsum) (pre ++ b' :: post))) 0).
Qed.

(** [parse] returns the parser's error, not the header's: a segment of at
    least 20 bytes with a valid checksum and a data offset below 5, for which
    [TCPHeader::parse] returns [HeaderTooShort], is accepted with [NoError]
    and everything past the 20 bytes as payload. *)
Theorem short_offset_accepted seg0 dsum s :
  wf_bytes s -> is_u64 (zlen s) -> 20 <= zlen s -> raw_doff s < 5 ->
  value (InternetChecksum.add (InternetChecksum.new dsum) s) = 0 ->
  exists seg', parse seg0 (Buffer_of s) dsum = Ret (seg', NoError) /\
    payload seg' = drop 20 s /\ doff (_header seg') < 5.
Proof.
  intros Hw Hu Hl Hd Hz. unfold parse. rewrite str_Buffer_of, Hz. simpl.
  assert (parses (Parser.new (Buffer_of s)) s) as Hp by by apply parses_new.
  unfold TCPHeader.parse, p_u16, p_u32, p_u8. do 9 pnext. fold (raw_doff s).
  pose proof (raw_doff_range s Hw). rewrite u8_id by (words; lia).
  destruct (Z.ltb_spec (raw_doff s) 5); [|lia]. simpl.
  match goal with P : parses ?q (drop 20 s) |- _ => destruct P as [_ Hstr Herr] end.
  eexists. split; [unfold get_error; rewrite Herr; done|]. split; [exact Hstr|done].
Qed.

(** Witnesses *)

Definition demo_segment : TCPSegment := mkTCPSegment demo_header (Buffer_of [104; 105; 33]).

Lemma demo_segment_wf : wf demo_segment.
Proof.
  constructor; [constructor; vm_compute; split; congruence|vm_compute; split; split; congruence|].
  repeat constructor; vm_compute; congruence.
Qed.

Lemma segment_roundtrip_witness :
  exists l seg', serialize demo_segment 99 = Ret l /\
    parse new (Buffer_of (concatenate l)) 99 = Ret (seg', NoError) /\ payload seg' = [104; 105; 33].
Proof.
  destruct (segment_roundtrip demo_segment 99 new demo_segment_wf) as (l & seg' & H1 & H2 & _ & _ & H3).
  - vm_compute. split; congruence.
  - exists l, seg'. split; [exact H1|]. split; [exact H2|]. rewrite H3. reflexivity.
Defined.

Lemma corrupted_segment_rejected_witness :
  parse new (Buffer_of [255; 255; 0; 1]) 0 = Ret (new, BadChecksum).
Proof.
  apply (corrupted_segment_rejected new 0 [255; 255; 0] 0 1 []);
    [split_and!; [repeat constructor; vm_compute; congruence|lia|reflexivity]|
     vm_compute; split; congruence|lia|reflexivity].
Defined.

Lemma short_offset_accepted_witness :
  exists seg', parse new (Buffer_of (replicate 16 0 ++ [255; 255; 0; 0])) 0 = Ret (seg', NoError).
Proof.
  destruct (short_offset_accepted new 0 (replicate 16 0 ++ [255; 255; 0; 0])) as (seg' & H & _);
    [repeat constructor; vm_compute; congruence|vm_compute; split; congruence|
     vm_compute; congruence|reflexivity|reflexivity|].
  exists seg'. exact H.
Defined.
