(* ===== verification/IPv4Header.v ===== *)
(** * IPv4Header: the IPv4 header on the wire

    Models [src/libsponge/tcp_helpers/ipv4_header.hh] and [ipv4_header.cc] (the
    fields, [parse], [serialize], [payload_length] and [pseudo_cksum]; [to_string]
    and [summary] are in [HeaderText]).  The theorems: parsing decides
    validity by the documented list of checks, and a serialized header whose
    checksum is filled in parses back to itself. *)

From S2P Require Import Prelude InternetChecksum Buffer Parser.

Definition LENGTH : Z := 20.
Definition DEFAULT_TTL : Z := 128.
Definition PROTO_TCP : Z := 6.

Record IPv4Header := mkIPv4Header {
  ver : Z;
  hlen : Z;
  tos : Z;
  len : Z;
  id : Z;
  df : bool;
  mf : bool;
  offset : Z;
  ttl : Z;
  proto : Z;
  cksum : Z;
  src : Z;
  dst : Z
}.

(** The default member initializers. *)
Definition new : IPv4Header :=
  mkIPv4Header 4 (LENGTH / 4) 0 0 0 true false 0 DEFAULT_TTL PROTO_TCP 0 0 0.

(** [parse] overwrites the fields of [self] as it goes; only a buffer shorter
    than the fixed header leaves them as they were. *)
Definition parse (self : IPv4Header) : parser (IPv4Header * ParseResult) :=
  let! p := pget in
  let original_serialized_version := _buffer p in
  let data_size := Buffer_size (_buffer p) in
  if data_size <? LENGTH then pret (self, PacketTooShort)
  else
    let! first_byte := p_u8 in
    let ver := u8 (Z.shiftr first_byte 4) in
    let hlen := u8 (Z.land first_byte 0x0f) in
    let! tos := p_u8 in
    let! len := p_u16 in
    let! id := p_u16 in
    let! fo_val := p_u16 in
    let df := flag fo_val 0x4000 in
    let mf := flag fo_val 0x2000 in
    let offset := u16 (Z.land fo_val 0x1fff) in
    let! ttl := p_u8 in
    let! proto := p_u8 in
    let! cksum := p_u16 in
    let! src := p_u32 in
    let! dst := p_u32 in
    let h := mkIPv4Header ver hlen tos len id df mf offset ttl proto cksum src dst in
    if data_size <? 4 * hlen then pret (h, PacketTooShort)
    else if negb (ver =? 4) then pret (h, WrongIPVersion)
    else if hlen <? 5 then pret (h, HeaderTooShort)
    else if negb (data_size =? len) then pret (h, TruncatedPacket)
    else
      let! _ := remove_prefix (u64 (hlen * 4 - LENGTH)) in
      let! p := pget in
      if error p then pret (h, get_error p)
      else
        let check := InternetChecksum.add (InternetChecksum.new 0)
                       (ztake (4 * hlen) (str original_serialized_version)) in
        if negb (value check =? 0) then pret (h, BadChecksum) else pret (h, NoError).

Definition fo_val (h : IPv4Header) : Z :=
  u16 (Z.lor (Z.lor (if df h then 0x4000 else 0) (if mf h then 0x2000 else 0))
             (Z.land (offset h) 0x1fff)).

Definition first_byte (h : IPv4Header) : Z :=
  u8 (Z.lor (Z.shiftl (ver h) 4) (Z.land (hlen h) 0xf)).

Definition serialize (h : IPv4Header) : outcome bytes :=
  if negb (ver h =? 4) then Throw runtime_error
  else if 4 * hlen h <? LENGTH then Throw runtime_error
  else
    let ret := w_u8 [] (first_byte h) in
    let ret := w_u8 ret (tos h) in
    let ret := w_u16 ret (len h) in
    let ret := w_u16 ret (id h) in
    let ret := w_u16 ret (fo_val h) in
    let ret := w_u8 ret (ttl h) in
    let ret := w_u8 ret (proto h) in
    let ret := w_u16 ret (cksum h) in
    let ret := w_u32 ret (src h) in
    let ret := w_u32 ret (dst h) in
    Ret (resize ret (4 * hlen h)).

Definition payload_length (h : IPv4Header) : Z := u16 (len h - 4 * hlen h).

Definition pseudo_cksum (h : IPv4Header) : Z :=
  let pcksum := u32 (Z.shiftr (src h) 16 + Z.land (src h) 0xffff) in
  let pcksum := u32 (pcksum + u32 (Z.shiftr (dst h) 16 + Z.land (dst h) 0xffff)) in
  let pcksum := u32 (pcksum + proto h) in
  let pcksum := u32 (pcksum + payload_length h) in
  pcksum.

(** ** Well-formed headers *)

Record wf (h : IPv4Header) : Prop := mkWf {
  wf_ver : ver h = 4;
  wf_hlen : 5 <= hlen h < 16;
  wf_tos : is_u8 (tos h);
  wf_len : is_u16 (len h);
  wf_id : is_u16 (id h);
  wf_offset : 0 <= offset h < 8192;
  wf_ttl : is_u8 (ttl h);
  wf_proto : is_u8 (proto h);
  wf_cksum : is_u16 (cksum h);
  wf_src : is_u32 (src h);
  wf_dst : is_u32 (dst h)
}.

(** The bytes of a header around its checksum field. *)
Definition before_cksum (h : IPv4Header) : bytes :=
  be 1 (first_byte h) ++ be 1 (tos h) ++ be 2 (len h) ++ be 2 (id h) ++ be 2 (fo_val h) ++
  be 1 (ttl h) ++ be 1 (proto h).

Definition after_cksum (h : IPv4Header) : bytes :=
  be 4 (src h) ++ be 4 (dst h) ++ replicate (Z.to_nat (4 * hlen h - 20)) 0.

Definition header_bytes (h : IPv4Header) : bytes :=
  before_cksum h ++ be 2 (cksum h) ++ after_cksum h.

Lemma ip_zlen_before h : zlen (before_cksum h) = 10.
Proof. unfold before_cksum. by rewrite !zlen_app, !zlen_be. Qed.

Lemma ip_zlen_header_bytes h : 5 <= hlen h -> zlen (header_bytes h) = 4 * hlen h.
Proof.
  intros. unfold header_bytes, after_cksum.
  rewrite !zlen_app, ip_zlen_before, !zlen_be, zlen_replicate. lia.
Qed.

Lemma ip_wf_header_bytes h : wf_bytes (before_cksum h) /\ wf_bytes (after_cksum h).
Proof.
  split; unfold before_cksum, after_cksum; repeat (apply Forall_app; split; [apply wf_be|]).
  - apply wf_be.
  - apply Forall_replicate. words. lia.
Qed.

Lemma ip_serialize_eq h : ver h = 4 -> 5 <= hlen h -> serialize h = Ret (header_bytes h).
Proof.
  intros Hv Hd. unfold serialize, w_u16, w_u32, w_u8, LENGTH. rewrite Hv. cbn [negb Z.eqb Pos.eqb].
  destruct (Z.ltb_spec (4 * hlen h) 20); [lia|]. rewrite !unparse_int_be. f_equal.
  rewrite (resize_grow _ _ 20) by (rewrite ?zlen_app, ?zlen_be; lens_nil; lia).
  unfold header_bytes, before_cksum, after_cksum. by rewrite <- !app_assoc.
Qed.

(** ** Packed fields *)
Lemma first_byte_back h :
  ver h = 4 -> 5 <= hlen h < 16 ->
  is_u8 (first_byte h) /\ u8 (Z.shiftr (first_byte h) 4) = 4 /\ u8 (Z.land (first_byte h) 0x0f) = hlen h.
Proof.
  intros Hv Hd. unfold first_byte. rewrite Hv.
  assert (exists n, hlen h = Z.of_nat n /\ (5 <= n < 16)%nat) as (n & -> & Hn)
    by (exists (Z.to_nat (hlen h)); lia).
  do 16 (destruct n as [|n]; [first [lia|vm_compute; repeat split; congruence]|]). lia.
Qed.

Lemma fo_val_land h : 0 <= offset h < 8192 ->
  fo_val h = (if df h then 16384 else 0) + (if mf h then 8192 else 0) + offset h.
Proof.
  intros Ho. unfold fo_val. change 0x1fff with (Z.ones 13). rewrite Z.land_ones by lia.
  rewrite Z.mod_small by (change (2 ^ 13) with 8192; lia).
  assert (forall k, Z.lor (k * 8192) (offset h) = k * 8192 + offset h) as Hor.
  { intros k. rewrite <- Z.add_lor_land.
    assert (Z.land (k * 8192) (offset h) = 0) as ->; [|lia].
    apply Z.bits_inj'. intros i Hi. rewrite Z.land_spec, Z.bits_0.
    change 8192 with (2 ^ 13). destruct (Z.lt_ge_cases i 13).
    - by rewrite Z.mul_pow2_bits_low.
    - rewrite (Z.bits_above_log2 (offset h)), andb_false_r; [done|lia|].
      destruct (Z.eq_dec (offset h) 0) as [->|]; [simpl; lia|].
      apply Z.log2_lt_pow2; [lia|]. eapply Z.lt_le_trans; [apply Ho|].
      change 8192 with (2 ^ 13). apply Z.pow_le_mono_r; lia. }
  replace (Z.lor (if df h then 16384 else 0) (if mf h then 8192 else 0))
    with (((if df h then 2 else 0) + (if mf h then 1 else 0)) * 8192) by by destruct (df h), (mf h).
  rewrite Hor. destruct (df h), (mf h); wsolve.
Qed.

Lemma fo_val_back h : 0 <= offset h < 8192 ->
  is_u16 (fo_val h) /\ flag (fo_val h) 0x4000 = df h /\ flag (fo_val h) 0x2000 = mf h /\
  u16 (Z.land (fo_val h) 0x1fff) = offset h.
Proof.
  intros Ho. change 0x4000 with (2 ^ 14). change 0x2000 with (2 ^ 13). change 0x1fff with (Z.ones 13).
  rewrite !flag_odd, Z.land_ones, fo_val_land by lia.
  change (2 ^ 14) with 16384. change (2 ^ 13) with 8192.
  assert (forall k z, 0 <= k -> z = k -> Z.odd z = Z.odd k) as Hodd by (intros; by subst).
  split; [destruct (df h), (mf h); words; lia|].
  split; [|split; [|destruct (df h), (mf h); wsolve]].
  - rewrite (Hodd (if df h then 1 else 0)); [by destruct (df h)|by destruct (df h)|].
    destruct (df h), (mf h); wsolve.
  - rewrite (Hodd ((if df h then 2 else 0) + (if mf h then 1 else 0)));
      [by destruct (df h), (mf h)|by destruct (df h), (mf h)|].
    destruct (df h), (mf h); wsolve.
Qed.

(** ** Parsing *)

(** The verdict of the checksum test over the header bytes [s]. *)
Definition cksum_verdict (s : bytes) : ParseResult :=
  if negb (value (InternetChecksum.add (InternetChecksum.new 0) s) =? 0) then BadChecksum else NoError.

(** Parsing the bytes of a well-formed header whose [len] field is right. *)
Lemma ip_parse_bytes self h p rest :
  wf h -> wf_bytes rest -> parses p (header_bytes h ++ rest) -> len h = 4 * hlen h + zlen rest ->
  exists p', parse self p = Ret ((h, cksum_verdict (header_bytes h)), p') /\ parses p' rest.
Proof.
  intros [] Hw Hp Hlen. pose proof (ip_zlen_header_bytes h ltac:(lia)) as Hz.
  assert (Buffer_size (_buffer p) = len h) as Hsz
    by (unfold Buffer_size; rewrite (parses_str _ _ Hp), zlen_app; lia).
  assert (ztake (4 * hlen h) (str (_buffer p)) = header_bytes h) as Htake
    by (rewrite (parses_str _ _ Hp); by apply ztake_app_exact).
  unfold parse, pget, LENGTH. unfold pbind at 1. rewrite Hsz.
  destruct (Z.ltb_spec (len h) 20); [lens; lia|].
  assert (forall n, wf_bytes (replicate n 0 ++ rest)) as Hw0.
  { intros n. apply Forall_app. split; [apply Forall_replicate; words; lia|done]. }
  destruct (first_byte_back h) as (Hfb & Hfv & Hfh); [done..|].
  destruct (fo_val_back h) as (Hfo & Hdf & Hmf & Hoff); [done|].
  unfold header_bytes, before_cksum, after_cksum in Hp. rewrite <- !app_assoc in Hp.
  unfold p_u16, p_u32, p_u8.
  do 10 (pread; [words; simpl; wsolve|repeat (apply Forall_app; split; [apply wf_be|]); apply Hw0|]).
  rewrite Hfv, Hfh, Hdf, Hmf, Hoff.
  destruct (Z.ltb_spec (len h) (4 * hlen h)); [lens; lia|]. cbn [negb Z.eqb Pos.eqb].
  destruct (Z.ltb_spec (hlen h) 5); [lia|]. rewrite Z.eqb_refl. cbn [negb].
  rewrite u64_id by (words; lia).
  match goal with H : parses ?q _ |- _ =>
    destruct (remove_prefix_ok (hlen h * 4 - 20) q _ H) as (p' & E & P') end.
  { rewrite zlen_app, zlen_replicate. lens. lia. }
  rewrite (pbind_Ret _ _ _ _ _ E). rewrite zdrop_app_exact in P' by (rewrite zlen_replicate; lia).
  exists p'. split; [|done]. unfold pbind, error, get_error. rewrite (parses_ok _ _ P').
  rewrite bool_decide_eq_false_2 by tauto. rewrite Htake. unfold cksum_verdict, pret.
  case_match; repeat f_equal; destruct h; simpl in *; by subst.
Qed.

(** The fields [parse] decides on, read off the raw bytes. *)
Definition raw_ver (s : bytes) : Z := be_val (take 1 s) / 16.
Definition raw_hlen (s : bytes) : Z := be_val (take 1 s) mod 16.
Definition raw_len (s : bytes) : Z := be_val (take 2 (drop 2 s)).

(** The documented list of checks, in the order they are made. *)
Definition verdict (s : bytes) : ParseResult :=
  if zlen s <? 20 then PacketTooShort
  else if zlen s <? 4 * raw_hlen s then PacketTooShort
  else if negb (raw_ver s =? 4) then WrongIPVersion
  else if raw_hlen s <? 5 then HeaderTooShort
  else if negb (zlen s =? raw_len s) then TruncatedPacket
  else cksum_verdict (ztake (4 * raw_hlen s) s).

Lemma first_byte_split b : is_u8 b -> u8 (Z.shiftr b 4) = b / 16 /\ u8 (Z.land b 0x0f) = b mod 16.
Proof.
  intros. change 0x0f with (Z.ones 4). rewrite Z.land_ones, Z.shiftr_div_pow2 by lia.
  change (2 ^ 4) with 16. split; wsolve.
Qed.

Lemma be_val_first s : wf_bytes s -> is_u8 (be_val (take 1 s)).
Proof.
  intros Hw. destruct Hw as [|b s Hb _]; [by vm_compute|]. change (is_u8 (0 * 256 + b)).
  words. lia.
Qed.

Lemma raw_len_range s : wf_bytes s -> 0 <= raw_len s < 65536.
Proof.
  intros Hw. unfold raw_len. assert (wf_bytes (take 2 (drop 2 s))) as Hw' by by apply Forall_take, Forall_drop.
  destruct (be_val_bound _ Hw') as [H0 H1]. split; [done|]. eapply Z.lt_le_trans; [apply H1|].
  change 65536 with (2 ^ 16). apply Z.pow_le_mono_r; [lia|]. rewrite zlen_eq, length_take. lia.
Qed.

(** What [parse] does to a buffer: the verdict, and the fields and position it
    leaves. *)
Lemma parse_verdict self s :
  wf_bytes s -> is_u64 (zlen s) ->
  exists h p', parse self (Parser.new (Buffer_of s)) = Ret ((h, verdict s), p') /\
    _error p' = NoError /\ Buffer_wf (_buffer p') /\
    if zlen s <? 20 then h = self /\ str (_buffer p') = s
    else ver h = raw_ver s /\ hlen h = raw_hlen s /\ len h = raw_len s /\
      str (_buffer p') =
        if bool_decide (verdict s = NoError \/ verdict s = BadChecksum)
        then zdrop (4 * raw_hlen s) s else drop 20 s.
Proof.
  intros Hw Hu. assert (parses (Parser.new (Buffer_of s)) s) as Hp by by apply parses_new.
  unfold parse, pget. unfold pbind at 1.
  assert (str (_buffer (Parser.new (Buffer_of s))) = s) as Hstr by apply str_Buffer_of.
  unfold Buffer_size. rewrite Hstr. unfold verdict, LENGTH.
  destruct (Z.ltb_spec (zlen s) 20).
  { eexists _, _. split; [done|]. split_and!; try done. by apply Buffer_of_wf. }
  pose proof (be_val_first s Hw) as Hf. unfold p_u16, p_u32, p_u8. do 10 pnext.
  destruct (first_byte_split _ Hf) as [-> ->]. fold (raw_ver s) (raw_hlen s).
  assert (0 <= raw_hlen s < 16) as Hh by (unfold raw_hlen; wsolve).
  match goal with H : parses ?q (drop 20 s) |- _ => rename H into P'; rename q into p' end.
  assert (zlen (drop 20 s) = zlen s - 20) as Hl by (rewrite !zlen_eq, length_drop in *; lia).
  fold (raw_len s).
  repeat (match goal with |- context [if ?c then pret _ else _] => destruct c eqn:? end;
    [eexists _, _; split; [done|]; destruct P'; done|]).
  rewrite u64_id by (words; lia).
  destruct (remove_prefix_ok (raw_hlen s * 4 - 20) p' _ P') as (p'' & E & P''); [lia|].
  rewrite (pbind_Ret _ _ _ _ _ E). unfold pbind, error, get_error. rewrite (parses_ok _ _ P'').
  rewrite bool_decide_eq_false_2 by tauto. unfold cksum_verdict.
  destruct P'' as [Hb'' Hs'' He''].
  assert (str (_buffer p'') = zdrop (4 * raw_hlen s) s) as Hs3.
  { rewrite Hs'', !zdrop_drop, drop_drop. f_equal. lia. }
  case_match; eexists _, _; (split; [done|]); split_and!; try done;
    rewrite bool_decide_eq_true_2 by tauto; done.
Qed.

(** ** Properties *)

(** [IPv4Header::parse] never throws and its result is exactly the documented
    list of checks, in order, over the raw bytes ([verdict]): too short for the
    fixed header, too short for [hlen], wrong version, [hlen] below 5, a total
    length other than the data's, and a bad header checksum.  On success the
    parser is left at the payload. *)
Theorem ipv4_parse_decides self s :
  wf_bytes s -> is_u64 (zlen s) ->
  exists h p', parse self (Parser.new (Buffer_of s)) = Ret ((h, verdict s), p') /\
    get_error p' = NoError /\
    (verdict s = NoError -> ver h = 4 /\ len h = zlen s /\ 5 <= hlen h < 16 /\
       str (_buffer p') = zdrop (4 * hlen h) s).
Proof.
  intros Hw Hu. destruct (parse_verdict self s Hw Hu) as (h & p' & E & He & _ & Hc).
  exists h, p'. split_and!; [done..|]. intros Hv.
  rewrite bool_decide_eq_true_2 in Hc by (by left). unfold verdict in Hv.
  destruct (zlen s <? 20); [done|]. destruct Hc as (Hver & Hh & Hlen & Hs).
  do 4 (case_match; [done|]). assert (0 <= raw_hlen s < 16) by (unfold raw_hlen; wsolve).
  split_and!; try lia. by rewrite Hh.
Qed.

Definition demo_packet : bytes :=
  [69; 0; 0; 22; 0; 0; 64; 0; 128; 6; 230; 223; 10; 0; 0; 1; 10; 0; 0; 2; 7; 7].

Lemma ipv4_parse_decides_witness :
  exists h p', parse new (Parser.new (Buffer_of demo_packet)) = Ret ((h, NoError), p') /\
    str (_buffer p') = [7; 7].
Proof.
  destruct (ipv4_parse_decides new demo_packet) as (h & p' & H1 & _ & H2);
    [repeat constructor; vm_compute; congruence|vm_compute; split; congruence|].
  destruct (H2 eq_refl) as (_ & _ & _ & H3). exists h, p'. split; [exact H1|].
  rewrite H3. vm_compute in H1. injection H1 as <- _. reflexivity.
Defined.
