(* ===== verification/IPv4Datagram.v ===== *)
(** * IPv4Datagram: header, payload and header checksum

    Models [src/libsponge/tcp_helpers/ipv4_datagram.hh] and [ipv4_datagram.cc].
    The theorems: a serialized datagram parses back to itself, what [parse]
    checks of arbitrary bytes, and which header errors it lets through. *)

From S2P Require Import Prelude InternetChecksum Buffer Parser IPv4Header.

Record IPv4Datagram := mkIPv4Datagram { _header : IPv4Header; _payload : BufferList }.

Definition new : IPv4Datagram := mkIPv4Datagram IPv4Header.new BufferList_empty.

(** The result of [_header.parse] is not looked at. *)
Definition parse (dg : IPv4Datagram) (buffer : Buffer) : outcome (IPv4Datagram * ParseResult) :=
  match IPv4Header.parse (_header dg) (Parser.new buffer) with
  | Throw e => Throw e
  | Ret ((h, _), p) =>
      let dg := mkIPv4Datagram h (BufferList_of_Buffer (_buffer p)) in
      if negb (BufferList_size (_payload dg) =? payload_length (_header dg))
      then Ret (dg, PacketTooShort)
      else Ret (dg, get_error p)
  end.

Definition set_cksum (h : IPv4Header) (c : Z) : IPv4Header :=
  mkIPv4Header (ver h) (hlen h) (tos h) (len h) (id h) (df h) (mf h) (offset h) (ttl h) (proto h)
    c (src h) (dst h).

Definition serialize (dg : IPv4Datagram) : outcome BufferList :=
  if negb (BufferList_size (_payload dg) =? payload_length (_header dg)) then Throw runtime_error
  else
    let header_out := set_cksum (_header dg) 0 in
    try: header_zero_checksum <- IPv4Header.serialize header_out;
    let check := InternetChecksum.add (InternetChecksum.new 0) header_zero_checksum in
    let header_out := set_cksum header_out (value check) in
    try: s <- IPv4Header.serialize header_out;
    Ret (append (append BufferList_empty (BufferList_of s)) (_payload dg)).

(** ** Lemmas *)

(** A datagram whose [len] field describes its payload. *)
Record wf (dg : IPv4Datagram) : Prop := mkWf {
  wf_header : IPv4Header.wf (_header dg);
  wf_payload : wf_bytes (concatenate (_payload dg));
  wf_size : len (_header dg) = 4 * hlen (_header dg) + zlen (concatenate (_payload dg))
}.

Definition header_cksum (h : IPv4Header) : Z :=
  value (InternetChecksum.add (InternetChecksum.new 0) (before_cksum h ++ be16 0 ++ after_cksum h)).

Lemma header_small h c : hlen h < 16 -> is_u16 c ->
  5 <= hlen h -> small 0 (before_cksum h ++ be16 c ++ after_cksum h).
Proof.
  intros Hh Hc Hl. destruct (ip_wf_header_bytes h) as [H1 H2]. split_and!; [|lia|].
  - apply Forall_app; split; [done|]. apply Forall_app; split; [by apply wf_be16|done].
  - pose proof (ip_zlen_header_bytes (set_cksum h c) Hl) as Hz. unfold header_bytes in Hz.
    rewrite !zlen_app, zlen_be in Hz. rewrite !zlen_app. assert (zlen (be16 c) = 2) as -> by done.
    change (before_cksum (set_cksum h c)) with (before_cksum h) in Hz.
    change (after_cksum (set_cksum h c)) with (after_cksum h) in Hz. simpl in Hz. lia.
Qed.

(** The header [serialize] writes verifies. *)
Lemma header_verifies h :
  5 <= hlen h < 16 -> cksum_verdict (header_bytes (set_cksum h (header_cksum h))) = NoError.
Proof.
  intros Hh. pose proof (header_small h 0 ltac:(lia) ltac:(words; lia) ltac:(lia)) as Hs.
  pose proof (store_verifies 0 (before_cksum h) (after_cksum h) Hs) as Hv.
  rewrite ip_zlen_before in Hv. specialize (Hv eq_refl). cbv zeta in Hv. fold (header_cksum h) in Hv.
  unfold cksum_verdict, header_bytes. change (cksum (set_cksum h (header_cksum h))) with (header_cksum h).
  rewrite be_be16 by apply u16_range.
  change (before_cksum (set_cksum h (header_cksum h))) with (before_cksum h).
  change (after_cksum (set_cksum h (header_cksum h))) with (after_cksum h). by rewrite Hv.
Qed.

Definition wire (dg : IPv4Datagram) : bytes :=
  header_bytes (set_cksum (_header dg) (header_cksum (_header dg))) ++ concatenate (_payload dg).

Lemma payload_length_wf dg : wf dg -> payload_length (_header dg) = zlen (concatenate (_payload dg)).
Proof.
  intros [[] _ Hs]. unfold payload_length. rewrite u16_id; [lia|].
  pose proof (zlen_nonneg (concatenate (_payload dg))). words. lia.
Qed.

Lemma payload_u64 dg : wf dg -> is_u64 (zlen (concatenate (_payload dg))).
Proof.
  intros [[] _ Hs]. pose proof (zlen_nonneg (concatenate (_payload dg))). words. lia.
Qed.

Lemma datagram_serialize_wire dg : wf dg -> exists l, serialize dg = Ret l /\ concatenate l = wire dg.
Proof.
  intros Hw. pose proof (wf_ver _ (wf_header _ Hw)) as Hv. pose proof (wf_hlen _ (wf_header _ Hw)) as Hh.
  unfold serialize. rewrite BufferList_size_flat by by apply payload_u64.
  rewrite payload_length_wf, Z.eqb_refl by done. cbn [negb].
  rewrite ip_serialize_eq by (simpl; lia). cbn [obind]. rewrite ip_serialize_eq by (simpl; lia). cbn [obind].
  eexists. split; [done|]. rewrite !concatenate_append. unfold wire. by f_equal.
Qed.

Lemma concatenate_single b : concatenate (BufferList_of_Buffer b) = str b.
Proof. rewrite concatenate_flat. unfold flat. simpl. apply app_nil_r. Qed.

Lemma datagram_zlen_wire dg : wf dg -> zlen (wire dg) = len (_header dg).
Proof.
  intros [Hh _ Hs]. unfold wire. rewrite zlen_app, ip_zlen_header_bytes by apply Hh. simpl. lia.
Qed.

(** The header of a serialized datagram passes every check. *)
Lemma header_parse_wire dg h0 b :
  wf dg -> Buffer_wf b -> str b = wire dg ->
  exists p', IPv4Header.parse h0 (Parser.new b) =
      Ret ((set_cksum (_header dg) (header_cksum (_header dg)), NoError), p') /\
    parses p' (concatenate (_payload dg)).
Proof.
  intros Hw Hb Hs. set (h := set_cksum (_header dg) (header_cksum (_header dg))).
  destruct (ip_parse_bytes h0 h (Parser.new b) (concatenate (_payload dg))) as (p' & E & Hp).
  - destruct Hw as [[] _ _]. constructor; simpl; try done. apply u16_range.
  - apply Hw.
  - by constructor.
  - apply (wf_size _ Hw).
  - exists p'. split; [|done]. rewrite E. subst h. by rewrite header_verifies by apply (wf_header _ Hw).
Qed.

(** Parsing a serialized datagram, from any buffer that holds its bytes. *)
Lemma datagram_parse_wire dg dg0 b :
  wf dg -> Buffer_wf b -> str b = wire dg ->
  exists b', parse dg0 b = Ret (mkIPv4Datagram (set_cksum (_header dg) (header_cksum (_header dg)))
                                  (BufferList_of_Buffer b'), NoError) /\
    str b' = concatenate (_payload dg) /\ Buffer_wf b'.
Proof.
  intros Hw Hb Hs. destruct (header_parse_wire dg (_header dg0) b Hw Hb Hs) as (p' & E & [Hb' Hs' He']).
  set (h := set_cksum (_header dg) (header_cksum (_header dg))) in *.
  exists (_buffer p'). unfold parse. rewrite E. simpl.
  rewrite BufferList_size_flat, concatenate_single, Hs' by (rewrite concatenate_single, Hs'; by apply payload_u64).
  change (payload_length h) with (payload_length (_header dg)). rewrite payload_length_wf, Z.eqb_refl by done.
  unfold get_error. by rewrite He'.
Qed.

(** [parse] on arbitrary bytes, in terms of the header's verdict. *)
Lemma parse_any dg0 s :
  wf_bytes s -> is_u64 (zlen s) ->
  exists h b, parse dg0 (Buffer_of s) =
      Ret (mkIPv4Datagram h (BufferList_of_Buffer b),
           if zlen (str b) =? payload_length h then NoError else PacketTooShort) /\
    if zlen s <? 20 then h = _header dg0 /\ str b = s
    else ver h = raw_ver s /\ hlen h = raw_hlen s /\ len h = raw_len s /\
      str b = if bool_decide (verdict s = NoError \/ verdict s = BadChecksum)
              then zdrop (4 * raw_hlen s) s else drop 20 s.
Proof.
  intros Hw Hu. destruct (parse_verdict (_header dg0) s Hw Hu) as (h & p' & E & He & Hb & Hc).
  exists h, (_buffer p'). split; [|done]. unfold parse. rewrite E. simpl.
  assert (zlen (str (_buffer p')) <= zlen s) as Hle.
  { case_match; [destruct Hc as [_ ->]; done|]. destruct Hc as (_ & _ & _ & ->).
    case_match; [|rewrite !zlen_eq, length_drop; lia].
    rewrite zlen_zdrop by (unfold raw_hlen; wsolve).
    assert (0 <= raw_hlen s) by (unfold raw_hlen; wsolve). lens. lia. }
  rewrite BufferList_size_flat, concatenate_single
    by (rewrite concatenate_single; pose proof (zlen_nonneg (str (_buffer p'))); words; lia).
  unfold get_error. rewrite He. by destruct (zlen (str (_buffer p')) =? payload_length h).
Qed.

(** ** Properties *)

(** C25 A datagram round-trips through the wire: [serialize] of a well-formed
    datagram returns, and [parse] of its bytes, into any object, accepts them
    and yields the same header with the computed checksum and the same
    payload.  [IPv4Header::parse] of the bytes, whose verdict
    [IPv4Datagram::parse] does not look at, returns [NoError] too: they pass all
    its checks, that of the checksum included, and it stops at the payload. *)
Theorem datagram_roundtrip dg dg0 :
  wf dg ->
  exists l dg' p', serialize dg = Ret l /\
    parse dg0 (Buffer_of (concatenate l)) = Ret (dg', NoError) /\
    _header dg' = set_cksum (_header dg) (header_cksum (_header dg)) /\
    concatenate (_payload dg') = concatenate (_payload dg) /\
    IPv4Header.parse (_header dg0) (Parser.new (Buffer_of (concatenate l))) = Ret ((_header dg', NoError), p') /\
    str (_buffer p') = concatenate (_payload dg).
Proof.
  intros Hw. destruct (datagram_serialize_wire dg Hw) as (l & Hl & Hc).
  pose proof (wf_header _ Hw) as []. pose proof (datagram_zlen_wire dg Hw) as Hz.
  assert (Buffer_wf (Buffer_of (concatenate l))) as Hb by (apply Buffer_of_wf; rewrite Hc, Hz; words; lia).
  assert (str (Buffer_of (concatenate l)) = wire dg) as Hs by by rewrite str_Buffer_of.
  destruct (datagram_parse_wire dg dg0 _ Hw Hb Hs) as (b' & E & Hs' & _).
  destruct (header_parse_wire dg (_header dg0) _ Hw Hb Hs) as (p' & E' & [_ Hp' _]).
  eexists l, _, p'. split_and!; [done|exact E|done|by rewrite <- Hs'; apply concatenate_single|exact E'|done].
Qed.

(** [parse] never throws; its result is [NoError] or [PacketTooShort], the
    first exactly when the payload has the length the header announces, and
    every packet that passes the header checks is accepted with its payload. *)
Theorem datagram_parse_decides dg0 s :
  wf_bytes s -> is_u64 (zlen s) ->
  exists dg' res, parse dg0 (Buffer_of s) = Ret (dg', res) /\
    res = (if zlen (concatenate (_payload dg')) =? payload_length (_header dg')
           then NoError else PacketTooShort) /\
    (verdict s = NoError -> res = NoError /\
    concatenate (_payload dg') = zdrop (4 * hlen (_header dg')) s).
Proof.
  intros Hw Hu. destruct (parse_any dg0 s Hw Hu) as (h & b & E & Hc).
  eexists _, _. split; [exact E|]. simpl. rewrite concatenate_single. split; [done|]. intros Hv.
  rewrite bool_decide_eq_true_2 in Hc by by left. unfold verdict in Hv.
  destruct (zlen s <? 20); [done|]. destruct Hc as (Hver & Hh & Hlen & Hs).
  do 4 (case_match; [done|]). assert (0 <= raw_hlen s < 16) by (unfold raw_hlen; wsolve).
  rewrite Hs, Hh. split; [|done]. rewrite zlen_zdrop by lia.
  unfold payload_length. rewrite Hlen, Hh.
  assert (0 <= raw_len s < 65536) by (apply raw_len_range; done).
  rewrite u16_id by (words; lia). by destruct (Z.eqb_spec (Z.max 0 (zlen s - 4 * raw_hlen s)) (raw_len s - 4 * raw_hlen s)); [|lia].
Qed.

(** [IPv4Datagram::parse] ignores what [IPv4Header::parse] returns: a packet
    whose header fails the checksum, or whose version is not 4 (with a 20-byte
    header and a consistent length), is accepted with [NoError]. *)
Theorem bad_header_accepted dg0 s :
  wf_bytes s -> is_u64 (zlen s) ->
  verdict s = BadChecksum \/ (verdict s = WrongIPVersion /\ raw_hlen s = 5 /\ raw_len s = zlen s) ->
  exists dg', parse dg0 (Buffer_of s) = Ret (dg', NoError).
Proof.
  intros Hw Hu Hv. destruct (parse_any dg0 s Hw Hu) as (h & b & E & Hc).
  rewrite E. eexists. repeat f_equal. clear E.
  assert (20 <= zlen s /\ raw_len s = zlen s /\ 4 * raw_hlen s <= zlen s /\ 0 <= raw_hlen s
    /\ str b = zdrop (4 * raw_hlen s) s /\ hlen h = raw_hlen s /\ len h = raw_len s)
    as (Hz & Hl & Hh & Hp & Hs & Hhl & Hll).
  { destruct Hv as [Hv|(Hv & H5 & Hl)]; rewrite Hv in Hc; unfold verdict in Hv;
      destruct (Z.ltb_spec (zlen s) 20); try done; destruct Hc as (_ & Hh & Hlen & Hs).
    - rewrite bool_decide_eq_true_2 in Hs by by right.
      assert (0 <= raw_hlen s) by (unfold raw_hlen; wsolve). do 4 (case_match; [done|]).
      split_and!; [lia..|done|done|done].
    - split_and!; try lia; [|done..]. rewrite Hs, H5, zdrop_drop. done. }
  rewrite Hs, zlen_zdrop by lia. unfold payload_length. rewrite Hhl, Hll, Hl.
  pose proof (raw_len_range s Hw). rewrite u16_id by (words; lia).
  by destruct (Z.eqb_spec (Z.max 0 (zlen s - 4 * raw_hlen s)) (zlen s - 4 * raw_hlen s)); [|lia].
Qed.

(** Witnesses *)

Definition demo_datagram : IPv4Datagram :=
  mkIPv4Datagram (mkIPv4Header 4 6 0 27 9 true false 0 128 6 0 167772161 167772162)
    (append (BufferList_of [1; 2]) (BufferList_of [3])).

Lemma datagram_roundtrip_witness :
  exists l dg', serialize demo_datagram = Ret l /\
    parse new (Buffer_of (concatenate l)) = Ret (dg', NoError) /\
    concatenate (_payload dg') = [1; 2; 3] /\
    exists p', IPv4Header.parse IPv4Header.new (Parser.new (Buffer_of (concatenate l))) = Ret ((_header dg', NoError), p').
Proof.
  destruct (datagram_roundtrip demo_datagram new) as (l & dg' & p' & H1 & H2 & _ & H3 & H4 & _).
  - constructor; [constructor; vm_compute; repeat split; congruence| |reflexivity].
    repeat constructor; vm_compute; congruence.
  - exists l, dg'. split; [exact H1|]. split; [exact H2|]. split; [rewrite H3; reflexivity|exists p'; exact H4].
Defined.

Lemma datagram_parse_decides_witness :
  exists dg' res, parse new (Buffer_of demo_packet) = Ret (dg', res) /\ res = NoError.
Proof.
  destruct (datagram_parse_decides new demo_packet) as (dg' & res & H1 & _ & H2);
    [repeat constructor; vm_compute; congruence|vm_compute; split; congruence|].
  exists dg', res. split; [exact H1|]. destruct (H2 eq_refl) as [H _]. exact H.
Defined.

Lemma bad_header_accepted_witness :
  exists dg', parse new (Buffer_of (101 :: tail demo_packet)) = Ret (dg', NoError).
Proof.
  destruct (bad_header_accepted new (101 :: tail demo_packet)) as (dg' & H);
    [repeat constructor; vm_compute; congruence|vm_compute; split; congruence| |].
  - right. split; [reflexivity|]. split; reflexivity.
  - exists dg'. exact H.
Defined.
