(* ===== verification/SegmentOf.v ===== *)
(** * SegmentOf: segments as pieces of a stream

    What it means for a TCP segment to carry a piece of a byte stream: the
    contract between the sender, which emits such segments, and the receiver,
    which reassembles them.  A SYN occupies absolute sequence number 0, the
    byte at stream index [i] occupies [i + 1], and a FIN follows the last
    byte. *)

From S2P Require Import Prelude WrappingIntegers StreamReassembler Buffer TCPHeader TCPSegment.

(** The stream index of the first payload byte. *)
Definition index_of (pos : Z) (seg : TCPSegment) : Z :=
  if syn (_header seg) then pos else pos - 1.

(** [seg] is a segment of [stream] under [isn], at absolute sequence number
    [pos]. *)
Record seg_of (stream : bytes) (isn : WrappingInt32) (pos : Z) (seg : TCPSegment) : Prop := mkSegOf {
  seg_seqno : seqno (_header seg) = wrap pos isn;
  seg_pos : if syn (_header seg) then pos = 0 else 1 <= pos;
  seg_excerpt : excerpt stream (index_of pos seg) (payload seg);
  seg_fin : fin (_header seg) = true -> index_of pos seg + zlen (payload seg) = zlen stream
}.

(** Building segments with the fields that matter here. *)
Definition data_segment (seqno : WrappingInt32) (syn fin : bool) (data : bytes) : TCPSegment :=
  mkTCPSegment (mkTCPHeader 0 0 seqno (mkW32 0) 5 false false false false syn fin 0 0 0)
    (Buffer_of data).

(** ** The stream may grow *)
Lemma excerpt_app stream more index data :
  excerpt stream index data -> excerpt (stream ++ more) index data.
Proof.
  intros (H0 & Hl & Hd). split_and!; [done|lens; lia|]. rewrite Hd at 1.
  rewrite !ztake_take, !zdrop_drop, drop_app_le, take_app_le; [done|..];
    rewrite ?length_drop; rewrite !zlen_eq in *; lia.
Qed.

Lemma seg_of_app stream more isn pos seg :
  (fin (_header seg) = true -> more = []) ->
  seg_of stream isn pos seg -> seg_of (stream ++ more) isn pos seg.
Proof.
  intros Hf [Hq Hp He Hfin]. constructor; try done.
  - by apply excerpt_app.
  - intros H. specialize (Hf H). subst. rewrite app_nil_r. auto.
Qed.

Lemma excerpt_here stream index data rest :
  0 <= index -> zdrop index stream = data ++ rest -> zlen data + index <= zlen stream ->
  excerpt stream index data.
Proof. intros H0 Hd Hl. split_and!; [done|lia|]. rewrite Hd. by rewrite ztake_app_exact. Qed.

(** A segment of the stream covers the sequence numbers from its position on. *)
Lemma seglen_eq seg :
  is_u64 (zlen (payload seg) + 2) ->
  length_in_sequence_space seg =
    zlen (payload seg) + (if syn (_header seg) then 1 else 0) + (if fin (_header seg) then 1 else 0).
Proof.
  intros H. unfold length_in_sequence_space, payload in *. apply u64_id.
  pose proof (zlen_nonneg (str (_payload seg))). destruct (syn _), (fin _); words; lia.
Qed.
