(* ===== verification/TCPReceiver.v ===== *)
(** * TCPReceiver: segments into the reassembler

    Models [src/libsponge/tcp_receiver.hh] and [tcp_receiver.cc].  The state is
    the record of the class members.  [segment_received] is shown to refine
    the reassembler's [push_substring]: on segments whose sequence numbers wrap
    their position in the peer's stream, the receiver behaves as the
    reassembler fed with those positions.  Soundness, exactness and the
    meaning of [ackno] and [window_size] follow from the reassembler's lemmas. *)

From S2P Require Import Prelude WrappingIntegers ByteStream StreamReassembler Buffer TCPHeader.
From S2P Require Import TCPSegment SegmentOf.

Record TCPReceiver := mkReceiver {
  _reassembler : StreamReassembler;
  _capacity : Z;
  _isn : WrappingInt32;
  _isn_set : bool
}.

Definition new (capacity : Z) : TCPReceiver :=
  mkReceiver (StreamReassembler.new capacity) capacity (of_uint 0) false.

Definition stream_out (rc : TCPReceiver) : ByteStream := StreamReassembler.stream_out (_reassembler rc).
Definition unassembled_bytes (rc : TCPReceiver) : Z :=
  StreamReassembler.unassembled_bytes (_reassembler rc).

(** The mutable accessor [stream_out()]. *)
Definition set_stream_out (rc : TCPReceiver) (o : ByteStream) : TCPReceiver :=
  mkReceiver (set_output (_reassembler rc) o) (_capacity rc) (_isn rc) (_isn_set rc).

(** The part after the SYN handling: place the payload in the stream. *)
Definition place (rc : TCPReceiver) (seg : TCPSegment) (seqno : WrappingInt32) : TCPReceiver :=
  let checkpoint := bytes_written (stream_out rc) in
  let abs_seqno := unwrap seqno (_isn rc) checkpoint in
  let stream_index := u64 (abs_seqno - 1) in
  mkReceiver (push_substring (_reassembler rc) (copy (_payload seg)) stream_index (fin (_header seg)))
    (_capacity rc) (_isn rc) (_isn_set rc).

Definition segment_received (rc : TCPReceiver) (seg : TCPSegment) : TCPReceiver :=
  let header := _header seg in
  if syn header then
    place (mkReceiver (_reassembler rc) (_capacity rc) (seqno header) true) seg
      (add (seqno header) 1)
  else if negb (_isn_set rc) then rc
  else place rc seg (seqno header).

Definition ackno (rc : TCPReceiver) : option WrappingInt32 :=
  if negb (_isn_set rc) then None
  else if input_ended (stream_out rc)
  then Some (add (wrap (u64 (bytes_written (stream_out rc) + 1)) (_isn rc)) 1)
  else Some (wrap (u64 (bytes_written (stream_out rc) + 1)) (_isn rc)).

Definition window_size (rc : TCPReceiver) : Z :=
  u64 (_capacity rc - u64 (bytes_written (stream_out rc) - bytes_read (stream_out rc))).

(** ** Invariant *)

Record inv (rc : TCPReceiver) : Prop := mkInv {
  inv_reassembler : StreamReassembler.inv (_reassembler rc);
  inv_same_capacity : StreamReassembler._capacity (_reassembler rc) = _capacity rc;
  inv_isn : WrappingIntegers.wf (_isn rc)
}.

Lemma receiver_inv_new cap : is_u64 cap -> inv (new cap).
Proof. intros. constructor; [by apply StreamReassembler.reassembler_inv_new|done|apply wf_of_uint]. Qed.

(** The window is the room left in the stream. *)
Lemma window_size_eq rc :
  inv rc -> window_size rc = remaining_capacity (stream_out rc) /\
    window_size rc = _capacity rc - buffer_size (stream_out rc) /\ 0 <= window_size rc <= _capacity rc.
Proof.
  intros [Hr Hc _]. pose proof (room_eq _ Hr) as Hroom. pose proof (room_bounds _ Hr) as Hb.
  unfold stream_out, StreamReassembler.stream_out in *. rewrite Hc in *.
  pose proof (inv_output _ Hr) as Hi. pose proof (remaining_capacity_eq _ Hi) as He.
  assert (window_size rc = remaining_capacity (_output (_reassembler rc))) as ->; [|lia].
  unfold window_size, stream_out, StreamReassembler.stream_out, bytes_written, bytes_read.
  destruct Hi as [Hcap Hfit ? ? Hcnt].
  pose proof (StreamReassembler.inv_same_capacity _ Hr) as Hsc. rewrite Hc in Hsc.
  rewrite <- Hsc in *. rewrite Hcnt, He.
  assert (u64 (u64 (_read_count (_output (_reassembler rc)) + zlen (_buf (_output (_reassembler rc))))
    - _read_count (_output (_reassembler rc))) = zlen (_buf (_output (_reassembler rc)))) as ->
    by (lens; wsolve).
  apply u64_id. lens. words. lia.
Qed.

(** ** The reassembler underneath

    The abstract operation of an arrival: the payload pushed at its stream
    index.  [pos] is the absolute sequence number of the segment's first
    sequence number; a SYN sits at 0 and the first byte at 1. *)

Inductive op :=
  | Arrive (pos : Z) (seg : TCPSegment)
  | Read (len : Z).

Definition step (o : op) (rc : TCPReceiver) : TCPReceiver * bytes :=
  match o with
  | Arrive _ seg => (segment_received rc seg, [])
  | Read len => let '(o', out) := ByteStream.read (stream_out rc) len in (set_stream_out rc o', out)
  end.

Fixpoint run (ops : list op) (rc : TCPReceiver) : TCPReceiver * bytes :=
  match ops with
  | [] => (rc, [])
  | o :: ops =>
      let '(rc', out) := step o rc in
      let '(rc'', out') := run ops rc' in (rc'', out ++ out')
  end.

(** What the reassembler sees: everything from the first SYN on. *)
Fixpoint abs_ops (isn_set : bool) (ops : list op) : list StreamReassembler.op :=
  match ops with
  | [] => []
  | Arrive pos seg :: ops =>
      if isn_set || syn (_header seg)
      then Push (payload seg) (index_of pos seg) (fin (_header seg)) :: abs_ops true ops
      else abs_ops false ops
  | Read len :: ops => ReadOut len :: abs_ops isn_set ops
  end.

Definition op_of (stream : bytes) (isn : WrappingInt32) (o : op) : Prop :=
  match o with
  | Arrive pos seg => seg_of stream isn pos seg
  | Read len => 0 <= len
  end.

(** Every segment arrives within 2^31 of the next byte expected, so that its
    32-bit sequence number identifies its position. *)
Fixpoint near (ops : list op) (rc : TCPReceiver) : Prop :=
  match ops with
  | [] => True
  | o :: ops =>
      match o with
      | Arrive pos seg =>
          (_isn_set rc || syn (_header seg)) = true ->
          Z.abs (index_of pos seg + 1 - bytes_written (stream_out rc)) < 2147483648
      | Read _ => True
      end /\ near ops (fst (step o rc))
  end.

(** *** Refinement *)

(** The initial sequence number in force once it is set. *)
Definition isn_ok (isn : WrappingInt32) (rc : TCPReceiver) : Prop :=
  _isn_set rc = true -> _isn rc = isn.

Lemma wrap_0 isn : WrappingIntegers.wf isn -> wrap 0 isn = isn.
Proof. intros Hi. apply W32_ext. rewrite wrap_raw. by apply u32_id. Qed.

Lemma place_push stream isn out pos rc seg :
  WrappingIntegers.wf isn -> zlen stream < 18446744069414584320 ->
  sound stream out (_reassembler rc) -> seg_of stream isn pos seg -> _isn rc = isn ->
  Z.abs (index_of pos seg + 1 - bytes_written (stream_out rc)) < 2147483648 ->
  place rc seg (wrap (index_of pos seg + 1) isn) =
  mkReceiver (push_substring (_reassembler rc) (payload seg) (index_of pos seg) (fin (_header seg)))
    (_capacity rc) isn (_isn_set rc).
Proof.
  intros Hw Hs Hr Hseg Hi Hn. unfold place. rewrite Hi.
  destruct (seg_excerpt _ _ _ _ Hseg) as (H0 & Hl & _).
  pose proof (sound_next _ _ _ Hr) as Hnx. pose proof (inv_next_u64 _ (sound_inv _ _ _ Hr)) as Hu.
  pose proof (inv_next _ (sound_inv _ _ _ Hr)) as He. unfold stream_out, StreamReassembler.stream_out in *.
  rewrite unwrap_near; [|done|lia|rewrite <- He; words; lia|done].
  replace (index_of pos seg + 1 - 1) with (index_of pos seg) by lia.
  rewrite u64_id; [done|]. lens. words. lia.
Qed.

(** The distance matters: a segment that the network has kept until 2^32 more
    bytes of the stream were written is placed a whole cycle of the sequence
    numbers too far, as if it carried new data. *)
Lemma stale_segment_misplaced rc seg n :
  WrappingIntegers.wf (_isn rc) -> 0 <= n -> 0 <= bytes_written (stream_out rc) < 18446744069414584320 ->
  Z.abs (n + 4294967296 - bytes_written (stream_out rc)) < 2147483648 ->
  place rc seg (wrap n (_isn rc)) =
  mkReceiver (push_substring (_reassembler rc) (payload seg) (n + 4294967295) (fin (_header seg)))
    (_capacity rc) (_isn rc) (_isn_set rc).
Proof.
  intros Hw Hn Hc Hd. unfold place.
  assert (wrap n (_isn rc) = wrap (n + 4294967296) (_isn rc)) as -> by (apply W32_ext; rewrite !wrap_raw; wsolve).
  rewrite unwrap_near by (done || lia). replace (n + 4294967296 - 1) with (n + 4294967295) by lia.
  rewrite u64_id by (words; lia). done.
Qed.

(** The effect of an arrival, in terms of the reassembler. *)
Definition arrive_abs (isn : WrappingInt32) (pos : Z) (seg : TCPSegment) (rc : TCPReceiver) : TCPReceiver :=
  if _isn_set rc || syn (_header seg)
  then mkReceiver (push_substring (_reassembler rc) (payload seg) (index_of pos seg) (fin (_header seg)))
         (_capacity rc) isn true
  else rc.

Lemma segment_received_abs stream isn out pos rc seg :
  WrappingIntegers.wf isn -> zlen stream < 18446744069414584320 ->
  sound stream out (_reassembler rc) -> isn_ok isn rc -> seg_of stream isn pos seg ->
  ((_isn_set rc || syn (_header seg)) = true ->
   Z.abs (index_of pos seg + 1 - bytes_written (stream_out rc)) < 2147483648) ->
  segment_received rc seg = arrive_abs isn pos seg rc.
Proof.
  intros Hw Hs Hr Hi Hseg Hn. unfold segment_received, arrive_abs. pose proof Hseg as [Hq Hp _ _].
  destruct (syn (_header seg)) eqn:Hsyn.
  - rewrite orb_true_r in *. subst pos. rewrite Hq, wrap_wrap_add, wrap_0 by done.
    assert (index_of 0 seg = 0) as Hx by (unfold index_of; by rewrite Hsyn).
    replace (0 + 1) with (index_of 0 seg + 1) by lia.
    rewrite (place_push stream isn out) by (try done; by apply Hn). done.
  - rewrite orb_false_r in *. destruct (_isn_set rc) eqn:Hset; [|done]. cbn [negb].
    rewrite Hq. replace pos with (index_of pos seg + 1) at 1
      by (unfold index_of; rewrite Hsyn; lia).
    rewrite (place_push stream isn out) by (try done; auto). by rewrite Hset.
Qed.

Lemma set_stream_out_read rc len :
  let '(o', out) := ByteStream.read (stream_out rc) len in
  let '(r', out') := StreamReassembler.step (ReadOut len) (_reassembler rc) in
  set_stream_out rc o' = mkReceiver r' (_capacity rc) (_isn rc) (_isn_set rc) /\ out = out'.
Proof.
  unfold StreamReassembler.step, stream_out.
  by destruct (ByteStream.read (StreamReassembler.stream_out (_reassembler rc)) len).
Qed.

Lemma abs_op_of stream isn set pos seg :
  seg_of stream isn pos seg ->
  StreamReassembler.op_of stream (Push (payload seg) (index_of pos seg) set).
Proof. by intros []. Qed.

(** One step of the receiver is a step of the reassembler, or nothing. *)
Lemma step_refines stream isn out o rc :
  WrappingIntegers.wf isn -> zlen stream < 18446744069414584320 ->
  sound stream out (_reassembler rc) -> isn_ok isn rc -> op_of stream isn o -> near [o] rc ->
  let '(rc', out1) := step o rc in
  let '(r', out2) := StreamReassembler.run (abs_ops (_isn_set rc) [o]) (_reassembler rc) in
  _reassembler rc' = r' /\ out1 = out2 /\ isn_ok isn rc' /\ _capacity rc' = _capacity rc /\
  (forall ops, abs_ops (_isn_set rc) (o :: ops) = abs_ops (_isn_set rc) [o] ++ abs_ops (_isn_set rc') ops) /\
  _isn_set rc' = _isn_set rc || match o with Arrive _ seg => syn (_header seg) | Read _ => false end.
Proof.
  intros Hw Hs Hr Hi Ho [Hn _]. destruct o as [pos seg|len]; simpl in Ho, Hn.
  - cbn [step]. rewrite (segment_received_abs stream isn out pos) by done. unfold arrive_abs. simpl.
    destruct (_isn_set rc || syn (_header seg)) eqn:Hor; simpl.
    + by split_and!.
    + apply orb_false_iff in Hor as [Hset _]. rewrite Hset. split_and!; try done.
  - cbn [step abs_ops StreamReassembler.run]. pose proof (set_stream_out_read rc len) as Hrd.
    destruct (ByteStream.read (stream_out rc) len) as [o' b].
    destruct (StreamReassembler.step (ReadOut len) (_reassembler rc)) as [r' b'].
    destruct Hrd as [-> ->]. rewrite app_nil_r, orb_false_r. by split_and!.
Qed.

Lemma sr_run_app ops ops' r :
  StreamReassembler.run (ops ++ ops') r =
  let '(r1, o1) := StreamReassembler.run ops r in
  let '(r2, o2) := StreamReassembler.run ops' r1 in (r2, o1 ++ o2).
Proof.
  revert r. induction ops as [|o ops IH]; intros r; cbn [app StreamReassembler.run].
  - by destruct (StreamReassembler.run ops' r).
  - destruct (StreamReassembler.step o r) as [r1 o1]. rewrite IH.
    destruct (StreamReassembler.run ops r1) as [r2 o2].
    destruct (StreamReassembler.run ops' r2) as [r3 o3]. by rewrite app_assoc.
Qed.

Lemma abs_ops_of stream isn ops : forall set,
  Forall (op_of stream isn) ops -> Forall (StreamReassembler.op_of stream) (abs_ops set ops).
Proof.
  induction ops as [|[pos seg|len] ops IH]; intros set Hops; cbn [abs_ops]; [done|..];
    apply Forall_cons in Hops as [Ho Hops].
  - case_match; [|by apply IH]. constructor; [by apply (abs_op_of _ isn)|by apply IH].
  - constructor; [done|by apply IH].
Qed.

(** A whole run of the receiver is the run of the reassembler on the abstract
    operations. *)
Lemma run_refines stream isn ops : forall out rc,
  WrappingIntegers.wf isn -> zlen stream < 18446744069414584320 ->
  sound stream out (_reassembler rc) -> isn_ok isn rc -> Forall (op_of stream isn) ops -> near ops rc ->
  let '(rc', out1) := run ops rc in
  let '(r', out2) := StreamReassembler.run (abs_ops (_isn_set rc) ops) (_reassembler rc) in
  _reassembler rc' = r' /\ out1 = out2 /\ isn_ok isn rc' /\ _capacity rc' = _capacity rc /\
  _isn_set rc' = _isn_set rc ||
    existsb (fun o => match o with Arrive _ seg => syn (_header seg) | Read _ => false end) ops.
Proof.
  induction ops as [|o ops IH]; intros out rc Hw Hs Hr Hi Hops Hn; cbn [run].
  - cbn [abs_ops StreamReassembler.run existsb]. rewrite orb_false_r. by split_and!.
  - apply Forall_cons in Hops as [Ho Hops]. destruct Hn as [Hn1 Hn].
    pose proof (step_refines stream isn out o rc Hw Hs Hr Hi Ho (conj Hn1 I)) as Hst.
    pose proof (run_sound stream (abs_ops (_isn_set rc) [o]) out (_reassembler rc) ltac:(lia) Hr
      ltac:(eapply (abs_ops_of _ isn); by repeat constructor)) as Hsd.
    destruct (step o rc) as [rc' out1].
    destruct (StreamReassembler.run (abs_ops (_isn_set rc) [o]) (_reassembler rc)) as [r' out2] eqn:E.
    destruct Hst as (Hr' & <- & Hi' & Hc' & Habs & Hset). rewrite Habs, sr_run_app, E. subst r'.
    specialize (IH (out ++ out1) rc' Hw Hs Hsd Hi' Hops Hn).
    destruct (run ops rc') as [rc'' out3].
    destruct (StreamReassembler.run (abs_ops (_isn_set rc') ops) (_reassembler rc')) as [r'' out4].
    destruct IH as (? & ? & ? & ? & ?). split_and!; try congruence; [done|].
    cbn [existsb]. rewrite orb_assoc. congruence.
Qed.

(** *** Arbitrary segments *)
Lemma push_far r data index eof :
  nextIndex r < index -> StreamReassembler._capacity r <= u64 (index - nextIndex r) ->
  push_substring r data index eof = r.
Proof.
  intros Hi Hc. unfold push_substring. cbn [push_substring_fuel].
  by destruct (Z.ltb_spec (nextIndex r) index), (Z.leb_spec (StreamReassembler._capacity r) (u64 (index - nextIndex r)));
    try lia.
Qed.

(** Room for the arithmetic of one arrival. *)
Definition headroom (rc : TCPReceiver) (seg : TCPSegment) : Prop :=
  _capacity rc < 9223372036854775808 /\
  bytes_written (stream_out rc) + zlen (payload seg) < 9223372028264841216.

Lemma place_pushed rc seg n :
  inv rc -> headroom rc seg -> WrappingIntegers.wf n ->
  exists index, pushed (payload seg) index (_reassembler rc) (_reassembler (place rc seg n)) /\
    inv (place rc seg n) /\ _capacity (place rc seg n) = _capacity rc /\
    _isn (place rc seg n) = _isn rc /\ _isn_set (place rc seg n) = _isn_set rc.
Proof.
  intros Hi [Hc Hh] Hw. pose proof Hi as [Hr Hsc Hisn].
  pose proof (inv_next_u64 _ Hr) as Hu. pose proof (inv_next _ Hr) as He.
  unfold place. change (copy (_payload seg)) with (payload seg).
  set (c := bytes_written (stream_out rc)) in *. change (bytes_written _) with c in He.
  assert (0 <= c) by (words; lia). lens.
  pose proof (unwrap_bound n (_isn rc) c Hw Hisn ltac:(lia)) as Hb.
  assert (exists index, pushed (payload seg) index (_reassembler rc)
    (push_substring (_reassembler rc) (payload seg) (u64 (unwrap n (_isn rc) c - 1)) (fin (_header seg))))
    as (index & Hp).
  { destruct (Z.eq_dec (unwrap n (_isn rc) c) 0) as [->|].
    - exists 0. rewrite push_far by (rewrite ?He; wsolve). by apply pushed_same; eauto.
    - rewrite u64_id by (words; lia). eexists. apply push_pushed; [done|lia..]. }
  exists index. simpl. split; [done|]. split_and!; try done. constructor; simpl; [apply Hp| |done].
  by rewrite (pushed_capacity _ _ _ _ Hp).
Qed.

Lemma pushed_written data index r r' :
  StreamReassembler.inv r -> pushed data index r r' -> bytes_written (_output r) <= bytes_written (_output r').
Proof.
  intros Hi [Hi' _ (bs & _ & Hn & _) _ _]. rewrite <- (inv_next _ Hi), <- (inv_next _ Hi'). lens. lia.
Qed.

(** Whatever arrives is at most a push. *)
Lemma received_pushed rc seg :
  inv rc -> headroom rc seg -> WrappingIntegers.wf (seqno (_header seg)) ->
  let rc' := segment_received rc seg in
  inv rc' /\ _capacity rc' = _capacity rc /\
  exists index, pushed (payload seg) index (_reassembler rc) (_reassembler rc').
Proof.
  intros Hi Hh Hw. unfold segment_received. destruct (syn (_header seg)).
  - destruct (place_pushed (mkReceiver (_reassembler rc) (_capacity rc) (seqno (_header seg)) true) seg
      (add (seqno (_header seg)) 1)) as (index & Hp & Hi' & Hc & _); [by destruct Hi|done|apply wf_of_uint|eauto].
  - destruct (_isn_set rc); cbn [negb].
    + destruct (place_pushed rc seg (seqno (_header seg))) as (index & ? & ? & ? & _); eauto.
    + split_and!; [done..|]. exists 0. apply pushed_same; eauto. apply Hi.
Qed.

(** ** Properties *)

(** C14 The receiver refines the reassembler: on a run of arrivals of segments of
    one stream (in any order, with loss and duplication, each within 2^31 of
    the next byte) and reads, the receiver's reassembler and everything it
    hands to the reader are those of a [StreamReassembler] driven by the
    payloads at their stream indices, from the first SYN on. *)
Theorem receiver_refines stream isn capacity ops :
  WrappingIntegers.wf isn -> is_u64 capacity -> zlen stream < 18446744069414584320 ->
  Forall (op_of stream isn) ops -> near ops (new capacity) ->
  let '(rc, out) := run ops (new capacity) in
  StreamReassembler.run (abs_ops false ops) (StreamReassembler.new capacity) = (_reassembler rc, out).
Proof.
  intros Hw Hc Hs Hops Hn.
  pose proof (run_refines stream isn ops [] (new capacity) Hw Hs (sound_new stream capacity Hc)) as H.
  specialize (H ltac:(done) Hops Hn). change (_isn_set (new capacity)) with false in H.
  change (_reassembler (new capacity)) with (StreamReassembler.new capacity) in H.
  destruct (run ops (new capacity)), (StreamReassembler.run _ _). destruct H as (-> & -> & _). done.
Qed.

(** The receiver delivers a prefix of the peer's stream and acknowledges
    exactly what it has assembled: after any such run, the bytes read and the
    bytes buffered are the first [bytes_written] bytes of the stream, [ackno]
    is absent until a SYN arrived, and afterwards it is the sequence number of
    the next byte (one more once the input has ended). *)
Theorem receiver_sound stream isn capacity ops :
  WrappingIntegers.wf isn -> is_u64 capacity -> zlen stream < 18446744069414584320 ->
  Forall (op_of stream isn) ops -> near ops (new capacity) ->
  let '(rc, out) := run ops (new capacity) in
  let written := bytes_written (stream_out rc) in
  out ++ _buf (stream_out rc) = ztake written stream /\ written <= zlen stream /\
  ackno rc =
    (if existsb (fun o => match o with Arrive _ seg => syn (_header seg) | Read _ => false end) ops
     then Some (wrap (1 + written + if input_ended (stream_out rc) then 1 else 0) isn)
     else None).
Proof.
  intros Hw Hc Hs Hops Hn.
  pose proof (run_refines stream isn ops [] (new capacity) Hw Hs (sound_new stream capacity Hc)
    ltac:(done) Hops Hn) as H.
  pose proof (run_sound stream (abs_ops false ops) [] _ ltac:(lia) (sound_new stream capacity Hc)
    (abs_ops_of _ isn _ _ Hops)) as Hsd.
  change (_isn_set (new capacity)) with false in H.
  change (_reassembler (new capacity)) with (StreamReassembler.new capacity) in H.
  destruct (run ops (new capacity)) as [rc out], (StreamReassembler.run _ _) as [r' out'].
  destruct H as (Hr & <- & Hi & _ & Hset). subst r'. destruct Hsd as [Hinv Ho Hnx _].
  pose proof (inv_next_u64 _ Hinv) as Hu. rewrite (inv_next _ Hinv) in *.
  split; [done|]. split; [done|]. unfold ackno. cbn [orb _isn_set new] in Hset. rewrite Hset.
  destruct (existsb _ ops); [|done]. cbn [negb]. rewrite (Hi Hset).
  fold (stream_out rc) in *. change (_output (_reassembler rc)) with (stream_out rc) in *.
  rewrite u64_id by (words; lia). case_match; rewrite ?wrap_wrap_add; do 2 f_equal; lia.
Qed.

(** What is inside the advertised window is accepted, and the window is what
    is documented: the capacity minus the bytes assembled but not read.  A
    segment of the stream that ends at or before [ackno + window_size] is held
    in full when it arrives (each byte written out or stored), provided
    earlier segments kept to the window ([tight]), which stays true. *)
Theorem window_accepts stream isn out pos rc seg :
  inv rc -> zlen stream < 18446744069414584320 -> sound stream out (_reassembler rc) ->
  tight (_reassembler rc) -> _isn_set rc = true -> _isn rc = isn -> seg_of stream isn pos seg ->
  Z.abs (index_of pos seg + 1 - bytes_written (stream_out rc)) < 2147483648 ->
  index_of pos seg + zlen (payload seg) <= bytes_written (stream_out rc) + window_size rc ->
  let rc' := segment_received rc seg in
  window_size rc = _capacity rc - buffer_size (stream_out rc) /\
  tight (_reassembler rc') /\
  forall p, index_of pos seg <= p < index_of pos seg + zlen (payload seg) -> held (_reassembler rc') p.
Proof.
  intros Hi Hs Hr Ht Hset Hisn Hseg Hn Hf rc'. subst rc'.
  destruct (window_size_eq rc Hi) as (Hw & Hw' & _). split; [done|].
  rewrite (segment_received_abs stream isn out pos);
    [|rewrite <- Hisn; apply Hi|done|done|by intros _|done|done].
  unfold arrive_abs. rewrite Hset. cbn [orb _reassembler].
  destruct (seg_excerpt _ _ _ _ Hseg) as (H0 & Hl & _).
  apply push_fits; [apply Hi|done|done|lia|]. unfold fits.
  rewrite (inv_next _ (inv_reassembler _ Hi)). change (_output (_reassembler rc)) with (stream_out rc). lia.
Qed.

(** No segment can break the receiver: whatever arrives (any flags, any
    sequence number, any payload), the invariant is preserved, the stream
    stays within the capacity, nothing already assembled changes, and the
    count of assembled bytes does not decrease. *)
Theorem segment_received_safe rc seg :
  inv rc -> headroom rc seg -> WrappingIntegers.wf (seqno (_header seg)) ->
  let rc' := segment_received rc seg in
  inv rc' /\ _capacity rc' = _capacity rc /\ buffer_size (stream_out rc') <= _capacity rc' /\
  bytes_written (stream_out rc) <= bytes_written (stream_out rc') /\
  exists new_bytes, _buf (stream_out rc') = _buf (stream_out rc) ++ new_bytes.
Proof.
  intros Hi Hh Hw rc'. destruct (received_pushed rc seg Hi Hh Hw) as (Hi' & Hc & index & Hp).
  split_and!; [done..| | |].
  - destruct (window_size_eq rc' Hi') as (_ & H1 & H2). lia.
  - apply (pushed_written _ _ _ _ (inv_reassembler _ Hi) Hp).
  - destruct Hp as [_ _ (bs & Hb & _) _ _]. eauto.
Qed.

(** A SYN is taken at any time, not only to open the connection: when one
    arrives on an established stream the initial sequence number is replaced,
    and the acknowledgment number jumps to the new numbering. *)
Theorem late_syn_moves_ackno rc seg :
  inv rc -> syn (_header seg) = true -> fin (_header seg) = false -> payload seg = [] ->
  WrappingIntegers.wf (seqno (_header seg)) -> 0 < bytes_written (stream_out rc) < 2147483648 ->
  input_ended (stream_out rc) = false ->
  ackno (segment_received rc seg) =
    Some (add (seqno (_header seg)) (bytes_written (stream_out rc) + 1)).
Proof.
  intros Hi Hsyn Hfin Hpay Hw Hwr Hend. unfold segment_received. rewrite Hsyn.
  unfold place. cbn [_isn _isn_set _reassembler _capacity stream_out].
  change (copy (_payload seg)) with (payload seg). rewrite Hpay, Hfin.
  set (c := bytes_written _) in *.
  assert (unwrap (add (seqno (_header seg)) 1) (seqno (_header seg)) c = 1) as ->.
  { rewrite <- (wrap_0 (seqno (_header seg)) Hw) at 1. rewrite wrap_wrap_add. apply unwrap_near; [done|lia..]. }
  assert (push_substring (_reassembler rc) [] (u64 (1 - 1)) false = _reassembler rc) as ->.
  { unfold push_substring. cbn [push_substring_fuel]. rewrite (inv_next _ (inv_reassembler _ Hi)).
    change (bytes_written (_output (_reassembler rc))) with c. lens_nil.
    change (u64 (1 - 1)) with 0. change (u64 (0 + 0)) with 0.
    by destruct (Z.ltb_spec c 0), (Z.ltb_spec 0 c); try lia. }
  unfold ackno, stream_out. cbn [_isn _isn_set _reassembler negb].
  change (StreamReassembler.stream_out (_reassembler rc)) with (stream_out rc). rewrite Hend.
  subst c. rewrite u64_id by (words; unfold stream_out in *; lia). f_equal.
  apply W32_ext. rewrite wrap_raw. unfold add, of_uint; simpl. f_equal. unfold stream_out. lia.
Qed.

(** Witnesses *)

Definition demo_isn : WrappingInt32 := mkW32 4294967294.

(** Before the SYN, out of order, across the wrap of the sequence numbers. *)
Definition demo_arrivals : list op :=
  [Arrive 2 (data_segment (mkW32 0) false false [2; 3]);
   Arrive 0 (data_segment demo_isn true false []);
   Arrive 3 (data_segment (mkW32 1) false false [3]);
   Arrive 1 (data_segment (mkW32 4294967295) false false [1; 2]);
   Read 1].

Lemma demo_arrivals_of : Forall (op_of [1; 2; 3; 4] demo_isn) demo_arrivals.
Proof.
  repeat constructor;
    solve [vm_compute; congruence | apply W32_ext; vm_compute; reflexivity].
Qed.

Lemma demo_arrivals_near : near demo_arrivals (new 10).
Proof. vm_compute. intuition congruence. Qed.

Lemma receiver_refines_witness :
  let '(rc, out) := run demo_arrivals (new 10) in
  StreamReassembler.run (abs_ops false demo_arrivals) (StreamReassembler.new 10) = (_reassembler rc, out) /\
  out = [1].
Proof.
  pose proof (receiver_refines [1; 2; 3; 4] demo_isn 10 demo_arrivals) as H.
  destruct (run demo_arrivals (new 10)) as [rc out] eqn:E. split.
  - apply H; [vm_compute; split; congruence|vm_compute; split; congruence|reflexivity|
      exact demo_arrivals_of|exact demo_arrivals_near].
  - vm_compute in E. injection E as _ <-. reflexivity.
Defined.

Lemma receiver_sound_witness :
  let '(rc, out) := run demo_arrivals (new 10) in
  out ++ _buf (stream_out rc) = [1; 2; 3] /\ ackno rc = Some (wrap 4 demo_isn).
Proof.
  pose proof (receiver_sound [1; 2; 3; 4] demo_isn 10 demo_arrivals) as H.
  destruct (run demo_arrivals (new 10)) as [rc out] eqn:E. vm_compute in E. injection E as <- <-.
  destruct H as (H1 & _ & H2); [vm_compute; split; congruence|vm_compute; split; congruence|reflexivity|
    exact demo_arrivals_of|exact demo_arrivals_near|].
  split; [exact H1|exact H2].
Defined.

(** A receiver with the handshake done. *)
Definition demo_receiver : TCPReceiver :=
  segment_received (new 10) (data_segment demo_isn true false [1]).

Lemma demo_receiver_inv : inv demo_receiver.
Proof.
  assert (is_u64 10) as H10 by (vm_compute; split; congruence).
  constructor; [|reflexivity|vm_compute; split; congruence].
  change (_reassembler demo_receiver) with (push_substring (StreamReassembler.new 10) [1] 0 false).
  eapply pushed_inv. apply push_pushed; [by apply StreamReassembler.reassembler_inv_new|lia|reflexivity].
Qed.

Lemma window_accepts_witness :
  held (_reassembler (segment_received demo_receiver (data_segment (mkW32 1) false false [3]))) 2.
Proof.
  destruct (window_accepts [1; 2; 3] demo_isn [] 3 demo_receiver (data_segment (mkW32 1) false false [3]))
    as (_ & _ & H).
  - exact demo_receiver_inv.
  - reflexivity.
  - constructor; [exact (inv_reassembler _ demo_receiver_inv)|reflexivity|vm_compute; congruence|].
    intros k v Hk. vm_compute in Hk. destruct k; discriminate.
  - intros k [v Hk]. vm_compute in Hk. destruct k; discriminate.
  - reflexivity.
  - apply W32_ext. reflexivity.
  - constructor; [apply W32_ext; reflexivity|vm_compute; congruence|vm_compute; repeat split; congruence|reflexivity].
  - reflexivity.
  - vm_compute. congruence.
  - apply H. vm_compute. split; congruence.
Defined.

Lemma segment_received_safe_witness :
  inv (segment_received demo_receiver (data_segment (mkW32 77) false true [9; 9])).
Proof.
  apply (segment_received_safe demo_receiver (data_segment (mkW32 77) false true [9; 9]));
    [exact demo_receiver_inv|vm_compute; split; reflexivity|vm_compute; split; congruence].
Defined.

Lemma late_syn_moves_ackno_witness :
  ackno demo_receiver = Some (mkW32 0) /\
  ackno (segment_received demo_receiver (data_segment (mkW32 500) true false [])) = Some (mkW32 502).
Proof.
  split; [reflexivity|].
  apply (late_syn_moves_ackno demo_receiver (data_segment (mkW32 500) true false []));
    [exact demo_receiver_inv|reflexivity|reflexivity|reflexivity|vm_compute; split; congruence|
     vm_compute; split; congruence|reflexivity].
Defined.
