(* ===== verification/TCPConfig.v ===== *)
(** * TCPConfig: constants and configuration

    Models [src/libsponge/tcp_helpers/tcp_config.hh].  Addresses are the
    32-bit IPv4 address and the port, which is what the code reads of them. *)

From S2P Require Import Prelude WrappingIntegers.

Definition DEFAULT_CAPACITY : Z := 64000.
Definition MAX_PAYLOAD_SIZE : Z := 1452.
Definition TIMEOUT_DFLT : Z := 1000.
Definition MAX_RETX_ATTEMPTS : Z := 8.

Record TCPConfig := mkTCPConfig {
  rt_timeout : Z;
  recv_capacity : Z;
  send_capacity : Z;
  fixed_isn : option WrappingInt32
}.

Definition default_config : TCPConfig :=
  mkTCPConfig TIMEOUT_DFLT DEFAULT_CAPACITY DEFAULT_CAPACITY None.

(** [Address]: [ipv4_numeric()] and [port()]. *)
Record Address := mkAddress { ipv4_numeric : Z; port : Z }.

Record FdAdapterConfig := mkFdAdapterConfig {
  source : Address;
  destination : Address;
  loss_rate_dn : Z;
  loss_rate_up : Z
}.

Definition default_adapter_config : FdAdapterConfig :=
  mkFdAdapterConfig (mkAddress 0 0) (mkAddress 0 0) 0 0.

(** The types of the members. *)
Record config_wf (cfg : TCPConfig) : Prop := mkConfigWf {
  wf_rt_timeout : is_u16 (rt_timeout cfg);
  wf_recv_capacity : is_u64 (recv_capacity cfg);
  wf_send_capacity : is_u64 (send_capacity cfg);
  wf_fixed_isn : match fixed_isn cfg with Some isn => wf isn | None => True end
}.

Lemma default_config_wf : config_wf default_config.
Proof. constructor; vm_compute; try split; congruence. Qed.
