(* ===== verification/NetAddress.v ===== *)
(** * NetAddress: socket addresses as bytes

    Models [src/libsponge/util/address.hh] and [.cc].  An [Address] is a size and
    the 128 bytes of a [sockaddr_storage]; an IPv4 address is laid out in it as
    a [sockaddr_in]: the family in host byte order (little endian), the port and
    the number in network byte order, and eight zeros.  Text is the list of its
    characters' codes.  The resolver is a parameter, the class [Resolver]; what
    is documented of [getaddrinfo] and [getnameinfo] for numeric arguments is
    [NumericResolver].  The category of a resolver error is not kept.

    The rest of the development uses an address as a number and a port
    ([TCPConfig.Address]).  The theorems justify that: comparing two IPv4
    addresses compares their numbers and ports, and an address goes through its
    text unchanged. *)

From S2P Require Import Prelude Parser TCPConfig.

Definition AF_INET : Z := 2.
Definition AI_NUMERICHOST : Z := 0x4.
Definition AI_ALL : Z := 0x10.
Definition AI_NUMERICSERV : Z := 0x400.
Definition sizeof_storage : Z := 128.
Definition sizeof_sockaddr_in : Z := 16.

Record address := mkSockaddr { _size : Z; _address : bytes }.

(** [Address(const sockaddr *addr, size_t size)]: [addr] is what can be read at
    the pointer; the rest of the storage was initialized to zeros. *)
Definition of_sockaddr (addr : bytes) (size : Z) : outcome address :=
  if sizeof_storage <? size then Throw runtime_error
  else if zlen addr <? size then Throw out_of_range
  else Ret (mkSockaddr size (ztake size addr ++ replicate (Z.to_nat (sizeof_storage - size)) 0)).

(** [std::to_string] of an unsigned number below 10^20, and [std::stoi]. *)
Fixpoint decimal (fuel : nat) (n : Z) : bytes :=
  match fuel with
  | O => []
  | S fuel => if n <? 10 then [48 + n] else decimal fuel (n / 10) ++ [48 + n mod 10]
  end.
Definition to_text (n : Z) : bytes := decimal 20 n.

Definition is_digit (c : Z) : bool := (48 <=? c) && (c <=? 57).
Fixpoint digits (s : bytes) (acc : Z) : Z :=
  match s with
  | c :: s => if is_digit c then digits s (acc * 10 + (c - 48)) else acc
  | [] => acc
  end.
Fixpoint skip_space (s : bytes) : bytes :=
  match s with
  | c :: t => if (c =? 32) || ((9 <=? c) && (c <=? 13)) then skip_space t else s
  | [] => []
  end.
(** No digit at all is [invalid_argument]. *)
Definition signed (sign : Z) (s : bytes) : outcome Z :=
  match s with
  | c :: _ =>
      if is_digit c then
        let v := sign * digits s 0 in
        if (v <? -2147483648) || (2147483647 <? v) then Throw out_of_range else Ret v
      else Throw runtime_error
  | [] => Throw runtime_error
  end.
Definition stoi (s : bytes) : outcome Z :=
  match skip_space s with
  | c :: t => if c =? 43 then signed 1 t else if c =? 45 then signed (-1) t else signed 1 (c :: t)
  | [] => Throw runtime_error
  end.

(** ** Resolving *)

Record addrinfo := mkHints { ai_flags : Z; ai_family : Z }.
Definition make_hints (ai_flags ai_family : Z) : addrinfo := mkHints ai_flags ai_family.

(** The code returned, and the first result: the bytes at [ai_addr] and
    [ai_addrlen]; the code, the host and the service. *)
Class Resolver := {
  getaddrinfo : bytes -> bytes -> addrinfo -> Z * option (bytes * Z);
  getnameinfo : bytes -> Z -> Z * bytes * bytes
}.

Section address.
Context `{Resolver}.

Definition of_node (node service : bytes) (hints : addrinfo) : outcome address :=
  let '(gai_ret, resolved_address) := getaddrinfo node service hints in
  if negb (gai_ret =? 0) then Throw (unix_error gai_ret)
  else
    match resolved_address with
    | None => Throw runtime_error
    | Some (ai_addr, ai_addrlen) => of_sockaddr ai_addr ai_addrlen
    end.

Definition of_host (hostname service : bytes) : outcome address :=
  of_node hostname service (make_hints AI_ALL AF_INET).

Definition of_ip (ip : bytes) (port : Z) : outcome address :=
  of_node ip (to_text port) (make_hints (Z.lor AI_NUMERICHOST AI_NUMERICSERV) AF_INET).

Definition ip_port (a : address) : outcome (bytes * Z) :=
  let '(gni_ret, ip, port) := getnameinfo (ztake (_size a) (_address a)) (_size a) in
  if negb (gni_ret =? 0) then Throw (unix_error gni_ret)
  else try: p <- stoi port; Ret (ip, u16 p).

Definition ip (a : address) : outcome bytes := try: (ip, _) <- ip_port a; Ret ip.
Definition port_of (a : address) : outcome Z := try: (_, port) <- ip_port a; Ret port.

Definition to_string (a : address) : outcome bytes :=
  try: (ip, port) <- ip_port a;
  Ret (ip ++ [58] ++ to_text port).
End address.

(** [ss_family], in the byte order of the host. *)
Definition ss_family (a : address) : Z :=
  match _address a with lo :: hi :: _ => lo + 256 * hi | _ => 0 end.

Definition ipv4_numeric_of (a : address) : outcome Z :=
  if negb (ss_family a =? AF_INET) || negb (_size a =? sizeof_sockaddr_in) then Throw runtime_error
  else Ret (be_val (ztake 4 (zdrop 4 (_address a)))).

Definition from_ipv4_numeric (ip_address : Z) : outcome address :=
  of_sockaddr ([2; 0] ++ be 2 0 ++ be 4 ip_address ++ replicate 8 0) sizeof_sockaddr_in.

Definition eqb (a b : address) : bool :=
  if negb (_size a =? _size b) then false
  else bool_decide (ztake (_size a) (_address a) = ztake (_size a) (_address b)).

(** ** IPv4 addresses *)

(** The [sockaddr_in] of a number and a port. *)
Definition sockaddr_in (n p : Z) : bytes := [2; 0] ++ be 2 p ++ be 4 n ++ replicate 8 0.
Definition v4 (n p : Z) : address :=
  mkSockaddr sizeof_sockaddr_in (sockaddr_in n p ++ replicate 112 0).

Lemma zlen_sockaddr_in n p : zlen (sockaddr_in n p) = 16.
Proof. unfold sockaddr_in. rewrite !zlen_app, !zlen_be, zlen_replicate. done. Qed.

Lemma of_sockaddr_in n p : of_sockaddr (sockaddr_in n p) sizeof_sockaddr_in = Ret (v4 n p).
Proof.
  unfold of_sockaddr. rewrite zlen_sockaddr_in. simpl. unfold v4. do 2 f_equal.
Qed.

Lemma be_inj n a b : 0 <= a < 2 ^ (8 * Z.of_nat n) -> 0 <= b < 2 ^ (8 * Z.of_nat n) -> be n a = be n b -> a = b.
Proof.
  intros Ha Hb E. apply (f_equal be_val) in E. rewrite !be_val_be, !Z.mod_small in E by done. done.
Qed.

Lemma v4_front n p : ztake 16 (_address (v4 n p)) = sockaddr_in n p.
Proof. reflexivity. Qed.

Lemma sockaddr_in_inj n p m q :
  is_u32 n -> is_u16 p -> is_u32 m -> is_u16 q -> sockaddr_in n p = sockaddr_in m q -> n = m /\ p = q.
Proof.
  intros Hn Hp Hm Hq E. unfold sockaddr_in in E. apply app_inv_head in E.
  assert (length (be 2 p) = length (be 2 q)) as Hl.
  { pose proof (zlen_be 2 p). pose proof (zlen_be 2 q). rewrite zlen_eq in *. lia. }
  apply app_inj_1 in E as [E1 E2]; [|done]. apply app_inv_tail in E2.
  split; [by eapply (be_inj 4)|by eapply (be_inj 2)].
Qed.

(** *** Text *)
Lemma digits_app s t acc : forallb is_digit s = true -> digits (s ++ t) acc = digits t (digits s acc).
Proof.
  revert acc. induction s as [|c s IH]; intros acc Hs; simpl in *; [done|].
  apply andb_true_iff in Hs as [-> Hs]. by apply IH.
Qed.

Lemma digit_ok d : 0 <= d < 10 -> is_digit (48 + d) = true.
Proof. intros. unfold is_digit. apply andb_true_iff. split; apply Z.leb_le; lia. Qed.

Lemma decimal_spec fuel : forall n, 0 <= n < 10 ^ Z.of_nat fuel ->
  forallb is_digit (decimal fuel n) = true /\ digits (decimal fuel n) 0 = n /\ (0 < fuel -> decimal fuel n <> [])%nat.
Proof.
  induction fuel as [|fuel IH]; intros n Hn; [simpl in *; split_and!; [done|lia|lia]|]. cbn [decimal].
  rewrite Nat2Z.inj_succ, Z.pow_succ_r in Hn by lia.
  destruct (Z.ltb_spec n 10).
  { assert (is_digit (48 + n) = true) as Hd by (apply digit_ok; lia). simpl. rewrite Hd. split_and!; [done|lia|done]. }
  destruct (IH (n / 10)) as (Hd & Hv & _).
  { split; [apply Z.div_pos; lia|apply Z.div_lt_upper_bound; lia]. }
  pose proof (Z.mod_pos_bound n 10 ltac:(lia)) as Hm. pose proof (Z.div_mod n 10 ltac:(lia)) as Hdm.
  split_and!.
  - rewrite forallb_app, Hd. simpl. by rewrite (digit_ok (n mod 10) Hm).
  - rewrite digits_app, Hv by done. simpl. rewrite (digit_ok (n mod 10) Hm). lia.
  - intros _ E. by apply app_nil in E as [_ ?].
Qed.

Lemma stoi_to_text n : 0 <= n <= 2147483647 -> stoi (to_text n) = Ret n.
Proof.
  intros Hn. unfold to_text. destruct (decimal_spec 20 n) as (Hd & Hv & Hne); [simpl; lia|].
  unfold stoi. destruct (decimal 20 n) as [|c s] eqn:E; [by destruct Hne; [lia|]|].
  simpl in Hd. apply andb_true_iff in Hd as [Hc _]. pose proof Hc as Hc'. unfold is_digit in Hc.
  apply andb_true_iff in Hc as [H1%Z.leb_le H2%Z.leb_le]. cbn [skip_space].
  destruct (Z.eqb_spec c 32); [lia|]. destruct (Z.leb_spec 9 c), (Z.leb_spec c 13); try lia; cbn [orb andb].
  destruct (Z.eqb_spec c 43); [lia|]. destruct (Z.eqb_spec c 45); [lia|].
  unfold signed. rewrite Hc', Hv. destruct (Z.ltb_spec (1 * n) (-2147483648)); [lia|].
  destruct (Z.ltb_spec 2147483647 (1 * n)); [lia|]. cbn [orb]. f_equal. lia.
Qed.

(** A dotted quad. *)
Definition dotted (n : Z) : bytes :=
  to_text (n / 16777216) ++ [46] ++ to_text (n / 65536 mod 256) ++ [46] ++
  to_text (n / 256 mod 256) ++ [46] ++ to_text (n mod 256).

(** What is documented of the resolver for numeric hosts and services. *)
Class NumericResolver `{Resolver} := {
  gai_numeric n p : is_u32 n -> is_u16 p ->
    getaddrinfo (dotted n) (to_text p) (make_hints (Z.lor AI_NUMERICHOST AI_NUMERICSERV) AF_INET) =
    (0, Some (sockaddr_in n p, sizeof_sockaddr_in));
  gni_numeric n p : is_u32 n -> is_u16 p ->
    getnameinfo (sockaddr_in n p) sizeof_sockaddr_in = (0, dotted n, to_text p)
}.

(** ** Properties *)
Lemma v4_numeric n p : is_u32 n -> ipv4_numeric_of (v4 n p) = Ret n.
Proof.
  intros Hn. assert (ztake 4 (zdrop 4 (_address (v4 n p))) = be 4 n) as E by reflexivity.
  unfold ipv4_numeric_of. rewrite E, be_val_be, Z.mod_small; [reflexivity|]. exact Hn.
Qed.

(** An IPv4 address is its number and its port: the addresses built from a
    [sockaddr_in] compare equal, byte by byte, exactly when the number and the
    port are the same; [ipv4_numeric] returns the number, [from_ipv4_numeric] is
    its inverse (with port 0), and it throws for any address that is not
    IPv4. *)
Theorem address_equality n p m q a :
  is_u32 n -> is_u16 p -> is_u32 m -> is_u16 q ->
  (eqb (v4 n p) (v4 m q) = true <-> mkAddress n p = mkAddress m q) /\
  of_sockaddr (sockaddr_in n p) sizeof_sockaddr_in = Ret (v4 n p) /\
  ipv4_numeric_of (v4 n p) = Ret n /\ from_ipv4_numeric n = Ret (v4 n 0) /\
  (ss_family a <> AF_INET \/ _size a <> sizeof_sockaddr_in -> ipv4_numeric_of a = Throw runtime_error).
Proof.
  intros Hn Hp Hm Hq. split_and!.
  - unfold eqb. change (_size (v4 n p) =? _size (v4 m q)) with true. cbn [negb].
    change (_size (v4 n p)) with 16. rewrite !v4_front, bool_decide_eq_true. split.
    + intros [-> ->]%sockaddr_in_inj; done.
    + by intros [= -> ->].
  - apply of_sockaddr_in.
  - by apply v4_numeric.
  - apply (of_sockaddr_in n 0).
  - intros Ha. unfold ipv4_numeric_of.
    destruct (Z.eqb_spec (ss_family a) AF_INET), (Z.eqb_spec (_size a) sizeof_sockaddr_in); simpl; try done. by destruct Ha.
Qed.

(** An address survives its text: with a resolver that reads and writes
    numeric addresses as documented, constructing an [Address] from a dotted
    quad and a port gives that address, and [ip_port] gives the text and the port
    back. *)
Theorem address_text_roundtrip `{NumericResolver} n p :
  is_u32 n -> is_u16 p ->
  of_ip (dotted n) p = Ret (v4 n p) /\ ip_port (v4 n p) = Ret (dotted n, p) /\
  to_string (v4 n p) = Ret (dotted n ++ [58] ++ to_text p).
Proof.
  intros Hn Hp. assert (ip_port (v4 n p) = Ret (dotted n, p)) as Hi.
  { unfold ip_port. change (_size (v4 n p)) with sizeof_sockaddr_in. change sizeof_sockaddr_in with 16 at 1.
    rewrite v4_front, gni_numeric by done. simpl. rewrite stoi_to_text by (words; lia). cbn [obind].
    by rewrite u16_id. }
  split_and!; [|done|unfold to_string; by rewrite Hi].
  unfold of_ip, of_node. rewrite gai_numeric by done. simpl. apply of_sockaddr_in.
Qed.

(** ** Witnesses: a resolver for numeric addresses *)

Fixpoint skip_digits (s : bytes) : bytes :=
  match s with
  | c :: t => if is_digit c then skip_digits t else s
  | [] => []
  end.
(** The number before a dot, and what follows the dot. *)
Definition octet (s : bytes) : Z * bytes := (digits s 0, tail (skip_digits s)).
Definition undotted (s : bytes) : Z :=
  let '(a, s) := octet s in
  let '(b, s) := octet s in
  let '(c, s) := octet s in
  ((a * 256 + b) * 256 + c) * 256 + digits s 0.

Lemma skip_digits_dot s u : forallb is_digit s = true -> skip_digits (s ++ 46 :: u) = 46 :: u.
Proof.
  induction s as [|c s IH]; intros Hs; simpl in *; [done|]. apply andb_true_iff in Hs as [-> Hs]. auto.
Qed.

Lemma octet_text n t : 0 <= n < 256 -> octet (to_text n ++ [46] ++ t) = (n, t).
Proof.
  intros Hn. destruct (decimal_spec 20 n) as (Hd & Hv & _); [change (10 ^ Z.of_nat 20) with 100000000000000000000; lia|].
  fold (to_text n) in Hd, Hv. revert Hd Hv. generalize (to_text n). intros s Hd Hv.
  unfold octet. rewrite digits_app, Hv by done. cbn [app]. by rewrite skip_digits_dot.
Qed.

Lemma undotted_dotted n : is_u32 n -> undotted (dotted n) = n.
Proof.
  intros Hn. unfold undotted, dotted. rewrite octet_text by wsolve. rewrite octet_text by wsolve.
  rewrite octet_text by wsolve. unfold to_text.
  destruct (decimal_spec 20 (n mod 256)) as (_ & -> & _); [split; [apply Z.mod_pos_bound; lia|]|wsolve].
  pose proof (Z.mod_pos_bound n 256). simpl. lia.
Qed.

Definition numeric_resolver : Resolver := {|
  getaddrinfo node service hints := (0, Some (sockaddr_in (undotted node) (digits service 0), sizeof_sockaddr_in));
  getnameinfo addr size := (0, dotted (be_val (ztake 4 (zdrop 4 addr))), to_text (be_val (ztake 2 (zdrop 2 addr))))
|}.

Lemma numeric_resolver_ok : @NumericResolver numeric_resolver.
Proof.
  constructor; intros n p Hn Hp; simpl.
  - rewrite undotted_dotted by done. unfold to_text.
    destruct (decimal_spec 20 p) as (_ & -> & _); [words; simpl; lia|done].
  - assert (ztake 4 (zdrop 4 (sockaddr_in n p)) = be 4 n) as -> by reflexivity.
    assert (ztake 2 (zdrop 2 (sockaddr_in n p)) = be 2 p) as -> by reflexivity.
    rewrite !be_val_be, !Z.mod_small; [done|exact Hp|exact Hn].
Qed.

Lemma address_text_roundtrip_witness :
  @ip_port numeric_resolver (v4 3232235777 8080) = Ret (dotted 3232235777, 8080) /\
  dotted 3232235777 = [49; 57; 50; 46; 49; 54; 56; 46; 49; 46; 49].
Proof.
  split; [|reflexivity].
  apply (@address_text_roundtrip numeric_resolver numeric_resolver_ok); split; vm_compute; congruence.
Defined.

Lemma address_equality_witness :
  eqb (v4 16843009 80) (v4 16843009 443) = false /\ ipv4_numeric_of (v4 16843009 80) = Ret 16843009.
Proof.
  destruct (address_equality 16843009 80 16843009 443 (v4 16843009 80)) as (Heq & _ & Hn & _);
    [split; vm_compute; congruence..|]. split; [|exact Hn].
  destruct (eqb (v4 16843009 80) (v4 16843009 443)); [|reflexivity]. discriminate (proj1 Heq eq_refl).
Defined.
