(* ===== verification/Text.v ===== *)
(** * Text: formatted output

    Models what the program uses of the standard output streams: numbers in
    decimal and hexadecimal, truth values, the width of a field and the fill
    character, [std::stringstream] with its put position; and [hexdump] of
    [src/libsponge/util/util.cc].  Text is the list of its characters' codes.

    The theorems: numbers, and fields that end in a character that is no digit,
    can be read back; [hexdump] writes the rows of a reference definition, which
    can be read back to the bytes it was given, and leaves the stream's flags
    (but not its fill character) as they were. *)

From Stdlib Require Import String.
From S2P Require Import Prelude NetAddress.
Local Open Scope Z_scope.

(** The characters of a literal. *)
Definition text (s : string) : bytes := map (fun c => Z.of_nat (Ascii.nat_of_ascii c)) (list_ascii_of_string s).

(** ** Output streams *)

(** The digits of [n] in a base of at most 36; twenty are enough for 64 bits. *)
Definition digit_char (d : Z) : Z := if d <? 10 then 48 + d else 87 + d.
Fixpoint digits_of (fuel : nat) (base n : Z) : bytes :=
  match fuel with
  | O => []
  | S fuel => if n <? base then [digit_char n] else digits_of fuel base (n / base) ++ [digit_char (n mod base)]
  end.

Record ostream := mkOstream {
  out : bytes;
  hex : bool;
  boolalpha : bool;
  width : Z;
  fill : Z
}.

(** A [std::stringstream ss{}]. *)
Definition ostream_new : ostream := mkOstream [] false false 0 32.

(** The right-hand sides of [<<]. *)
Inductive item :=
  | Str (s : bytes)
  | Chr (c : Z)
  | Int (n : Z)
  | Bool (b : bool)
  | Hex | Dec | Boolalpha
  | Setw (n : Z)
  | Setfill (c : Z).

(** A formatted field: padded on the left to the width, which is used up. *)
Definition put_field (s : ostream) (t : bytes) : ostream :=
  mkOstream (out s ++ replicate (Z.to_nat (width s - zlen t)) (fill s) ++ t) (hex s) (boolalpha s) 0 (fill s).

Definition number (hex : bool) (n : Z) : bytes := digits_of 20 (if hex then 16 else 10) n.
Definition truth (boolalpha b : bool) : bytes :=
  if boolalpha then text (if b then "true" else "false") else [if b then 49 else 48].

Definition put (s : ostream) (x : item) : ostream :=
  match x with
  | Str t => put_field s t
  | Chr c => put_field s [c]
  | Int n => put_field s (number (hex s) n)
  | Bool b => put_field s (truth (boolalpha s) b)
  | Hex => mkOstream (out s) true (boolalpha s) (width s) (fill s)
  | Dec => mkOstream (out s) false (boolalpha s) (width s) (fill s)
  | Boolalpha => mkOstream (out s) (hex s) true (width s) (fill s)
  | Setw n => mkOstream (out s) (hex s) (boolalpha s) n (fill s)
  | Setfill c => mkOstream (out s) (hex s) (boolalpha s) (width s) c
  end.

(** [s << x << ...] *)
Definition outs (s : ostream) (xs : list item) : ostream := fold_left put xs s.

(** [flags()] and [flags(f)]: the base and the form of truth values. *)
Definition flags (s : ostream) : bool * bool := (hex s, boolalpha s).
Definition set_flags (s : ostream) (f : bool * bool) : ostream := mkOstream (out s) (fst f) (snd f) (width s) (fill s).

(** A [std::stringstream] made of a string, or given one by [str(s)]: writing
    starts at its beginning, over what is there. *)
Record stringstream := mkStringstream { buf : bytes; pos : nat }.
Definition stringstream_of (s : bytes) : stringstream := mkStringstream s 0.
Definition putc (s : stringstream) (c : Z) : stringstream :=
  mkStringstream (take (pos s) (buf s) ++ [c] ++ drop (S (pos s)) (buf s)) (S (pos s)).

(** ** [hexdump] *)

(** [isprint] in the C locale. *)
Definition isprint (c : Z) : bool := (32 <=? c) && (c <=? 126).

(** The body of the loop. *)
Definition hexdump_byte (indent_string : bytes) (b : Z) (st : ostream * stringstream * Z) : ostream * stringstream * Z :=
  let '(cout, pchars, printed) := st in
  let '(cout, pchars) :=
    if Z.land printed 0xf =? 0 then
      let '(cout, pchars) :=
        if negb (printed =? 0) then (outs cout [Str (text "    "); Str (buf pchars); Str [10]], stringstream_of [32])
        else (cout, pchars) in
      (outs cout [Str indent_string; Setw 8; Int printed; Str (text ":    ")], pchars)
    else if Z.land printed 1 =? 0 then (outs cout [Chr 32], pchars)
    else (cout, pchars) in
  (outs cout [Setw 2; Int b], putc pchars (if isprint b then b else 46), printed + 1).

Definition hexdump (cout : ostream) (data : bytes) (indent : nat) : ostream :=
  let f := flags cout in
  let indent_string := replicate indent 32 in
  let '(cout, pchars, printed) :=
    fold_left (fun st b => hexdump_byte indent_string b st) data
      (outs cout [Hex; Setfill 48], stringstream_of [32], 0) in
  let print_rem := (16 - Z.land printed 0xf) mod 16 in
  let cout := outs cout [Str (replicate (Z.to_nat (2 * print_rem + print_rem / 2 + 4)) 32); Str (buf pchars)] in
  set_flags (outs cout [Chr 10; Chr 10]) f.

(** ** Reference: the rows *)

Definition hex_byte (b : Z) : bytes := [digit_char (b / 16); digit_char (b mod 16)].
Definition shown (b : Z) : Z := if isprint b then b else 46.

(** Bytes in pairs, from position [i] of a row on. *)
Fixpoint pairs (i : nat) (chunk : bytes) : bytes :=
  match chunk with
  | [] => []
  | b :: chunk => (if Nat.even i && negb (i =? 0)%nat then [32] else []) ++ hex_byte b ++ pairs (S i) chunk
  end.

Definition offset_text (n : Z) : bytes := replicate (Z.to_nat (8 - zlen (number true n))) 48 ++ number true n.
Definition row_head (indent : nat) (n : Z) : bytes := replicate indent 32 ++ offset_text n ++ text ":    ".
Definition row_gap (k : Z) : bytes := let rem := 16 - k in replicate (Z.to_nat (2 * rem + rem / 2 + 4)) 32.

(** A row of at most sixteen bytes. *)
Definition row (indent : nat) (n : Z) (chunk : bytes) : bytes :=
  row_head indent n ++ pairs 0 chunk ++ row_gap (zlen chunk) ++ map shown chunk.

Fixpoint chunks (fuel : nat) (data : bytes) : list bytes :=
  match fuel, data with
  | S fuel, _ :: _ => take 16 data :: chunks fuel (drop 16 data)
  | _, _ => []
  end.

Fixpoint rows (indent : nat) (n : Z) (cs : list bytes) : bytes :=
  match cs with
  | [] => []
  | c :: cs => row indent n c ++ [10] ++ rows indent (n + 16) cs
  end.

Definition dump (indent : nat) (data : bytes) : bytes :=
  match data with
  | [] => replicate 5 32 ++ [10; 10]
  | _ => rows indent 0 (chunks (length data) data) ++ [10]
  end.

(** *** Reading a dump *)

Definition nibble (c : Z) : option Z :=
  if (48 <=? c) && (c <=? 57) then Some (c - 48)
  else if (97 <=? c) && (c <=? 102) then Some (c - 87) else None.

Fixpoint read_pairs (s : bytes) : bytes :=
  match s with
  | c1 :: ((c2 :: t) as s') =>
      match nibble c1, nibble c2 with
      | Some a, Some b => 16 * a + b :: read_pairs t
      | None, Some _ => if c1 =? 32 then read_pairs s' else []
      | _, _ => []
      end
  | _ => []
  end.

(** The characters up to the next line feed, and those after it. *)
Fixpoint cut_line (s : bytes) : bytes * bytes :=
  match s with
  | [] => ([], [])
  | c :: s => if c =? 10 then ([], s) else let '(l, r) := cut_line s in (c :: l, r)
  end.

Fixpoint read_dump (fuel indent : nat) (s : bytes) : bytes :=
  match fuel with
  | O => []
  | S fuel =>
      let '(l, r) := cut_line s in
      read_pairs (drop (indent + 13) l) ++ read_dump fuel indent r
  end.

(** ** Lemmas: numbers *)

Definition is_hexdigit (c : Z) : bool := ((48 <=? c) && (c <=? 57)) || ((97 <=? c) && (c <=? 102)).

(** The number digits stand for. *)
Fixpoint value (base : Z) (s : bytes) (acc : Z) : Z :=
  match s with
  | c :: s => value base s (acc * base + (if c <=? 57 then c - 48 else c - 87))
  | [] => acc
  end.

Lemma value_app base s t : forall acc, value base (s ++ t) acc = value base t (value base s acc).
Proof. by induction s as [|c s IH]; intros acc; simpl. Qed.

Lemma digit_char_ok d : 0 <= d < 16 -> is_hexdigit (digit_char d) = true.
Proof. intros. unfold is_hexdigit, digit_char. ztests; done. Qed.

Lemma digit_char_value d : 0 <= d -> (if digit_char d <=? 57 then digit_char d - 48 else digit_char d - 87) = d.
Proof. intros. unfold digit_char. ztests; lia. Qed.

Lemma digits_of_ok fuel base : 1 < base <= 16 -> forall n, 0 <= n -> forallb is_hexdigit (digits_of fuel base n) = true.
Proof.
  intros Hb. induction fuel as [|fuel IH]; intros n Hn; simpl; [done|]. destruct (Z.ltb_spec n base); simpl.
  - by rewrite digit_char_ok by lia.
  - pose proof (Z.mod_pos_bound n base ltac:(lia)). rewrite forallb_app, IH by (apply Z.div_pos; lia). simpl.
    by rewrite digit_char_ok by lia.
Qed.

Lemma digits_of_value fuel base : 1 < base -> forall n, 0 <= n < base ^ Z.of_nat fuel ->
  value base (digits_of fuel base n) 0 = n.
Proof.
  intros Hb. induction fuel as [|fuel IH]; intros n Hn; [simpl in *; lia|]. cbn [digits_of].
  rewrite Nat2Z.inj_succ, Z.pow_succ_r in Hn by lia. destruct (Z.ltb_spec n base).
  - cbn [value]. rewrite digit_char_value by lia. lia.
  - pose proof (Z.mod_pos_bound n base ltac:(lia)). rewrite value_app, IH
      by (split; [apply Z.div_pos; lia|apply Z.div_lt_upper_bound; lia]).
    cbn [value]. rewrite digit_char_value by lia. pose proof (Z.div_mod n base ltac:(lia)). lia.
Qed.

Lemma number_ok h n : 0 <= n -> forallb is_hexdigit (number h n) = true.
Proof. intros. unfold number. apply digits_of_ok; [case_match; lia|done]. Qed.

Lemma number_inj h n m : is_u64 n -> is_u64 m -> number h n = number h m -> n = m.
Proof.
  unfold number. set (base := if h then 16 else 10). assert (1 < base) as Hb by (unfold base; case_match; lia).
  assert (forall z, is_u64 z -> 0 <= z < base ^ Z.of_nat 20) as Hu.
  { intros z Hz. unfold base. destruct h; simpl; words; lia. }
  intros Hn%Hu Hm%Hu Heq. by rewrite <- (digits_of_value 20 base Hb n Hn), Heq, digits_of_value.
Qed.

(** The decimal digits are those of [std::to_string]. *)
Lemma number_to_text n : 0 <= n -> number false n = to_text n.
Proof.
  unfold number, to_text. generalize 20%nat as fuel. intros fuel. revert n.
  induction fuel as [|fuel IH]; intros n Hn; simpl; [done|]. pose proof (Z.mod_pos_bound n 10 ltac:(lia)).
  rewrite IH by (apply Z.div_pos; lia). unfold digit_char. by destruct (Z.ltb_spec n 10), (Z.ltb_spec (n mod 10) 10); try lia.
Qed.

(** Two runs of digits that end at a character that is no digit. *)
Lemma digits_split s t c r c' r' :
  forallb is_hexdigit s = true -> forallb is_hexdigit t = true -> is_hexdigit c = false -> is_hexdigit c' = false ->
  s ++ c :: r = t ++ c' :: r' -> s = t /\ c :: r = c' :: r'.
Proof.
  revert t. induction s as [|x s IH]; intros [|y t] Hs Ht Hc Hc' Heq; simpl in *; [done| | |].
  - injection Heq as -> _. rewrite Hc in Ht. done.
  - injection Heq as -> _. rewrite Hc' in Hs. done.
  - apply andb_prop in Hs as [_ Hs]. apply andb_prop in Ht as [_ Ht]. injection Heq as -> Heq.
    destruct (IH t Hs Ht Hc Hc' Heq) as [-> ->]. done.
Qed.

(** A field of a printed record is read back, and with it the rest. *)
Lemma field_inj h n m c r c' r' :
  is_u64 n -> is_u64 m -> is_hexdigit c = false -> is_hexdigit c' = false ->
  number h n ++ c :: r = number h m ++ c' :: r' -> n = m /\ c :: r = c' :: r'.
Proof.
  intros Hn Hm Hc Hc' Heq. apply digits_split in Heq as [Hd Hr]; [|apply number_ok; words; lia..|done|done].
  split; [|done]. by apply (number_inj h).
Qed.

Lemma truth_inj b b' r r' : truth true b ++ r = truth true b' ++ r' -> b = b' /\ r = r'.
Proof. by destruct b, b'; intros [= ->]. Qed.

(** ** Lemmas: [hexdump] writes the rows *)
Lemma hex_number b : is_u8 b -> number true b = if b <? 16 then [digit_char b] else hex_byte b.
Proof.
  intros Hb. unfold number. change 20%nat with (S (S 18)). cbn [digits_of]. destruct (Z.ltb_spec b 16) as [|Hge]; [done|].
  destruct (Z.ltb_spec (b / 16) 16) as [|Hbig]; [done|].
  apply Z.le_ge, Z.ge_le in Hbig. pose proof (Z.div_lt_upper_bound b 16 16 ltac:(lia) ltac:(words; lia)). lia.
Qed.

Lemma put_hex_byte o ba b : is_u8 b ->
  outs (mkOstream o true ba 0 48) [Setw 2; Int b] = mkOstream (o ++ hex_byte b) true ba 0 48.
Proof.
  intros Hb. unfold outs. cbn [fold_left put]. unfold put_field. cbn [out hex boolalpha width fill]. rewrite hex_number by done.
  unfold hex_byte. destruct (Z.ltb_spec b 16) as [Hlt|]; [|done].
  rewrite Z.div_small, Z.mod_small by (words; lia). done.
Qed.

(** A field without a width. *)
Lemma put_plain o h ba f t : put_field (mkOstream o h ba 0 f) t = mkOstream (o ++ t) h ba 0 f.
Proof.
  unfold put_field. cbn [out hex boolalpha width fill]. pose proof (zlen_nonneg t).
  by replace (Z.to_nat (0 - zlen t)) with O by lia.
Qed.

(** What items without widths write, numbers and truth values by given functions. *)
Fixpoint rendered_by (num : bool -> Z -> bytes) (tr : bool -> bool -> bytes) (h ba : bool) (xs : list item) : bytes :=
  match xs with
  | [] => []
  | Str t :: xs => t ++ rendered_by num tr h ba xs
  | Chr c :: xs => c :: rendered_by num tr h ba xs
  | Int n :: xs => num h n ++ rendered_by num tr h ba xs
  | Bool b :: xs => tr ba b ++ rendered_by num tr h ba xs
  | Hex :: xs => rendered_by num tr true ba xs
  | Dec :: xs => rendered_by num tr false ba xs
  | Boolalpha :: xs => rendered_by num tr h true xs
  | Setw _ :: xs | Setfill _ :: xs => rendered_by num tr h ba xs
  end.
Definition rendered : bool -> bool -> list item -> bytes := rendered_by number truth.
Definition plain (x : item) : bool := match x with Setw _ | Setfill _ => false | _ => true end.

Lemma outs_rendered xs : forall o h ba f, forallb plain xs = true ->
  out (outs (mkOstream o h ba 0 f) xs) = o ++ rendered h ba xs.
Proof.
  unfold outs, rendered. induction xs as [|x xs IH]; intros o h ba f Hp; [by rewrite app_nil_r|].
  cbn [forallb] in Hp. apply andb_prop in Hp as [Hx Hp].
  destruct x; try discriminate; cbn [fold_left put rendered_by hex boolalpha]; rewrite ?put_plain; cbn [out];
    rewrite IH, <- ?app_assoc by done; done.
Qed.

(** Items that change no flag either. *)
Definition inert (x : item) : bool := match x with Str _ | Chr _ | Int _ | Bool _ => true | _ => false end.

Lemma outs_inert xs : forall o h ba f, forallb inert xs = true ->
  outs (mkOstream o h ba 0 f) xs = mkOstream (o ++ rendered h ba xs) h ba 0 f.
Proof.
  unfold outs, rendered. induction xs as [|x xs IH]; intros o h ba f Hp; [by rewrite app_nil_r|].
  cbn [forallb] in Hp. apply andb_prop in Hp as [Hx Hp].
  destruct x; try discriminate; cbn [fold_left put rendered_by hex boolalpha]; rewrite put_plain, IH, <- ?app_assoc by done; done.
Qed.

Lemma outs_app s xs ys : outs s (xs ++ ys) = outs (outs s xs) ys.
Proof. apply fold_left_app. Qed.

(** Output is only appended: what was there before stays in front. *)
Definition prefixed (p : bytes) (s : ostream) : ostream := mkOstream (p ++ out s) (hex s) (boolalpha s) (width s) (fill s).

Lemma put_prefixed p s x : put (prefixed p s) x = prefixed p (put s x).
Proof. destruct x; unfold prefixed, put, put_field; cbn [out hex boolalpha width fill]; by rewrite <- ?app_assoc. Qed.

Lemma outs_prefixed p xs : forall s, outs (prefixed p s) xs = prefixed p (outs s xs).
Proof. unfold outs. induction xs as [|x xs IH]; intros s; simpl; [done|]. by rewrite put_prefixed, IH. Qed.

(** A stream that has only been appended to. *)
Definition full (s : bytes) : stringstream := mkStringstream s (length s).

Lemma putc_full s c : putc (full s) c = full (s ++ [c]).
Proof.
  unfold putc, full. cbn [pos buf]. rewrite firstn_all, drop_ge, length_app by lia. simpl.
  by rewrite Nat.add_1_r.
Qed.

Lemma low_bits n i : 0 <= n -> n mod 16 = i -> Z.land n 0xf = i.
Proof. intros Hn <-. change 0xf with (Z.ones 4). by rewrite Z.land_ones by lia. Qed.

Lemma low_bit n (i : nat) : 0 <= n -> n mod 16 = Z.of_nat i -> (Z.land n 1 =? 0) = Nat.even i.
Proof.
  intros Hn Hi. change 1 with (Z.ones 1) at 1. rewrite Z.land_ones by lia. change (2 ^ 1) with 2.
  assert (n mod 2 = Z.of_nat i mod 2) as -> by (rewrite <- Hi; Z.div_mod_to_equations; lia).
  destruct (Nat.even i) eqn:E.
  - apply Nat.even_spec in E as [k ->]. rewrite Nat2Z.inj_mul, Z.mul_comm, Z.mod_mul by done. done.
  - assert (Nat.odd i = true) as Ho by (by rewrite <- Nat.negb_even, E). apply Nat.odd_spec in Ho as [k ->].
    apply Z.eqb_neq. Z.div_mod_to_equations. lia.
Qed.

(** A byte that is not the first of its row. *)
Lemma hexdump_mid ind b o ba s n i : is_u8 b -> (0 < i < 16)%nat -> 0 <= n -> n mod 16 = Z.of_nat i ->
  hexdump_byte ind b (mkOstream o true ba 0 48, full s, n) =
    (mkOstream (o ++ (if Nat.even i && negb (i =? 0)%nat then [32] else []) ++ hex_byte b) true ba 0 48, full (s ++ [shown b]), n + 1).
Proof.
  intros Hb Hi Hn Hm. unfold hexdump_byte. rewrite (low_bits n _ Hn Hm), (low_bit n i Hn Hm).
  destruct (Z.eqb_spec (Z.of_nat i) 0); [lia|].
  assert ((i =? 0)%nat = false) as -> by (apply Nat.eqb_neq; lia). rewrite andb_true_r.
  destruct (Nat.even i); [unfold outs at 2; cbn [fold_left put]; rewrite put_plain|];
    rewrite put_hex_byte, putc_full by done; by rewrite <- ?app_assoc.
Qed.

(** The bytes of a row after its first. *)
Lemma hexdump_inside ind chunk : forall o ba s n i, wf_bytes chunk -> (0 < i)%nat -> (i + length chunk <= 16)%nat ->
  0 <= n -> n mod 16 = Z.of_nat i mod 16 ->
  fold_left (fun st b => hexdump_byte ind b st) chunk (mkOstream o true ba 0 48, full s, n) =
    (mkOstream (o ++ pairs i chunk) true ba 0 48, full (s ++ map shown chunk), n + zlen chunk).
Proof.
  induction chunk as [|b chunk IH]; intros o ba s n i Hw Hi Hl Hn Hm.
  { simpl. rewrite !app_nil_r. lens_nil. by rewrite Z.add_0_r. }
  inversion Hw as [|? ? Hb Hw']; subst. simpl in Hl. rewrite (Z.mod_small (Z.of_nat i)) in Hm by lia.
  cbn [fold_left pairs map]. rewrite (hexdump_mid _ _ _ _ _ _ i) by first [done | lia].
  rewrite (IH _ _ _ _ (S i)); [|done|lia|lia|lia|].
  - rewrite zlen_cons, <- !app_assoc. f_equal. lia.
  - rewrite Nat2Z.inj_succ. Z.div_mod_to_equations. lia.
Qed.

(** What ends the row before, written when the next one starts. *)
Definition row_end (n : Z) (ps : stringstream) : bytes := if n =? 0 then [] else replicate 4 32 ++ buf ps ++ [10].

Lemma put_offset o ba n : put_field (mkOstream o true ba 8 48) (number true n) = mkOstream (o ++ offset_text n) true ba 0 48.
Proof. done. Qed.

Lemma hexdump_row indent b chunk o ba ps n :
  wf_bytes (b :: chunk) -> (length chunk <= 15)%nat -> 0 <= n -> n mod 16 = 0 -> (n = 0 -> ps = stringstream_of [32]) ->
  fold_left (fun st b => hexdump_byte (replicate indent 32) b st) (b :: chunk) (mkOstream o true ba 0 48, ps, n) =
    (mkOstream (o ++ row_end n ps ++ row_head indent n ++ pairs 0 (b :: chunk)) true ba 0 48,
     full (map shown (b :: chunk)), n + zlen (b :: chunk)).
Proof.
  intros Hw Hl Hn Hm Hps. inversion Hw as [|? ? Hb Hw']; subst. cbn [fold_left].
  assert (hexdump_byte (replicate indent 32) b (mkOstream o true ba 0 48, ps, n) =
    (mkOstream (o ++ row_end n ps ++ row_head indent n ++ hex_byte b) true ba 0 48, full [shown b], n + 1)) as ->.
  { unfold hexdump_byte. rewrite (low_bits n 0 Hn Hm). cbn [Z.eqb]. unfold row_end, row_head.
    assert (forall o', outs (mkOstream o' true ba 0 48) [Str (replicate indent 32); Setw 8; Int n; Str (text ":    ")] =
      mkOstream (o' ++ replicate indent 32 ++ offset_text n ++ text ":    ") true ba 0 48) as Hh.
    { intros o'. unfold outs. cbn [fold_left]. cbn [put]. rewrite put_plain. cbn [out hex boolalpha fill].
      rewrite (put_offset _ ba n), put_plain. by rewrite <- !app_assoc. }
    destruct (Z.eqb_spec n 0) as [Hz|Hz]; cbn [negb].
    - rewrite (Hps Hz), Hh, put_hex_byte by done. by rewrite <- !app_assoc.
    - unfold outs at 3. cbn [fold_left put]. rewrite !put_plain, Hh, put_hex_byte by done. by rewrite <- !app_assoc. }
  rewrite (hexdump_inside _ chunk _ _ _ (n + 1) 1); [|done|lia|lia|lia|Z.div_mod_to_equations; lia].
  rewrite zlen_cons. cbn [pairs]. rewrite <- !app_assoc. f_equal. lia.
Qed.

(** The end of [hexdump]. *)
Definition hexdump_finish (st : ostream * stringstream * Z) : ostream :=
  let '(cout, pchars, printed) := st in
  let print_rem := (16 - Z.land printed 0xf) mod 16 in
  outs (outs cout [Str (replicate (Z.to_nat (2 * print_rem + print_rem / 2 + 4)) 32); Str (buf pchars)]) [Chr 10; Chr 10].

Lemma hexdump_finish_row o ba s n k : 0 <= n -> n mod 16 = 0 -> 0 < k <= 16 ->
  hexdump_finish (mkOstream o true ba 0 48, full s, n + k) = mkOstream (o ++ row_gap k ++ s ++ [10; 10]) true ba 0 48.
Proof.
  intros Hn Hm Hk. unfold hexdump_finish, row_gap, outs. cbn [fold_left put full buf]. rewrite !put_plain.
  rewrite (low_bits (n + k) (k mod 16)) by first [lia | Z.div_mod_to_equations; lia].
  assert ((16 - k mod 16) mod 16 = 16 - k) as -> by (Z.div_mod_to_equations; lia). by rewrite <- !app_assoc.
Qed.

(** From the start of a row on. *)
Lemma hexdump_rows indent fuel : forall data o ba ps n, wf_bytes data -> (length data <= fuel)%nat -> data <> [] ->
  0 <= n -> n mod 16 = 0 -> (n = 0 -> ps = stringstream_of [32]) ->
  hexdump_finish (fold_left (fun st b => hexdump_byte (replicate indent 32) b st) data (mkOstream o true ba 0 48, ps, n)) =
    mkOstream (o ++ row_end n ps ++ rows indent n (chunks fuel data) ++ [10]) true ba 0 48.
Proof.
  induction fuel as [|fuel IH]; intros data o ba ps n Hw Hl Hd Hn Hm Hps; [destruct data; simpl in *; [done|lia]|].
  destruct data as [|b data]; [done|]. cbn [chunks rows].
  rewrite <- (take_drop 15 data) at 1. rewrite app_comm_cons, fold_left_app. change (b :: take 15 data) with (take 16 (b :: data)).
  assert (Hrow := hexdump_row indent b (take 15 data) o ba ps n (Forall_take _ 16 _ Hw) ltac:(rewrite length_take; lia) Hn Hm Hps).
  change (b :: take 15 data) with (take 16 (b :: data)) in Hrow. rewrite Hrow. clear Hrow. change (drop 16 (b :: data)) with (drop 15 data).
  assert (zlen (take 16 (b :: data)) = Z.min 16 (zlen (b :: data))) as Hz by (rewrite !zlen_eq, length_take; lia).
  unfold row at 1. rewrite zlen_cons in Hz. pose proof (zlen_nonneg data). destruct (drop 15 data) as [|b' data'] eqn:Ed.
  - cbn [fold_left]. rewrite hexdump_finish_row by lia.
    assert (chunks fuel [] = []) as -> by (by destruct fuel). cbn [rows]. by rewrite <- !app_assoc.
  - assert (length (b' :: data') = length data - 15)%nat as Hlen by (by rewrite <- Ed, length_drop).
    simpl in Hlen, Hl. rewrite Hz, Z.min_l by (rewrite zlen_eq; lia).
    rewrite IH; [|by rewrite <- Ed; apply Forall_drop; inversion Hw|simpl; lia|done|lia|Z.div_mod_to_equations; lia|lia].
    unfold row_end at 2. destruct (Z.eqb_spec (n + 16) 0); [lia|]. by rewrite <- !app_assoc.
Qed.

Lemma hexdump_dump os data indent : wf_bytes data -> width os = 0 ->
  hexdump os data indent = mkOstream (out os ++ dump indent data) (hex os) (boolalpha os) 0 48.
Proof.
  intros Hw Ho. destruct os as [o h ba w f]. simpl in Ho. subst w.
  assert (hexdump (mkOstream o h ba 0 f) data indent =
    set_flags (hexdump_finish (fold_left (fun st b => hexdump_byte (replicate indent 32) b st) data
       (mkOstream o true ba 0 48, stringstream_of [32], 0))) (h, ba)) as ->.
  { unfold hexdump, hexdump_finish. change (outs (mkOstream o h ba 0 f) [Hex; Setfill 48]) with (mkOstream o true ba 0 48).
    by destruct (fold_left _ data _) as [[cout pchars] printed]. }
  destruct data as [|b data].
  - unfold hexdump_finish, outs. cbn [fold_left put]. rewrite !put_plain. unfold set_flags. simpl. by rewrite <- !app_assoc.
  - rewrite (hexdump_rows indent (length (b :: data))) by done. done.
Qed.

Lemma hexdump_prefixed p s data indent : wf_bytes data -> width s = 0 ->
  hexdump (prefixed p s) data indent = prefixed p (hexdump s data indent).
Proof. intros Hw Hs. rewrite !hexdump_dump by done. unfold prefixed. simpl. by rewrite app_assoc. Qed.

(** ** Lemmas: reading a dump *)
Lemma nibble_digit d : 0 <= d < 16 -> nibble (digit_char d) = Some d.
Proof. intros. unfold nibble, digit_char. destruct (Z.ltb_spec d 10); ztests; f_equal; lia. Qed.

Lemma read_hex_byte b s : is_u8 b -> read_pairs (hex_byte b ++ s) = b :: read_pairs s.
Proof.
  intros Hb. unfold hex_byte. cbn [app read_pairs].
  rewrite !nibble_digit by (words; Z.div_mod_to_equations; lia). f_equal. Z.div_mod_to_equations. lia.
Qed.

Lemma read_pairs_row chunk s : forall i, wf_bytes chunk -> read_pairs (pairs i chunk ++ 32 :: 32 :: s) = chunk.
Proof.
  induction chunk as [|b chunk IH]; intros i Hw; [done|]. inversion Hw as [|? ? Hb Hw']; subst. cbn [pairs].
  rewrite <- !app_assoc. destruct (Nat.even i && negb (i =? 0)%nat); cbn [app].
  - change (read_pairs (32 :: hex_byte b ++ pairs (S i) chunk ++ 32 :: 32 :: s)) with
      (match nibble (digit_char (b / 16)) with
       | Some _ => read_pairs (hex_byte b ++ pairs (S i) chunk ++ 32 :: 32 :: s) | None => [] end).
    rewrite nibble_digit by (words; Z.div_mod_to_equations; lia). by rewrite read_hex_byte, IH.
  - by rewrite read_hex_byte, IH.
Qed.

Lemma cut_line_app l r : 10 ∉ l -> cut_line (l ++ 10 :: r) = (l, r).
Proof.
  induction l as [|c l IH]; intros Hl; simpl; [done|]. apply not_elem_of_cons in Hl as [Hc Hl].
  destruct (Z.eqb_spec c 10); [done|]. by rewrite IH.
Qed.

Lemma no_feed_digits s : forallb is_hexdigit s = true -> 10 ∉ s.
Proof.
  intros Hs Hin. rewrite forallb_forall in Hs. apply list_elem_of_In, Hs in Hin. done.
Qed.

Lemma no_feed_replicate n : 10 ∉ replicate n 32.
Proof. intros Hin. by apply elem_of_replicate in Hin as [? _]. Qed.

Lemma no_feed_offset n : 0 <= n -> 10 ∉ offset_text n.
Proof.
  intros Hn. unfold offset_text. apply not_elem_of_app. split; [|by apply no_feed_digits, number_ok].
  intros Hin. by apply elem_of_replicate in Hin as [? _].
Qed.

Lemma no_feed_pairs chunk : forall i, wf_bytes chunk -> 10 ∉ pairs i chunk.
Proof.
  induction chunk as [|b chunk IH]; intros i Hw; [by apply not_elem_of_nil|]. inversion Hw as [|? ? Hb Hw']; subst.
  cbn [pairs]. rewrite !not_elem_of_app. split_and!; [|apply no_feed_digits|by apply IH].
  - case_match; [|by apply not_elem_of_nil]. by rewrite list_elem_of_singleton.
  - unfold hex_byte. simpl. by rewrite !digit_char_ok by (words; Z.div_mod_to_equations; lia).
Qed.

Lemma no_feed_shown chunk : 10 ∉ map shown chunk.
Proof.
  intros (b & Heq & _)%list_elem_of_fmap. unfold shown, isprint in Heq.
  destruct (Z.leb_spec 32 b), (Z.leb_spec b 126); simpl in Heq; lia.
Qed.

Lemma no_feed_row indent n chunk : 0 <= n -> wf_bytes chunk -> 10 ∉ row indent n chunk.
Proof.
  intros Hn Hw. unfold row, row_head, row_gap. rewrite !not_elem_of_app.
  split_and!; auto using no_feed_replicate, no_feed_offset, no_feed_pairs, no_feed_shown.
  apply (bool_decide_unpack _). by vm_compute.
Qed.

Lemma zlen_offset n : 0 <= n < 2147483648 -> zlen (offset_text n) = 8.
Proof.
  intros Hn. unfold offset_text. rewrite zlen_app, zlen_replicate.
  assert (zlen (number true n) <= 8); [|lia]. unfold number.
  assert (forall k m, 0 <= m < 16 ^ Z.of_nat k -> (0 < k)%nat -> forall fuel, zlen (digits_of fuel 16 m) <= Z.of_nat k) as Hk.
  { induction k as [|k IH]; intros m Hm Hk [|fuel]; [lia|lia|simpl; lens_nil; lia|]. cbn [digits_of].
    destruct (Z.ltb_spec m 16); [by rewrite zlen_cons; lens_nil; lia|].
    destruct k; [simpl in Hm; lia|]. rewrite zlen_app, zlen_cons. lens_nil.
    rewrite Nat2Z.inj_succ, Z.pow_succ_r in Hm by lia.
    pose proof (IH (m / 16) ltac:(split; [apply Z.div_pos; lia|apply Z.div_lt_upper_bound; lia]) ltac:(lia) fuel). lia. }
  apply (Hk 8%nat); [simpl; lia|lia].
Qed.

Lemma read_row indent n chunk : 0 <= n < 2147483648 -> wf_bytes chunk -> zlen chunk <= 16 ->
  read_pairs (drop (indent + 13) (row indent n chunk)) = chunk.
Proof.
  intros Hn Hw Hl. unfold row. rewrite drop_app_length'; last first.
  { unfold row_head. pose proof (zlen_offset n Hn) as Hz. rewrite zlen_eq in Hz.
    rewrite !length_app, length_replicate. change (length (text ":    ")) with 5%nat. lia. }
  unfold row_gap. replace (Z.to_nat (2 * (16 - zlen chunk) + (16 - zlen chunk) / 2 + 4)) with
    (S (S (Z.to_nat (2 * (16 - zlen chunk) + (16 - zlen chunk) / 2 + 2))))
    by (Z.div_mod_to_equations; lia).
  cbn [replicate app]. by apply read_pairs_row.
Qed.

(** The rows hold the bytes they were made of. *)
Lemma chunks_concat fuel : forall data, (length data <= fuel)%nat -> concat (chunks fuel data) = data.
Proof.
  induction fuel as [|fuel IH]; intros [|b data] Hl; try done; [simpl in Hl; lia|]. cbn [chunks concat].
  rewrite IH, take_drop; [done|]. rewrite length_drop. simpl in *. lia.
Qed.

Lemma chunks_small fuel : forall data, Forall (fun c => zlen c <= 16) (chunks fuel data).
Proof.
  induction fuel as [|fuel IH]; intros [|b data]; constructor; [|apply IH].
  rewrite zlen_eq, length_take. lia.
Qed.

Lemma read_rows indent cs : forall n fuel s, Forall (fun c => zlen c <= 16) cs -> Forall wf_bytes cs -> 0 <= n ->
  n + 16 * zlen cs <= 2147483648 ->
  read_dump (length cs + fuel) indent (rows indent n cs ++ s) = concat cs ++ read_dump fuel indent s.
Proof.
  induction cs as [|c cs IH]; intros n fuel s Hc Hw Hn Hl; [done|].
  inversion Hc; inversion Hw; subst. rewrite zlen_cons in Hl. pose proof (zlen_nonneg cs).
  cbn [length rows concat Nat.add read_dump]. rewrite <- !app_assoc. cbn [app].
  rewrite cut_line_app by (by apply no_feed_row). rewrite read_row by first [done | lia]. f_equal.
  apply IH; [done|done|lia|lia].
Qed.

Lemma chunks_length fuel : forall data, 16 * zlen (chunks fuel data) <= zlen data + 15.
Proof.
  induction fuel as [|fuel IH]; intros [|b data]; cbn [chunks]; lens_nil; try lia.
  { pose proof (zlen_nonneg (b :: data)). lia. }
  rewrite zlen_cons. pose proof (IH (drop 16 (b :: data))) as Hi. destruct (decide (length data < 15)%nat) as [Hs|Hs].
  - rewrite drop_ge by (simpl; lia). destruct fuel; simpl; lens; lia.
  - rewrite !zlen_eq, length_drop in Hi. rewrite !zlen_eq. simpl in *. lia.
Qed.

Lemma chunks_wf fuel : forall data, wf_bytes data -> Forall wf_bytes (chunks fuel data).
Proof.
  induction fuel as [|fuel IH]; intros [|b data] Hw; constructor; [by apply (Forall_take _ 16)|].
  by apply IH, (Forall_drop _ 16).
Qed.

Lemma rows_length indent cs : forall n, (length cs <= length (rows indent n cs))%nat.
Proof. induction cs as [|c cs IH]; intros n; simpl; [lia|]. rewrite length_app. simpl. specialize (IH (n + 16)). lia. Qed.

Lemma read_feeds fuel indent : read_dump fuel indent [10] = [].
Proof.
  assert (forall k, read_dump k indent [] = []) as Hn by (by induction k as [|k IH]; simpl; rewrite ?drop_nil, ?IH).
  destruct fuel; simpl; by rewrite ?drop_nil, ?Hn.
Qed.

Lemma read_dump_dump indent data : wf_bytes data -> zlen data < 2147483648 ->
  read_dump (length (dump indent data)) indent (dump indent data) = data.
Proof.
  intros Hw Hl. destruct data as [|b data].
  { change (read_pairs (drop (indent + 13) (replicate 5 32)) ++ read_dump 6 indent [10] = []).
    rewrite read_feeds, drop_ge by (simpl; lia). done. }
  unfold dump. set (cs := chunks _ _). rewrite length_app.
  pose proof (chunks_length (length (b :: data)) (b :: data)) as Hc. fold cs in Hc.
  pose proof (rows_length indent cs 0) as Hr. change (length [10]) with 1%nat.
  replace (length (rows indent 0 cs) + 1)%nat with (length cs + (length (rows indent 0 cs) - length cs + 1))%nat by lia.
  rewrite read_rows by (first [apply chunks_small | by apply chunks_wf | lia]).
  rewrite read_feeds, app_nil_r. by apply chunks_concat.
Qed.

(** ** Properties *)

(** C38 A dump shows every byte: [hexdump] writes the rows of the reference
    definition behind what the stream held, a reader that takes the hexadecimal
    column of each line gets the bytes back, whatever the indentation, and the
    base and the form of truth values are those from before; the fill character
    is not, it stays the digit 0. *)
Theorem hexdump_readable os data indent : wf_bytes data -> zlen data < 2147483648 -> width os = 0 ->
  let os' := hexdump os data indent in
  out os' = out os ++ dump indent data /\
  read_dump (length (dump indent data)) indent (dump indent data) = data /\
  flags os' = flags os /\ fill os' = 48.
Proof. intros Hw Hl Ho. cbv zeta. rewrite hexdump_dump by done. split_and!; [done|by apply read_dump_dump|done|done]. Qed.

Lemma hexdump_readable_witness :
  let data := map Z.of_nat (seq 0 40) in
  out (hexdump ostream_new data 8) = dump 8 data /\ read_dump 1000 8 (dump 8 data) = data.
Proof.
  intros data. destruct (hexdump_readable ostream_new data 8) as (Ho & _); [|done|done|split; [exact Ho|by vm_compute]].
  apply (bool_decide_unpack _). by vm_compute.
Defined.
