(* ===== verification/Clock.v ===== *)
(** * Clock: time and error texts

    Models [timestamp_ms] and the exceptions [tagged_error] and [unix_error] of
    [src/libsponge/util/util.hh] and [util.cc].  The steady clock is a parameter:
    its [t]-th reading, in nanoseconds.

    The theorem: the timestamps of a program start near 0, never decrease, and
    two of them differ by the time between their readings, so that the
    differences the socket's loop passes on as ticks are the time that went by. *)

From S2P Require Import Prelude Text.
From Stdlib Require Import String.
Local Open Scope Z_scope.

(** ** [timestamp_ms] *)

(** The static variable, and the number of readings made; the first call reads
    the clock twice. *)
Record timer := mkTimer { program_start : option Z; readings : nat }.

Definition timer_new : timer := mkTimer None 0.

Definition timestamp_ms (clock : nat -> Z) (s : timer) : timer * Z :=
  let '(start, t) :=
    match program_start s with
    | Some start => (start, readings s)
    | None => (clock (readings s), S (readings s))
    end in
  (mkTimer (Some start) (S t), u64 (Z.quot (clock t - start) 1000000)).

(** ** Errors *)

(** [what()] of a [tagged_error]; [message] is that of [std::system_error]. *)
Definition tagged_error_what (attempt message : bytes) : bytes := attempt ++ text ": " ++ message.

(** A [unix_error] takes the message of the system for a code. *)
Definition unix_error_what (strerror : Z -> bytes) (attempt : bytes) (error : Z) : bytes :=
  tagged_error_what attempt (strerror error).

(** ** Properties *)

(** The [n] timestamps taken from a state on. *)
Fixpoint timestamps (clock : nat -> Z) (n : nat) (s : timer) : list Z :=
  match n with
  | O => []
  | S n => let '(s, ms) := timestamp_ms clock s in ms :: timestamps clock n s
  end.

Section steady.
Context (clock : nat -> Z).
Hypothesis clock_steady : forall t, clock t <= clock (S t).
Hypothesis clock_range : forall t, 0 <= clock t < 9223372036854775808.

Lemma clock_mono t k : clock t <= clock (t + k)%nat.
Proof.
  induction k as [|k IH]; [rewrite Nat.add_0_r; lia|]. rewrite Nat.add_succ_r. specialize (clock_steady (t + k)). lia.
Qed.

Lemma stamp_eq start t : start <= clock t -> 0 <= start -> u64 (Z.quot (clock t - start) 1000000) = (clock t - start) / 1000000.
Proof.
  intros Hs H0. specialize (clock_range t). rewrite Z.quot_div_nonneg by lia. apply u64_id. words.
  split; [apply Z.div_pos; lia|]. apply Z.div_lt_upper_bound; lia.
Qed.

Lemma running_timestamps n : forall start t, start <= clock t -> 0 <= start ->
  timestamps clock n (mkTimer (Some start) t) = map (fun i => (clock (t + i)%nat - start) / 1000000) (seq 0 n).
Proof.
  induction n as [|n IH]; intros start t Hs H0; [done|]. cbn [timestamps timestamp_ms program_start readings seq map].
  rewrite stamp_eq, Nat.add_0_r by done. f_equal. rewrite IH; [|specialize (clock_steady t); lia|done].
  rewrite <- seq_shift, map_map. apply map_ext. intros i. by rewrite <- Nat.add_succ_comm.
Qed.

(** The timestamps of a program are the milliseconds since its first reading of
    the clock, rounded down. *)
Theorem timestamps_exact n :
  timestamps clock n timer_new = map (fun i => (clock (S i) - clock 0) / 1000000) (seq 0 n).
Proof.
  destruct n as [|n]; [done|]. cbn [timestamps timestamp_ms timer_new program_start readings seq map].
  rewrite stamp_eq by first [apply clock_steady | apply clock_range]. f_equal.
  rewrite running_timestamps by first [apply clock_range | apply (clock_mono 0 2)].
  by rewrite <- seq_shift, map_map.
Qed.

(** They never decrease. *)
Theorem timestamps_increase n i j a b : (i <= j)%nat ->
  timestamps clock n timer_new !! i = Some a -> timestamps clock n timer_new !! j = Some b -> 0 <= a <= b.
Proof.
  intros Hij. rewrite timestamps_exact.
  intros (x & -> & [Hx _]%lookup_seq)%list_lookup_fmap_Some (y & -> & [Hy _]%lookup_seq)%list_lookup_fmap_Some. subst. simpl.
  pose proof (clock_mono 0 (S i)). pose proof (clock_mono (S i) (j - i)). replace (S i + (j - i))%nat with (S j) in * by lia.
  split; [apply Z.div_pos; simpl in *; lia|apply Z.div_le_mono; lia].
Qed.
End steady.
