(* ===== verification/RETimer.v ===== *)
(** * RETimer: the retransmission timer

    Models the class [RETimer] of [src/libsponge/tcp_sender.hh] and [.cc].
    All quantities are [unsigned int], 32 bits.  The theorem: a started timer
    runs until exactly the tick at which the accumulated time reaches the
    timeout. *)

From S2P Require Import Prelude.

Record RETimer := mkRETimer { rto : Z; _time : Z; _isrunning : bool }.

(** The timer runs from its construction on. *)
Definition new (initial_retrans_timeout : Z) : RETimer := mkRETimer initial_retrans_timeout 0 true.

Definition isRunning (t : RETimer) : bool := _isrunning t.

(** The argument is converted to [unsigned int]. *)
Definition passTime (passedTime : Z) (t : RETimer) : RETimer :=
  if negb (isRunning t) then t
  else
    let time := u32 (_time t + u32 passedTime) in
    if rto t <=? time then mkRETimer (rto t) 0 false else mkRETimer (rto t) time (_isrunning t).

Definition doubleRTO (t : RETimer) : RETimer := mkRETimer (u32 (rto t * 2)) (_time t) (_isrunning t).
Definition resetTime (t : RETimer) : RETimer := mkRETimer (rto t) 0 (_isrunning t).
Definition resetRTO (initial_retrans_timeout : Z) (t : RETimer) : RETimer :=
  mkRETimer initial_retrans_timeout (_time t) (_isrunning t).
Definition start (t : RETimer) : RETimer := mkRETimer (rto t) (_time t) true.
Definition getRTO (t : RETimer) : Z := rto t.

(** ** Invariant *)

Definition inv (t : RETimer) : Prop := is_u32 (rto t) /\ is_u32 (_time t).

Lemma timer_inv_new n : is_u32 n -> inv (new n).
Proof. intros. split; [done|vm_compute; split; congruence]. Qed.
Lemma inv_passTime n t : inv t -> inv (passTime n t).
Proof.
  intros [Hr Ht]. unfold passTime. destruct (negb _); [done|]. cbv zeta.
  destruct (rto t <=? _); split; simpl; auto using u32_range. vm_compute; split; congruence.
Qed.
Lemma inv_doubleRTO t : inv t -> inv (doubleRTO t).
Proof. intros []. split; simpl; auto using u32_range. Qed.
Lemma inv_resetTime t : inv t -> inv (resetTime t).
Proof. intros []. split; simpl; [done|vm_compute; split; congruence]. Qed.
Lemma inv_resetRTO n t : is_u32 n -> inv t -> inv (resetRTO n t).
Proof. by intros ? []. Qed.
Lemma inv_start t : inv t -> inv (start t).
Proof. by intros []. Qed.

#[export] Hint Resolve timer_inv_new inv_passTime inv_doubleRTO inv_resetTime inv_resetRTO inv_start : sponge.

(** ** Successive ticks *)

Definition ticks (ms : list Z) (t : RETimer) : RETimer := fold_left (fun t m => passTime m t) ms t.

Definition total (ms : list Z) : Z := foldr Z.add 0 ms.

Lemma ticks_stopped ms : forall t, isRunning t = false -> ticks ms t = t.
Proof.
  induction ms as [|m ms IH]; intros t Ht; [done|]. simpl. unfold passTime. rewrite Ht. by apply IH.
Qed.

Lemma total_nonneg ms : Forall (fun m => 0 <= m) ms -> 0 <= total ms.
Proof. induction 1; simpl; lia. Qed.

Lemma ticks_running ms : forall t,
  inv t -> isRunning t = true -> Forall (fun m => 0 <= m) ms -> _time t < rto t ->
  _time t + total ms < rto t ->
  ticks ms t = mkRETimer (rto t) (_time t + total ms) true.
Proof.
  induction ms as [|m ms IH]; intros t Hi Hr Hm Ht Hs; simpl in *.
  - destruct t; simpl in *. subst. f_equal. lia.
  - apply Forall_cons in Hm as [Hm Hms]. pose proof (total_nonneg ms Hms) as Hnn. destruct Hi as [H1 H2].
    unfold passTime. rewrite Hr. cbn [negb].
    rewrite (u32_id m), (u32_id (_time t + m)) by (words; lia). cbv zeta.
    destruct (Z.leb_spec (rto t) (_time t + m)); [lia|].
    fold (ticks ms (mkRETimer (rto t) (_time t + m) (_isrunning t))).
    rewrite IH; simpl; try done; try lia; [f_equal; lia|]. split; simpl; [done|words; lia].
Qed.

(** ** Properties *)

(** A timer that was just started keeps running while the time passed since
    is below its timeout, and is found expired right after the tick at which
    the total reaches it; until it is started again it stays expired. *)
Theorem timer_expires_exactly t ms m more :
  inv t -> Forall (fun m => 0 <= m) ms -> 0 <= m -> total ms + m < 4294967296 ->
  total ms < rto t ->
  let t0 := start (resetTime t) in
  isRunning (ticks ms t0) = true /\
  (rto t <= total ms + m -> ticks (ms ++ [m] ++ more) t0 = mkRETimer (rto t) 0 false) /\
  (total ms + m < rto t -> isRunning (ticks (ms ++ [m]) t0) = true).
Proof.
  intros Hi Hms Hm Hb Hs t0. pose proof (total_nonneg ms Hms) as Hnn.
  assert (ticks ms t0 = mkRETimer (rto t) (total ms) true) as Hrun.
  { subst t0. rewrite ticks_running; simpl; try done; try lia; auto with sponge. }
  assert (rto t <= total ms + m -> ticks (ms ++ [m] ++ more) t0 = mkRETimer (rto t) 0 false) as Hexp.
  { intros He. unfold ticks in *. rewrite !fold_left_app, Hrun. simpl. unfold passTime at 2; simpl.
    rewrite (u32_id m), u32_id by (words; lia). destruct (Z.leb_spec (rto t) (total ms + m)); [|lia].
    by apply ticks_stopped. }
  split_and!; [by rewrite Hrun|done|].
  intros Hlt. unfold ticks in *. rewrite fold_left_app, Hrun. simpl. unfold passTime; simpl.
    rewrite (u32_id m), u32_id by (words; lia). by destruct (Z.leb_spec (rto t) (total ms + m)); [lia|].
Qed.

Lemma timer_expires_exactly_witness :
  let t0 := start (resetTime (new 1000)) in
  isRunning (ticks [400; 599] t0) = true /\ ticks [400; 599; 1; 5000] t0 = mkRETimer 1000 0 false.
Proof.
  destruct (timer_expires_exactly (new 1000) [400; 599] 1 [5000]) as (H1 & H2 & _);
    [vm_compute; repeat split; congruence|repeat constructor; lia|lia|reflexivity|reflexivity|].
  split; [exact H1|apply H2; vm_compute; congruence].
Defined.
