(* ===== verification/TCPSender.v ===== *)
(** * TCPSender: from a byte stream to segments

    Models the class [TCPSender] of [src/libsponge/tcp_sender.hh] and [.cc].
    The queues are lists (front first).  The loop of [fill_window] runs on fuel;
    [fill_window_total] shows that one unit per buffered byte and two more are
    always enough.

    The invariant says that the segments in flight are consecutive pieces of
    the stream that was written, that they end at [_next_seqno], and that
    [_bytes_in_flight] is their length.  The theorems: the invariant is kept
    by every operation for every initial sequence number and every
    acknowledgment; the window is filled and not exceeded; acknowledgments
    free exactly the segments they cover; retransmission resends the oldest
    segment with exponential backoff; and where the 32-bit comparisons and the
    zero-window case misbehave. *)

From S2P Require Import Prelude WrappingIntegers ByteStream StreamReassembler Buffer TCPHeader.
From S2P Require Import TCPSegment SegmentOf TCPConfig RETimer.

Record TCPSender := mkSender {
  _isn : WrappingInt32;
  _segments_out : list TCPSegment;
  _initial_retransmission_timeout : Z;
  _stream : ByteStream;
  _next_seqno : Z;
  outSegments : list TCPSegment;
  _bytes_in_flight : Z;
  _ackGot : WrappingInt32;
  _true_window_size : Z;
  _consecutive_retransmission : Z;
  _fin_flag : bool;
  _syn_flag : bool;
  timer : RETimer
}.

(** [random] is the value of [random_device()()]. *)
Definition new (capacity retx_timeout : Z) (fixed_isn : option WrappingInt32) (random : Z) : TCPSender :=
  let isn := default (of_uint random) fixed_isn in
  mkSender isn [] retx_timeout (ByteStream.new capacity) 0 [] 0 (of_uint (raw_value isn)) 0 0
    false false (RETimer.new retx_timeout).

Definition stream_in (s : TCPSender) : ByteStream := _stream s.
Definition bytes_in_flight (s : TCPSender) : Z := _bytes_in_flight s.
Definition consecutive_retransmissions (s : TCPSender) : Z := _consecutive_retransmission s.
Definition segments_out (s : TCPSender) : list TCPSegment := _segments_out s.
Definition next_seqno_absolute (s : TCPSender) : Z := _next_seqno s.
Definition next_seqno (s : TCPSender) : WrappingInt32 := wrap (_next_seqno s) (_isn s).
Definition getTRO (s : TCPSender) : Z := getRTO (timer s).

(** *** Assignments to members *)

Definition set_segments_out (s : TCPSender) (q : list TCPSegment) : TCPSender :=
  mkSender (_isn s) q (_initial_retransmission_timeout s) (_stream s) (_next_seqno s) (outSegments s)
    (_bytes_in_flight s) (_ackGot s) (_true_window_size s) (_consecutive_retransmission s)
    (_fin_flag s) (_syn_flag s) (timer s).
Definition set_stream (s : TCPSender) (st : ByteStream) : TCPSender :=
  mkSender (_isn s) (_segments_out s) (_initial_retransmission_timeout s) st (_next_seqno s) (outSegments s)
    (_bytes_in_flight s) (_ackGot s) (_true_window_size s) (_consecutive_retransmission s)
    (_fin_flag s) (_syn_flag s) (timer s).
Definition set_flight (s : TCPSender) (q : list TCPSegment) (n : Z) : TCPSender :=
  mkSender (_isn s) (_segments_out s) (_initial_retransmission_timeout s) (_stream s) (_next_seqno s) q
    n (_ackGot s) (_true_window_size s) (_consecutive_retransmission s)
    (_fin_flag s) (_syn_flag s) (timer s).
Definition set_window (s : TCPSender) (w : Z) : TCPSender :=
  mkSender (_isn s) (_segments_out s) (_initial_retransmission_timeout s) (_stream s) (_next_seqno s)
    (outSegments s) (_bytes_in_flight s) (_ackGot s) w (_consecutive_retransmission s)
    (_fin_flag s) (_syn_flag s) (timer s).
Definition set_fin_flag (s : TCPSender) (b : bool) : TCPSender :=
  mkSender (_isn s) (_segments_out s) (_initial_retransmission_timeout s) (_stream s) (_next_seqno s)
    (outSegments s) (_bytes_in_flight s) (_ackGot s) (_true_window_size s) (_consecutive_retransmission s)
    b (_syn_flag s) (timer s).
Definition set_syn_flag (s : TCPSender) (b : bool) : TCPSender :=
  mkSender (_isn s) (_segments_out s) (_initial_retransmission_timeout s) (_stream s) (_next_seqno s)
    (outSegments s) (_bytes_in_flight s) (_ackGot s) (_true_window_size s) (_consecutive_retransmission s)
    (_fin_flag s) b (timer s).
Definition set_timer (s : TCPSender) (t : RETimer) : TCPSender :=
  mkSender (_isn s) (_segments_out s) (_initial_retransmission_timeout s) (_stream s) (_next_seqno s)
    (outSegments s) (_bytes_in_flight s) (_ackGot s) (_true_window_size s) (_consecutive_retransmission s)
    (_fin_flag s) (_syn_flag s) t.
Definition set_acked (s : TCPSender) (a : WrappingInt32) (consecutive : Z) : TCPSender :=
  mkSender (_isn s) (_segments_out s) (_initial_retransmission_timeout s) (_stream s) (_next_seqno s)
    (outSegments s) (_bytes_in_flight s) a (_true_window_size s) consecutive
    (_fin_flag s) (_syn_flag s) (timer s).

(** ** Operations *)

Definition sendSegment (s : TCPSender) (segment : TCPSegment) : TCPSender :=
  let t := timer s in
  mkSender (_isn s) (_segments_out s ++ [segment]) (_initial_retransmission_timeout s) (_stream s)
    (u64 (_next_seqno s + length_in_sequence_space segment)) (outSegments s ++ [segment])
    (u64 (_bytes_in_flight s + length_in_sequence_space segment)) (_ackGot s) (_true_window_size s)
    (_consecutive_retransmission s) (_fin_flag s) (_syn_flag s)
    (if negb (isRunning t) then start (resetTime t) else t).

(** A default [TCPSegment] with the fields the sender fills in. *)
Definition mk_segment (seqno : WrappingInt32) (syn fin : bool) (data : Buffer) : TCPSegment :=
  let h := TCPHeader.new in
  mkTCPSegment (mkTCPHeader (sport h) (dport h) seqno (ackno h) (doff h) (urg h) (ack h) (psh h) (rst h)
                  syn fin (win h) (cksum h) (uptr h)) data.

(** The expression of the loop condition: the operands are promoted to 32-bit
    unsigned. *)
Definition remain (s : TCPSender) (next_seq32 : WrappingInt32) : Z :=
  u32 (_true_window_size s - u32 (raw_value next_seq32 - raw_value (_ackGot s))).

(** The first part of the loop body: read from the stream, and take the FIN
    along when the stream is at its end and there is room for it. *)
Definition make_segment (s : TCPSender) (rem : Z) (next_seq32 : WrappingInt32) : TCPSender * TCPSegment :=
  let dataLen := Z.min rem MAX_PAYLOAD_SIZE in
  let '(st, data) := ByteStream.read (_stream s) dataLen in
  let s := set_stream s st in
  let segment := mk_segment next_seq32 false false (Buffer_of data) in
  if eof st && (u64 (length_in_sequence_space segment + 1) <=? rem)
  then (set_fin_flag s true, mk_segment next_seq32 false true (Buffer_of data))
  else (s, segment).

(** The [while] loop of [fill_window]; the flag says whether it was left by the
    [return] in its body.  [None] when the fuel runs out. *)
Fixpoint fill_loop (fuel : nat) (s : TCPSender) (next_seq32 : WrappingInt32) : option (TCPSender * bool) :=
  match fuel with
  | O => None
  | S fuel =>
      let rem := remain s next_seq32 in
      if (rem =? 0) || _fin_flag s then Some (s, false)
      else
        let '(s, segment) := make_segment s rem next_seq32 in
        if length_in_sequence_space segment =? 0 then Some (s, true)
        else
          let s := sendSegment s segment in
          fill_loop fuel s (wrap (_next_seqno s) (_isn s))
  end.

Definition fill_window_fuel (fuel : nat) (s : TCPSender) : option TCPSender :=
  if _fin_flag s then Some s
  else
    let next_seq32 := wrap (_next_seqno s) (_isn s) in
    if negb (_syn_flag s) then
      let s := set_syn_flag s true in
      Some (sendSegment s (mk_segment next_seq32 true false Buffer_empty))
    else
      let zero_flag := _true_window_size s =? 0 in
      let s := if zero_flag then set_window s 1 else s in
      match fill_loop fuel s next_seq32 with
      | None => None
      | Some (s, true) => Some s
      | Some (s, false) => Some (if zero_flag then set_window s 0 else s)
      end.

Definition enough_fuel (s : TCPSender) : nat := S (S (length (_buf (_stream s)))).

Definition fill_window (s : TCPSender) : TCPSender := default s (fill_window_fuel (enough_fuel s) s).

(** The [while] loop of [ack_received]. *)
Fixpoint pop_acked (q : list TCPSegment) (ackno : Z) (in_flight : Z) : list TCPSegment * Z :=
  match q with
  | [] => ([], in_flight)
  | segment :: rest =>
      if u64 (raw_value (seqno (_header segment)) + length_in_sequence_space segment) <=? ackno
      then pop_acked rest ackno (u64 (in_flight - length_in_sequence_space segment))
      else (q, in_flight)
  end.

Definition ack_received (s : TCPSender) (ackno : WrappingInt32) (window_size : Z) : TCPSender :=
  if raw_value (wrap (_next_seqno s) (_isn s)) <? raw_value ackno then s
  else
    let '(q, n) := pop_acked (outSegments s) (raw_value ackno) (_bytes_in_flight s) in
    let s := set_flight s q n in
    let s :=
      if raw_value (_ackGot s) <? raw_value ackno then
        let s := set_timer s (resetRTO (_initial_retransmission_timeout s) (resetTime (timer s))) in
        let s := match outSegments s with [] => s | _ => set_timer s (start (timer s)) end in
        set_acked s ackno 0
      else s in
    fill_window (set_window s window_size).

Definition tick (s : TCPSender) (ms_since_last_tick : Z) : TCPSender :=
  let s := set_timer s (passTime ms_since_last_tick (timer s)) in
  match outSegments s with
  | [] => s
  | segment :: _ =>
      if isRunning (timer s) then s
      else
        let s := set_segments_out s (_segments_out s ++ [segment]) in
        let s :=
          if negb (_true_window_size s =? 0) || (_next_seqno s =? 1) then
            set_timer (set_acked s (_ackGot s) (u16 (_consecutive_retransmission s + 1)))
              (doubleRTO (timer s))
          else s in
        set_timer s (start (resetTime (timer s)))
  end.

(** The segment of [send_empty_segment] is a default one. *)
Definition send_empty_segment (s : TCPSender) : TCPSender := sendSegment s TCPSegment.new.

(** ** Invariant

    [data] is everything written to the stream so far.  [sent] counts the
    bytes taken from it, [una] is the first sequence number in flight. *)

Definition sent (s : TCPSender) : Z := _next_seqno s - Z.b2z (_syn_flag s) - Z.b2z (_fin_flag s).
Definition una (s : TCPSender) : Z := _next_seqno s - _bytes_in_flight s.

(** A segment of the part of the stream that was sent; a FIN only once the
    sender has marked the end. *)
Definition emitted (data : bytes) (s : TCPSender) (pos : Z) (seg : TCPSegment) : Prop :=
  seg_of data (_isn s) pos seg /\ (fin (_header seg) = true -> _fin_flag s = true) /\
  _syn_flag s = true /\ index_of pos seg + zlen (payload seg) <= sent s.

Lemma emitted_mono data s s' pos seg :
  _isn s' = _isn s -> (_fin_flag s = true -> _fin_flag s' = true) ->
  (_syn_flag s = true -> _syn_flag s' = true) -> sent s <= sent s' ->
  emitted data s pos seg -> emitted data s' pos seg.
Proof. intros Hi Hf Hs Hn (? & ? & ? & ?). unfold emitted. rewrite Hi. split_and!; auto. lia. Qed.

(** Consecutive segments from [pos] to [next], each occupying sequence numbers. *)
Fixpoint consecutive (P : Z -> TCPSegment -> Prop) (pos : Z) (q : list TCPSegment) (next : Z) : Prop :=
  match q with
  | [] => pos = next
  | seg :: q =>
      P pos seg /\ 0 < length_in_sequence_space seg /\
      consecutive P (pos + length_in_sequence_space seg) q next
  end.

Record inv (data : bytes) (s : TCPSender) : Prop := mkInv {
  inv_isn : WrappingIntegers.wf (_isn s);
  inv_stream : ByteStream.inv (_stream s);
  inv_headroom : zlen data + 2 < 18446744073709551616;
  inv_written : bytes_written (_stream s) = zlen data;
  inv_sent : 0 <= sent s;
  inv_data : zdrop (sent s) data = _buf (_stream s);
  inv_len : sent s + zlen (_buf (_stream s)) = zlen data;
  inv_syn : _syn_flag s = false -> _next_seqno s = 0 /\ _fin_flag s = false;
  inv_fin : _fin_flag s = true -> _buf (_stream s) = [] /\ input_ended (_stream s) = true;
  inv_una : 0 <= una s <= _next_seqno s;
  inv_flight : consecutive (emitted data s) (una s) (outSegments s) (_next_seqno s);
  inv_out : Forall (fun seg => exists pos, emitted data s pos seg) (_segments_out s);
  inv_window : is_u16 (_true_window_size s);
  inv_ackGot : WrappingIntegers.wf (_ackGot s);
  inv_timer : RETimer.inv (timer s);
  inv_timeout : is_u16 (_initial_retransmission_timeout s);
  inv_backoff : exists k, 0 <= k /\ _consecutive_retransmission s = u16 k /\
    rto (timer s) = u32 (_initial_retransmission_timeout s * 2 ^ k)
}.

Lemma sender_inv_new capacity timeout isn random :
  is_u64 capacity -> is_u16 timeout -> match isn with Some i => WrappingIntegers.wf i | None => True end ->
  inv [] (new capacity timeout isn random).
Proof.
  intros Hc Ht Hi. constructor; simpl; unfold sent, una; simpl; lens_nil;
    auto using ByteStream.stream_inv_new, wf_of_uint; try (words; lia); try done.
  - destruct isn; [done|apply wf_of_uint].
  - apply RETimer.timer_inv_new. words; lia.
  - exists 0. split; [lia|]. split; [done|]. rewrite Z.mul_1_r, u32_id; [done|words; lia].
Qed.

Lemma consecutive_mono (P Q : Z -> TCPSegment -> Prop) q : forall pos next,
  (forall p seg, P p seg -> Q p seg) -> consecutive P pos q next -> consecutive Q pos q next.
Proof. induction q as [|seg q IH]; intros pos next HPQ; simpl; [done|]. intros (? & ? & ?). eauto. Qed.

Lemma consecutive_app P q q' : forall pos next,
  consecutive P pos (q ++ q') next <-> exists mid, consecutive P pos q mid /\ consecutive P mid q' next.
Proof.
  induction q as [|seg q IH]; intros pos next; simpl.
  - split; [by exists pos|]. by intros (mid & -> & ?).
  - rewrite IH. naive_solver.
Qed.

Lemma consecutive_le P q : forall pos next, consecutive P pos q next -> pos <= next.
Proof.
  induction q as [|seg q IH]; intros pos next; simpl; [lia|]. intros (_ & ? & ?%IH). lia.
Qed.

(** *** Sending from the stream *)

(** [s'] is [s] after sending the segments [segs], cut from the stream. *)
Record grown (segs : list TCPSegment) (s s' : TCPSender) : Prop := mkGrown {
  gr_isn : _isn s' = _isn s;
  gr_timeout : _initial_retransmission_timeout s' = _initial_retransmission_timeout s;
  gr_ackGot : _ackGot s' = _ackGot s;
  gr_window : _true_window_size s' = _true_window_size s;
  gr_retx : _consecutive_retransmission s' = _consecutive_retransmission s;
  gr_syn : _syn_flag s' = _syn_flag s;
  gr_una : una s' = una s;
  gr_out : _segments_out s' = _segments_out s ++ segs;
  gr_flight : outSegments s' = outSegments s ++ segs;
  gr_next : _next_seqno s <= _next_seqno s';
  gr_ended : input_ended (_stream s') = input_ended (_stream s);
  gr_error : error (_stream s') = error (_stream s);
  gr_size : Forall (fun seg => zlen (payload seg) <= MAX_PAYLOAD_SIZE) segs
}.

Lemma grown_refl s : grown [] s s.
Proof. constructor; rewrite ?app_nil_r; try done. Qed.

Lemma grown_trans l l' s s' s'' : grown l s s' -> grown l' s' s'' -> grown (l ++ l') s s''.
Proof.
  intros [] []. constructor; try congruence; rewrite ?app_assoc; try congruence; [lia|].
  by apply Forall_app.
Qed.

(** [read] cuts the buffer in two and leaves the rest of the stream alone. *)
Lemma read_split st len :
  ByteStream.inv st -> 0 <= len ->
  let '(st', d) := ByteStream.read st len in
  ByteStream.inv st' /\ d = ztake len (_buf st) /\ d ++ _buf st' = _buf st /\
  zlen d = Z.min len (zlen (_buf st)) /\ input_ended st' = input_ended st /\
  bytes_written st' = bytes_written st /\ error st' = error st.
Proof.
  intros Hi Hl. pose proof (inv_read_output st len Hi Hl) as Hi'. rewrite read_pop in * by done.
  cbn [fst] in Hi'. split_and!; try done; [|by apply zlen_ztake].
  simpl. unfold buffer_size. rewrite zdrop_drop, ztake_take.
  assert (drop (Z.to_nat (Z.min len (zlen (_buf st)))) (_buf st) = drop (Z.to_nat len) (_buf st)) as ->.
  { rewrite <- !zdrop_drop. unfold zdrop. f_equal. lia. }
  apply take_drop.
Qed.

Definition carries (seg : TCPSegment) (n32 : WrappingInt32) (d : bytes) (f : bool) : Prop :=
  seg = mk_segment n32 false f (Buffer_of d).

Lemma carries_len seg n32 d f :
  carries seg n32 d f -> zlen d <= MAX_PAYLOAD_SIZE -> length_in_sequence_space seg = zlen d + Z.b2z f.
Proof.
  intros -> Hd. pose proof (zlen_nonneg d).
  assert (payload (mk_segment n32 false f (Buffer_of d)) = d) as Hp by apply zdrop_0.
  rewrite seglen_eq; rewrite Hp; [|unfold MAX_PAYLOAD_SIZE in *; words; lia].
  destruct f; cbn [Z.b2z syn fin mk_segment _header]; lia.
Qed.

Lemma eof_buf st : eof st = true <-> input_ended st = true /\ _buf st = [].
Proof.
  unfold eof, buffer_empty. rewrite andb_true_iff, Z.eqb_eq. split; intros [? Hb]; split; auto.
  - by apply zlen_0_inv.
  - by rewrite Hb.
Qed.

Lemma make_segment_shape s rem n32 :
  ByteStream.inv (_stream s) -> 0 < rem < 4294967296 ->
  exists (st : ByteStream) (d : bytes) (f : bool),
    make_segment s rem n32 = (if f then set_fin_flag (set_stream s st) true else set_stream s st,
                              mk_segment n32 false f (Buffer_of d)) /\
    ByteStream.inv st /\ d ++ _buf st = _buf (_stream s) /\
    zlen d = Z.min (Z.min rem MAX_PAYLOAD_SIZE) (zlen (_buf (_stream s))) /\
    input_ended st = input_ended (_stream s) /\ bytes_written st = bytes_written (_stream s) /\
    error st = error (_stream s) /\
    zlen d + Z.b2z f <= rem /\
    f = (eof st && (zlen d + 1 <=? rem)).
Proof.
  intros Hi Hr. unfold make_segment.
  pose proof (read_split (_stream s) (Z.min rem MAX_PAYLOAD_SIZE) Hi ltac:(unfold MAX_PAYLOAD_SIZE; lia)) as Hrd.
  destruct (ByteStream.read (_stream s) (Z.min rem MAX_PAYLOAD_SIZE)) as [st d].
  destruct Hrd as (Hi' & _ & Hb & Hl & He & Hbw & Her). pose proof (zlen_nonneg d).
  rewrite (carries_len _ n32 d false) by (done || lia). cbn [Z.b2z].
  rewrite u64_id by (unfold MAX_PAYLOAD_SIZE in *; words; lia). rewrite Z.add_0_r.
  exists st, d, (eof st && (zlen d + 1 <=? rem)). split; [by case_match|]. split_and!; try done.
  destruct (Z.leb_spec (zlen d + 1) rem), (eof st); simpl; lia.
Qed.

(** The segment cut from the stream is a segment of the data written. *)
Lemma cut_seg_of data s st d f :
  inv data s -> _syn_flag s = true -> _fin_flag s = false ->
  d ++ _buf st = _buf (_stream s) -> (f = true -> eof st = true) ->
  seg_of data (_isn s) (_next_seqno s)
    (mk_segment (wrap (_next_seqno s) (_isn s)) false f (Buffer_of d)).
Proof.
  intros Hi Hsyn Hfin Hd Hf. set (seg := mk_segment _ _ _ _).
  assert (payload seg = d) as Hpay by apply zdrop_0.
  destruct Hi. unfold sent in *. rewrite Hsyn, Hfin in *. cbn [Z.b2z] in *.
  assert (zlen d + zlen (_buf st) = zlen (_buf (_stream s))) as Hzl by (rewrite <- Hd; lens; lia).
  pose proof (zlen_nonneg (_buf st)). constructor; rewrite ?Hpay; [done|simpl; lia| |].
  - apply (excerpt_here _ _ _ (_buf st)); unfold index_of; simpl; [lia| |lia].
    rewrite Hd, <- inv_data0. f_equal. lia.
  - unfold index_of; simpl. intros ->. specialize (Hf eq_refl). apply eof_buf in Hf as [_ Hnil].
    rewrite Hnil in Hzl. lens. lia.
Qed.

(** The timer after [sendSegment] has the same timeout. *)
Lemma send_timer t :
  RETimer.inv t ->
  let t' := if negb (isRunning t) then start (resetTime t) else t in RETimer.inv t' /\ rto t' = rto t.
Proof. intros Hi. simpl. case_match; split; auto with sponge. Qed.

(** A segment sent at the next sequence number joins the flight and the queue. *)
Lemma sent_on data s s' seg :
  inv data s -> (forall p sg, emitted data s p sg -> emitted data s' p sg) -> emitted data s' (_next_seqno s) seg ->
  0 < length_in_sequence_space seg ->
  outSegments s' = outSegments s ++ [seg] -> _segments_out s' = _segments_out s ++ [seg] ->
  _next_seqno s' = _next_seqno s + length_in_sequence_space seg ->
  _bytes_in_flight s' = _bytes_in_flight s + length_in_sequence_space seg ->
  una s' = una s /\ consecutive (emitted data s') (una s') (outSegments s') (_next_seqno s') /\
  Forall (fun seg => exists pos, emitted data s' pos seg) (_segments_out s').
Proof.
  intros Hi Hmono Hem Hpos Ho Hq Hn Hb. assert (una s' = una s) as Hu by (unfold una; lia).
  rewrite Hu, Ho, Hq, Hn. split; [done|]. split.
  - apply consecutive_app. exists (_next_seqno s). split; [|by split_and!].
    apply (consecutive_mono (emitted data s)); [done|apply Hi].
  - apply Forall_app. split; [|by constructor; eauto].
    eapply Forall_impl; [apply (inv_out _ _ Hi)|]. intros sg (p & Hp). exists p. by apply Hmono.
Qed.

(** Sending the segment cut from the stream. *)
Section cut.
Context (data : bytes) (s : TCPSender) (st : ByteStream) (d : bytes) (f : bool).
Context (Hi : inv data s) (Hsyn : _syn_flag s = true) (Hfin : _fin_flag s = false).
Context (Hst : ByteStream.inv st) (Hd : d ++ _buf st = _buf (_stream s)) (Hmax : zlen d <= MAX_PAYLOAD_SIZE).
Context (Hend : input_ended st = input_ended (_stream s)) (Hbw : bytes_written st = bytes_written (_stream s)).
Context (Her : error st = error (_stream s)) (Hf : f = true -> eof st = true) (Hpos : 0 < zlen d + Z.b2z f).
Local Notation seg := (mk_segment (wrap (_next_seqno s) (_isn s)) false f (Buffer_of d)).
Local Notation s' := (sendSegment (if f then set_fin_flag (set_stream s st) true else set_stream s st) seg).

Lemma cut_fields :
  _stream s' = st /\ _fin_flag s' = f /\ _syn_flag s' = true /\ _isn s' = _isn s /\
  outSegments s' = outSegments s ++ [seg] /\ _segments_out s' = _segments_out s ++ [seg].
Proof. clear -Hsyn Hfin. by destruct f. Qed.

Lemma cut_length : length_in_sequence_space seg = zlen d + Z.b2z f.
Proof. eapply carries_len; [reflexivity|done]. Qed.

Lemma cut_bytes : zlen d + zlen (_buf st) = zlen (_buf (_stream s)).
Proof. rewrite <- Hd. lens. lia. Qed.

Lemma cut_counts :
  _next_seqno s' = _next_seqno s + length_in_sequence_space seg /\
  _bytes_in_flight s' = _bytes_in_flight s + length_in_sequence_space seg.
Proof.
  pose proof cut_length as Hl. pose proof cut_bytes as Hb. pose proof (zlen_nonneg d). pose proof (zlen_nonneg (_buf st)).
  destruct Hi. unfold sent, una in *. rewrite Hsyn, Hfin in *. cbn [Z.b2z] in *.
  split; destruct f; cbn -[length_in_sequence_space Z.add]; rewrite Hl; apply u64_id; cbn [Z.b2z] in *; words; lia.
Qed.

Lemma cut_sent : sent s = _next_seqno s - 1 /\ sent s' = sent s + zlen d.
Proof.
  pose proof cut_length as Hl. destruct cut_counts as [Hn _], cut_fields as (_ & Hff & Hss & _). unfold sent.
  rewrite Hn, Hl, Hff, Hss, Hsyn, Hfin. cbn [Z.b2z]. lia.
Qed.

Lemma cut_emitted : (forall p sg, emitted data s p sg -> emitted data s' p sg) /\ emitted data s' (_next_seqno s) seg.
Proof.
  destruct cut_sent as [Hs Hs'], cut_fields as (_ & Hff & Hss & Hisn & _). pose proof (zlen_nonneg d). split.
  - intros p sg. apply emitted_mono; [done|congruence|done|lia].
  - unfold emitted. rewrite Hisn, Hff, Hs', Hs. split_and!; [by apply (cut_seg_of data s st)|done|done|].
    assert (payload seg = d) as -> by apply zdrop_0. unfold index_of. simpl. lia.
Qed.

Lemma inv_send :
  inv data s' /\ grown [seg] s s' /\ _next_seqno s' = _next_seqno s + (zlen d + Z.b2z f) /\ _stream s' = st /\ _fin_flag s' = f.
Proof.
  destruct cut_sent as [Hs Hs'], cut_counts as [Hn Hb], cut_emitted as [Hmono Hem]. pose proof cut_length as Hl.
  pose proof cut_bytes as Hzl. destruct cut_fields as (Fst & Ff & Fs & Fi & Fo & Fq). pose proof (zlen_nonneg d).
  destruct (sent_on data s s' seg Hi Hmono Hem ltac:(lia) Fo Fq Hn Hb) as (Hu & Hfl & Hq).
  pose proof (inv_una _ _ Hi) as Hu0. pose proof (inv_sent _ _ Hi) as Hs0. pose proof (inv_len _ _ Hi) as Hlen.
  rewrite Hl in Hn. split_and!; try done.
  - constructor; rewrite ?Fst, ?Fi, ?Ff, ?Fs, ?Hs', ?Hu; try done; [apply Hi|apply Hi|..].
    + by rewrite Hbw, (inv_written _ _ Hi).
    + lia.
    + rewrite <- zdrop_zdrop, (inv_data _ _ Hi), <- Hd by lia. by apply zdrop_app_exact.
    + lia.
    + intros E. by apply and_comm, eof_buf, Hf.
    + lia.
    + by rewrite <- Hu.
    + clear -Hi. destruct f; by apply Hi.
    + clear -Hi. destruct f; by apply Hi.
    + clear -Hi. destruct f; simpl; apply send_timer, Hi.
    + clear -Hi. destruct f; by apply Hi.
    + destruct (inv_backoff _ _ Hi) as (k & ? & ? & ?). exists k. destruct (send_timer (timer s) (inv_timer _ _ Hi)) as [_ E].
      destruct f; simpl in *; by rewrite E.
  - constructor; rewrite ?Fst, ?Hn; try done; try lia; try (clear; by destruct f).
    repeat constructor. assert (payload seg = d) as -> by apply zdrop_0. done.
Qed.
End cut.

(** *** The window *)

(** The highest acknowledgment is [a], and the flight is inside the window. *)
Definition in_window (a : Z) (s : TCPSender) : Prop :=
  _ackGot s = wrap a (_isn s) /\ 0 <= _next_seqno s - a <= _true_window_size s.

Lemma raw_sub x y isn : u32 (raw_value (wrap x isn) - raw_value (wrap y isn)) = u32 (x - y).
Proof. rewrite !wrap_raw. wsolve. Qed.

Lemma remain_eq a s :
  is_u16 (_true_window_size s) -> in_window a s ->
  remain s (wrap (_next_seqno s) (_isn s)) = _true_window_size s - (_next_seqno s - a).
Proof.
  intros Hw [Ha Hr]. unfold remain. rewrite Ha, raw_sub. rewrite (u32_id (_next_seqno s - a)) by (words; lia).
  apply u32_id. words. lia.
Qed.

Lemma remain_range s n32 : 0 <= remain s n32 < 4294967296.
Proof. apply u32_range. Qed.

(** A stream that is read but has nothing changes only its counters. *)
Lemma inv_set_stream data s st :
  inv data s -> ByteStream.inv st -> _buf st = _buf (_stream s) -> input_ended st = input_ended (_stream s) ->
  bytes_written st = bytes_written (_stream s) -> inv data (set_stream s st).
Proof.
  intros [] Hst Hb He Hbw. constructor; unfold sent, una; cbn [set_stream _stream _isn _next_seqno _syn_flag _fin_flag
    _bytes_in_flight _true_window_size _ackGot timer _initial_retransmission_timeout
    _consecutive_retransmission _segments_out outSegments]; rewrite ?Hb, ?He, ?Hbw; done.
Qed.

Lemma grown_set_stream s st :
  input_ended st = input_ended (_stream s) -> error st = error (_stream s) -> grown [] s (set_stream s st).
Proof. intros. constructor; simpl; rewrite ?app_nil_r; done. Qed.

Definition measure (s : TCPSender) : nat := length (_buf (_stream s)) + (if _fin_flag s then 0 else 1).

(** What the loop of [fill_window] achieves, with enough fuel. *)
Record filled (s s' : TCPSender) (early : bool) : Prop := mkFilled {
  fl_grown : exists segs, grown segs s s';
  fl_in_window : forall a, in_window a s -> in_window a s';
  fl_exit : if early
    then _fin_flag s' = false /\ _buf (_stream s') = [] /\ input_ended (_stream s') = false /\
         0 < remain s' (wrap (_next_seqno s') (_isn s'))
    else remain s' (wrap (_next_seqno s') (_isn s')) = 0 \/ _fin_flag s' = true
}.

(** One iteration that does not end the loop. *)
Lemma filled_step s s1 s' early segs :
  grown segs s s1 -> (forall a, in_window a s -> in_window a s1) -> filled s1 s' early -> filled s s' early.
Proof.
  intros Hg Hw [[segs' Hg'] Hw' Hx]. constructor; eauto using grown_trans.
Qed.

Lemma fill_loop_spec data fuel : forall s,
  inv data s -> _syn_flag s = true -> (measure s < fuel)%nat ->
  exists s' early, fill_loop fuel s (wrap (_next_seqno s) (_isn s)) = Some (s', early) /\
    inv data s' /\ filled s s' early.
Proof.
  induction fuel as [|fuel IH]; intros s Hi Hsyn Hm; [lia|]. cbn [fill_loop].
  pose proof (remain_range s (wrap (_next_seqno s) (_isn s))) as Hr.
  set (rem := remain s (wrap (_next_seqno s) (_isn s))) in *.
  destruct (Z.eqb_spec rem 0) as [H0|H0].
  { exists s, false. split; [done|]. split; [done|]. constructor; eauto using grown_refl. }
  destruct (_fin_flag s) eqn:Hfin; cbn [orb].
  { exists s, false. split; [done|]. split; [done|]. constructor; eauto using grown_refl. }
  destruct (make_segment_shape s rem (wrap (_next_seqno s) (_isn s)))
    as (st & d & f & -> & Hst & Hd & Hl & He & Hbw & Her & Hrem & Hf); [apply Hi|lia|].
  rewrite (carries_len _ (wrap (_next_seqno s) (_isn s)) d f); [|done|lia].
  pose proof (zlen_nonneg d). destruct (Z.eqb_spec (zlen d + Z.b2z f) 0) as [Hz|Hz].
  - assert (f = false) as -> by (destruct f; simpl in *; [lia|done]). cbn [Z.b2z] in *.
    assert (d = []) as -> by (apply zlen_0_inv; lia). simpl in Hd.
    assert (_buf (_stream s) = []) as Hnil
      by (apply zlen_0_inv; revert Hl; lens_nil; unfold MAX_PAYLOAD_SIZE; lia).
    exists (set_stream s st), true. split; [done|]. split; [by apply inv_set_stream|].
    constructor; [exists []; by apply grown_set_stream|done|].
    simpl. split_and!; try done; [congruence| |].
    + rewrite He. destruct (input_ended (_stream s)) eqn:Hie; [|done]. exfalso.
      assert (eof st = true) as Heof by (apply eof_buf; split; congruence).
      rewrite Heof in Hf. revert Hf. lens_nil. destruct (Z.leb_spec (0 + 1) rem); [done|lia].
    + change (0 < rem). lia.
  - destruct (inv_send data s st d f Hi Hsyn Hfin Hst Hd ltac:(lia) He Hbw Her) as (Hi' & Hg & Hnx & Hs' & Hf');
      [intros ->; symmetry in Hf; by apply andb_true_iff in Hf as [? _]|destruct f; simpl in *; lia|].
    set (s' := sendSegment _ _) in *.
    destruct (IH s' Hi') as (s'' & early & -> & Hi'' & Hfl).
    + by rewrite (gr_syn _ _ _ Hg).
    + unfold measure in *. rewrite Hf', Hs', Hfin in *. apply (f_equal length) in Hd.
      rewrite length_app in Hd. rewrite zlen_eq in *. destruct f; simpl in *; lia.
    + exists s'', early. split; [done|]. split; [done|]. eapply filled_step; [done| |done].
      intros a Ha. pose proof (remain_eq a s (inv_window _ _ Hi) Ha) as Hre. fold rem in Hre.
      destruct Ha as [Ha1 Ha2]. split; [by rewrite (gr_ackGot _ _ _ Hg), (gr_isn _ _ _ Hg)|].
      rewrite (gr_window _ _ _ Hg), Hnx. destruct f; simpl in *; lia.
Qed.

(** *** [fill_window] *)

(** [s'] is [s] after sending [segs], the window and the SYN flag aside. *)
Record extends (segs : list TCPSegment) (s s' : TCPSender) : Prop := mkExtends {
  ex_isn : _isn s' = _isn s;
  ex_timeout : _initial_retransmission_timeout s' = _initial_retransmission_timeout s;
  ex_ackGot : _ackGot s' = _ackGot s;
  ex_retx : _consecutive_retransmission s' = _consecutive_retransmission s;
  ex_una : una s' = una s;
  ex_out : _segments_out s' = _segments_out s ++ segs;
  ex_flight : outSegments s' = outSegments s ++ segs;
  ex_next : _next_seqno s <= _next_seqno s';
  ex_size : Forall (fun seg => zlen (payload seg) <= MAX_PAYLOAD_SIZE) segs
}.

Lemma inv_set_window data s w : inv data s -> is_u16 w -> inv data (set_window s w).
Proof. by intros [] ?. Qed.

Lemma inv_send_syn data s :
  inv data s -> _syn_flag s = false ->
  let seg := mk_segment (wrap (_next_seqno s) (_isn s)) true false Buffer_empty in
  let s' := sendSegment (set_syn_flag s true) seg in
  inv data s' /\ extends [seg] s s' /\ _next_seqno s' = 1.
Proof.
  intros Hi Hsyn seg s'. pose proof Hi as []. destruct (inv_syn0 Hsyn) as [Hn0 Hf0].
  assert (payload seg = []) as Hpay by done.
  assert (length_in_sequence_space seg = 1) as Hlen by done.
  unfold sent, una in *. rewrite Hsyn, Hf0, Hn0 in *. cbn [Z.b2z] in *.
  pose proof (consecutive_le _ _ _ _ inv_flight0) as Hle.
  assert (_next_seqno s' = 1) as Hnext by (subst s'; simpl; by rewrite Hn0).
  assert (_bytes_in_flight s' = _bytes_in_flight s + 1) as Hbif.
  { subst s'. cbn -[length_in_sequence_space Z.add]. fold seg. rewrite Hlen. apply u64_id. words; lia. }
  assert (emitted data s' 0 seg) as Hem'.
  { split_and!; [|done|done|unfold sent, index_of; rewrite Hpay, Hnext; simpl; rewrite Hf0; lens_nil; simpl; lia].
    constructor; rewrite ?Hpay; [subst seg; simpl; by rewrite Hn0|done| |done].
    split_and!; [done|lens_nil; unfold index_of; simpl; lens; lia|]. lens_nil. by rewrite ztake_0. }
  assert (forall p sg, emitted data s p sg -> emitted data s' p sg) as Hem.
  { intros p sg. apply emitted_mono; try done. unfold sent. rewrite Hnext, Hn0, Hsyn, Hf0. simpl. rewrite Hf0. simpl. lia. }
  destruct (sent_on data s s' seg Hi Hem ltac:(by rewrite Hn0) ltac:(lia) eq_refl eq_refl ltac:(rewrite Hn0, Hlen; done)
    ltac:(by rewrite Hlen)) as (Hu & Hfl & Hq). unfold una in Hu, Hfl.
  split; [|split; [|done]].
  - constructor; unfold sent, una; try exact Hfl; try exact Hq; rewrite ?Hnext, ?Hbif; try done;
      try (simpl; rewrite ?Hf0; simpl; done || lia).
    + by apply send_timer.
    + destruct inv_backoff0 as (k & ? & ? & ?). exists k. split_and!; try done.
      simpl. by destruct (send_timer (timer s) inv_timer0) as [_ ->].
  - constructor; try done.
    + lia.
    + repeat constructor. rewrite Hpay. lens_nil. unfold MAX_PAYLOAD_SIZE. lia.
Qed.

Lemma extends_refl s : extends [] s s.
Proof. constructor; rewrite ?app_nil_r; done. Qed.

Lemma grown_extends segs s s' w w' :
  grown segs (set_window s w) s' -> extends segs s (set_window s' w').
Proof. by intros []. Qed.

Lemma set_window_same s : set_window s (_true_window_size s) = s.
Proof. by destruct s. Qed.

(** The four ways through [fill_window]. *)
Inductive fill_result (s s' : TCPSender) : Prop :=
  | fill_done : _fin_flag s = true -> s' = s -> fill_result s s'
  | fill_syn : _fin_flag s = false -> _syn_flag s = false ->
      s' = sendSegment (set_syn_flag s true)
             (mk_segment (wrap (_next_seqno s) (_isn s)) true false Buffer_empty) -> fill_result s s'
  | fill_open : _fin_flag s = false -> _syn_flag s = true -> _true_window_size s <> 0 ->
      (exists early, filled s s' early) -> fill_result s s'
  | fill_zero s1 early : _fin_flag s = false -> _syn_flag s = true -> _true_window_size s = 0 ->
      filled (set_window s 1) s1 early -> s' = (if early then s1 else set_window s1 0) ->
      fill_result s s'.

Lemma fill_window_spec data s fuel :
  inv data s -> (enough_fuel s <= fuel)%nat ->
  exists s', fill_window_fuel fuel s = Some s' /\ inv data s' /\ fill_result s s' /\
    exists segs, extends segs s s'.
Proof.
  intros Hi Hfuel. unfold fill_window_fuel. destruct (_fin_flag s) eqn:Hfin.
  { exists s. split; [done|]. split; [done|]. split; [by apply fill_done|]. exists []. apply extends_refl. }
  destruct (_syn_flag s) eqn:Hsyn; cbn [negb].
  - assert (forall w, is_u16 w -> exists s1 early,
      fill_loop fuel (set_window s w) (wrap (_next_seqno s) (_isn s)) = Some (s1, early) /\
      inv data s1 /\ filled (set_window s w) s1 early) as Hloop.
    { intros w Hw. apply (fill_loop_spec data fuel (set_window s w)); [by apply inv_set_window|done|].
      unfold measure, enough_fuel in *. simpl. case_match; lia. }
    destruct (Z.eqb_spec (_true_window_size s) 0) as [H0|H0].
    + destruct (Hloop 1 ltac:(words; lia)) as (s1 & early & -> & Hi1 & Hfl).
      pose proof Hfl as [[segs Hg] _ _]. exists (if early then s1 else set_window s1 0).
      split; [by destruct early|]. split; [|split].
      * destruct early; [done|]. apply inv_set_window; [done|words; lia].
      * by eapply fill_zero.
      * exists segs. destruct early; [rewrite <- (set_window_same s1)|]; by eapply grown_extends.
    + pose proof (Hloop (_true_window_size s) (inv_window _ _ Hi)) as (s1 & early & Hl & Hi1 & Hfl).
      rewrite set_window_same in Hl, Hfl. rewrite Hl. pose proof Hfl as [[segs Hg] _ _].
      exists s1. split; [by destruct early|]. split; [done|]. split; [apply fill_open; eauto|].
      exists segs. rewrite <- (set_window_same s1). apply (grown_extends _ _ _ (_true_window_size s)).
      by rewrite set_window_same.
  - destruct (inv_send_syn data s Hi Hsyn) as (Hi' & Hx & _). eexists. split; [done|].
    split; [done|]. split; [by apply fill_syn|]. eauto.
Qed.

Lemma fill_window_eq data s :
  inv data s -> inv data (fill_window s) /\ fill_result s (fill_window s) /\
    exists segs, extends segs s (fill_window s).
Proof.
  intros Hi. destruct (fill_window_spec data s (enough_fuel s) Hi) as (s' & E & ? & ? & ?); [lia|].
  unfold fill_window. rewrite E. done.
Qed.

Lemma fill_window_spec_zero data s :
  inv data s -> _syn_flag s = true -> _fin_flag s = false -> _true_window_size s = 0 ->
  exists s1 early, inv data s1 /\ filled (set_window s 1) s1 early /\
    fill_window s = if early : bool then s1 else set_window s1 0.
Proof.
  intros Hi Hsyn Hfin Hw.
  destruct (fill_loop_spec data (enough_fuel s) (set_window s 1)) as (s1 & early & E & Hi1 & Hf);
    [by apply inv_set_window; [|words; lia]|done| |].
  { unfold measure, enough_fuel. simpl. case_match; lia. }
  exists s1, early. split_and!; try done. unfold fill_window, fill_window_fuel. rewrite Hfin, Hsyn, Hw.
  cbn [negb Z.eqb]. change (_next_seqno (set_window s 1)) with (_next_seqno s) in E.
  change (_isn (set_window s 1)) with (_isn s) in E. rewrite E. by destruct early.
Qed.

(** *** Acknowledgments *)
Lemma pop_acked_spec P q : forall pos next n a,
  consecutive P pos q next -> n = next - pos -> is_u64 n ->
  let '(q', n') := pop_acked q a n in
  exists popped, q = popped ++ q' /\ consecutive P pos popped (next - n') /\
    consecutive P (next - n') q' next /\ 0 <= n' <= n /\
    Forall (fun seg => u64 (raw_value (seqno (_header seg)) + length_in_sequence_space seg) <= a) popped /\
    match q' with
    | [] => True
    | seg :: _ => a < u64 (raw_value (seqno (_header seg)) + length_in_sequence_space seg)
    end.
Proof.
  induction q as [|seg q IH]; intros pos next n a Hc -> Hn; cbn [pop_acked].
  - simpl in Hc. subst. exists []. split_and!; try done; simpl; lia.
  - pose proof (consecutive_le _ _ _ _ (proj2 (proj2 Hc))) as Hle. destruct Hc as (Hp & Hlen & Hc).
    destruct (Z.leb_spec (u64 (raw_value (seqno (_header seg)) + length_in_sequence_space seg)) a) as [Ha|Ha].
    + rewrite u64_id by (words; lia).
      specialize (IH (pos + length_in_sequence_space seg) next
        (next - pos - length_in_sequence_space seg) a Hc ltac:(lia) ltac:(words; lia)).
      destruct (pop_acked q a _) as [q' n'].
      destruct IH as (popped & -> & H1 & H2 & H3 & H4 & H5). exists (seg :: popped).
      split_and!; try done; [lia|lia|by constructor].
    + exists []. split_and!; try done; simpl; try lia.
      by replace (next - (next - pos)) with pos by lia.
Qed.

(** The state in which [ack_received] calls [fill_window]. *)
Definition acked (s : TCPSender) (ackno : WrappingInt32) (window_size : Z) : TCPSender :=
  let '(q, n) := pop_acked (outSegments s) (raw_value ackno) (_bytes_in_flight s) in
  let s := set_flight s q n in
  let s :=
    if raw_value (_ackGot s) <? raw_value ackno then
      let s := set_timer s (resetRTO (_initial_retransmission_timeout s) (resetTime (timer s))) in
      let s := match outSegments s with [] => s | _ => set_timer s (start (timer s)) end in
      set_acked s ackno 0
    else s in
  set_window s window_size.

Lemma ack_received_eq s ackno w :
  ack_received s ackno w =
  if raw_value (wrap (_next_seqno s) (_isn s)) <? raw_value ackno then s
  else fill_window (acked s ackno w).
Proof. unfold ack_received, acked. case_match; [done|]. by destruct (pop_acked _ _ _). Qed.

Lemma una_u64 data s : inv data s -> is_u64 (_bytes_in_flight s) /\ is_u64 (_next_seqno s).
Proof.
  intros []. unfold una, sent in *. pose proof (zlen_nonneg (_buf (_stream s))).
  assert (0 <= Z.b2z (_syn_flag s) <= 1 /\ 0 <= Z.b2z (_fin_flag s) <= 1) by (by destruct (_syn_flag s), (_fin_flag s)).
  words. lia.
Qed.

Lemma acked_fields s ackno w :
  let s' := acked s ackno w in
  _isn s' = _isn s /\ _segments_out s' = _segments_out s /\ _stream s' = _stream s /\
  _next_seqno s' = _next_seqno s /\ _fin_flag s' = _fin_flag s /\ _syn_flag s' = _syn_flag s /\
  _initial_retransmission_timeout s' = _initial_retransmission_timeout s /\ _true_window_size s' = w /\
  (outSegments s', _bytes_in_flight s') = pop_acked (outSegments s) (raw_value ackno) (_bytes_in_flight s) /\
  _ackGot s' = (if raw_value (_ackGot s) <? raw_value ackno then ackno else _ackGot s).
Proof.
  unfold acked. destruct (pop_acked _ _ _) as [q n]. simpl.
  destruct (raw_value (_ackGot s) <? raw_value ackno); [destruct q|]; simpl; split_and!; done.
Qed.

Lemma acked_timer data s ackno w :
  inv data s ->
  let s' := acked s ackno w in
  RETimer.inv (timer s') /\
  exists k, 0 <= k /\ _consecutive_retransmission s' = u16 k /\
    rto (timer s') = u32 (_initial_retransmission_timeout s * 2 ^ k).
Proof.
  intros []. unfold acked. destruct (pop_acked _ _ _) as [q n]. simpl.
  assert (is_u32 (_initial_retransmission_timeout s)) by (words; lia).
  assert (exists k, 0 <= k /\ 0 = u16 k /\
    _initial_retransmission_timeout s = u32 (_initial_retransmission_timeout s * 2 ^ k)) as H0.
  { exists 0. rewrite Z.mul_1_r, u32_id by done. split_and!; done. }
  destruct (raw_value (_ackGot s) <? raw_value ackno); [destruct q|]; simpl;
    (split; [auto with sponge|assumption]).
Qed.

Lemma inv_acked data s ackno w :
  inv data s -> WrappingIntegers.wf ackno -> is_u16 w -> inv data (acked s ackno w).
Proof.
  intros Hi Ha Hw. destruct (acked_timer data s ackno w Hi) as [Ht Hb].
  destruct (acked_fields s ackno w) as (E1 & E2 & E3 & E4 & E5 & E6 & E7 & E8 & E9 & E10).
  destruct (una_u64 data s Hi) as [Hu Hun]. pose proof Hi as [].
  pose proof (pop_acked_spec (emitted data s) (outSegments s) (una s) (_next_seqno s) (_bytes_in_flight s)
    (raw_value ackno) inv_flight0 ltac:(unfold una; lia) Hu) as Hp. rewrite <- E9 in Hp.
  destruct Hp as (popped & _ & _ & Hc & Hn & _).
  assert (forall p sg, emitted data s p sg -> emitted data (acked s ackno w) p sg) as Hem
    by (intros p sg; apply emitted_mono; unfold sent; rewrite ?E4, ?E5, ?E6; done).
  constructor; unfold sent, una in *; rewrite ?E1, ?E3, ?E4, ?E5, ?E6, ?E7, ?E8; try done; try lia.
  - by apply (consecutive_mono (emitted data s)).
  - rewrite E2. eapply Forall_impl; [done|]. intros sg (p & ?). eauto.
  - rewrite E10. by case_match.
Qed.

Lemma inv_ack_received data s ackno w :
  inv data s -> WrappingIntegers.wf ackno -> is_u16 w -> inv data (ack_received s ackno w).
Proof.
  intros. rewrite ack_received_eq. case_match; [done|]. by apply fill_window_eq, inv_acked.
Qed.

(** *** Time, and the owner of the sender *)
Lemma inv_tick data s ms : inv data s -> inv data (tick s ms).
Proof.
  intros []. destruct inv_backoff0 as (k & Hk & Hc & Hr).
  assert (rto (passTime ms (timer s)) = rto (timer s)) as Hrto
    by (unfold passTime; repeat case_match; done).
  pose proof (inv_passTime ms _ inv_timer0) as Ht. unfold tick. cbn [set_timer outSegments].
  destruct (outSegments s) as [|seg q] eqn:Hq.
  { constructor; simpl; rewrite ?Hq; try done. exists k. by rewrite Hrto. }
  destruct (isRunning _) eqn:Hrun.
  { constructor; simpl; rewrite ?Hq; try done. exists k. by rewrite Hrto. }
  assert (Forall (fun sg => exists pos, emitted data s pos sg) (_segments_out s ++ [seg])) as Hout.
  { apply Forall_app. split; [done|]. constructor; [|done]. destruct inv_flight0 as (? & _). eauto. }
  simpl. destruct (negb _ || _); constructor; simpl; rewrite ?Hq; try done; auto with sponge.
  - exists (k + 1). rewrite Hc, Hrto, Hr, Z.pow_add_r by lia. split; [lia|]. split; [wsolve|].
    words. rewrite Zmult_mod_idemp_l. f_equal. change (2 ^ 1) with 2. lia.
  - exists k. by rewrite Hrto.
Qed.

Lemma inv_drain data s : inv data s -> inv data (set_segments_out s []).
Proof. intros []. by constructor. Qed.

Lemma inv_end_stream data s : inv data s -> inv data (set_stream s (end_input (_stream s))).
Proof.
  intros []. constructor; try done; simpl; auto with sponge.
  intros Hf. by destruct (inv_fin0 Hf).
Qed.

Lemma inv_stream_error data s : inv data s -> inv data (set_stream s (ByteStream.set_error (_stream s))).
Proof. intros Hi. apply inv_set_stream; try done. by apply inv_set_error, Hi. Qed.

Lemma inv_write_stream data s d :
  inv data s -> input_ended (_stream s) = false ->
  let '(st, n) := ByteStream.write (_stream s) d in
  zlen data + n + 2 < 18446744073709551616 -> inv (data ++ ztake n d) (set_stream s st).
Proof.
  intros Hi He. pose proof (write_spec (_stream s) d (inv_stream _ _ Hi)) as Hw.
  destruct (ByteStream.write (_stream s) d) as [st n]. destruct Hw as (Hst & Hn & Hb & _ & Hbw & He').
  intros Hroom. pose proof (room_nonneg (_stream s) (inv_stream _ _ Hi)) as Hrn.
  assert (0 <= n <= zlen d) as Hn' by (lens; lia). assert (zlen (ztake n d) = n) as Hzt by (rewrite zlen_ztake; lia).
  pose proof Hi as []. pose proof (zlen_nonneg (_buf (_stream s))).
  assert (_fin_flag s = false) as Hf by (destruct (_fin_flag s); [destruct (inv_fin0 eq_refl); congruence|done]).
  assert (forall p sg, emitted data s p sg -> emitted (data ++ ztake n d) (set_stream s st) p sg) as Hem.
  { intros p sg (Hseg & Hsf & ?). split; [|done]. apply seg_of_app; [|done]. intros Hx. specialize (Hsf Hx). congruence. }
  constructor; simpl; try done; rewrite ?zlen_app, ?Hzt; try lia.
  - rewrite Hbw, inv_written0. apply u64_id. words. lens. lia.
  - change (sent (set_stream s st)) with (sent s). rewrite Hb, <- inv_data0, !zdrop_drop.
    apply drop_app_le. rewrite !zlen_eq in *. lia.
  - change (sent (set_stream s st)) with (sent s). rewrite Hb, zlen_app. lia.
  - by rewrite Hf.
  - by apply (consecutive_mono (emitted data s)).
  - eapply Forall_impl; [done|]. intros sg (p & ?). eauto.
Qed.

(** ** Runs

    The operations of the owner of a sender; [Drain] takes the queued segments
    out, as [TCPConnection::sendseg] does. *)

Inductive op :=
  | Write (d : bytes)
  | EndInput
  | FillWindow
  | Ack (ackno : WrappingInt32) (window_size : Z)
  | Tick (ms : Z)
  | Drain.

(** The new state, the bytes the stream accepted, and the segments taken out. *)
Definition step (o : op) (s : TCPSender) : TCPSender * bytes * list TCPSegment :=
  match o with
  | Write d => let '(st, n) := ByteStream.write (_stream s) d in (set_stream s st, ztake n d, [])
  | EndInput => (set_stream s (end_input (_stream s)), [], [])
  | FillWindow => (fill_window s, [], [])
  | Ack ackno w => (ack_received s ackno w, [], [])
  | Tick ms => (tick s ms, [], [])
  | Drain => (set_segments_out s [], [], _segments_out s)
  end.

Fixpoint run (ops : list op) (s : TCPSender) : TCPSender * bytes * list TCPSegment :=
  match ops with
  | [] => (s, [], [])
  | o :: ops =>
      let '(s', d, segs) := step o s in
      let '(s'', d', segs') := run ops s' in (s'', d ++ d', segs ++ segs')
  end.

(** Arguments in the ranges of their types; nothing is written after the end. *)
Definition op_ok (ended : bool) (o : op) : Prop :=
  match o with
  | Write _ => ended = false
  | Ack ackno w => WrappingIntegers.wf ackno /\ is_u16 w
  | _ => True
  end.

Definition ends (o : op) : bool := match o with EndInput => true | _ => false end.

Fixpoint ops_ok (ended : bool) (ops : list op) : Prop :=
  match ops with
  | [] => True
  | o :: ops => op_ok ended o /\ ops_ok (ended || ends o) ops
  end.

Lemma fill_window_stream data s :
  inv data s -> input_ended (_stream (fill_window s)) = input_ended (_stream s) /\
    error (_stream (fill_window s)) = error (_stream s).
Proof.
  intros Hi. destruct (fill_window_eq data s Hi) as (_ & Hr & _).
  destruct Hr as [? ->|? ? ->|? ? ? (early & [[segs []] _ _])|s1 early ? ? ? [[segs []] _ _] ->]; try done.
  by destruct early.
Qed.

Lemma fill_window_ended data s : inv data s -> input_ended (_stream (fill_window s)) = input_ended (_stream s).
Proof. intros Hi. by apply (fill_window_stream data). Qed.

(** Once the end is marked nothing more is sent. *)
Lemma fill_window_fin s : _fin_flag s = true -> fill_window s = s.
Proof. intros Hf. unfold fill_window, fill_window_fuel. by rewrite Hf. Qed.

Lemma step_fin o s : _fin_flag s = true -> _fin_flag (fst (fst (step o s))) = true.
Proof.
  intros Hf. destruct o as [d| | |a w|ms|]; cbn [step fst]; try done.
  - by rewrite fill_window_fin.
  - rewrite ack_received_eq. case_match; [done|].
    destruct (acked_fields s a w) as (_ & _ & _ & _ & E5 & _). rewrite fill_window_fin; congruence.
  - unfold tick. cbn [set_timer outSegments]. repeat case_match; done.
Qed.

(** The sender only moves forward. *)
Lemma sent_mono data s s' :
  inv data s -> inv data s' -> _next_seqno s <= _next_seqno s' ->
  (_syn_flag s = true -> _syn_flag s' = true) -> (_fin_flag s = true -> _fin_flag s' = true) ->
  sent s <= sent s'.
Proof.
  intros Hi Hi' Hn Hs Hf. pose proof (inv_len _ _ Hi) as Hl. pose proof (inv_len _ _ Hi') as Hl'.
  pose proof (inv_sent _ _ Hi'). pose proof (zlen_nonneg (_buf (_stream s))).
  destruct (_fin_flag s') eqn:Hf'.
  - destruct (inv_fin _ _ Hi' Hf') as [Hb _]. rewrite Hb in Hl'. revert Hl'. lens_nil. lia.
  - assert (_fin_flag s = false) as Hf0 by (destruct (_fin_flag s); [by specialize (Hf eq_refl)|done]).
    unfold sent in *. rewrite Hf', Hf0 in *. cbn [Z.b2z] in *.
    destruct (_syn_flag s) eqn:Hsy; [rewrite (Hs eq_refl) in *; cbn [Z.b2z] in *; lia|].
    destruct (inv_syn _ _ Hi Hsy) as [-> _]. cbn [Z.b2z] in *. lia.
Qed.

Lemma fill_window_syn data s : inv data s -> _syn_flag s = true -> _syn_flag (fill_window s) = true.
Proof.
  intros Hi Hs. destruct (fill_window_eq data s Hi) as (_ & Hr & _).
  destruct Hr as [? ->|? ? ->|? ? ? (early & [[segs []] _ _])|s1 early ? ? ? [[segs Hg] _ _] ->]; try done;
    [congruence|]. apply gr_syn in Hg. simpl in Hg. destruct early; simpl; congruence.
Qed.

Lemma fill_window_sent data s : inv data s -> sent s <= sent (fill_window s).
Proof.
  intros Hi. destruct (fill_window_eq data s Hi) as (Hi' & _ & segs & Hx).
  apply (sent_mono data); try done; [apply Hx|by apply (fill_window_syn data)|].
  intros Hf. by rewrite fill_window_fin.
Qed.

Lemma step_mono data o s :
  inv data s -> op_ok (input_ended (_stream s)) o ->
  let s' := fst (fst (step o s)) in
  (_syn_flag s = true -> _syn_flag s' = true) /\ sent s <= sent s'.
Proof.
  intros Hi Ho. destruct o as [d| | |a w|ms|]; cbn [step fst]; try done.
  - split; [by apply (fill_window_syn data)|by apply (fill_window_sent data)].
  - destruct Ho as [Ha Hw]. rewrite ack_received_eq. case_match; [done|].
    destruct (acked_fields s a w) as (_ & _ & _ & E4 & E5 & E6 & _).
    pose proof (inv_acked data s a w Hi Ha Hw) as Hia. pose proof (fill_window_sent data _ Hia) as Hsm.
    split; [intros; apply (fill_window_syn data); [done|congruence]|].
    assert (sent (acked s a w) = sent s) as <- by (unfold sent; by rewrite E4, E5, E6). done.
  - unfold tick. cbn [set_timer outSegments]. repeat case_match; done.
Qed.

Lemma step_spec data o s :
  inv data s -> op_ok (input_ended (_stream s)) o ->
  let '(s', d, segs) := step o s in
  zlen data + zlen d + 2 < 18446744073709551616 ->
  inv (data ++ d) s' /\ _isn s' = _isn s /\
  input_ended (_stream s') = input_ended (_stream s) || ends o /\
  (input_ended (_stream s) = true -> d = []) /\
  Forall (fun seg => exists pos, emitted data s pos seg) segs.
Proof.
  intros Hi Ho. destruct o as [d| | |a w|ms|]; cbn [step ends]; rewrite ?orb_false_r, ?orb_true_r, ?app_nil_r.
  - pose proof (write_spec (_stream s) d (inv_stream _ _ Hi)) as Hw.
    pose proof (inv_write_stream data s d Hi Ho) as Hi'. simpl in Ho.
    destruct (ByteStream.write (_stream s) d) as [st n]. destruct Hw as (_ & Hn & _ & _ & _ & He).
    pose proof (room_nonneg (_stream s) (inv_stream _ _ Hi)).
    rewrite zlen_ztake by (lens; lia). intros Hz. rewrite Z.min_l in Hz by lia.
    split_and!; auto; simpl; congruence.
  - intros _. split_and!; try done. by apply inv_end_stream.
  - intros _. destruct (fill_window_eq data s Hi) as (? & _ & segs & []).
    split_and!; try done. by apply (fill_window_ended data).
  - destruct Ho as [Ha Hw]. intros _. pose proof (inv_ack_received data s a w Hi Ha Hw) as Hi'.
    destruct (acked_fields s a w) as (E1 & _ & E3 & _). pose proof (inv_acked data s a w Hi Ha Hw) as Hia.
    rewrite ack_received_eq in *. case_match; [done|]. destruct (fill_window_eq _ _ Hia) as (_ & _ & segs & []).
    split_and!; try done; [congruence|]. by rewrite (fill_window_ended data), E3.
  - intros _. pose proof (inv_tick data s ms Hi). split_and!; try done;
      unfold tick; cbn [set_timer outSegments]; repeat case_match; done.
  - intros _. split_and!; try done; [by apply inv_drain|]. apply Hi.
Qed.

Lemma run_spec ops : forall data s,
  inv data s -> ops_ok (input_ended (_stream s)) ops ->
  let '(s', d, segs) := run ops s in
  zlen data + zlen d + 2 < 18446744073709551616 ->
  inv (data ++ d) s' /\ _isn s' = _isn s /\
  (input_ended (_stream s) = true -> d = []) /\
  Forall (fun seg => exists pos, seg_of (data ++ d) (_isn s) pos seg) segs.
Proof.
  induction ops as [|o ops IH]; intros data s Hi Hok; cbn [run].
  - intros _. rewrite app_nil_r. done.
  - destruct Hok as [Ho Hok]. pose proof (step_spec data o s Hi Ho) as Hs.
    destruct (step o s) as [[s1 d1] segs1]. specialize (IH (data ++ d1) s1).
    destruct (run ops s1) as [[s2 d2] segs2]. rewrite zlen_app. intros Hz.
    pose proof (zlen_nonneg d1). pose proof (zlen_nonneg d2).
    destruct Hs as (Hi1 & Hisn & He & Hd1 & Hsegs1); [lia|].
    rewrite He in IH. destruct IH as (Hi2 & Hisn2 & Hd2 & Hsegs2); [done|done|rewrite zlen_app; lia|].
    rewrite app_assoc. split_and!; try done; [congruence| |].
    + intros Hend. rewrite Hd1, Hd2 by (done || by rewrite Hend). done.
    + rewrite Hisn in Hsegs2. apply Forall_app. split; [|done]. eapply Forall_impl; [apply Hsegs1|].
      intros seg (pos & Hseg & Hf & _). exists pos. rewrite <- app_assoc. apply seg_of_app; [|done].
      intros Hx. destruct (inv_fin _ _ Hi (Hf Hx)) as [_ Hend]. rewrite Hd1, Hd2 by (done || by rewrite Hend). done.
Qed.

(** ** Without wrap-around

    The comparisons of [ack_received] are on raw 32-bit values; they mean what
    they should as long as the numbers in use stay below 2^32. *)

Definition no_wrap (s : TCPSender) : Prop := raw_value (_isn s) + _next_seqno s < 4294967296.

Lemma raw_pos isn pos :
  WrappingIntegers.wf isn -> 0 <= pos -> raw_value isn + pos < 4294967296 ->
  raw_value (wrap pos isn) = raw_value isn + pos.
Proof. intros Hw Hp Hn. rewrite wrap_raw. unfold WrappingIntegers.wf in *. rewrite u32_id by (words; lia). lia. Qed.

(** Which segments an acknowledgment frees. *)
Lemma pop_positions data s ackno popped : forall pos next,
  WrappingIntegers.wf (_isn s) -> 0 <= pos -> raw_value (_isn s) + next < 4294967296 ->
  consecutive (emitted data s) pos popped next ->
  Forall (fun seg => u64 (raw_value (seqno (_header seg)) + length_in_sequence_space seg) <= ackno) popped ->
  popped = [] \/ raw_value (_isn s) + next <= ackno.
Proof.
  induction popped as [|seg q IH]; intros pos next Hw Hp Hn Hc Hf; [by left|]. right.
  destruct Hc as ([[Hq _ _ _] _] & Hlen & Hc). apply Forall_cons in Hf as [Hseg Hf].
  pose proof (consecutive_le _ _ _ _ Hc) as Hle.
  destruct (IH (pos + length_in_sequence_space seg) next Hw ltac:(lia) Hn Hc Hf) as [->|]; [|done]. simpl in Hc. subst next.
  rewrite Hq, raw_pos, u64_id in Hseg by (try done; unfold WrappingIntegers.wf in *; words; lia). lia.
Qed.

Lemma fill_loop_mono fuel : forall fuel' s n32 r,
  fill_loop fuel s n32 = Some r -> (fuel <= fuel')%nat -> fill_loop fuel' s n32 = Some r.
Proof.
  induction fuel as [|fuel IH]; intros [|fuel'] s n32 r E Hf; try done; [lia|].
  cbn [fill_loop] in *. case_match; [done|]. destruct (make_segment _ _ _) as [s1 seg].
  case_match; [done|]. apply (IH fuel'); [done|lia].
Qed.

Lemma fill_fuel_mono fuel fuel' s s' :
  fill_window_fuel fuel s = Some s' -> (fuel <= fuel')%nat -> fill_window_fuel fuel' s = Some s'.
Proof.
  unfold fill_window_fuel. intros E Hf. case_match; [done|]. case_match; [done|].
  destruct (fill_loop fuel _ _) as [r|] eqn:El; [|done]. by rewrite (fill_loop_mono _ _ _ _ _ El Hf).
Qed.

(** What is left in flight after an acknowledgment. *)
Lemma acked_spec data s a w :
  inv data s -> no_wrap s -> 0 <= a <= _next_seqno s -> is_u16 w ->
  let s' := acked s (wrap a (_isn s)) w in
  ack_received s (wrap a (_isn s)) w = fill_window s' /\ inv data s' /\
  exists popped, outSegments s = popped ++ outSegments s' /\
    (popped = [] \/ una s' <= a) /\
    consecutive (emitted data s) (una s) popped (una s') /\
    match outSegments s' with
    | [] => bytes_in_flight s' = 0
    | seg :: _ => a < una s' + length_in_sequence_space seg
    end.
Proof.
  intros Hi Hnw Ha Hw s'. unfold no_wrap in Hnw. subst s'. pose proof (inv_isn _ _ Hi) as Hisn.
  pose proof (raw_pos (_isn s) a Hisn ltac:(lia) ltac:(lia)) as Hra.
  pose proof (raw_pos (_isn s) (_next_seqno s) Hisn ltac:(lia) Hnw) as Hrn.
  split; [rewrite ack_received_eq, Hra, Hrn; case_match; [lia|done]|].
  pose proof (inv_acked data s (wrap a (_isn s)) w Hi (wf_wrap _ _) Hw) as Hi'. split; [done|].
  destruct (acked_fields s (wrap a (_isn s)) w) as (E1 & _ & _ & E4 & E5 & _ & _ & _ & E9 & _).
  destruct (una_u64 data s Hi) as [Hu _]. pose proof (inv_una _ _ Hi) as Hun.
  pose proof (pop_acked_spec (emitted data s) (outSegments s) (una s) (_next_seqno s) (_bytes_in_flight s)
    (raw_value (wrap a (_isn s))) (inv_flight _ _ Hi) ltac:(unfold una; lia) Hu) as Hp. rewrite <- E9 in Hp.
  destruct Hp as (popped & Hq & Hpop & Hrest & Hn & Hacked & Hhead).
  assert (una (acked s (wrap a (_isn s)) w) =
    _next_seqno s - _bytes_in_flight (acked s (wrap a (_isn s)) w)) as Hua by (unfold una; by rewrite E4).
  exists popped. rewrite Hua. split_and!; try done.
  - destruct (pop_positions data s _ popped (una s) (_next_seqno s - _bytes_in_flight (acked s (wrap a (_isn s)) w)) Hisn ltac:(lia) ltac:(lia) Hpop Hacked); [by left|right; lia].
  - destruct (outSegments (acked _ _ _)) as [|seg q].
    + simpl in Hrest. unfold bytes_in_flight. lia.
    + destruct Hrest as ([[Hseq _ _ _] _] & Hlen & Hc). pose proof (consecutive_le _ _ _ _ Hc) as Hle.
      rewrite Hra, Hseq, raw_pos, u64_id in Hhead
        by (try done; unfold WrappingIntegers.wf in *; words; unfold una in *; lia). lia.
Qed.

(** A sender that has drained its stream stands past all of it. *)
Lemma drained_next data s s' :
  inv data s -> inv data s' -> _syn_flag s = true -> _syn_flag s' = true -> _fin_flag s = false ->
  _buf (_stream s') = [] ->
  _next_seqno s' = _next_seqno s + zlen (_buf (_stream s)) + Z.b2z (_fin_flag s').
Proof.
  intros [] [] Hs Hs' Hf Hb. unfold sent in *. rewrite Hs, Hs', Hf, Hb in *. cbn [Z.b2z] in *.
  revert inv_len1. lens_nil. lia.
Qed.

(** The peer acknowledges the SYN before anything was written: the sender is
    open, with nothing in flight and nothing more to send. *)
Lemma syn_acked s w :
  inv [] s -> no_wrap s -> _next_seqno s = 1 -> _syn_flag s = true -> _segments_out s = [] ->
  input_ended (_stream s) = false -> is_u16 w ->
  let s' := ack_received s (wrap 1 (_isn s)) w in
  _next_seqno s' = 1 /\ _bytes_in_flight s' = 0 /\ _segments_out s' = [] /\
  input_ended (_stream s') = false /\ error (_stream s') = error (_stream s).
Proof.
  intros Hi Hnw Hn Hsyn Hout Hend Hw s'. subst s'.
  destruct (acked_spec [] s 1 w Hi Hnw ltac:(lia) Hw) as (-> & Hi' & popped & _ & _ & _ & Hrest).
  destruct (acked_fields s (wrap 1 (_isn s)) w) as (_ & E2 & E3 & E4 & _ & E6 & _).
  destruct (fill_window_eq [] _ Hi') as (Hi'' & _ & segs & Hx).
  destruct (fill_window_stream [] _ Hi') as [He Her]. rewrite E3 in He, Her.
  pose proof (fill_window_syn [] _ Hi' ltac:(congruence)) as Hsyn'.
  set (s' := fill_window (acked s (wrap 1 (_isn s)) w)) in *.
  assert (_fin_flag s' = false) as Hf
    by (destruct (_fin_flag s') eqn:Hf; [destruct (inv_fin _ _ Hi'' Hf); congruence|done]).
  assert (_next_seqno s' = 1) as Hn'.
  { pose proof (inv_len _ _ Hi'') as Hl. unfold sent in Hl. rewrite Hsyn', Hf in Hl. cbn [Z.b2z] in Hl.
    pose proof (inv_sent _ _ Hi'') as Hs0. unfold sent in Hs0. rewrite Hsyn', Hf in Hs0. cbn [Z.b2z] in Hs0.
    pose proof (zlen_nonneg (_buf (_stream s'))). revert Hl. lens_nil. lia. }
  assert (una s' = 1) as Hu.
  { rewrite (ex_una _ _ _ Hx). unfold una. rewrite E4, Hn.
    pose proof (inv_flight _ _ Hi') as Hfl. destruct (outSegments (acked _ _ _)) as [|seg q].
    - unfold bytes_in_flight in Hrest. lia.
    - destruct Hfl as (_ & _ & Hle%consecutive_le). lia. }
  assert (outSegments s' = []) as Hnil.
  { pose proof (inv_flight _ _ Hi'') as Hfl. rewrite Hu, Hn' in Hfl. destruct (outSegments s') as [|seg q]; [done|].
    destruct Hfl as (_ & ? & Hle%consecutive_le). lia. }
  rewrite (ex_flight _ _ _ Hx) in Hnil. apply app_eq_nil in Hnil as [_ ->].
  split_and!; [done|unfold una in Hu; lia|by rewrite (ex_out _ _ _ Hx), E2, Hout|congruence|done].
Qed.

(** What [fill_window] does with a non-zero window. *)
Lemma fill_window_open data s a :
  inv data s -> _syn_flag s = true -> _true_window_size s <> 0 -> in_window a s ->
  let s' := fill_window s in
  exists segs, outSegments s' = outSegments s ++ segs /\ _segments_out s' = _segments_out s ++ segs /\
    Forall (fun seg => zlen (payload seg) <= MAX_PAYLOAD_SIZE) segs /\
    _next_seqno s' - a <= _true_window_size s /\ inv data s' /\
    (_next_seqno s' - a = _true_window_size s \/
     _buf (_stream s') = [] /\ _fin_flag s' = input_ended (_stream s')).
Proof.
  intros Hi Hsyn Hw Ha s'. subst s'.
  destruct (fill_window_eq data s Hi) as (Hi' & Hr & segs & Hx). pose proof Hx as [].
  exists segs. split_and!; try done.
  - destruct Hr as [? ->|? Hs|? ? ? (early & [[l Hg] Hin _])|]; try congruence; [by apply Ha|].
    destruct (Hin a Ha) as [_ Hle]. rewrite (gr_window _ _ _ Hg) in Hle. lia.
  - destruct Hr as [Hf ->|? Hs|? ? ? (early & [[l Hg] Hin Hexit])|]; try congruence.
    + right. destruct (inv_fin _ _ Hi Hf) as [? ->]. done.
    + pose proof (remain_eq a _ (inv_window _ _ Hi') (Hin a Ha)) as Hre. rewrite (gr_window _ _ _ Hg) in Hre.
      destruct early.
      * right. destruct Hexit as (-> & ? & -> & _). done.
      * destruct Hexit as [Hrem|Hf]; [left; lia|]. right. destruct (inv_fin _ _ Hi' Hf) as [? ->]. done.
Qed.

(** ** Properties *)

(** C31 [fill_window] always returns: any fuel from [enough_fuel] on (one step per
    buffered byte and two more) gives the same result. *)
Theorem fill_window_total data s fuel :
  inv data s -> (enough_fuel s <= fuel)%nat -> fill_window_fuel fuel s = Some (fill_window s).
Proof.
  intros Hi Hf. destruct (fill_window_spec data s (enough_fuel s) Hi ltac:(lia)) as (s' & E & _).
  unfold fill_window. rewrite E. by apply (fill_fuel_mono (enough_fuel s)).
Qed.

(** A tick before the timeout, and one that reaches it. *)
Lemma tick_early s timeout elapsed m :
  0 <= elapsed -> 0 <= m -> elapsed + m < 4294967296 -> elapsed + m < timeout ->
  tick (set_timer s (mkRETimer timeout elapsed true)) m = set_timer s (mkRETimer timeout (elapsed + m) true).
Proof.
  intros H1 H2 H3 H4. unfold tick, passTime. cbn [set_timer timer isRunning _isrunning negb rto _time].
  rewrite (u32_id m), u32_id by (words; lia). destruct (Z.leb_spec timeout (elapsed + m)); [lia|]. by destruct s as [? ? ? ? ? []].
Qed.

Lemma tick_late s timeout elapsed m :
  0 <= elapsed -> 0 <= m -> elapsed + m < 4294967296 -> timeout <= elapsed + m ->
  tick (set_timer s (mkRETimer timeout elapsed true)) m =
  match outSegments s with
  | [] => set_timer s (mkRETimer timeout 0 false)
  | seg :: _ =>
      let sent := set_segments_out s (_segments_out s ++ [seg]) in
      if negb (_true_window_size s =? 0) || (_next_seqno s =? 1)
      then set_timer (set_acked sent (_ackGot s) (u16 (_consecutive_retransmission s + 1))) (mkRETimer (u32 (timeout * 2)) 0 true)
      else set_timer sent (mkRETimer timeout 0 true)
  end.
Proof.
  intros H1 H2 H3 H4. unfold tick, passTime. cbn [set_timer timer isRunning _isrunning negb rto _time].
  rewrite (u32_id m), u32_id by (words; lia). destruct (Z.leb_spec timeout (elapsed + m)); [|lia].
  cbn [set_timer outSegments timer isRunning _isrunning]. destruct (outSegments s) as [|seg q]; [done|].
  cbv zeta. cbn [set_segments_out set_timer _true_window_size _next_seqno]. by destruct (_ || _).
Qed.

Lemma inv_ticks data ms : forall s, inv data s -> inv data (fold_left tick ms s).
Proof. induction ms as [|m ms IH]; intros s Hi; simpl; [done|]. by apply IH, inv_tick. Qed.

(** Ticks before the timeout only advance the timer. *)
Lemma sender_ticks ms : forall s,
  isRunning (timer s) = true -> Forall (fun m => 0 <= m) ms -> 0 <= _time (timer s) -> is_u32 (rto (timer s)) ->
  _time (timer s) + total ms < rto (timer s) ->
  fold_left tick ms s = set_timer s (mkRETimer (rto (timer s)) (_time (timer s) + total ms) true).
Proof.
  induction ms as [|m ms IH]; intros s Hrun Hms H0 Hr Hlt; simpl in *.
  - rewrite Z.add_0_r. destruct s as [? ? ? ? ? ? ? ? ? ? ? ? [? ? []]]; done.
  - apply Forall_cons in Hms as [Hm Hms]. pose proof (total_nonneg ms Hms).
    assert (s = set_timer s (mkRETimer (rto (timer s)) (_time (timer s)) true)) as Hs
      by (destruct s as [? ? ? ? ? ? ? ? ? ? ? ? [? ? []]]; done).
    assert (tick s m = set_timer s (mkRETimer (rto (timer s)) (_time (timer s) + m) true)) as ->
      by (rewrite Hs at 1; apply tick_early; words; lia).
    rewrite IH by (simpl; done || lia). simpl. by rewrite Z.add_assoc.
Qed.

(** C9 The sender is correct for any peer and any application that writes nothing
    after it has ended its input ([ByteStream::write] would accept such data): after
    any sequence of writes, end of input, window fills, ticks and acknowledgments
    (of any value) with less than 2^64 - 2 bytes written, the invariant holds (the segments in flight are consecutive, end
    at [_next_seqno] and their length is [_bytes_in_flight]; the timeout is the
    initial one doubled once per counted retransmission), and every segment
    that was ever handed out carries a piece of the data written, at the
    sequence number of its position, with the FIN only at its end. *)
Theorem sender_run_correct capacity timeout isn random ops :
  is_u64 capacity -> is_u16 timeout ->
  match isn with Some i => WrappingIntegers.wf i | None => True end -> ops_ok false ops ->
  let '(s, data, segs) := run ops (new capacity timeout isn random) in
  zlen data + 2 < 18446744073709551616 ->
  inv data s /\ Forall (fun seg => exists pos, seg_of data (_isn s) pos seg) segs.
Proof.
  intros Hc Ht Hi Hok. pose proof (sender_inv_new capacity timeout isn random Hc Ht Hi) as Hn.
  pose proof (run_spec ops [] _ Hn Hok) as H. destruct (run ops _) as [[s data] segs].
  intros Hz. destruct H as (? & Hisn & _ & ?); [by lens_nil|]. split; [done|]. by rewrite Hisn.
Qed.

(** C17 The window is used up and not exceeded: when the flight is inside a
    non-zero window, [fill_window] keeps it inside, sends payloads of at most
    [MAX_PAYLOAD_SIZE], and stops only when the window is full or when
    everything written has been sent, the FIN included once the stream has
    ended. *)
Theorem fill_window_fills data s a :
  inv data s -> _syn_flag s = true -> _true_window_size s <> 0 -> in_window a s ->
  let s' := fill_window s in
  exists segs, outSegments s' = outSegments s ++ segs /\ _segments_out s' = _segments_out s ++ segs /\
    Forall (fun seg => zlen (payload seg) <= MAX_PAYLOAD_SIZE) segs /\
    _next_seqno s' - a <= _true_window_size s /\ inv data s' /\
    (_next_seqno s' - a = _true_window_size s \/
     _buf (_stream s') = [] /\ _fin_flag s' = input_ended (_stream s')).
Proof. apply fill_window_open. Qed.

(** C18 Acknowledgments free exactly what they cover (while sequence numbers stay
    below 2^32): an acknowledgment of [a], [0 <= a <= next_seqno], removes the
    longest prefix of the flight that ends at or before [a]; the first
    unacknowledged number moves to the end of that prefix, never past [a];
    new segments are only appended; and when [a] is [next_seqno] nothing is
    left of the old flight. *)
Theorem ack_frees_exactly data s a w :
  inv data s -> no_wrap s -> 0 <= a <= _next_seqno s -> is_u16 w ->
  let s' := ack_received s (wrap a (_isn s)) w in
  inv data s' /\
  exists popped rest segs, outSegments s = popped ++ rest /\ outSegments s' = rest ++ segs /\
    consecutive (emitted data s) (una s) popped (una s') /\ (popped = [] \/ una s' <= a) /\
    match rest with
    | [] => una s' = _next_seqno s
    | seg :: _ => a < una s' + length_in_sequence_space seg
    end /\
    (a = _next_seqno s -> rest = []).
Proof.
  intros Hi Hnw Ha Hw s'. subst s'.
  destruct (acked_spec data s a w Hi Hnw Ha Hw) as (-> & Hi' & popped & Hq & Hle & Hc & Hrest).
  destruct (fill_window_eq data _ Hi') as (Hi'' & _ & segs & Hx). split; [done|].
  rewrite (ex_una _ _ _ Hx). exists popped, (outSegments (acked s (wrap a (_isn s)) w)), segs.
  split_and!; try done; [apply Hx| |].
  - destruct (outSegments (acked _ _ _)); [|done]. unfold una, bytes_in_flight in *.
    destruct (acked_fields s (wrap a (_isn s)) w) as (_ & _ & _ & E4 & _). lia.
  - intros ->. pose proof (inv_flight _ _ Hi') as Hf.
    destruct (acked_fields s (wrap (_next_seqno s) (_isn s)) w) as (_ & _ & _ & E4 & _).
    destruct (outSegments (acked _ _ _)) as [|seg q]; [done|]. destruct Hf as (_ & _ & Hf%consecutive_le). lia.
Qed.

(** C27 Retransmission: take a sender whose timer runs and has counted less than
    the timeout since it was started.  As long as the time counted, with that of
    further ticks, stays below the timeout, ticks do nothing but advance the count.
    At the tick with which it reaches the timeout, if something is in flight,
    exactly the oldest segment in flight is sent again, the timer starts from 0,
    and the timeout is doubled and the retransmission counted unless the window is
    zero (the initial SYN excepted); if nothing is in flight, the timer stops.
    The flight and the next sequence number do not change.  (The time counted must
    stay below 2^32 ms.) *)
Theorem tick_retransmits_oldest data s ms m :
  let timeout := rto (timer s) in
  let elapsed := _time (timer s) + total ms in
  inv data s -> isRunning (timer s) = true -> Forall (fun m => 0 <= m) ms -> 0 <= m ->
  elapsed < timeout -> elapsed + m < 4294967296 ->
  let s1 := fold_left tick ms s in
  let s' := tick s1 m in
  s1 = set_timer s (mkRETimer timeout elapsed true) /\
  inv data s' /\ _next_seqno s' = _next_seqno s /\ outSegments s' = outSegments s /\
  (elapsed + m < timeout -> s' = set_timer s (mkRETimer timeout (elapsed + m) true)) /\
  (timeout <= elapsed + m ->
   match outSegments s with
   | seg :: _ =>
       seg_of data (_isn s) (una s) seg /\ _segments_out s' = _segments_out s ++ [seg] /\
       _time (timer s') = 0 /\ isRunning (timer s') = true /\
       if negb (_true_window_size s =? 0) || (_next_seqno s =? 1)
       then rto (timer s') = u32 (timeout * 2) /\
            consecutive_retransmissions s' = u16 (consecutive_retransmissions s + 1)
       else rto (timer s') = timeout /\ consecutive_retransmissions s' = consecutive_retransmissions s
   | [] => s' = set_timer s (mkRETimer timeout 0 false)
   end).
Proof.
  intros timeout elapsed Hi Hrun Hms Hm He Hb s1 s'. pose proof (total_nonneg ms Hms) as Htot.
  destruct (inv_timer _ _ Hi) as [Hr Ht].
  assert (s1 = set_timer s (mkRETimer timeout elapsed true)) as Hs1
    by (apply sender_ticks; [done|done|words; lia|done|done]).
  assert (0 <= elapsed) as H0 by (subst elapsed; words; lia).
  assert (inv data s1) as Hi1 by by apply inv_ticks.
  split; [done|]. split; [by apply inv_tick|]. subst s'. rewrite Hs1. clear s1 Hs1 Hi1.
  destruct (Z.ltb_spec (elapsed + m) timeout) as [Hlt|Hge].
  - rewrite (tick_early s timeout elapsed m) by done. split_and!; [done|done|done|lia].
  - pose proof (inv_flight _ _ Hi) as Hf. rewrite (tick_late s timeout elapsed m) by done.
    destruct (outSegments s) as [|seg q] eqn:Hq; [split_and!; (done || (simpl; congruence) || lia)|].
    destruct Hf as ([Hseg _] & _). cbv zeta.
    destruct (negb (_true_window_size s =? 0) || (_next_seqno s =? 1)); (split; [done|]); (split; [simpl; congruence|]);
      (split; [lia|]); intros _; by split_and!.
Qed.

(** A zero window is probed: with nothing in flight, data to send and a zero
    window, [fill_window] sends exactly one sequence number and goes back to
    treating the window as zero, so that retransmitting the probe does not
    count. *)
Theorem zero_window_probe data s a :
  inv data s -> _syn_flag s = true -> _fin_flag s = false -> _true_window_size s = 0 ->
  _ackGot s = wrap a (_isn s) -> _next_seqno s = a ->
  _buf (_stream s) <> [] \/ input_ended (_stream s) = true ->
  let s' := fill_window s in
  _next_seqno s' = a + 1 /\ _true_window_size s' = 0.
Proof.
  intros Hi Hsyn Hfin Hw Hack Hnx Hdata s'. subst s'.
  destruct (fill_window_spec_zero data s Hi Hsyn Hfin Hw) as (s1 & early & Hi1 & [[segs Hg] Hin Hexit] & ->).
  assert (in_window a s1) as Ha by (apply Hin; split; [done|simpl; lia]).
  pose proof (remain_eq a s1 (inv_window _ _ Hi1) Ha) as Hre. destruct Ha as [_ Hle].
  pose proof (gr_window _ _ _ Hg) as Hw1. pose proof (gr_syn _ _ _ Hg) as Hs1. simpl in Hw1, Hs1.
  pose proof (drained_next data s s1 Hi Hi1 Hsyn ltac:(congruence) Hfin) as Hdr.
  pose proof (zlen_nonneg (_buf (_stream s))). destruct early.
  - destruct Hexit as (Hf1 & Hb1 & He1 & Hrem). exfalso. rewrite (gr_ended _ _ _ Hg) in He1. simpl in He1.
    destruct Hdata as [Hne|]; [|congruence]. specialize (Hdr Hb1). rewrite Hf1 in Hdr. cbn [Z.b2z] in Hdr.
    apply Hne, zlen_0_inv. lia.
  - simpl. split; [|done]. destruct Hexit as [H0|Hf1]; [lia|].
    destruct (inv_fin _ _ Hi1 Hf1) as [Hb1 _]. specialize (Hdr Hb1). rewrite Hf1 in Hdr. cbn [Z.b2z] in Hdr. lia.
Qed.

(** The zero window is forgotten when there is nothing to send: the [return]
    inside the loop skips the line that restores it, and the window is left at
    one. *)
Theorem zero_window_forgotten data s :
  inv data s -> _syn_flag s = true -> _fin_flag s = false -> _true_window_size s = 0 ->
  _ackGot s = wrap (_next_seqno s) (_isn s) -> _buf (_stream s) = [] -> input_ended (_stream s) = false ->
  let s' := fill_window s in
  _true_window_size s' = 1 /\ _next_seqno s' = _next_seqno s.
Proof.
  intros Hi Hsyn Hfin Hw Hack Hb He s'. subst s'.
  destruct (fill_window_spec_zero data s Hi Hsyn Hfin Hw) as (s1 & early & Hi1 & [[segs Hg] Hin Hexit] & ->).
  assert (in_window (_next_seqno s) s1) as Ha by (apply Hin; split; [done|simpl; lia]).
  pose proof (remain_eq _ s1 (inv_window _ _ Hi1) Ha) as Hre. destruct Ha as [_ Hle].
  pose proof (gr_window _ _ _ Hg) as Hw1. pose proof (gr_syn _ _ _ Hg) as Hs1. simpl in Hw1, Hs1.
  pose proof (gr_ended _ _ _ Hg) as He1. simpl in He1.
  assert (_fin_flag s1 = false) as Hf1
    by (destruct (_fin_flag s1) eqn:Hf1; [destruct (inv_fin _ _ Hi1 Hf1); congruence|done]).
  assert (_buf (_stream s1) = []) as Hb1.
  { pose proof (inv_len _ _ Hi) as Hl. pose proof (inv_len _ _ Hi1) as Hl1. unfold sent in Hl, Hl1.
    rewrite Hb, Hsyn, Hfin in Hl. rewrite Hs1, Hsyn, Hf1 in Hl1. cbn [Z.b2z] in *. revert Hl. lens_nil.
    intros. apply zlen_0_inv. pose proof (zlen_nonneg (_buf (_stream s1))). lia. }
  pose proof (drained_next data s s1 Hi Hi1 Hsyn ltac:(congruence) Hfin Hb1) as Hdr.
  rewrite Hb, Hf1 in Hdr. revert Hdr. lens_nil. intros Hdr. cbn [Z.b2z] in Hdr. destruct early.
  - split; [done|lia].
  - exfalso. destruct Hexit as [H0|]; [lia|congruence].
Qed.

(** A window that shrinks below the flight is overrun: the 32-bit difference
    in the loop condition wraps, and [fill_window] sends everything that is
    buffered although nothing fits. *)
Theorem shrunk_window_overrun data s a :
  inv data s -> _syn_flag s = true -> _fin_flag s = false -> 0 < _true_window_size s ->
  _ackGot s = wrap a (_isn s) -> _true_window_size s < _next_seqno s - a ->
  _next_seqno s - a + zlen (_buf (_stream s)) < 4294967296 -> _buf (_stream s) <> [] ->
  let s' := fill_window s in
  _next_seqno s + zlen (_buf (_stream s)) <= _next_seqno s' /\ _buf (_stream s') = [] /\
  _true_window_size s' < _next_seqno s' - a.
Proof.
  intros Hi Hsyn Hfin Hw Hack Hover Hsmall Hne s'. subst s'.
  destruct (fill_window_eq data s Hi) as (Hi' & Hr & _).
  destruct Hr as [?|? ?|? ? ? (early & [[segs Hg] Hin Hexit])|]; try congruence; [|lia].
  pose proof (gr_window _ _ _ Hg) as Hw1. pose proof (gr_syn _ _ _ Hg) as Hs1.
  pose proof (gr_next _ _ _ Hg) as Hn1. set (s' := fill_window s) in *.
  assert (_buf (_stream s') = []) as Hb1.
  { destruct early; [apply Hexit|]. destruct Hexit as [Hrem|Hf1]; [|by apply (inv_fin _ _ Hi')]. exfalso.
    unfold remain in Hrem. rewrite (gr_ackGot _ _ _ Hg), (gr_isn _ _ _ Hg), Hack, raw_sub, Hw1 in Hrem.
    pose proof (inv_len _ _ Hi) as Hl. pose proof (inv_len _ _ Hi') as Hl1. unfold sent in Hl, Hl1.
    rewrite Hsyn, Hfin in Hl. rewrite Hs1, Hsyn in Hl1. cbn [Z.b2z] in *.
    pose proof (zlen_nonneg (_buf (_stream s'))). pose proof (inv_window _ _ Hi).
    assert (0 <= Z.b2z (_fin_flag s') <= 1) by (by destruct (_fin_flag s')).
    assert (_fin_flag s' = false \/ _buf (_stream s') = []) as [Hf|Hb]
      by (destruct (_fin_flag s') eqn:Hf; [right; by apply (inv_fin _ _ Hi')|by left]).
    - rewrite Hf in *. cbn [Z.b2z] in *. rewrite (u32_id (_next_seqno s' - a)) in Hrem by (words; lia). wsolve.
    - rewrite Hb in *. revert Hl1. lens_nil. intros Hl1.
      destruct (Z.eq_dec (_next_seqno s' - a) 4294967296) as [He|].
      + rewrite He in Hrem. wsolve.
      + rewrite (u32_id (_next_seqno s' - a)) in Hrem by (words; lia). wsolve. }
  pose proof (drained_next data s s' Hi Hi' Hsyn ltac:(congruence) Hfin Hb1) as Hdr.
  assert (0 <= Z.b2z (_fin_flag s')) by (by destruct (_fin_flag s')).
  pose proof (zlen_nonneg (_buf (_stream s))). split_and!; [lia|done|lia].
Qed.

(** A segment that ends at or past sequence number 2^32 is never
    acknowledged: the comparison adds its length to the raw 32-bit number
    without wrapping, so no acknowledgment removes it from the flight. *)
Theorem ack_across_wrap_ignored data s seg q ackno w :
  inv data s -> outSegments s = seg :: q -> length_in_sequence_space seg < 4294967296 ->
  4294967296 <= raw_value (seqno (_header seg)) + length_in_sequence_space seg ->
  WrappingIntegers.wf (seqno (_header seg)) -> WrappingIntegers.wf ackno -> is_u16 w ->
  let s' := ack_received s ackno w in
  (exists q', outSegments s' = seg :: q') /\ una s' = una s.
Proof.
  intros Hi Hq Hlen Hend Hseq Ha Hw s'. subst s'. rewrite ack_received_eq. case_match; [by eauto|].
  destruct (acked_fields s ackno w) as (_ & _ & _ & E4 & _ & _ & _ & _ & E9 & _).
  destruct (fill_window_eq data _ (inv_acked data s ackno w Hi Ha Hw)) as (_ & _ & segs & Hx).
  rewrite (ex_flight _ _ _ Hx), (ex_una _ _ _ Hx). unfold una. rewrite E4.
  rewrite Hq in E9. cbn [pop_acked] in E9. unfold WrappingIntegers.wf in *.
  rewrite u64_id in E9 by (words; lia).
  destruct (Z.leb_spec (raw_value (seqno (_header seg)) + length_in_sequence_space seg) (raw_value ackno));
    [words; lia|]. injection E9 as -> ->. eauto.
Qed.

(** Witnesses *)

(** A sender after its SYN was acknowledged with a window of [w], and the same
    with bytes to send. *)
Definition demo_open (w : Z) : TCPSender :=
  ack_received (fill_window (new 100 1000 (Some (mkW32 5)) 0)) (mkW32 6) w.

Definition demo_data : bytes := [1; 2; 3; 4; 5; 6].

Definition demo_ready (w : Z) : TCPSender :=
  set_stream (demo_open w) (fst (ByteStream.write (_stream (demo_open w)) demo_data)).

Lemma demo_open_inv w : is_u16 w -> inv [] (demo_open w).
Proof.
  intros Hw. apply inv_ack_received; [|vm_compute; split; congruence|done].
  apply (fill_window_eq []), sender_inv_new; vm_compute; split; congruence.
Qed.

Lemma demo_ready_inv : inv demo_data (demo_ready 4).
Proof.
  pose proof (inv_write_stream [] (demo_open 4) demo_data
    (demo_open_inv 4 ltac:(vm_compute; split; congruence)) eq_refl) as H.
  apply H. reflexivity.
Qed.

Lemma fill_window_total_witness : fill_window_fuel 50 (demo_ready 4) = Some (fill_window (demo_ready 4)).
Proof. apply (fill_window_total demo_data); [exact demo_ready_inv|vm_compute; lia]. Defined.

Definition demo_ops : list op :=
  [FillWindow; Drain; Ack (mkW32 6) 4; Write demo_data; FillWindow; Drain; Tick 1000; Drain;
   Ack (mkW32 10) 100; EndInput; FillWindow; Drain].

Lemma sender_run_correct_witness :
  let '(s, data, segs) := run demo_ops (new 100 1000 (Some (mkW32 5)) 0) in
  data = demo_data /\ length segs = 5%nat /\
  Forall (fun seg => exists pos, seg_of data (mkW32 5) pos seg) segs.
Proof.
  pose proof (sender_run_correct 100 1000 (Some (mkW32 5)) 0 demo_ops) as H.
  destruct (run demo_ops (new 100 1000 (Some (mkW32 5)) 0)) as [[s data] segs] eqn:E.
  assert (data = demo_data /\ length segs = 5%nat /\ _isn s = mkW32 5) as (-> & Hl & Hisn)
    by (vm_compute in E; injection E as <- <- <-; vm_compute; split; [reflexivity|split; reflexivity]).
  split; [reflexivity|]. split; [exact Hl|]. rewrite <- Hisn.
  apply H; [vm_compute; split; congruence|vm_compute; split; congruence|vm_compute; split; congruence| |reflexivity].
  vm_compute. repeat split; congruence.
Defined.

Lemma fill_window_fills_witness :
  _next_seqno (fill_window (demo_ready 4)) - 1 <= 4 /\ length (outSegments (fill_window (demo_ready 4))) = 1%nat.
Proof.
  split; [|reflexivity].
  destruct (fill_window_fills demo_data (demo_ready 4) 1) as (segs & _ & _ & _ & H & _);
    [exact demo_ready_inv|reflexivity|vm_compute; congruence| |exact H].
  split; [apply W32_ext; reflexivity|vm_compute; split; congruence].
Defined.

Lemma ack_frees_exactly_witness :
  let s := fill_window (demo_ready 4) in
  exists popped segs, outSegments s = popped ++ [] /\
    outSegments (ack_received s (wrap 5 (_isn s)) 7) = [] ++ segs.
Proof.
  intros s.
  destruct (ack_frees_exactly demo_data s 5 7) as (_ & popped & rest & segs & H1 & H2 & _ & _ & _ & H3);
    [exact (proj1 (fill_window_eq _ _ demo_ready_inv))|vm_compute; reflexivity|
     vm_compute; split; congruence|vm_compute; split; congruence|].
  exists popped, segs. rewrite (H3 eq_refl) in H1, H2. split; [exact H1|exact H2].
Defined.

Lemma tick_retransmits_oldest_witness :
  let s := fill_window (demo_ready 4) in
  let s1 := fold_left tick [400; 599] s in
  _segments_out s1 = _segments_out s /\
  _segments_out (tick s1 1) = _segments_out s ++ firstn 1 (outSegments s) /\ rto (timer (tick s1 1)) = 2000.
Proof.
  intros s s1. pose proof (tick_retransmits_oldest demo_data s [400; 599] 1
    (proj1 (fill_window_eq _ _ demo_ready_inv)) eq_refl ltac:(repeat constructor; lia) ltac:(lia) eq_refl eq_refl) as (H1 & _ & _ & _ & _ & H2).
  split; [exact (f_equal _segments_out H1)|]. specialize (H2 ltac:(vm_compute; congruence)).
  vm_compute in H2. destruct H2 as (_ & H & _). split; [vm_compute; exact H|reflexivity].
Defined.

Lemma zero_window_probe_witness :
  let s := set_window (demo_ready 4) 0 in
  _next_seqno (fill_window s) = 2 /\ _true_window_size (fill_window s) = 0.
Proof.
  apply (zero_window_probe demo_data (set_window (demo_ready 4) 0) 1);
    [|reflexivity|reflexivity|reflexivity|apply W32_ext; reflexivity|reflexivity|left; vm_compute; congruence].
  apply inv_set_window; [exact demo_ready_inv|vm_compute; split; congruence].
Defined.

Lemma zero_window_forgotten_witness :
  let s := set_window (demo_open 4) 0 in
  _true_window_size (fill_window s) = 1 /\ _next_seqno (fill_window s) = 1.
Proof.
  apply (zero_window_forgotten [] (set_window (demo_open 4) 0));
    [|reflexivity|reflexivity|reflexivity|apply W32_ext; reflexivity|reflexivity|reflexivity].
  apply inv_set_window; [apply demo_open_inv|]; vm_compute; split; congruence.
Defined.

Lemma shrunk_window_overrun_witness :
  let s := set_window (fill_window (demo_ready 4)) 2 in
  _true_window_size (fill_window s) < _next_seqno (fill_window s) - 1.
Proof.
  apply (shrunk_window_overrun demo_data (set_window (fill_window (demo_ready 4)) 2) 1);
    [|reflexivity|reflexivity|reflexivity|apply W32_ext; reflexivity|reflexivity|reflexivity|vm_compute; congruence].
  apply inv_set_window; [apply (fill_window_eq demo_data); exact demo_ready_inv|vm_compute; split; congruence].
Defined.

Lemma ack_across_wrap_ignored_witness :
  let s := fill_window (new 100 1000 (Some (mkW32 4294967295)) 0) in
  exists q', outSegments (ack_received s (mkW32 0) 10) = mk_segment (wrap 0 (mkW32 4294967295)) true false Buffer_empty :: q'.
Proof.
  intros s.
  destruct (ack_across_wrap_ignored [] s (mk_segment (wrap 0 (mkW32 4294967295)) true false Buffer_empty) []
    (mkW32 0) 10) as [H _]; [|reflexivity|reflexivity|vm_compute; congruence|
      vm_compute; split; congruence|vm_compute; split; congruence|vm_compute; split; congruence|exact H].
  apply (fill_window_eq []), sender_inv_new; vm_compute; split; congruence.
Defined.
