(* ===== verification/EndToEnd.v ===== *)
(** * EndToEnd: a sender and a receiver over an unreliable network

    Composes [TCPSender] and [TCPReceiver] through a network that may lose,
    reorder and duplicate segments and deliver acknowledgments of any value.
    A world holds the sender and what was written to it, every segment the
    sender ever handed out, the receiver and what was read from it; its steps
    are the operations of the two components.

    The theorems: the receiver's output is always a prefix of what was written;
    retransmitting the oldest segment makes the receiver's acknowledgment pass
    it; and a FIN that overtakes data can end the stream early. *)

From S2P Require Import Prelude TCPReceiver TCPSender.
From S2P Require Import WrappingIntegers ByteStream StreamReassembler Buffer TCPHeader TCPSegment.
From S2P Require Import SegmentOf.

Record world := mkWorld {
  snd : TCPSender.TCPSender;
  data : bytes;
  wire : list TCPSegment;
  rcv : TCPReceiver.TCPReceiver;
  out : bytes
}.

Definition init (send_capacity timeout : Z) (isn : option WrappingInt32) (random recv_capacity : Z) : world :=
  mkWorld (TCPSender.new send_capacity timeout isn random) [] [] (TCPReceiver.new recv_capacity) [].

Inductive step (w : world) : world -> Prop :=
  | step_sender o s' d segs :
      TCPSender.op_ok (input_ended (TCPSender._stream (snd w))) o ->
      TCPSender.step o (snd w) = (s', d, segs) ->
      step w (mkWorld s' (data w ++ d) (wire w ++ segs) (rcv w) (out w))
  | step_deliver seg :
      seg ∈ wire w ->
      step w (mkWorld (snd w) (data w) (wire w) (TCPReceiver.segment_received (rcv w) seg) (out w))
  | step_read len o' got :
      0 <= len -> ByteStream.read (TCPReceiver.stream_out (rcv w)) len = (o', got) ->
      step w (mkWorld (snd w) (data w) (wire w) (TCPReceiver.set_stream_out (rcv w) o') (out w ++ got)).

Inductive reachable (w0 : world) : world -> Prop :=
  | reach_refl : reachable w0 w0
  | reach_step w w' : reachable w0 w -> step w w' -> reachable w0 w'.

(** ** Invariant *)

Definition isn_of (w : world) : WrappingInt32 := TCPSender._isn (snd w).

Record inv (w : world) : Prop := mkInv {
  inv_sender : TCPSender.inv (data w) (snd w);
  inv_wire : Forall (fun seg => exists pos, TCPSender.emitted (data w) (snd w) pos seg) (wire w);
  inv_receiver : TCPReceiver.inv (rcv w);
  inv_sound : sound (data w) (out w) (TCPReceiver._reassembler (rcv w));
  inv_isn : TCPReceiver.isn_ok (isn_of w) (rcv w);
  inv_held : forall p, held (TCPReceiver._reassembler (rcv w)) p -> p < TCPSender.sent (snd w);
  inv_eof : eof_flag (TCPReceiver._reassembler (rcv w)) = true \/
    input_ended (TCPReceiver.stream_out (rcv w)) = true -> TCPSender._fin_flag (snd w) = true;
  inv_syn : TCPReceiver._isn_set (rcv w) = true -> TCPSender._syn_flag (snd w) = true
}.

Lemma sound_app stream more o r : sound stream o r -> sound (stream ++ more) o r.
Proof.
  intros [Hi Ho Hn Hm]. pose proof (inv_next_u64 _ Hi) as Hu. constructor; try done.
  - rewrite Ho, !ztake_take. symmetry. apply take_app_le. rewrite zlen_eq in Hn. words. lia.
  - lens. lia.
  - intros k v Hk. destruct (Hm k v Hk) as (b & -> & Hb). exists b. split; [done|].
    unfold stream_at in *. by apply lookup_app_l_Some.
Qed.

(** A step only adds to the data, and what is on the wire stays valid. *)
Lemma step_data w w' : step w w' -> exists more, data w' = data w ++ more.
Proof. intros []; simpl; eauto; exists []; by rewrite app_nil_r. Qed.

Lemma step_len w w' : step w w' -> zlen (data w) <= zlen (data w').
Proof. intros [more ->]%step_data. lens. lia. Qed.

Definition bounded (w : world) : Prop := zlen (data w) < 2147483646.

Lemma inv_step_sender w o s' d segs :
  inv w -> TCPSender.op_ok (input_ended (TCPSender._stream (snd w))) o ->
  TCPSender.step o (snd w) = (s', d, segs) -> zlen (data w ++ d) < 2147483646 ->
  inv (mkWorld s' (data w ++ d) (wire w ++ segs) (rcv w) (out w)).
Proof.
  intros [Hs Hw Hr Hsd Hi Hh He0 Hsy] Hok E Hb. pose proof (TCPSender.step_spec (data w) o (snd w) Hs Hok) as Hst.
  rewrite E in Hst. rewrite zlen_app in Hb.
  destruct Hst as (Hs' & Hisn & He & Hd & Hsegs); [lia|].
  pose proof (TCPSender.step_fin o (snd w)) as Hfin.
  pose proof (TCPSender.step_mono (data w) o (snd w) Hs Hok) as [Hsyn Hsent]. rewrite E in Hfin, Hsyn, Hsent.
  assert (forall pos seg, TCPSender.emitted (data w) (snd w) pos seg ->
    TCPSender.emitted (data w ++ d) s' pos seg) as Hem.
  { intros pos seg (Hseg & Hf & ?). apply (TCPSender.emitted_mono _ (snd w)); try done.
    split; [|done]. apply seg_of_app; [|done]. intros Hx.
    destruct (TCPSender.inv_fin _ _ Hs (Hf Hx)) as [_ Hend]. by apply Hd. }
  constructor; simpl in *; auto.
  - apply Forall_app. split; eapply Forall_impl; eauto; intros seg (pos & ?); eauto.
  - by apply sound_app.
  - unfold isn_of in *. simpl. by rewrite Hisn.
  - intros p Hp. specialize (Hh p Hp). lia.
Qed.

Lemma near_bounded w pos seg :
  inv w -> bounded w -> seg_of (data w) (isn_of w) pos seg ->
  Z.abs (index_of pos seg + 1 - bytes_written (TCPReceiver.stream_out (rcv w))) < 2147483648.
Proof.
  unfold bounded. intros [_ _ _ Hsd _ _ _ _] Hb [_ _ (H0 & Hl & _) _]. pose proof (zlen_nonneg (payload seg)).
  pose proof (sound_next _ _ _ Hsd) as Hn. pose proof (inv_next _ (sound_inv _ _ _ Hsd)) as He.
  pose proof (inv_next_u64 _ (sound_inv _ _ _ Hsd)) as Hu.
  unfold TCPReceiver.stream_out, StreamReassembler.stream_out. rewrite <- He. words. lia.
Qed.

(** The effect of a delivery on the receiver, in terms of the reassembler. *)
Lemma deliver_abs w pos seg :
  inv w -> bounded w -> seg_of (data w) (isn_of w) pos seg ->
  TCPReceiver.segment_received (rcv w) seg = TCPReceiver.arrive_abs (isn_of w) pos seg (rcv w).
Proof.
  intros Hi Hb Hseg. apply (TCPReceiver.segment_received_abs (data w) _ (out w)).
  - exact (TCPSender.inv_isn _ _ (inv_sender _ Hi)).
  - unfold bounded in Hb. lia.
  - exact (inv_sound _ Hi).
  - exact (inv_isn _ Hi).
  - done.
  - intros _. by apply near_bounded.
Qed.

Lemma inv_step_deliver w seg :
  inv w -> bounded w -> seg ∈ wire w ->
  inv (mkWorld (snd w) (data w) (wire w) (TCPReceiver.segment_received (rcv w) seg) (out w)).
Proof.
  intros Hi Hb Hin. pose proof Hi as [Hs Hw Hr Hsd Hisn Hh Heof Hsyn].
  rewrite Forall_forall in Hw. destruct (Hw seg Hin) as (pos & Hseg & Hfin & Hsy & Hsent).
  fold (isn_of w) in Hseg. rewrite (deliver_abs w pos seg) by done.
  unfold TCPReceiver.arrive_abs. destruct (_ || _); [|by destruct w].
  destruct (seg_excerpt _ _ _ _ Hseg) as (H0 & Hl & He).
  set (r := TCPReceiver._reassembler (rcv w)) in *.
  pose proof (push_pushed r (payload seg) (index_of pos seg) (fin (_header seg)) (sound_inv _ _ _ Hsd) H0
    ltac:(unfold bounded in Hb; lia)) as Hp.
  destruct (push_flags r (payload seg) (index_of pos seg) (fin (_header seg)) (sound_inv _ _ _ Hsd) H0
    ltac:(unfold bounded in Hb; lia)) as [Hfl Hen].
  constructor; simpl; try done.
  - by rewrite Forall_forall.
  - destruct Hr as [Hr1 Hr2 Hr3]. constructor; simpl; [apply Hp| |apply Hs].
    by rewrite (pushed_capacity _ _ _ _ Hp).
  - eapply pushed_sound; [done| |done]. done.
  - intros p Hp'. destruct (pushed_held _ _ _ _ _ Hp Hp'); [auto|lia].
  - intros [[?|?]%Hfl|[?|[[?|?]%Hfl _]]%Hen]; auto.
Qed.

Lemma inv_step_read w len o' got :
  inv w -> 0 <= len -> ByteStream.read (TCPReceiver.stream_out (rcv w)) len = (o', got) ->
  inv (mkWorld (snd w) (data w) (wire w) (TCPReceiver.set_stream_out (rcv w) o') (out w ++ got)).
Proof.
  intros [Hs Hw Hr Hsd Hisn Hh Heof Hsyn] Hl E.
  pose proof (step_sound (data w) (out w) (ReadOut len) _
    ltac:(pose proof (TCPSender.inv_headroom _ _ Hs); lia) Hsd Hl) as Hst.
  pose proof (read_out_spec _ len (sound_inv _ _ _ Hsd) Hl) as Hrd.
  cbn [StreamReassembler.step] in Hst, Hrd. unfold TCPReceiver.stream_out in E. rewrite E in Hst, Hrd.
  destruct Hrd as (_ & _ & _ & _ & _ & _ & _ & Hen).
  constructor; simpl; try done; [destruct Hr; by constructor; simpl; [apply Hst|..]|].
  intros [?|Hx]; [auto|]. apply Heof. right. change (input_ended o' = true) in Hx.
  change (input_ended o' = input_ended (TCPReceiver.stream_out (rcv w))) in Hen. congruence.
Qed.

Lemma inv_step w w' : inv w -> step w w' -> bounded w' -> inv w'.
Proof.
  intros Hi Hst Hb. pose proof (step_len _ _ Hst) as Hl. unfold bounded in Hb.
  destruct Hst as [o s' d segs Hok E|seg Hin|len o' got H0 E].
  - by eapply inv_step_sender.
  - by apply inv_step_deliver.
  - by eapply inv_step_read.
Qed.

Lemma inv_init send_capacity timeout isn random recv_capacity :
  is_u64 send_capacity -> is_u16 timeout -> is_u64 recv_capacity ->
  match isn with Some i => WrappingIntegers.wf i | None => True end ->
  inv (init send_capacity timeout isn random recv_capacity).
Proof.
  intros. constructor; simpl; try done.
  - by apply TCPSender.sender_inv_new.
  - by apply TCPReceiver.receiver_inv_new.
  - by apply sound_new.
  - intros p [Hp|[v Hv]]; simpl in *; [done|]. by rewrite lookup_empty in Hv.
  - by intros [?|?].
Qed.

Lemma inv_reachable w0 w : inv w0 -> reachable w0 w -> bounded w -> inv w.
Proof.
  intros Hi. induction 1 as [|w w' _ IH Hst]; intros Hb; [done|].
  eapply inv_step; [|done|done]. apply IH. pose proof (step_len _ _ Hst). unfold bounded in *. lia.
Qed.

(** ** Executable runs *)

Inductive event :=
  | Snd (o : TCPSender.op)
  | Deliver (i : nat)
  | Rd (len : Z).

Definition op_okb (ended : bool) (o : TCPSender.op) : bool :=
  match o with
  | TCPSender.Write _ => negb ended
  | TCPSender.Ack ackno w => bool_decide (is_u32 (raw_value ackno)) && bool_decide (is_u16 w)
  | _ => true
  end.

Definition exec_event (e : event) (w : world) : option world :=
  match e with
  | Snd o =>
      if op_okb (input_ended (TCPSender._stream (snd w))) o then
        let '(s', d, segs) := TCPSender.step o (snd w) in
        Some (mkWorld s' (data w ++ d) (wire w ++ segs) (rcv w) (out w))
      else None
  | Deliver i =>
      match wire w !! i with
      | Some seg => Some (mkWorld (snd w) (data w) (wire w) (TCPReceiver.segment_received (rcv w) seg) (out w))
      | None => None
      end
  | Rd len =>
      if 0 <=? len then
        let '(o', got) := ByteStream.read (TCPReceiver.stream_out (rcv w)) len in
        Some (mkWorld (snd w) (data w) (wire w) (TCPReceiver.set_stream_out (rcv w) o') (out w ++ got))
      else None
  end.

Fixpoint exec (es : list event) (w : world) : option world :=
  match es with
  | [] => Some w
  | e :: es => match exec_event e w with Some w' => exec es w' | None => None end
  end.

Lemma exec_event_step e w w' : exec_event e w = Some w' -> step w w'.
Proof.
  destruct e as [o|i|len]; simpl.
  - destruct (op_okb _ o) eqn:Hok; [|done]. destruct (TCPSender.step o (snd w)) as [[s' d] segs] eqn:E.
    intros [= <-]. apply (step_sender w o s' d segs); [|done]. destruct o; simpl in *; try done.
    + by apply negb_true_iff in Hok.
    + by apply andb_true_iff in Hok as [?%bool_decide_eq_true ?%bool_decide_eq_true].
  - destruct (wire w !! i) eqn:E; [|done]. intros [= <-]. apply step_deliver. by eapply list_elem_of_lookup_2.
  - destruct (Z.leb_spec 0 len); [|done]. intros [= <-].
    by apply (step_read w len).
Qed.

Lemma exec_reachable es : forall w0 w w', reachable w0 w -> exec es w = Some w' -> reachable w0 w'.
Proof.
  induction es as [|e es IH]; intros w0 w w' Hr; simpl; [by intros [= <-]|].
  destruct (exec_event e w) as [w1|] eqn:E; [|done]. apply IH.
  eapply reach_step; [done|]. by apply (exec_event_step e).
Qed.

(** ** Acknowledgments on the way back *)

(** The absolute number the receiver acknowledges. *)
Definition acked_upto (w : world) : Z :=
  1 + bytes_written (TCPReceiver.stream_out (rcv w)) +
  (if input_ended (TCPReceiver.stream_out (rcv w)) then 1 else 0).

Lemma written_u64 w : inv w -> bounded w ->
  0 <= bytes_written (TCPReceiver.stream_out (rcv w)) <= zlen (data w) /\
  nextIndex (TCPReceiver._reassembler (rcv w)) = bytes_written (TCPReceiver.stream_out (rcv w)).
Proof.
  intros [_ _ _ [Hi Ho Hn Hm] _ _ _ _] Hb. pose proof (inv_next_u64 _ Hi) as Hu.
  pose proof (inv_next _ Hi) as He. change (_output (TCPReceiver._reassembler (rcv w)))
    with (TCPReceiver.stream_out (rcv w)) in He. rewrite <- He. words. split; [lia|done].
Qed.

Lemma ackno_upto w :
  inv w -> bounded w -> TCPReceiver._isn_set (rcv w) = true ->
  TCPReceiver.ackno (rcv w) = Some (wrap (acked_upto w) (isn_of w)).
Proof.
  intros Hi Hb Hset. destruct (written_u64 w Hi Hb) as [Hw _]. unfold bounded in Hb.
  unfold TCPReceiver.ackno, acked_upto. rewrite Hset. cbn [negb]. rewrite (inv_isn _ Hi Hset).
  rewrite u64_id by (words; lia). case_match; rewrite ?wrap_wrap_add; do 2 f_equal; lia.
Qed.

Lemma acked_upto_sent w :
  inv w -> bounded w -> TCPReceiver._isn_set (rcv w) = true ->
  1 <= acked_upto w <= TCPSender._next_seqno (snd w).
Proof.
  intros Hi Hb Hset. destruct (written_u64 w Hi Hb) as [Hw Hn]. pose proof Hi as [Hs _ _ _ _ Hh He Hsyn].
  specialize (Hsyn Hset). assert (bytes_written (TCPReceiver.stream_out (rcv w)) <= TCPSender.sent (snd w)).
  { assert (bytes_written (TCPReceiver.stream_out (rcv w)) - 1 < TCPSender.sent (snd w)); [|lia].
    apply Hh. left. lia. }
  unfold acked_upto. destruct (input_ended (TCPReceiver.stream_out (rcv w))).
  - unfold TCPSender.sent in *. rewrite Hsyn, He in * by auto. cbn [Z.b2z] in *. lia.
  - unfold TCPSender.sent in *. rewrite Hsyn in *. cbn [Z.b2z] in *.
    assert (0 <= Z.b2z (TCPSender._fin_flag (snd w))) by (by destruct (TCPSender._fin_flag _)). lia.
Qed.

(** A piece that starts at or before the next byte and fits is passed over. *)
Lemma push_contiguous r d index eof :
  StreamReassembler.inv r -> tight r -> 0 <= index -> index + zlen d < 18446744073709551616 ->
  fits r d index -> index <= nextIndex r ->
  index + zlen d <= nextIndex (push_substring r d index eof).
Proof.
  intros Hi Ht H0 Hend Hf Hle. destruct (push_fits r d index eof Hi Ht H0 Hend Hf) as [Ht' Hh].
  pose proof (push_pushed r d index eof Hi H0 Hend) as [Hi' _ (bs & _ & Hn & _) _ _].
  destruct (Z.le_gt_cases (index + zlen d) (nextIndex (push_substring r d index eof))) as [|Hgt]; [done|].
  exfalso. destruct (Hh (nextIndex (push_substring r d index eof))) as [Hlt|Hs]; [lens; lia|lia|].
  apply Ht' in Hs. lia.
Qed.

(** An acknowledgment at or past the end of the oldest segment frees it. *)
Lemma ack_passes data s seg q a w :
  TCPSender.inv data s -> TCPSender.no_wrap s -> is_u16 w -> TCPSender.outSegments s = seg :: q ->
  TCPSender.una s + length_in_sequence_space seg <= a <= TCPSender._next_seqno s ->
  TCPSender.una s + length_in_sequence_space seg <=
    TCPSender.una (TCPSender.ack_received s (wrap a (TCPSender._isn s)) w).
Proof.
  intros Hi Hnw Hw Hq Ha. pose proof (TCPSender.inv_una _ _ Hi) as Hu.
  pose proof (TCPSender.inv_flight _ _ Hi) as Hf. rewrite Hq in Hf. destruct Hf as (_ & Hlen & Hf).
  destruct (TCPSender.acked_spec data s a w Hi Hnw ltac:(lia) Hw) as (-> & Hi' & popped & Hpq & Hle & Hc & Hrest).
  destruct (TCPSender.fill_window_eq data _ Hi') as (_ & _ & segs & Hx). rewrite (TCPSender.ex_una _ _ _ Hx).
  destruct popped as [|seg' popped].
  - simpl in Hpq, Hc. rewrite Hq in Hpq. rewrite <- Hpq in Hrest. lia.
  - rewrite Hq in Hpq. injection Hpq as <- _. destruct Hc as (_ & _ & Hc%TCPSender.consecutive_le). lia.
Qed.

(** ** Properties *)

Section properties.
Context (send_capacity timeout random recv_capacity : Z) (isn : option WrappingInt32).
Context (Hsend : is_u64 send_capacity) (Htimeout : is_u16 timeout) (Hrecv : is_u64 recv_capacity).
Context (Hisn : match isn with Some i => WrappingIntegers.wf i | None => True end).

Local Notation w0 := (init send_capacity timeout isn random recv_capacity).

Lemma reachable_inv w : reachable w0 w -> bounded w -> inv w.
Proof. intros Hr. apply (inv_reachable w0); [by apply inv_init|done]. Qed.

(** C5 End to end, the reader sees a prefix of what was written: whatever the
    network loses, reorders or duplicates, whatever acknowledgments reach the
    sender and however the operations interleave, the bytes read and the bytes
    waiting at the receiver are the first bytes written to the sender (less than
    2^31 - 2 bytes, so that sequence numbers are not ambiguous, and none of them
    after the end of the input). *)
Theorem end_to_end_prefix w :
  reachable w0 w -> bounded w ->
  let written := bytes_written (TCPReceiver.stream_out (rcv w)) in
  out w ++ _buf (TCPReceiver.stream_out (rcv w)) = ztake written (data w) /\ written <= zlen (data w).
Proof.
  intros Hr Hb. assert (inv w) as Hi by by apply reachable_inv.
  destruct (written_u64 w Hi Hb) as [Hw Hn]. pose proof (sound_out _ _ _ (inv_sound _ Hi)) as Ho.
  rewrite Hn in Ho. split; [exact Ho|lia].
Qed.

(** The receiver never acknowledges what was not sent: its acknowledgment is
    the sequence number of [1 + bytes_written] (one more when the input has
    ended), and that is at most the sender's [next_seqno]; so the sender never
    drops it as too new while the numbers stay below 2^32. *)
Theorem acks_only_what_was_sent w a :
  reachable w0 w -> bounded w -> TCPReceiver.ackno (rcv w) = Some a ->
  a = wrap (acked_upto w) (isn_of w) /\ 1 <= acked_upto w <= TCPSender._next_seqno (snd w) /\
  (TCPSender.no_wrap (snd w) -> raw_value a <= raw_value (TCPSender.next_seqno (snd w))).
Proof.
  intros Hr Hb Ha. assert (inv w) as Hi by by apply reachable_inv.
  assert (TCPReceiver._isn_set (rcv w) = true) as Hset
    by (unfold TCPReceiver.ackno in Ha; revert Ha; by destruct (TCPReceiver._isn_set (rcv w))).
  pose proof (ackno_upto w Hi Hb Hset) as Hac. pose proof (acked_upto_sent w Hi Hb Hset) as Hle.
  rewrite Hac in Ha. injection Ha as <-. split_and!; [done|lia|lia|]. intros Hnw.
  pose proof (TCPSender.inv_isn _ _ (inv_sender _ Hi)) as Hwf. unfold TCPSender.no_wrap, TCPSender.next_seqno, isn_of in *.
  rewrite !TCPSender.raw_pos by (done || lia). lia.
Qed.

(** C16 Retransmission makes progress, while the sequence numbers in use have not
    passed 2^32 (beyond it the sender does not remove a segment): when everything
    before the oldest segment in flight has arrived, that segment (not a FIN) fits
    the receiver's window, and what the receiver holds out of order is inside its
    window (the reassembler may keep more), delivering the segment once and
    returning the acknowledgment once removes it from the flight.  The receiver has
    got the SYN, or the segment is the SYN, and less than 2^31 - 2 bytes were
    written, none after the end of the input. *)
Theorem retransmission_progress w seg q win :
  reachable w0 w -> bounded w -> TCPSender.no_wrap (snd w) -> is_u16 win ->
  TCPSender.outSegments (snd w) = seg :: q -> seg ∈ wire w -> fin (_header seg) = false ->
  tight (TCPReceiver._reassembler (rcv w)) ->
  TCPReceiver._isn_set (rcv w) || syn (_header seg) = true ->
  TCPSender.una (snd w) <= bytes_written (TCPReceiver.stream_out (rcv w)) + 1 ->
  index_of (TCPSender.una (snd w)) seg + zlen (payload seg) <=
    bytes_written (TCPReceiver.stream_out (rcv w)) + TCPReceiver.window_size (rcv w) ->
  exists a, TCPReceiver.ackno (TCPReceiver.segment_received (rcv w) seg) = Some a /\
    TCPSender.una (snd w) + length_in_sequence_space seg <=
      TCPSender.una (TCPSender.ack_received (snd w) a win).
Proof.
  intros Hr Hb Hnw Hwin Hq Hin Hfin Ht Hset Hle Hfit.
  assert (inv w) as Hi by by apply reachable_inv.
  set (w' := mkWorld (snd w) (data w) (wire w) (TCPReceiver.segment_received (rcv w) seg) (out w)).
  assert (inv w') as Hi' by by apply inv_step_deliver. assert (bounded w') as Hb' by done.
  pose proof (TCPSender.inv_flight _ _ (inv_sender _ Hi)) as Hf. rewrite Hq in Hf.
  destruct Hf as ((Hseg & _) & _). fold (isn_of w) in Hseg.
  assert (rcv w' = TCPReceiver.arrive_abs (isn_of w) (TCPSender.una (snd w)) seg (rcv w)) as Habs
    by by apply deliver_abs.
  unfold TCPReceiver.arrive_abs in Habs. rewrite Hset in Habs.
  assert (TCPReceiver._isn_set (rcv w') = true) as Hset' by by rewrite Habs.
  exists (wrap (acked_upto w') (isn_of w')). split; [by apply (ackno_upto w')|].
  eapply (ack_passes (data w)); [apply Hi|done|done|done|]. split; [|exact (proj2 (acked_upto_sent w' Hi' Hb' Hset'))].
  destruct (seg_excerpt _ _ _ _ Hseg) as (H0 & Hl & _). destruct (written_u64 w Hi Hb) as [Hw Hn].
  destruct (TCPReceiver.window_size_eq (rcv w) (inv_receiver _ Hi)) as [Hws _].
  pose proof (seg_pos _ _ _ _ Hseg) as Hpos.
  assert (index_of (TCPSender.una (snd w)) seg + zlen (payload seg) <=
    nextIndex (TCPReceiver._reassembler (rcv w'))) as Hpast.
  { rewrite Habs. apply push_contiguous; try done; [apply Hi|unfold bounded in Hb; lia| |].
    - unfold fits. rewrite Hn. change (_output (TCPReceiver._reassembler (rcv w))) with (TCPReceiver.stream_out (rcv w)).
      by rewrite <- Hws.
    - rewrite Hn. unfold index_of. case_match; lia. }
  destruct (written_u64 w' Hi' Hb') as [Hw' Hn']. rewrite Hn' in Hpast.
  rewrite seglen_eq, Hfin by (unfold bounded in Hb; pose proof (zlen_nonneg (payload seg)); words; lia).
  unfold acked_upto, index_of in *. destruct (syn (_header seg)), (input_ended _); lia.
Qed.
End properties.

(** A FIN that overtakes data ends the stream early: two bytes are written and
    sent one by one, and the FIN follows alone; if the FIN arrives before the
    data, the first byte makes the receiver end its stream, and the second
    byte is missing from a stream that claims to be complete. *)
Theorem fin_overtakes_data :
  exists w, reachable (init 10 1000 (Some (mkW32 0)) 0 10) w /\
    input_ended (TCPReceiver.stream_out (rcv w)) = true /\
    out w ++ _buf (TCPReceiver.stream_out (rcv w)) = [97] /\ data w = [97; 98].
Proof.
  pose (es := [Snd TCPSender.FillWindow; Snd TCPSender.Drain; Deliver 0;
    Snd (TCPSender.Ack (mkW32 1) 1); Snd (TCPSender.Write [97]); Snd TCPSender.FillWindow;
    Snd (TCPSender.Ack (mkW32 2) 2); Snd (TCPSender.Write [98]); Snd TCPSender.FillWindow;
    Snd TCPSender.EndInput; Snd TCPSender.FillWindow; Snd TCPSender.Drain;
    Deliver 3; Deliver 1]).
  destruct (exec es (init 10 1000 (Some (mkW32 0)) 0 10)) as [w|] eqn:E; [|by vm_compute in E].
  exists w. split; [apply (exec_reachable es _ _ _ (reach_refl _) E)|].
  vm_compute in E. injection E as <-. vm_compute. repeat split.
Qed.

(** Witnesses *)

Definition demo_init : world := init 10 1000 (Some (mkW32 7)) 0 10.

(** Handshake, two segments, the first lost, the second delivered. *)
Definition demo_events : list event :=
  [Snd TCPSender.FillWindow; Snd TCPSender.Drain; Deliver 0; Snd (TCPSender.Ack (mkW32 8) 2);
   Snd (TCPSender.Write [1; 2]); Snd TCPSender.FillWindow; Snd (TCPSender.Write [3]); Snd TCPSender.Drain;
   Snd (TCPSender.Ack (mkW32 8) 5); Snd TCPSender.Drain; Deliver 2].

Definition demo_world : world := default demo_init (exec demo_events demo_init).

Lemma demo_reachable : reachable demo_init demo_world.
Proof.
  apply (exec_reachable demo_events _ demo_init); [apply reach_refl|].
  unfold demo_world. destruct (exec demo_events demo_init) eqn:E; [reflexivity|by vm_compute in E].
Qed.

Lemma end_to_end_prefix_witness :
  out demo_world ++ _buf (TCPReceiver.stream_out (rcv demo_world)) =
    ztake (bytes_written (TCPReceiver.stream_out (rcv demo_world))) [1; 2; 3].
Proof.
  apply (end_to_end_prefix 10 1000 0 10 (Some (mkW32 7))) with (w := demo_world);
    [vm_compute; split; congruence|vm_compute; split; congruence|vm_compute; split; congruence|
     vm_compute; split; congruence|exact demo_reachable|reflexivity].
Defined.

Lemma acks_only_what_was_sent_witness :
  TCPReceiver.ackno (rcv demo_world) = Some (wrap 1 (mkW32 7)) /\ wrap 1 (mkW32 7) = wrap (acked_upto demo_world) (isn_of demo_world).
Proof.
  split; [reflexivity|].
  apply (acks_only_what_was_sent 10 1000 0 10 (Some (mkW32 7))) with (w := demo_world);
    [vm_compute; split; congruence|vm_compute; split; congruence|vm_compute; split; congruence|
     vm_compute; split; congruence|exact demo_reachable|reflexivity|reflexivity].
Defined.

Lemma demo_tight : tight (TCPReceiver._reassembler (rcv demo_world)).
Proof.
  assert (myMap (TCPReceiver._reassembler (rcv demo_world)) = {[ 2 := [3] ]}) as Hm by (vm_compute; reflexivity).
  intros k [v Hk]. rewrite Hm in Hk. apply lookup_singleton_Some in Hk as [<- _]. vm_compute. split; congruence.
Qed.

Lemma retransmission_progress_witness :
  exists seg a, TCPReceiver.ackno (TCPReceiver.segment_received (rcv demo_world) seg) = Some a /\
    3 <= TCPSender.una (TCPSender.ack_received (snd demo_world) a 5).
Proof.
  destruct (TCPSender.outSegments (snd demo_world)) as [|seg q] eqn:Hq; [by vm_compute in Hq|].
  destruct (retransmission_progress 10 1000 0 10 (Some (mkW32 7))) with (w := demo_world) (seg := seg) (q := q) (win := 5)
    as (a & H1 & H2);
    [vm_compute; split; congruence|vm_compute; split; congruence|vm_compute; split; congruence|
     vm_compute; split; congruence|exact demo_reachable|reflexivity|reflexivity|vm_compute; split; congruence|exact Hq|
     ..].
  all: vm_compute in Hq; injection Hq as <- <-.
  - apply list_elem_of_lookup. exists 1%nat. reflexivity.
  - reflexivity.
  - exact demo_tight.
  - reflexivity.
  - vm_compute. congruence.
  - vm_compute. congruence.
  - eexists _, a. split; [exact H1|]. exact H2.
Defined.
