(* ===== verification/Transfer.v ===== *)
(** * Transfer: a network that delivers

    A sender and a receiver in lock step, over a network that delivers what is
    sent, in order: a round trip hands the queued segments to the receiver, lets
    the reader take everything, and returns the receiver's acknowledgment and
    window to the sender, whose [ack_received] sends the next segments.

    The theorem is about progress: after at most as many round trips as there
    are bytes, and three more, everything that was written has been read, the
    reader has seen the end of the stream, and nothing is in flight. *)

From S2P Require Import Prelude TCPReceiver TCPSender.
From S2P Require Import WrappingIntegers ByteStream StreamReassembler Buffer TCPHeader TCPSegment.
From S2P Require Import SegmentOf EndToEnd.

(** ** Round trips *)

(** The network hands over the segments on the way. *)
Definition deliver (w : world) (seg : TCPSegment) : world :=
  mkWorld (snd w) (data w) (wire w) (TCPReceiver.segment_received (rcv w) seg) (out w).

(** What is queued goes onto the wire. *)
Definition depart (w : world) : world :=
  let '(s, _, segs) := TCPSender.step TCPSender.Drain (snd w) in
  mkWorld s (data w) (wire w ++ segs) (rcv w) (out w).

(** The reader takes everything there is. *)
Definition take_all (w : world) : world :=
  let '(o, got) := ByteStream.read (TCPReceiver.stream_out (rcv w)) (buffer_size (TCPReceiver.stream_out (rcv w))) in
  mkWorld (snd w) (data w) (wire w) (TCPReceiver.set_stream_out (rcv w) o) (out w ++ got).

(** The acknowledgment and the window travel back in 16 and 32 bits. *)
Definition reply (w : world) : world :=
  match TCPReceiver.ackno (rcv w) with
  | Some a =>
      mkWorld (TCPSender.ack_received (snd w) a (u16 (TCPReceiver.window_size (rcv w)))) (data w) (wire w) (rcv w) (out w)
  | None => w
  end.

Definition round_trip (w : world) : world :=
  reply (take_all (fold_left deliver (TCPSender._segments_out (snd w)) (depart w))).

(** The application writes, ends its stream, and the sender starts. *)
Definition opened (send_capacity timeout : Z) (isn : option WrappingInt32) (random recv_capacity : Z) (d : bytes) : world :=
  let '(s, d, segs) := TCPSender.run [TCPSender.Write d; TCPSender.EndInput; TCPSender.FillWindow]
    (TCPSender.new send_capacity timeout isn random) in
  mkWorld s d segs (TCPReceiver.new recv_capacity) [].

(** ** The reassembler in order *)

(** The next piece of the stream is passed on at once. *)
Lemma push_in_order stream out r d eof :
  zlen stream < 18446744073709551616 -> sound stream out r ->
  myMap r = ∅ -> eof_flag r = false -> input_ended (_output r) = false ->
  excerpt stream (nextIndex r) d -> (eof = true -> nextIndex r + zlen d = zlen stream) ->
  zlen d <= remaining_capacity (_output r) ->
  let r' := push_substring r d (nextIndex r) eof in
  myMap r' = ∅ /\ nextIndex r' = nextIndex r + zlen d /\ (eof_flag r' = true -> eof = true) /\
  input_ended (_output r') = eof /\ remaining_capacity (_output r') = remaining_capacity (_output r) - zlen d.
Proof.
  intros Hs Hsd Hm Hfl Hend He Hfin Hroom r'. pose proof (sound_inv _ _ _ Hsd) as Hi. pose proof He as (H0 & Hl & _).
  assert (tight r) as Ht by (intros k Hk; rewrite Hm, lookup_empty in Hk; by destruct Hk).
  assert (fits r d (nextIndex r)) as Hfit by (unfold fits; lia).
  pose proof (push_pushed r d (nextIndex r) eof Hi H0 ltac:(lia)) as Hp. fold r' in Hp.
  destruct (push_fits r d (nextIndex r) eof Hi Ht H0 ltac:(lia) Hfit) as [Ht' _]. fold r' in Ht'.
  pose proof (push_contiguous r d (nextIndex r) eof Hi Ht H0 ltac:(lia) Hfit ltac:(lia)) as Hge. fold r' in Hge.
  destruct (push_flags r d (nextIndex r) eof Hi H0 ltac:(lia)) as [Hfl' Hend']. fold r' in Hfl', Hend'.
  pose proof (zlen_nonneg d) as Hd.
  assert (forall p, held r' p -> p < nextIndex r + zlen d) as Hheld.
  { intros p [[Hp'|[v Hv]]|?]%(pushed_held _ _ _ _ _ Hp); [lia| |lia]. by rewrite Hm, lookup_empty in Hv. }
  assert (nextIndex r' = nextIndex r + zlen d) as Hnx.
  { destruct (Z.le_gt_cases (nextIndex r') (nextIndex r + zlen d)) as [|Hgt]; [lia|].
    assert (held r' (nextIndex r + zlen d)) as Hx%Hheld by (left; lia). lia. }
  assert (eof_flag r' = true -> eof = true) as Hflag by (intros [?|?]%Hfl'; congruence).
  split_and!; [|done|done| |].
  - apply map_eq. intros k. rewrite lookup_empty. destruct (myMap r' !! k) as [v|] eqn:Hk; [|done].
    assert (held r' k) as Hx%Hheld by (right; eauto). destruct (Ht' k ltac:(eauto)). lia.
  - destruct eof.
    + apply (eof_on_time stream out r d (nextIndex r)); try done; [by apply Hfin|by right].
    + destruct (input_ended (_output r')); [|done]. destruct (Hend' eq_refl) as [?|[? _]]; [congruence|by specialize (Hflag ltac:(done))].
  - destruct Hp as [_ _ (bs & _ & Hx & Hy & _) _ _]. lia.
Qed.

(** ** The receiver in order *)

(** Nothing is stored out of order, and the end is known only when it has been
    announced, at the end. *)
Record clean (w : world) : Prop := mkClean {
  cl_map : myMap (TCPReceiver._reassembler (rcv w)) = ∅;
  cl_flag : eof_flag (TCPReceiver._reassembler (rcv w)) = true -> input_ended (TCPReceiver.stream_out (rcv w)) = true;
  cl_end : input_ended (TCPReceiver.stream_out (rcv w)) = true ->
    bytes_written (TCPReceiver.stream_out (rcv w)) = zlen (data w)
}.

Definition room (w : world) : Z := remaining_capacity (TCPReceiver.stream_out (rcv w)).
Definition written (w : world) : Z := bytes_written (TCPReceiver.stream_out (rcv w)).

(** The next segment of the stream arrives. *)
Lemma deliver_next w pos seg :
  inv w -> bounded w -> clean w -> seg ∈ wire w -> seg_of (data w) (isn_of w) pos seg ->
  TCPReceiver._isn_set (rcv w) || syn (_header seg) = true ->
  input_ended (TCPReceiver.stream_out (rcv w)) = false ->
  index_of pos seg = written w -> zlen (payload seg) <= room w ->
  let w' := deliver w seg in
  inv w' /\ clean w' /\ TCPReceiver._isn_set (rcv w') = true /\
  acked_upto w' = pos + length_in_sequence_space seg /\
  written w' = written w + zlen (payload seg) /\ room w' = room w - zlen (payload seg) /\
  TCPReceiver._capacity (rcv w') = TCPReceiver._capacity (rcv w).
Proof.
  intros Hi Hb Hcl Hin Hseg Hset Hend Hidx Hroom w'.
  assert (inv w') as Hi' by by apply inv_step_deliver. assert (bounded w') as Hb' by done.
  destruct (written_u64 w Hi Hb) as [Hw Hn]. destruct (written_u64 w' Hi' Hb') as [Hw' Hn'].
  pose proof (seg_excerpt _ _ _ _ Hseg) as He. pose proof He as (H0 & Hl & _).
  assert (rcv w' = TCPReceiver.arrive_abs (isn_of w) pos seg (rcv w)) as Habs by by apply deliver_abs.
  unfold TCPReceiver.arrive_abs in Habs. rewrite Hset in Habs.
  set (r := TCPReceiver._reassembler (rcv w)) in *. pose proof (inv_sound _ Hi) as Hsd. fold r in Hsd.
  set (r' := push_substring r (payload seg) (index_of pos seg) (fin (_header seg))) in *.
  assert (TCPReceiver._reassembler (rcv w') = r') as Hr' by by rewrite Habs.
  destruct Hcl as [Hm Hf Hz]. fold r in Hm, Hf.
  unfold written, room in *. unfold TCPReceiver.stream_out, StreamReassembler.stream_out in *. rewrite Hr' in *.
  fold r in Hidx, Hroom, Hend, Hf, Hz, Hw, Hn |- *.
  assert (eof_flag r = false) as Hfl by (destruct (eof_flag r); [by rewrite Hf in Hend|done]).
  assert (index_of pos seg = nextIndex r) as Hix by lia.
  unfold bounded in Hb. destruct (push_in_order (data w) (out w) r (payload seg) (fin (_header seg))) as (A1 & A2 & A3 & A4 & A5);
    [lia|done|done|done|done|by rewrite <- Hix|rewrite <- Hix; apply Hseg|done|].
  rewrite <- Hix in A1, A2, A3, A4, A5. fold r' in A1, A2, A3, A4, A5.
  assert (bytes_written (_output r') = bytes_written (_output r) + zlen (payload seg)) as Hwr by lia.
  split_and!; [done| |by rewrite Habs| |done|done|by rewrite Habs].
  - constructor; unfold TCPReceiver.stream_out, StreamReassembler.stream_out; rewrite ?Hr'; [done| |].
    + intros Hx. rewrite A4. by apply A3.
    + rewrite A4. intros Hx%(seg_fin _ _ _ _ Hseg). simpl. lia.
  - unfold acked_upto, TCPReceiver.stream_out, StreamReassembler.stream_out. rewrite Hr', A4, Hwr.
    pose proof (seg_pos _ _ _ _ Hseg) as Hpos. pose proof (zlen_nonneg (payload seg)).
    rewrite seglen_eq by (words; lia). unfold index_of in Hidx.
    destruct (syn (_header seg)), (fin (_header seg)); lia.
Qed.

(** The receiver expects [pos]. *)
Record expects (w : world) (pos : Z) : Prop := mkExpects {
  xp_inv : inv w;
  xp_clean : clean w;
  xp_set : TCPReceiver._isn_set (rcv w) = true;
  xp_pos : acked_upto w = pos
}.

(** Only the receiver differs. *)
Definition same_rest (w w' : world) : Prop :=
  snd w' = snd w /\ data w' = data w /\ wire w' = wire w /\ out w' = out w /\
  TCPReceiver._capacity (rcv w') = TCPReceiver._capacity (rcv w).

Lemma deliver_run segs : forall w pos next,
  expects w pos -> bounded w -> Forall (fun seg => seg ∈ wire w) segs ->
  TCPSender.consecutive (seg_of (data w) (isn_of w)) pos segs next -> next - 1 <= written w + room w ->
  let w' := fold_left deliver segs w in
  expects w' next /\ same_rest w w' /\ written w' + room w' = written w + room w.
Proof.
  induction segs as [|seg segs IH]; intros w pos next [Hi Hcl Hset Hpos] Hb Hin Hc Hroom; simpl.
  - simpl in Hc. subst next. split; [by constructor|]. done.
  - destruct Hc as (Hseg & Hlen & Hc). apply Forall_cons in Hin as [Hin1 Hin].
    pose proof (TCPSender.consecutive_le _ _ _ _ Hc) as Hle. destruct (written_u64 w Hi Hb) as [Hw _].
    pose proof (seg_excerpt _ _ _ _ Hseg) as (H0 & Hl & _). pose proof (zlen_nonneg (payload seg)).
    pose proof (seg_pos _ _ _ _ Hseg) as Hsp. unfold bounded in Hb.
    rewrite seglen_eq in Hlen, Hle, Hc by (words; lia). unfold acked_upto in Hpos.
    destruct (syn (_header seg)) eqn:Hsyn; [destruct (input_ended _); lia|]. unfold index_of in *. rewrite Hsyn in *.
    destruct (input_ended (TCPReceiver.stream_out (rcv w))) eqn:Hend; [pose proof (cl_end _ Hcl Hend); lia|].
    destruct (deliver_next w pos seg Hi Hb Hcl Hin1 Hseg) as (A1 & A2 & A3 & A4 & A5 & A6 & A7);
      [by rewrite Hset|done|unfold index_of, written; rewrite Hsyn; lia|unfold room, written in *; destruct (fin _); lia|].
    rewrite seglen_eq, Hsyn in A4 by (words; lia).
    destruct (IH (deliver w seg) (pos + (zlen (payload seg) + 0 + (if fin (_header seg) then 1 else 0))) next)
      as (B1 & (B2 & B3 & B4 & B5 & B7) & B6); try done; [lia|].
    split; [done|]. split; [|lia]. split_and!; try done. by rewrite B7.
Qed.

(** *** The other parts of a round trip *)
Lemma take_all_spec w :
  inv w -> bounded w ->
  let w' := take_all w in
  inv w' /\ _buf (TCPReceiver.stream_out (rcv w')) = [] /\ room w' = TCPReceiver._capacity (rcv w') /\
  TCPReceiver._capacity (rcv w') = TCPReceiver._capacity (rcv w) /\ (clean w -> clean w') /\
  TCPReceiver._isn_set (rcv w') = TCPReceiver._isn_set (rcv w) /\ acked_upto w' = acked_upto w /\
  snd w' = snd w /\ data w' = data w /\ wire w' = wire w /\
  out w' = out w ++ _buf (TCPReceiver.stream_out (rcv w)).
Proof.
  intros Hi Hb w'. set (len := buffer_size (TCPReceiver.stream_out (rcv w))).
  assert (0 <= len) as Hlen by (unfold len, buffer_size; lens; lia).
  pose proof (read_out_spec (TCPReceiver._reassembler (rcv w)) len (sound_inv _ _ _ (inv_sound _ Hi)) Hlen) as Hrd.
  destruct (ByteStream.read (TCPReceiver.stream_out (rcv w)) len) as [o got] eqn:E.
  assert (w' = mkWorld (snd w) (data w) (wire w) (TCPReceiver.set_stream_out (rcv w) o) (out w ++ got)) as ->
    by (subst w'; unfold take_all; fold len; by rewrite E).
  pose proof (inv_step_read w len o got Hi Hlen E) as Hi'.
  cbn [StreamReassembler.step] in Hrd. unfold TCPReceiver.stream_out in E. rewrite E in Hrd.
  destruct Hrd as (_ & R1 & R2 & R3 & R4 & R5 & R6 & R7). simpl in R1, R2, R3, R4, R5, R6, R7.
  assert (got = _buf (TCPReceiver.stream_out (rcv w))) as Hgot.
  { unfold StreamReassembler.stream_out in E. rewrite read_pop in E by done. injection E as _ <-.
    apply ztake_all. unfold len, buffer_size. done. }
  assert (_buf o = []) as Hbuf.
  { rewrite Hgot in R1. change (_output (TCPReceiver._reassembler (rcv w))) with (TCPReceiver.stream_out (rcv w)) in R1.
    apply (f_equal length) in R1. rewrite length_app in R1. destruct (_buf o); [done|simpl in R1; lia]. }
  destruct (written_u64 _ Hi Hb) as [_ W]. destruct (written_u64 _ Hi' Hb) as [_ W']. simpl in W'.
  assert (bytes_written o = bytes_written (TCPReceiver.stream_out (rcv w))) as Hwr
    by (rewrite <- W; symmetry; exact W').
  split_and!; try done.
  - unfold room. simpl.
    pose proof (TCPReceiver.window_size_eq _ (inv_receiver _ Hi')) as (V1 & V2 & _). simpl in V1, V2.
    rewrite <- V1, V2. unfold buffer_size. change (TCPReceiver._capacity (rcv w) - zlen (_buf o) = TCPReceiver._capacity (rcv w)).
    rewrite Hbuf. lens_nil. lia.
  - intros [C1 C2 C3]. constructor; simpl; [done| |].
    + intros Hx. change (input_ended o = true). rewrite R7. by apply C2.
    + intros Hx. change (bytes_written o = zlen (data w)). rewrite Hwr. apply C3. exact (eq_trans (eq_sym R7) Hx).
  - unfold acked_upto. simpl. rewrite <- Hwr.
    change (input_ended (TCPReceiver.stream_out (rcv w))) with (input_ended (_output (TCPReceiver._reassembler (rcv w)))).
    by rewrite <- R7.
  - by rewrite Hgot.
Qed.

(** *** The sender, when everything in flight is acknowledged *)
Lemma ack_all d s win :
  TCPSender.inv d s -> TCPSender.no_wrap s -> TCPSender._syn_flag s = true -> TCPSender._segments_out s = [] ->
  is_u16 win -> 1 <= win -> input_ended (TCPSender._stream s) = true ->
  raw_value (TCPSender._ackGot s) <= raw_value (TCPSender.next_seqno s) ->
  let s' := TCPSender.ack_received s (TCPSender.next_seqno s) win in
  TCPSender.inv d s' /\ TCPSender._isn s' = TCPSender._isn s /\ TCPSender.una s' = TCPSender._next_seqno s /\
  TCPSender._segments_out s' = TCPSender.outSegments s' /\ TCPSender._syn_flag s' = true /\
  input_ended (TCPSender._stream s') = true /\ TCPSender._ackGot s' = wrap (TCPSender.una s') (TCPSender._isn s') /\
  TCPSender._next_seqno s' - TCPSender.una s' <= win /\
  (TCPSender.outSegments s' = [] -> TCPSender._next_seqno s' = zlen d + 2).
Proof.
  intros Hi Hnw Hsyn Hout Hwin Hpos Hend Hgot s'. unfold TCPSender.next_seqno in *.
  pose proof (TCPSender.inv_una _ _ Hi) as Hu.
  destruct (TCPSender.acked_spec d s (TCPSender._next_seqno s) win Hi Hnw ltac:(lia) Hwin)
    as (Es & Hi1 & popped & _ & _ & _ & Hhead).
  fold s' in Es. set (s1 := TCPSender.acked s (wrap (TCPSender._next_seqno s) (TCPSender._isn s)) win) in *.
  destruct (TCPSender.acked_fields s (wrap (TCPSender._next_seqno s) (TCPSender._isn s)) win)
    as (E1 & E2 & E3 & E4 & _ & E6 & _ & E8 & _ & E10). fold s1 in E1, E2, E3, E4, E6, E8, E10. clearbody s1 s'.
  assert (TCPSender.outSegments s1 = [] /\ TCPSender._bytes_in_flight s1 = 0) as [Hq Hf].
  { pose proof (TCPSender.inv_flight _ _ Hi1) as Hc. destruct (TCPSender.outSegments s1) as [|seg q]; [done|exfalso].
    destruct Hc as (_ & _ & Hc%TCPSender.consecutive_le). rewrite E4 in Hc. lia. }
  assert (TCPSender._ackGot s1 = wrap (TCPSender._next_seqno s) (TCPSender._isn s)) as Hack.
  { rewrite E10. destruct (Z.ltb_spec (raw_value (TCPSender._ackGot s))
      (raw_value (wrap (TCPSender._next_seqno s) (TCPSender._isn s)))); [done|]. apply W32_ext. lia. }
  assert (TCPSender.in_window (TCPSender._next_seqno s) s1) as Hin
    by (split; [rewrite E1; exact Hack|rewrite E4, E8; lia]).
  destruct (TCPSender.fill_window_open d s1 (TCPSender._next_seqno s) Hi1) as (segs & F1 & F2 & _ & F3 & F4 & F5);
    [exact (eq_trans E6 Hsyn)|rewrite E8; lia|exact Hin|].
  destruct (TCPSender.fill_window_eq d s1 Hi1) as (_ & _ & segs' & Hx).
  rewrite <- Es in *. rewrite Hq in F1. rewrite E2, Hout in F2. cbn [app] in F1, F2.
  assert (TCPSender.una s' = TCPSender._next_seqno s) as Hua
    by (rewrite (TCPSender.ex_una _ _ _ Hx); unfold TCPSender.una; lia).
  assert (TCPSender._isn s' = TCPSender._isn s) as Hisn by (rewrite (TCPSender.ex_isn _ _ _ Hx); exact E1).
  assert (input_ended (TCPSender._stream s') = true) as Hend'
    by (rewrite Es, (TCPSender.fill_window_ended d) by done; by rewrite E3).
  assert (TCPSender._syn_flag s' = true) as Hsyn'
    by (rewrite Es; apply (TCPSender.fill_window_syn d); [done|by rewrite E6]).
  split_and!; try done.
  - congruence.
  - rewrite Hua, Hisn, (TCPSender.ex_ackGot _ _ _ Hx). exact Hack.
  - rewrite Hua. lia.
  - intros Hno. pose proof (TCPSender.inv_flight _ _ F4) as Hc. rewrite Hno in Hc. simpl in Hc.
    destruct F5 as [F5|[F5 F6]]; [lia|]. rewrite Hend' in F6.
    pose proof (TCPSender.inv_len _ _ F4) as Hl. unfold TCPSender.sent in Hl. rewrite F5, F6, Hsyn' in Hl.
    revert Hl. lens_nil. cbn [Z.b2z]. lia.
Qed.

(** *** A round trip is made of steps of the world *)
Lemma ackno_wf rc a : TCPReceiver.ackno rc = Some a -> WrappingIntegers.wf a.
Proof.
  unfold TCPReceiver.ackno. repeat case_match; intros [= <-]; [|apply wf_wrap].
  unfold add. apply wf_of_uint.
Qed.

Lemma delivered_reachable w0 segs : forall w,
  reachable w0 w -> Forall (fun seg => seg ∈ wire w) segs -> reachable w0 (fold_left deliver segs w).
Proof.
  induction segs as [|seg segs IH]; intros w Hr Hin; [done|]. apply Forall_cons in Hin as [Hs Hin]. simpl.
  apply IH; [|done]. eapply reach_step; [exact Hr|]. by apply step_deliver.
Qed.

Lemma round_trip_reachable w0 w : reachable w0 w -> reachable w0 (round_trip w).
Proof.
  intros Hr. unfold round_trip.
  pose proof (reach_step _ _ _ Hr (step_sender _ TCPSender.Drain _ _ _ I eq_refl)) as R1. rewrite app_nil_r in R1.
  fold (depart w) in R1.
  assert (reachable w0 (fold_left deliver (TCPSender._segments_out (snd w)) (depart w))) as R2.
  { apply delivered_reachable; [exact R1|]. apply Forall_forall. intros seg Hin. simpl. apply elem_of_app. by right. }
  set (w2 := fold_left deliver _ _) in *. clearbody w2.
  assert (reachable w0 (take_all w2)) as R3.
  { unfold take_all. destruct (ByteStream.read _ _) as [o got] eqn:E. eapply reach_step; [exact R2|].
    apply (step_read w2 (buffer_size (TCPReceiver.stream_out (rcv w2)))); [unfold buffer_size; lens; lia|exact E]. }
  set (w3 := take_all w2) in *. clearbody w3. unfold reply. destruct (TCPReceiver.ackno (rcv w3)) as [a|] eqn:E; [|done].
  pose proof (reach_step _ _ _ R3 (step_sender _ (TCPSender.Ack a (u16 (TCPReceiver.window_size (rcv w3)))) _ _ _
    (conj (ackno_wf _ _ E) (u16_range _)) eq_refl)) as R4. by rewrite !app_nil_r in R4.
Qed.

(** ** Round trips in a row *)

Section rounds.
Context (d : bytes) (cap : Z) (Hd : zlen d < 2147483646) (Hcap : 1 <= cap < 65536).

(** Between two round trips: everything in flight is queued, the receiver has
    passed everything on, and the two agree on where they are. *)
Record calm (w : world) : Prop := mkCalm {
  ca_inv : inv w;
  ca_data : data w = d;
  ca_numbers : raw_value (isn_of w) + zlen d + 2 < 4294967296;
  ca_ended : input_ended (TCPSender._stream (snd w)) = true;
  ca_syn : TCPSender._syn_flag (snd w) = true;
  ca_queue : TCPSender._segments_out (snd w) = TCPSender.outSegments (snd w);
  ca_window : TCPSender._next_seqno (snd w) - TCPSender.una (snd w) <= cap;
  ca_got : raw_value (TCPSender._ackGot (snd w)) <= raw_value (TCPSender.next_seqno (snd w));
  ca_done : TCPSender.outSegments (snd w) = [] -> TCPSender._next_seqno (snd w) = zlen d + 2;
  ca_clean : clean w;
  ca_capacity : TCPReceiver._capacity (rcv w) = cap;
  ca_read : _buf (TCPReceiver.stream_out (rcv w)) = [];
  ca_place : (TCPReceiver._isn_set (rcv w) = true /\ TCPSender.una (snd w) = acked_upto w) \/
    (TCPSender.una (snd w) = 0 /\ written w = 0 /\ input_ended (TCPReceiver.stream_out (rcv w)) = false /\
     exists seg, TCPSender.outSegments (snd w) = [seg] /\ syn (_header seg) = true)
}.

Lemma next_bound w : inv w -> data w = d -> TCPSender._next_seqno (snd w) <= zlen d + 2.
Proof.
  intros Hi <-. pose proof (TCPSender.inv_len _ _ (inv_sender _ Hi)) as Hl. unfold TCPSender.sent in Hl.
  pose proof (zlen_nonneg (_buf (TCPSender._stream (snd w)))).
  destruct (TCPSender._syn_flag (snd w)), (TCPSender._fin_flag (snd w)); cbn [Z.b2z] in Hl; lia.
Qed.

Lemma depart_inv w : inv w -> bounded w -> inv (depart w).
Proof.
  intros Hi Hb. pose proof (inv_step_sender w TCPSender.Drain _ _ _ Hi I eq_refl) as H.
  rewrite app_nil_r in H. by apply H.
Qed.

(** The segments arrive. *)
Lemma calm_deliver w :
  calm w -> let w2 := fold_left deliver (TCPSender._segments_out (snd w)) (depart w) in
  expects w2 (TCPSender._next_seqno (snd w)) /\ same_rest (depart w) w2.
Proof.
  intros [Hi Hdt Hnum Hend Hsyn Hq Hwin Hgot Hdone Hcl Hc Hbuf Hplace] w2.
  assert (bounded w) as Hb by (unfold bounded; by rewrite Hdt).
  pose proof (depart_inv w Hi Hb) as Hi1. pose proof (TCPSender.inv_flight _ _ (inv_sender _ Hi)) as Hf.
  assert (TCPSender.consecutive (seg_of (data w) (isn_of w)) (TCPSender.una (snd w)) (TCPSender.outSegments (snd w))
    (TCPSender._next_seqno (snd w))) as Hsegs.
  { eapply TCPSender.consecutive_mono; [|exact Hf]. by intros p sg []. }
  assert (Forall (fun seg => seg ∈ wire (depart w)) (TCPSender.outSegments (snd w))) as Hin.
  { apply Forall_forall. intros seg Hin. simpl. rewrite Hq. apply elem_of_app. by right. }
  assert (clean (depart w)) as Hcl1 by by destruct Hcl.
  assert (room (depart w) = cap) as Hroom.
  { unfold room. simpl. pose proof (TCPReceiver.window_size_eq _ (inv_receiver _ Hi)) as (V1 & V2 & _).
    rewrite <- V1, V2, Hc. unfold buffer_size. rewrite Hbuf. lens_nil. lia. }
  pose proof (next_bound w Hi Hdt) as Hnb. subst w2. rewrite Hq.
  destruct Hplace as [[Hset Hu]|(Hu & Hw & He & seg & Hs & Hsy)].
  - destruct (deliver_run (TCPSender.outSegments (snd w)) (depart w) (TCPSender.una (snd w)) (TCPSender._next_seqno (snd w)))
      as (A & B & _); try done.
    rewrite Hroom. change (written (depart w)) with (written w). unfold acked_upto in Hu. fold (written w) in Hu.
    destruct (input_ended (TCPReceiver.stream_out (rcv w))) eqn:Hx; [|lia].
    pose proof (cl_end _ Hcl Hx) as Hy. fold (written w) in Hy. rewrite Hdt in Hy. lia.
  - rewrite Hs in *. rewrite Hu in Hsegs. destruct Hsegs as (Hseg & Hlen & Hnext). simpl in Hnext. cbn [fold_left].
    pose proof (seg_excerpt _ _ _ _ Hseg) as (H0 & Hl & _). pose proof (zlen_nonneg (payload seg)).
    rewrite Hdt in Hl. apply Forall_cons in Hin as [Hin _].
    destruct (deliver_next (depart w) 0 seg Hi1 Hb Hcl1 Hin Hseg) as (A1 & A2 & A3 & A4 & A5 & A6 & A7).
    + by rewrite Hsy, orb_true_r.
    + done.
    + unfold index_of. rewrite Hsy. done.
    + rewrite Hroom. rewrite seglen_eq, Hsy in Hnext by (words; lia). destruct (fin (_header seg)); lia.
    + split; [constructor; try done; lia|]. done.
Qed.

(** One round trip: the sender moves to what was its [next_seqno]. *)
Lemma calm_round w : calm w ->
  calm (round_trip w) /\ TCPSender.una (snd (round_trip w)) = TCPSender._next_seqno (snd w) /\
  isn_of (round_trip w) = isn_of w /\ TCPReceiver._isn_set (rcv (round_trip w)) = true.
Proof.
  intros Hca. destruct (calm_deliver w Hca) as [[X1 X2 X3 X4] (S1 & S2 & S3 & S4 & S5)].
  destruct Hca as [Hi Hdt Hnum Hend Hsyn Hq Hwin Hgot Hdone Hcl Hc Hbuf Hplace].
  unfold round_trip. set (w2 := fold_left deliver _ _) in *. clearbody w2. cbn [depart] in *.
  simpl in S1, S2, S3, S4, S5. rewrite Hdt in S2.
  assert (bounded w2) as Hb2 by (unfold bounded; by rewrite S2).
  destruct (take_all_spec w2 X1 Hb2) as (T1 & T2 & T3 & T4 & T5 & T6 & T7 & T8 & T9 & _). specialize (T5 X2).
  set (w3 := take_all w2) in *. clearbody w3.
  assert (bounded w3) as Hb3 by (unfold bounded; rewrite T9; by rewrite S2).
  assert (isn_of w3 = isn_of w) as Hisn by (unfold isn_of; by rewrite T8, S1).
  assert (TCPSender._next_seqno (snd w3) = TCPSender._next_seqno (snd w)) as Hnx by by rewrite T8, S1.
  pose proof (next_bound w Hi Hdt) as Hnb.
  rewrite X3 in T6. pose proof (ackno_upto w3 T1 Hb3 T6) as Hack. rewrite T7, X4, <- Hnx in Hack.
  pose proof (TCPReceiver.window_size_eq _ (inv_receiver _ T1)) as (V1 & _).
  assert (TCPReceiver.window_size (rcv w3) = cap) as Hws.
  { rewrite V1. change (room w3 = cap). rewrite T3, T4, S5. done. }
  assert (is_u16 cap) as Hcu by (words; lia). assert (u16 cap = cap) as Hu16 by by apply u16_id.
  unfold reply. rewrite Hack, Hws, Hu16. unfold isn_of at 1 in Hack.
  assert (TCPSender.no_wrap (snd w3)) as Hnw.
  { unfold TCPSender.no_wrap. fold (isn_of w3). rewrite Hisn, Hnx. lia. }
  destruct (ack_all (data w3) (snd w3) cap) as (K1 & K2 & K3 & K4 & K5 & K6 & K7 & K8 & K9);
    [apply T1|done|rewrite T8, S1; done|rewrite T8, S1; done|words; lia|lia|rewrite T8, S1; done|rewrite T8, S1; exact Hgot|].
  unfold TCPSender.next_seqno in *. fold (isn_of w3) in *.
  pose proof (inv_step_sender w3 (TCPSender.Ack (wrap (TCPSender._next_seqno (snd w3)) (isn_of w3)) cap) _ _ _ T1
    (conj (wf_wrap _ _) Hcu) eq_refl) as Hi4. rewrite !app_nil_r in Hi4. specialize (Hi4 Hb3).
  set (s' := TCPSender.ack_received _ _ _) in *. clearbody s'.
  pose proof (TCPSender.inv_una _ _ K1) as Hun.
  split_and!; [|simpl; congruence|unfold isn_of; simpl; by rewrite K2|done].
  constructor; simpl; try done; rewrite ?T9, ?S2 in *; try done.
  - unfold isn_of in *. simpl. rewrite K2. by rewrite Hisn.
  - change (raw_value (TCPSender._ackGot s') <= raw_value (wrap (TCPSender._next_seqno s') (TCPSender._isn s'))).
    rewrite K7.
    pose proof (next_bound _ Hi4 eq_refl) as Hnb'. simpl in Hnb'.
    assert (raw_value (TCPSender._isn s') + zlen d + 2 < 4294967296) as Hnum' by (rewrite K2, Hisn; done).
    pose proof (TCPSender.inv_isn _ _ K1) as Hwf. rewrite (TCPSender.raw_pos _ (TCPSender.una s')) by (done || lia).
    rewrite (TCPSender.raw_pos _ (TCPSender._next_seqno s')) by (done || lia). lia.
  - destruct T5 as [C1 C2 C3]. constructor; simpl; try done. intros Hx. rewrite <- T9. by apply C3.
  - by rewrite T4, S5.
  - left. split; [done|]. rewrite K3, Hnx. change (acked_upto _) with (acked_upto w3). by rewrite T7.
Qed.

Fixpoint round_trips (n : nat) (w : world) : world :=
  match n with O => w | S n => round_trips n (round_trip w) end.

Lemma una_progress w :
  calm w -> zlen d + 2 <= TCPSender._next_seqno (snd w) \/ TCPSender.una (snd w) < TCPSender._next_seqno (snd w).
Proof.
  intros Hca. pose proof (ca_done _ Hca) as Hdone. pose proof (TCPSender.inv_flight _ _ (inv_sender _ (ca_inv _ Hca))) as Hf.
  destruct (TCPSender.outSegments (snd w)) as [|seg q]; [left; rewrite Hdone by done; lia|right].
  destruct Hf as (_ & Hlen & Hc%TCPSender.consecutive_le). lia.
Qed.

Lemma rounds_progress n : forall w, calm w ->
  calm (round_trips n w) /\
  (TCPReceiver._isn_set (rcv w) = true \/ (0 < n)%nat -> TCPReceiver._isn_set (rcv (round_trips n w)) = true) /\
  Z.min (zlen d + 2) (TCPSender.una (snd w) + Z.of_nat n) <= TCPSender.una (snd (round_trips n w)).
Proof.
  induction n as [|n IH]; intros w Hca; cbn [round_trips].
  - split; [done|]. split; [intros [?|?]; [done|lia]|lia].
  - destruct (calm_round w Hca) as (Hca' & Hu & _ & Hset). destruct (IH _ Hca') as (H1 & H2 & H3).
    split; [done|]. split; [intros _; apply H2; by left|]. destruct (una_progress w Hca); lia.
Qed.

(** Everything has arrived. *)
Lemma calm_finished w :
  calm w -> TCPReceiver._isn_set (rcv w) = true -> zlen d + 2 <= TCPSender.una (snd w) ->
  out w = d /\ input_ended (TCPReceiver.stream_out (rcv w)) = true /\ TCPSender.outSegments (snd w) = [] /\
  TCPSender.bytes_in_flight (snd w) = 0.
Proof.
  intros Hca Hset Hu. pose proof (ca_inv _ Hca) as Hi. pose proof (ca_data _ Hca) as Hdt.
  pose proof (next_bound w Hi Hdt) as Hnb. pose proof (TCPSender.inv_una _ _ (inv_sender _ Hi)) as Hun.
  assert (bounded w) as Hb by (unfold bounded; by rewrite Hdt).
  destruct (written_u64 w Hi Hb) as [Hw Hn]. rewrite Hdt in Hw.
  assert (acked_upto w = zlen d + 2) as Ha.
  { destruct (ca_place _ Hca) as [[_ ?]|(? & _)]; [lia|]. pose proof (zlen_nonneg d). lia. }
  unfold acked_upto in Ha. destruct (input_ended (TCPReceiver.stream_out (rcv w))); [|lia].
  pose proof (sound_out _ _ _ (inv_sound _ Hi)) as Ho. rewrite Hn, Hdt in Ho.
  change (_output (TCPReceiver._reassembler (rcv w))) with (TCPReceiver.stream_out (rcv w)) in Ho.
  rewrite (ca_read _ Hca), app_nil_r, ztake_all in Ho by lia.
  pose proof (TCPSender.inv_flight _ _ (inv_sender _ Hi)) as Hf.
  split_and!; [done|done| |unfold TCPSender.una, TCPSender.bytes_in_flight in *; lia].
  destruct (TCPSender.outSegments (snd w)) as [|seg q]; [done|].
  destruct Hf as (_ & Hlen & Hc%TCPSender.consecutive_le). lia.
Qed.

(** *** The start *)
Context (send_capacity timeout random : Z) (isn : option WrappingInt32).
Context (Hsend : is_u64 send_capacity) (Htimeout : is_u16 timeout).
Context (Hisn : match isn with Some i => WrappingIntegers.wf i | None => True end).
Local Notation w0 := (opened send_capacity timeout isn random cap d).

Lemma opened_reachable : reachable (init send_capacity timeout isn random cap) w0.
Proof.
  unfold opened. cbn [TCPSender.run TCPSender.step].
  set (s0 := TCPSender.new send_capacity timeout isn random).
  destruct (ByteStream.write (TCPSender._stream s0) d) as [st n] eqn:E.
  assert (reachable (init send_capacity timeout isn random cap)
    (mkWorld (TCPSender.set_stream s0 st) ([] ++ ztake n d) ([] ++ []) (TCPReceiver.new cap) [])) as R1.
  { eapply reach_step; [apply reach_refl|]. apply (step_sender (init send_capacity timeout isn random cap) (TCPSender.Write d));
      [done|]. cbn [TCPSender.step snd init]. fold s0. by rewrite E. }
  pose proof (reach_step _ _ _ R1 (step_sender _ TCPSender.EndInput _ _ _ I eq_refl)) as R2.
  pose proof (reach_step _ _ _ R2 (step_sender _ TCPSender.FillWindow _ _ _ I eq_refl)) as R3.
  cbn [snd data wire rcv out] in R3. rewrite !app_nil_r in R3. rewrite !app_nil_r. exact R3.
Qed.

Lemma calm_opened :
  zlen d <= send_capacity -> raw_value (default (of_uint random) isn) + zlen d + 2 < 4294967296 -> calm w0.
Proof.
  intros Hfit Hnum. pose proof opened_reachable as Hr.
  pose proof (ByteStream.stream_inv_new send_capacity Hsend) as Hs0.
  pose proof (write_spec (ByteStream.new send_capacity) d Hs0) as Hw.
  assert (data w0 = d) as Hdt.
  { unfold opened. cbn [TCPSender.run TCPSender.step TCPSender.new TCPSender._stream].
    destruct (ByteStream.write (ByteStream.new send_capacity) d) as [st n]. destruct Hw as (_ & -> & _).
    cbn [data]. rewrite !app_nil_r. rewrite ztake_all; [done|]. rewrite ByteStream.remaining_capacity_eq by done. simpl. lens_nil. lia. }
  assert (inv w0) as Hi.
  { eapply inv_reachable; [|exact Hr|unfold bounded; by rewrite Hdt]. apply inv_init; try done. words; lia. }
  revert Hi Hdt. unfold opened. cbn [TCPSender.run TCPSender.step TCPSender.new TCPSender._stream].
  destruct (ByteStream.write (ByteStream.new send_capacity) d) as [st n]. destruct Hw as (Hst & Hn & _).
  cbn [data]. intros Hi Hdt.
  assert (WrappingIntegers.wf (default (of_uint random) isn)) as Hwf by (destruct isn; [done|apply wf_of_uint]).
  constructor; try done.
  - change (1 - (1 - 1) <= cap). lia.
  - set (i := default (of_uint random) isn) in *. pose proof (zlen_nonneg d).
    change (raw_value (of_uint (raw_value i)) <= raw_value (wrap 1 i)).
    rewrite (TCPSender.raw_pos i 1) by (done || lia). unfold of_uint, WrappingIntegers.wf in *.
    cbn [raw_value]. rewrite u32_id by done. lia.
  - right. unfold TCPSender.una. simpl. split_and!; [done..|]. by eexists.
Qed.

Lemma round_trips_reachable n : forall w, reachable (init send_capacity timeout isn random cap) w ->
  reachable (init send_capacity timeout isn random cap) (round_trips n w).
Proof. induction n as [|n IH]; intros w Hr; [done|]. by apply IH, round_trip_reachable. Qed.

(** ** Properties *)

(** C4 A transfer completes over a network that delivers: when an application
    writes a string that the sender's buffer holds and ends its stream, then
    after at most two round trips more than there are bytes (with any window of
    the receiver from one byte up to 2^16 - 1), the reader at the other end has
    read the whole string and seen its end, and nothing is left in flight.  The
    string is shorter than 2^31 - 2 bytes, and the sequence numbers in use must not
    pass 2^32. *)
Theorem transfer_completes n :
  zlen d <= send_capacity -> raw_value (default (of_uint random) isn) + zlen d + 2 < 4294967296 ->
  zlen d + 2 <= Z.of_nat n ->
  let w := round_trips n w0 in
  reachable (init send_capacity timeout isn random cap) w /\
  out w = d /\ input_ended (TCPReceiver.stream_out (rcv w)) = true /\
  TCPSender.outSegments (snd w) = [] /\ TCPSender.bytes_in_flight (snd w) = 0.
Proof.
  intros Hfit Hnum Hn w. split; [apply round_trips_reachable, opened_reachable|].
  pose proof (calm_opened Hfit Hnum) as Hca. destruct (rounds_progress n _ Hca) as (Hca' & Hset & Hu).
  pose proof (TCPSender.inv_una _ _ (inv_sender _ (ca_inv _ Hca))) as H0. pose proof (zlen_nonneg d).
  apply calm_finished; [exact Hca'|apply Hset; right; lia|].
  etrans; [|exact Hu]. lia.
Qed.
End rounds.

(** Witness: five bytes through a window of two. *)
Lemma transfer_completes_witness :
  out (round_trips 7 (opened 10 1000 (Some (mkW32 7)) 0 2 [1; 2; 3; 4; 5])) = [1; 2; 3; 4; 5] /\
  out (round_trips 2 (opened 10 1000 (Some (mkW32 7)) 0 2 [1; 2; 3; 4; 5])) = [1; 2].
Proof.
  split; [|vm_compute; reflexivity].
  refine (proj1 (proj2 (transfer_completes [1; 2; 3; 4; 5] 2 _ _ 10 1000 0 (Some (mkW32 7)) _ _ _ 7 _ _ _)));
    vm_compute; try split; congruence.
Defined.
