(* ===== verification/TCPState.v ===== *)
(** * TCPState: the official states, read off the two halves

    Models [src/libsponge/tcp_helpers/tcp_state.hh] and [tcp_state.cc] (the
    function [name] is in [HeaderText]).  The theorems: the twelve official states
    have different summaries, and the sender's summary says what its name says
    of the flags the sender keeps. *)

From Stdlib Require Import String.
From S2P Require Import Prelude TCPReceiver TCPSender.
From S2P Require Import WrappingIntegers ByteStream.
Local Open Scope Z_scope.

Module TCPReceiverStateSummary.
Definition ERROR : string := "error (connection was reset)".
Definition LISTEN : string := "waiting for SYN: ackno is empty".
Definition SYN_RECV : string := "SYN received (ackno exists), and input to stream hasn't ended".
Definition FIN_RECV : string := "input to stream has ended".
End TCPReceiverStateSummary.

Module TCPSenderStateSummary.
Definition ERROR : string := "error (connection was reset)".
Definition CLOSED : string := "waiting for stream to begin (no SYN sent)".
Definition SYN_SENT : string := "stream started but nothing acknowledged".
Definition SYN_ACKED : string := "stream ongoing".
Definition FIN_SENT : string := "stream finished (FIN sent) but not fully acknowledged".
Definition FIN_ACKED : string := "stream finished and fully acknowledged".
End TCPSenderStateSummary.

Module R := TCPReceiverStateSummary.
Module S := TCPSenderStateSummary.

Record TCPState := mkTCPState {
  _sender : string;
  _receiver : string;
  _active : bool;
  _linger_after_streams_finish : bool
}.

Definition eqb (a b : TCPState) : bool :=
  Bool.eqb (_active a) (_active b) &&
  Bool.eqb (_linger_after_streams_finish a) (_linger_after_streams_finish b) &&
  String.eqb (_sender a) (_sender b) && String.eqb (_receiver a) (_receiver b).

Definition neqb (a b : TCPState) : bool := negb (eqb a b).

Inductive State :=
  | LISTEN
  | SYN_RCVD
  | SYN_SENT
  | ESTABLISHED
  | CLOSE_WAIT
  | LAST_ACK
  | FIN_WAIT_1
  | FIN_WAIT_2
  | CLOSING
  | TIME_WAIT
  | CLOSED
  | RESET.

Global Instance State_eq_dec : EqDecision State.
Proof. solve_decision. Defined.

(** [TCPState(State)]; the members start as [active] and [linger] true. *)
Definition of_State (state : State) : TCPState :=
  match state with
  | LISTEN => mkTCPState S.CLOSED R.LISTEN true true
  | SYN_RCVD => mkTCPState S.SYN_SENT R.SYN_RECV true true
  | SYN_SENT => mkTCPState S.SYN_SENT R.LISTEN true true
  | ESTABLISHED => mkTCPState S.SYN_ACKED R.SYN_RECV true true
  | CLOSE_WAIT => mkTCPState S.SYN_ACKED R.FIN_RECV true false
  | LAST_ACK => mkTCPState S.FIN_SENT R.FIN_RECV true false
  | CLOSING => mkTCPState S.FIN_SENT R.FIN_RECV true true
  | FIN_WAIT_1 => mkTCPState S.FIN_SENT R.SYN_RECV true true
  | FIN_WAIT_2 => mkTCPState S.FIN_ACKED R.SYN_RECV true true
  | TIME_WAIT => mkTCPState S.FIN_ACKED R.FIN_RECV true true
  | RESET => mkTCPState S.ERROR R.ERROR false false
  | CLOSED => mkTCPState S.FIN_ACKED R.FIN_RECV false false
  end.

(** [state_summary(const TCPReceiver &)] *)
Definition receiver_summary (receiver : TCPReceiver) : string :=
  if error (TCPReceiver.stream_out receiver) then R.ERROR
  else match ackno receiver with
       | None => R.LISTEN
       | Some _ => if input_ended (TCPReceiver.stream_out receiver) then R.FIN_RECV else R.SYN_RECV
       end.

(** [state_summary(const TCPSender &)] *)
Definition sender_summary (sender : TCPSender) : string :=
  if error (stream_in sender) then S.ERROR
  else if next_seqno_absolute sender =? 0 then S.CLOSED
  else if next_seqno_absolute sender =? bytes_in_flight sender then S.SYN_SENT
  else if negb (eof (stream_in sender)) then S.SYN_ACKED
  else if next_seqno_absolute sender <? u64 (bytes_written (stream_in sender) + 2) then S.SYN_ACKED
  else if negb (bytes_in_flight sender =? 0) then S.FIN_SENT
  else S.FIN_ACKED.

Definition of_parts (sender : TCPSender) (receiver : TCPReceiver) (active linger : bool) : TCPState :=
  mkTCPState (sender_summary sender) (receiver_summary receiver) active
    (if active then linger else false).

(** ** Properties *)
Lemma eqb_spec a b : eqb a b = true <-> a = b.
Proof.
  unfold eqb. rewrite !andb_true_iff, !eqb_true_iff, !String.eqb_eq. destruct a, b; simpl. naive_solver.
Qed.

(** The official states are told apart: two of them have equal summaries only
    when they are the same state. *)
Theorem official_states_distinct a b : eqb (of_State a) (of_State b) = true <-> a = b.
Proof. rewrite eqb_spec. split; [|by intros ->]. destruct a, b; vm_compute; congruence. Qed.

(** The sender's summary means what it says: for a sender in a state reached
    by its operations and without error, it is [CLOSED] exactly before the
    SYN, [SYN_SENT] exactly while nothing is acknowledged, [FIN_SENT] or
    [FIN_ACKED] exactly once the FIN is sent (and something acknowledged),
    told apart by whether anything is in flight. *)
Theorem sender_summary_correct data s :
  TCPSender.inv data s -> error (stream_in s) = false ->
  sender_summary s =
    if negb (_syn_flag s) then S.CLOSED
    else if una s =? 0 then S.SYN_SENT
    else if negb (_fin_flag s) then S.SYN_ACKED
    else if una s <? _next_seqno s then S.FIN_SENT else S.FIN_ACKED.
Proof.
  intros Hi He. pose proof Hi as []. unfold sender_summary, next_seqno_absolute, bytes_in_flight, stream_in in *.
  rewrite He, inv_written. unfold una, sent in *. pose proof (zlen_nonneg (_buf (_stream s))).
  rewrite u64_id by (pose proof (zlen_nonneg data); words; lia).
  destruct (_syn_flag s) eqn:Hs; cbn [negb Z.b2z] in *; [|by destruct (inv_syn eq_refl) as [-> _]].
  assert (0 <= Z.b2z (_fin_flag s) <= 1) by (by destruct (_fin_flag s)).
  destruct (Z.eqb_spec (_next_seqno s) 0); [lia|].
  destruct (Z.eqb_spec (_next_seqno s) (_bytes_in_flight s)), (Z.eqb_spec (_next_seqno s - _bytes_in_flight s) 0);
    try lia; [done|].
  destruct (_fin_flag s) eqn:Hf; cbn [negb Z.b2z] in *.
  - destruct (inv_fin eq_refl) as [Hb Hie]. assert (eof (_stream s) = true) as -> by by apply eof_buf.
    rewrite Hb in inv_len. revert inv_len. lens_nil. intros. cbn [negb].
    destruct (Z.ltb_spec (_next_seqno s) (zlen data + 2)); [lia|].
    destruct (Z.eqb_spec (_bytes_in_flight s) 0), (Z.ltb_spec (_next_seqno s - _bytes_in_flight s) (_next_seqno s));
      try lia; done.
  - destruct (negb (eof (_stream s))); [done|]. destruct (Z.ltb_spec (_next_seqno s) (zlen data + 2)); [done|lia].
Qed.

Lemma sender_summary_correct_witness :
  sender_summary (demo_open 4) = S.SYN_ACKED.
Proof.
  rewrite (sender_summary_correct [] (demo_open 4));
    [reflexivity|apply demo_open_inv; vm_compute; split; congruence|reflexivity].
Defined.
