(* ===== verification/HeaderText.v ===== *)
(** * HeaderText: headers and states in words

    Models [TCPHeader::to_string] and [summary] of [tcp_header.cc],
    [IPv4Header::to_string] and [summary] of [ipv4_header.cc] and
    [TCPState::name] of [tcp_state.cc], all in [src/libsponge/tcp_helpers].

    The theorems: the text of a header shows every field of it, that is, two
    headers with the same text are equal; a summary shows the fields it names;
    and the name of a state tells the twelve official states apart. *)

From Stdlib Require Import String.
From S2P Require Import Prelude WrappingIntegers TCPHeader IPv4Header NetAddress Text TCPState.
Local Open Scope Z_scope.

(** ** The texts *)
Module TCPText.
Import TCPHeader.

Definition to_string_items (h : TCPHeader) : list item :=
  [Hex; Boolalpha; Str (text "TCP source port: "); Int (sport h); Chr 10;
   Str (text "TCP dest port: "); Int (dport h); Chr 10;
   Str (text "TCP seqno: "); Int (raw_value (seqno h)); Chr 10;
   Str (text "TCP ackno: "); Int (raw_value (ackno h)); Chr 10;
   Str (text "TCP doff: "); Int (doff h); Chr 10;
   Str (text "Flags: urg: "); Bool (urg h); Str (text " ack: "); Bool (ack h); Str (text " psh: "); Bool (psh h);
   Str (text " rst: "); Bool (rst h); Str (text " syn: "); Bool (syn h);
   Str (text " fin: "); Bool (fin h); Chr 10;
   Str (text "TCP winsize: "); Int (win h); Chr 10;
   Str (text "TCP cksum: "); Int (cksum h); Chr 10;
   Str (text "TCP uptr: "); Int (uptr h); Chr 10].

Definition to_string (h : TCPHeader) : bytes := out (outs ostream_new (to_string_items h)).

Definition summary_items (h : TCPHeader) : list item :=
  [Str (text "Header(flags="); Str (text (if syn h then "S" else "")); Str (text (if ack h then "A" else ""));
   Str (text (if rst h then "R" else "")); Str (text (if fin h then "F" else ""));
   Str (text ",seqno="); Int (raw_value (seqno h)); Str (text ",ack="); Int (raw_value (ackno h));
   Str (text ",win="); Int (win h); Str (text ")")].

Definition summary (h : TCPHeader) : bytes := out (outs ostream_new (summary_items h)).
End TCPText.

Module IPv4Text.
Import IPv4Header.

Definition to_string_items (h : IPv4Header) : list item :=
  [Hex; Boolalpha; Str (text "IP version: "); Int (ver h); Chr 10;
   Str (text "IP hdr len: "); Int (hlen h); Chr 10;
   Str (text "IP tos: "); Int (tos h); Chr 10;
   Str (text "IP dgram len: "); Int (len h); Chr 10;
   Str (text "IP id: "); Int (id h); Chr 10;
   Str (text "Flags: df: "); Bool (df h); Str (text " mf: "); Bool (mf h); Chr 10;
   Str (text "Offset: "); Int (offset h); Chr 10;
   Str (text "TTL: "); Int (ttl h); Chr 10;
   Str (text "Protocol: "); Int (proto h); Chr 10;
   Str (text "Checksum: "); Int (cksum h); Chr 10;
   Str (text "Src addr: "); Int (src h); Chr 10;
   Str (text "Dst addr: "); Int (dst h); Chr 10].

Definition to_string (h : IPv4Header) : bytes := out (outs ostream_new (to_string_items h)).

(** [inet_ntoa({htobe32(addr)})] is the dotted quad. *)
Definition summary_items (h : IPv4Header) : list item :=
  [Hex; Boolalpha; Str (text "IPv"); Int (ver h); Str (text ", ");
   Str (text "len="); Int (len h); Str (text ", ");
   Str (text "protocol="); Int (proto h); Str (text ", ");
   Str (if 10 <=? ttl h then [] else text "ttl=" ++ to_text (ttl h) ++ text ", ");
   Str (text "src="); Str (dotted (src h)); Str (text ", ");
   Str (text "dst="); Str (dotted (dst h))].

Definition summary (h : IPv4Header) : bytes := out (outs ostream_new (summary_items h)).
End IPv4Text.

(** [TCPState::name]; [to_string] of a [bool] converts it to an [int]. *)
Definition name (s : TCPState) : bytes :=
  text "sender=`" ++ text (_sender s) ++ text "`, receiver=`" ++ text (_receiver s) ++ text "`, active=" ++
  to_text (if _active s then 1 else 0) ++ text ", linger_after_streams_finish=" ++
  to_text (if _linger_after_streams_finish s then 1 else 0).

(** ** Reading a text from its front

    The readers are proved for any way of writing numbers and truth values that
    can be undone at the end of a field. *)
Lemma cons_inv (c : Z) l r : c :: l = c :: r -> l = r.
Proof. congruence. Qed.

(** A letter that is shown or not, before text that does not start with it. *)
Definition letter (c : Z) (b : bool) : bytes := if b then [c] else [].

Lemma text_letter (c : Ascii.ascii) (b : bool) :
  text (if b then String c "" else "") = letter (Z.of_nat (Ascii.nat_of_ascii c)) b.
Proof. by destruct b. Qed.

Lemma letter_head c d b r : d <> c -> head r <> Some c -> head (letter d b ++ r) <> Some c.
Proof. destruct b; simpl; congruence. Qed.

Lemma letter_read c b b' r r' : head r <> Some c -> head r' <> Some c ->
  letter c b ++ r = letter c b' ++ r' -> b = b' /\ r = r'.
Proof. destruct b, b', r, r'; simpl; intros ?? [=]; subst; done. Qed.

Section reading.
Context (num : bool -> Z -> bytes) (tr : bool -> bool -> bytes).
Hypothesis num_read : forall h n m c r c' r',
  is_u64 n -> is_u64 m -> is_hexdigit c = false -> is_hexdigit c' = false ->
  num h n ++ c :: r = num h m ++ c' :: r' -> n = m /\ c :: r = c' :: r'.
Hypothesis tr_read : forall b b' r r', tr true b ++ r = tr true b' ++ r' -> b = b' /\ r = r'.

(** Takes literal characters, a number or a truth value from the front of the
    equation [H]. *)
Ltac read_front H :=
  lazymatch type of H with
  | text _ ++ _ = text _ ++ _ => apply app_inv_head in H
  | _ :: _ = _ :: _ => apply cons_inv in H
  | num _ _ ++ text ?s ++ _ = _ => let t := eval vm_compute in (text s) in change (text s) with t in H; cbn [app] in H
  | num _ _ ++ _ = num _ _ ++ _ =>
      let Hf := fresh "Hf" in apply num_read in H as [Hf H]; [|words; lia|words; lia|done|done]
  | tr _ _ ++ _ = tr _ _ ++ _ => let Hf := fresh "Hf" in apply tr_read in H as [Hf H]
  end.
Ltac read_text H := cbn [rendered_by] in H; repeat read_front H.

Lemma tcp_read h h' : TCPHeader.wf h -> TCPHeader.wf h' ->
  rendered_by num tr false false (TCPText.to_string_items h) = rendered_by num tr false false (TCPText.to_string_items h') ->
  h = h'.
Proof.
  intros [] [] Heq. unfold WrappingIntegers.wf in *. unfold TCPText.to_string_items in Heq. read_text Heq.
  destruct h as [? ? [] [] ], h' as [? ? [] [] ]. simpl in *. congruence.
Qed.

Lemma ipv4_read h h' : IPv4Header.wf h -> IPv4Header.wf h' ->
  rendered_by num tr false false (IPv4Text.to_string_items h) = rendered_by num tr false false (IPv4Text.to_string_items h') ->
  h = h'.
Proof.
  intros [] [] Heq. unfold IPv4Text.to_string_items in Heq. read_text Heq.
  destruct h, h'. simpl in *. congruence.
Qed.

(** A summary shows four flags and three numbers. *)
Lemma tcp_summary_read h h' : TCPHeader.wf h -> TCPHeader.wf h' ->
  rendered_by num tr false false (TCPText.summary_items h) = rendered_by num tr false false (TCPText.summary_items h') ->
  (syn h, ack h, rst h, fin h, seqno h, ackno h, win h) = (syn h', ack h', rst h', fin h', seqno h', ackno h', win h').
Proof.
  intros [] [] Heq. unfold WrappingIntegers.wf in *. unfold TCPText.summary_items in Heq. cbn [rendered_by] in Heq.
  apply app_inv_head in Heq. rewrite !text_letter in Heq. change (text ",seqno=") with (44 :: text "seqno=") in Heq.
  do 4 (apply letter_read in Heq as [? Heq]; [|repeat first [apply letter_head; [done|] | done]..]).
  cbn [app] in Heq. repeat read_front Heq.
  destruct (seqno h), (seqno h'), (ackno h), (ackno h'). simpl in *. congruence.
Qed.
End reading.

Lemma printed xs : forallb plain xs = true -> out (outs ostream_new xs) = rendered_by number truth false false xs.
Proof. intros Hx. unfold ostream_new. by rewrite outs_rendered. Qed.

Lemma tcp_printed h : TCPText.to_string h = rendered_by number truth false false (TCPText.to_string_items h).
Proof. unfold TCPText.to_string. by apply printed. Qed.

Lemma ipv4_printed h : IPv4Text.to_string h = rendered_by number truth false false (IPv4Text.to_string_items h).
Proof. unfold IPv4Text.to_string. by apply printed. Qed.

Lemma tcp_summary_printed h : TCPText.summary h = rendered_by number truth false false (TCPText.summary_items h).
Proof. unfold TCPText.summary. by apply printed. Qed.

(** ** Properties *)

(** C40 The text of a header shows all of it: two well-formed TCP headers for which
    [to_string] writes the same text are the same in every field, and so are two
    IPv4 headers; and TCP headers with the same [summary] agree in the fields it
    names. *)
Theorem header_text_exact :
  (forall h h', TCPHeader.wf h -> TCPHeader.wf h' -> TCPText.to_string h = TCPText.to_string h' -> h = h') /\
  (forall h h', IPv4Header.wf h -> IPv4Header.wf h' -> IPv4Text.to_string h = IPv4Text.to_string h' -> h = h') /\
  (forall h h', TCPHeader.wf h -> TCPHeader.wf h' -> TCPText.summary h = TCPText.summary h' ->
    (syn h, ack h, rst h, fin h, seqno h, ackno h, win h) = (syn h', ack h', rst h', fin h', seqno h', ackno h', win h')).
Proof.
  split_and!; intros h h' Hh Hh'; rewrite ?tcp_printed, ?ipv4_printed, ?tcp_summary_printed.
  - exact (tcp_read number truth field_inj truth_inj h h' Hh Hh').
  - exact (ipv4_read number truth field_inj truth_inj h h' Hh Hh').
  - exact (tcp_summary_read number truth field_inj h h' Hh Hh').
Qed.

(** Witness: a header and the same with another window are printed differently. *)
Lemma header_text_exact_witness :
  let h w := mkTCPHeader 80 1024 (mkW32 7) (mkW32 9) 5 false true false false false true w 0 0 in
  TCPText.to_string (h 10) <> TCPText.to_string (h 100) /\ TCPText.summary (h 10) <> TCPText.summary (h 100).
Proof.
  intros h. assert (TCPHeader.wf (h 10) /\ TCPHeader.wf (h 100)) as [H1 H2] by (split; constructor; vm_compute; try split; congruence).
  split; intros E; [apply (proj1 header_text_exact) in E|apply (proj2 (proj2 header_text_exact)) in E]; done.
Defined.

(** The official states have different names. *)
Lemma state_names_differ a b : name (of_State a) = name (of_State b) -> a = b.
Proof. destruct a, b; first [done | by vm_compute]. Qed.
