(* ===== verification/TCPConnection.v ===== *)
(** * TCPConnection: an endpoint

    Models [src/libsponge/tcp_connection.hh] and [tcp_connection.cc]: the state,
    every public operation with all the calls it makes, the destructor, and the
    two internal procedures [sendseg] and [clean_shutdown].

    The theorems: the invariant of the two halves is kept by every operation,
    for any segment the peer may send; everything queued for the network is a
    segment of the local stream or an empty one, stamped with the receiver's
    acknowledgment and window; a connection ends by RST in both directions,
    by too many retransmissions, or when both streams are finished; and the
    places where the implementation departs from TCP. *)

From S2P Require Import Prelude TCPReceiver TCPSender TCPState.
From S2P Require Import WrappingIntegers ByteStream StreamReassembler Buffer TCPHeader TCPSegment.
From S2P Require Import SegmentOf TCPConfig RETimer.

Record TCPConnection := mkConnection {
  _cfg : TCPConfig;
  _receiver : TCPReceiver;
  _sender : TCPSender;
  _segments_out : list TCPSegment;
  _linger_after_streams_finish : bool;
  _time_since_last_segment_received : Z;
  _active : bool;
  _rst_set : bool;
  _fin_ack_sent : bool;
  _closedByApp : bool;
  _syn_set : bool;
  _rec_fin_seqno : option WrappingInt32
}.

Definition new (cfg : TCPConfig) (random : Z) : TCPConnection :=
  mkConnection cfg (TCPReceiver.new (recv_capacity cfg))
    (TCPSender.new (send_capacity cfg) (rt_timeout cfg) (fixed_isn cfg) random)
    [] true 0 true false false false false None.

(** *** Assignments to members *)

Definition set_receiver (c : TCPConnection) (r : TCPReceiver) : TCPConnection :=
  mkConnection (_cfg c) r (_sender c) (_segments_out c) (_linger_after_streams_finish c)
    (_time_since_last_segment_received c) (_active c) (_rst_set c) (_fin_ack_sent c) (_closedByApp c)
    (_syn_set c) (_rec_fin_seqno c).
Definition set_sender (c : TCPConnection) (s : TCPSender) : TCPConnection :=
  mkConnection (_cfg c) (_receiver c) s (_segments_out c) (_linger_after_streams_finish c)
    (_time_since_last_segment_received c) (_active c) (_rst_set c) (_fin_ack_sent c) (_closedByApp c)
    (_syn_set c) (_rec_fin_seqno c).
Definition push_out (c : TCPConnection) (seg : TCPSegment) : TCPConnection :=
  mkConnection (_cfg c) (_receiver c) (_sender c) (_segments_out c ++ [seg]) (_linger_after_streams_finish c)
    (_time_since_last_segment_received c) (_active c) (_rst_set c) (_fin_ack_sent c) (_closedByApp c)
    (_syn_set c) (_rec_fin_seqno c).
Definition set_linger (c : TCPConnection) (b : bool) : TCPConnection :=
  mkConnection (_cfg c) (_receiver c) (_sender c) (_segments_out c) b
    (_time_since_last_segment_received c) (_active c) (_rst_set c) (_fin_ack_sent c) (_closedByApp c)
    (_syn_set c) (_rec_fin_seqno c).
Definition set_time (c : TCPConnection) (t : Z) : TCPConnection :=
  mkConnection (_cfg c) (_receiver c) (_sender c) (_segments_out c) (_linger_after_streams_finish c)
    t (_active c) (_rst_set c) (_fin_ack_sent c) (_closedByApp c) (_syn_set c) (_rec_fin_seqno c).
Definition set_active (c : TCPConnection) (b : bool) : TCPConnection :=
  mkConnection (_cfg c) (_receiver c) (_sender c) (_segments_out c) (_linger_after_streams_finish c)
    (_time_since_last_segment_received c) b (_rst_set c) (_fin_ack_sent c) (_closedByApp c)
    (_syn_set c) (_rec_fin_seqno c).
Definition set_rst (c : TCPConnection) (b : bool) : TCPConnection :=
  mkConnection (_cfg c) (_receiver c) (_sender c) (_segments_out c) (_linger_after_streams_finish c)
    (_time_since_last_segment_received c) (_active c) b (_fin_ack_sent c) (_closedByApp c)
    (_syn_set c) (_rec_fin_seqno c).
Definition set_fin_ack (c : TCPConnection) (b : bool) : TCPConnection :=
  mkConnection (_cfg c) (_receiver c) (_sender c) (_segments_out c) (_linger_after_streams_finish c)
    (_time_since_last_segment_received c) (_active c) (_rst_set c) b (_closedByApp c)
    (_syn_set c) (_rec_fin_seqno c).
Definition set_closed (c : TCPConnection) (b : bool) : TCPConnection :=
  mkConnection (_cfg c) (_receiver c) (_sender c) (_segments_out c) (_linger_after_streams_finish c)
    (_time_since_last_segment_received c) (_active c) (_rst_set c) (_fin_ack_sent c) b
    (_syn_set c) (_rec_fin_seqno c).
Definition set_syn (c : TCPConnection) (b : bool) : TCPConnection :=
  mkConnection (_cfg c) (_receiver c) (_sender c) (_segments_out c) (_linger_after_streams_finish c)
    (_time_since_last_segment_received c) (_active c) (_rst_set c) (_fin_ack_sent c) (_closedByApp c)
    b (_rec_fin_seqno c).
Definition set_rec_fin (c : TCPConnection) (n : option WrappingInt32) : TCPConnection :=
  mkConnection (_cfg c) (_receiver c) (_sender c) (_segments_out c) (_linger_after_streams_finish c)
    (_time_since_last_segment_received c) (_active c) (_rst_set c) (_fin_ack_sent c) (_closedByApp c)
    (_syn_set c) n.

(** ** Accessors *)

Definition remaining_outbound_capacity (c : TCPConnection) : Z := remaining_capacity (stream_in (_sender c)).
Definition bytes_in_flight (c : TCPConnection) : Z := TCPSender.bytes_in_flight (_sender c).
Definition unassembled_bytes (c : TCPConnection) : Z := TCPReceiver.unassembled_bytes (_receiver c).
Definition time_since_last_segment_received (c : TCPConnection) : Z := _time_since_last_segment_received c.
Definition active (c : TCPConnection) : bool := _active c.
Definition inbound_stream (c : TCPConnection) : ByteStream := TCPReceiver.stream_out (_receiver c).
Definition state (c : TCPConnection) : TCPState :=
  of_parts (_sender c) (_receiver c) (active c) (_linger_after_streams_finish c).

(** ** Internal procedures *)

(** [_receiver.stream_out().set_error(); _sender.stream_in().set_error();] *)
Definition set_errors (c : TCPConnection) : TCPConnection :=
  let c := set_receiver c (set_stream_out (_receiver c) (set_error (TCPReceiver.stream_out (_receiver c)))) in
  set_sender c (set_stream (_sender c) (set_error (stream_in (_sender c)))).

Definition clean_shutdown (c : TCPConnection) : TCPConnection :=
  let c :=
    if input_ended (inbound_stream c) && negb (eof (stream_in (_sender c)))
    then set_linger c false else c in
  if (unassembled_bytes c =? 0) && input_ended (inbound_stream c) then
    if input_ended (stream_in (_sender c)) &&
       bool_decide (segments_out (_sender c) = []) then
      if TCPSender.bytes_in_flight (_sender c) =? 0 then
        if (10 * rt_timeout (_cfg c) <=? _time_since_last_segment_received c) ||
           Bool.eqb (_linger_after_streams_finish c) false
        then set_active c false else c
      else c
    else c
  else c.

(** The acknowledgment fields [sendseg] fills in. *)
Definition stamp (seg : TCPSegment) (ackno : WrappingInt32) (window : Z) : TCPSegment :=
  let h := _header seg in
  mkTCPSegment (mkTCPHeader (sport h) (dport h) (seqno h) ackno (doff h) (urg h) true (psh h) (rst h)
                  (syn h) (fin h) (u16 window) (cksum h) (uptr h)) (_payload seg).

Definition set_rst_flag (seg : TCPSegment) : TCPSegment :=
  let h := _header seg in
  mkTCPSegment (mkTCPHeader (sport h) (dport h) (seqno h) (TCPHeader.ackno h) (doff h) (urg h) (ack h) (psh h) true
                  (syn h) (fin h) (win h) (cksum h) (uptr h)) (_payload seg).

(** One iteration of the loop of [sendseg], after the segment was taken from
    the sender's queue. *)
Definition send_one (c : TCPConnection) (seg : TCPSegment) : TCPConnection :=
  let c := if syn (_header seg) then set_syn c true else c in
  let '(c, seg) :=
    match TCPReceiver.ackno (_receiver c) with
    | Some a =>
        let seg := stamp seg a (window_size (_receiver c)) in
        let c :=
          match _rec_fin_seqno c with
          | Some n => if raw_value n <? raw_value (TCPHeader.ackno (_header seg)) then set_fin_ack c true else c
          | None => c
          end in
        (c, seg)
    | None => (c, seg)
    end in
  let '(c, seg) :=
    if _rst_set c then (set_active (set_errors c) false, set_rst_flag seg) else (c, seg) in
  push_out c seg.

(** The [while] loop: [q] is the sender's queue. *)
Fixpoint send_all (q : list TCPSegment) (c : TCPConnection) : TCPConnection :=
  match q with
  | [] => c
  | seg :: q => send_all q (send_one (set_sender c (set_segments_out (_sender c) q)) seg)
  end.

Definition sendseg (c : TCPConnection) : TCPConnection :=
  let c :=
    match segments_out (_sender c) with
    | [] => set_sender c (set_segments_out (_sender c) [TCPSegment.new])
    | _ => c
    end in
  clean_shutdown (send_all (segments_out (_sender c)) c).

(** ** Operations *)

Definition segment_received (c : TCPConnection) (seg : TCPSegment) : TCPConnection :=
  let h := _header seg in
  if negb (_active c) then c
  else if negb (_syn_set c) && negb (syn h) then c
  else
    let c := if negb (_syn_set c) && syn h
             then set_sender (set_syn c true) (fill_window (_sender c)) else c in
    let c := set_time c 0 in
    if rst h then
      if negb (_syn_set c) && negb (ack h) then c
      else set_active (set_rst (set_errors c) true) false
    else
      let c := set_receiver c (TCPReceiver.segment_received (_receiver c) seg) in
      let c :=
        if ack h then clean_shutdown (set_sender c (ack_received (_sender c) (TCPHeader.ackno h) (win h)))
        else c in
      if _fin_ack_sent c && negb (fin h) then c
      else
        let c := if fin h then set_rec_fin c (Some (seqno h)) else c in
        let c := if 0 <? length_in_sequence_space seg then sendseg c else c in
        clean_shutdown c.

(** Returns the number of bytes written. *)
Definition write (c : TCPConnection) (data : bytes) : TCPConnection * Z :=
  let '(st, written) := ByteStream.write (stream_in (_sender c)) data in
  let c := set_sender c (fill_window (set_stream (_sender c) st)) in
  (sendseg c, written).

Definition tick (c : TCPConnection) (ms_since_last_tick : Z) : TCPConnection :=
  if negb (_active c) then c
  else
    let c := set_time c (u64 (_time_since_last_segment_received c + ms_since_last_tick)) in
    let c := set_sender c (TCPSender.tick (_sender c) ms_since_last_tick) in
    let c := if MAX_RETX_ATTEMPTS <? consecutive_retransmissions (_sender c)
             then sendseg (set_rst c true) else c in
    let c := clean_shutdown c in
    if negb (_active c) then c
    else match segments_out (_sender c) with [] => c | _ => sendseg c end.

Definition end_input_stream (c : TCPConnection) : TCPConnection :=
  let s := set_stream (_sender c) (end_input (stream_in (_sender c))) in
  let c := set_sender c (fill_window s) in
  sendseg (set_closed c true).

Definition connect (c : TCPConnection) : TCPConnection := sendseg (set_sender c (fill_window (_sender c))).

(** [~TCPConnection]: what is queued when the object goes away. *)
Definition destroy (c : TCPConnection) : TCPConnection :=
  if active c then sendseg (set_rst c true) else c.

(** ** Invariant

    [data] is what the application has written.  A queued segment is a segment
    of that data or an empty acknowledgment. *)

Definition empty_ack (seg : TCPSegment) : Prop :=
  payload seg = [] /\ syn (_header seg) = false /\ fin (_header seg) = false /\
  seqno (_header seg) = mkW32 0.

Definition out_ok (data : bytes) (s : TCPSender) (seg : TCPSegment) : Prop :=
  ((exists pos, seg_of data (TCPSender._isn s) pos seg) \/ empty_ack seg) /\
  (fin (_header seg) = true -> input_ended (stream_in s) = true).

Lemma out_ok_mono data s s' seg :
  TCPSender._isn s' = TCPSender._isn s ->
  (input_ended (stream_in s) = true -> input_ended (stream_in s') = true) ->
  out_ok data s seg -> out_ok data s' seg.
Proof. intros Hi He [H1 H2]. unfold out_ok. rewrite Hi. auto. Qed.

(** What a queued segment carries back to the peer. *)
Definition acks_ok (r : TCPReceiver) (seg : TCPSegment) : Prop :=
  match TCPReceiver.ackno r with
  | Some a => ack (_header seg) = true /\ TCPHeader.ackno (_header seg) = a /\
              win (_header seg) = u16 (window_size r)
  | None => True
  end.

Record inv (data : bytes) (c : TCPConnection) : Prop := mkInv {
  inv_sender : TCPSender.inv data (_sender c);
  inv_receiver : TCPReceiver.inv (_receiver c);
  inv_out : Forall (out_ok data (_sender c)) (_segments_out c)
}.

Lemma connection_inv_new cfg random : config_wf cfg -> inv [] (new cfg random).
Proof.
  intros []. constructor; simpl; [by apply TCPSender.sender_inv_new|by apply TCPReceiver.receiver_inv_new|constructor].
Qed.

Lemma inv_set_receiver data c r : inv data c -> TCPReceiver.inv r -> inv data (set_receiver c r).
Proof. by intros [] ?. Qed.

Lemma inv_set_sender data c s :
  inv data c -> TCPSender.inv data s -> TCPSender._isn s = TCPSender._isn (_sender c) ->
  (input_ended (stream_in (_sender c)) = true -> input_ended (stream_in s) = true) ->
  inv data (set_sender c s).
Proof.
  intros [] ? Hi He. constructor; simpl; try done. eapply Forall_impl; [done|].
  intros seg. by apply out_ok_mono.
Qed.

Lemma receiver_set_error r : TCPReceiver.inv r -> TCPReceiver.inv (set_stream_out r (set_error (TCPReceiver.stream_out r))).
Proof.
  intros []. constructor; simpl; try done.
  apply inv_set_output; try done. apply inv_set_error. apply StreamReassembler.inv_output. done.
Qed.

Lemma inv_set_errors data c : inv data c -> inv data (set_errors c).
Proof.
  intros Hi. unfold set_errors. apply inv_set_sender; [|apply inv_stream_error, Hi|done|done].
  apply inv_set_receiver; [done|]. apply receiver_set_error, Hi.
Qed.

(** [clean_shutdown] only touches the two flags. *)
Lemma clean_shutdown_eq c :
  exists l a, clean_shutdown c = set_active (set_linger c l) a /\ (a = true -> _active c = true) /\
    (a = false -> _active c = true ->
       unassembled_bytes c = 0 /\ input_ended (inbound_stream c) = true /\
       input_ended (stream_in (_sender c)) = true /\ segments_out (_sender c) = [] /\
       bytes_in_flight c = 0 /\
       (10 * rt_timeout (_cfg c) <= _time_since_last_segment_received c \/ l = false)).
Proof.
  unfold clean_shutdown.
  set (l := if input_ended (inbound_stream c) && negb (eof (stream_in (_sender c)))
            then false else _linger_after_streams_finish c).
  assert ((if input_ended (inbound_stream c) && negb (eof (stream_in (_sender c)))
           then set_linger c false else c) = set_linger c l) as ->
    by (subst l; destruct (_ && _); [done|by destruct c]).
  assert (set_active (set_linger c l) (_active c) = set_linger c l) as Hid by done.
  exists l. cbn [set_linger _receiver _sender _cfg _time_since_last_segment_received
    _linger_after_streams_finish unassembled_bytes inbound_stream].
  unfold unassembled_bytes, inbound_stream, bytes_in_flight. simpl.
  repeat match goal with
  | |- context [if ?b then _ else _] => lazymatch b with
      | context [if _ then _ else _] => fail
      | _ => destruct b eqn:? end
  end; try (exists (_active c); rewrite Hid; split_and!; congruence || done).
  exists false. split; [done|]. split; [done|]. intros _ _.
  repeat match goal with H : _ && _ = true |- _ => apply andb_true_iff in H as [? ?] end.
  match goal with H : _ || _ = true |- _ => apply orb_true_iff in H as [?|?] end;
    split_and!; try lia; try done; try (by eapply bool_decide_eq_true);
    first [left; lia | right; by destruct l].
Qed.

Lemma inv_clean_shutdown data c : inv data c -> inv data (clean_shutdown c).
Proof. intros []. by destruct (clean_shutdown_eq c) as (l & a & -> & _). Qed.

(** *** [sendseg] *)

(** The fields of a segment that belong to the sender. *)
Definition same_core (seg seg' : TCPSegment) : Prop :=
  seqno (_header seg') = seqno (_header seg) /\ syn (_header seg') = syn (_header seg) /\
  fin (_header seg') = fin (_header seg) /\ payload seg' = payload seg.

Lemma out_ok_core data s seg seg' : same_core seg seg' -> out_ok data s seg -> out_ok data s seg'.
Proof.
  intros (Hq & Hs & Hf & Hp) [Hok He]. split; [|by rewrite Hf].
  destruct Hok as [(pos & [H1 H2 H3 H4])|(H1 & H2 & H3 & H4)].
  - left. exists pos. unfold index_of in *. constructor; unfold index_of; rewrite ?Hq, ?Hs, ?Hf, ?Hp; done.
  - right. unfold empty_ack. by rewrite Hq, Hs, Hf, Hp.
Qed.

(** What the sending procedures leave alone in the two halves. *)
Record quiet (c c' : TCPConnection) : Prop := mkQuiet {
  q_cfg : _cfg c' = _cfg c;
  q_rst : _rst_set c' = _rst_set c;
  q_time : _time_since_last_segment_received c' = _time_since_last_segment_received c;
  q_isn : TCPSender._isn (_sender c') = TCPSender._isn (_sender c);
  q_next : TCPSender._next_seqno (_sender c') = TCPSender._next_seqno (_sender c);
  q_flight : TCPSender.outSegments (_sender c') = TCPSender.outSegments (_sender c);
  q_in_flight : bytes_in_flight c' = bytes_in_flight c;
  q_outbound : input_ended (stream_in (_sender c')) = input_ended (stream_in (_sender c));
  q_inbound : input_ended (inbound_stream c') = input_ended (inbound_stream c);
  q_unassembled : unassembled_bytes c' = unassembled_bytes c;
  q_ackno : TCPReceiver.ackno (_receiver c') = TCPReceiver.ackno (_receiver c);
  q_window : window_size (_receiver c') = window_size (_receiver c);
  q_written : bytes_written (inbound_stream c') = bytes_written (inbound_stream c);
  q_capacity : TCPReceiver._capacity (_receiver c') = TCPReceiver._capacity (_receiver c)
}.

Lemma quiet_refl c : quiet c c.
Proof. by constructor. Qed.
Lemma quiet_trans c c' c'' : quiet c c' -> quiet c' c'' -> quiet c c''.
Proof. intros [] []. constructor; congruence. Qed.

Lemma quiet_clean_shutdown c : quiet c (clean_shutdown c).
Proof. by destruct (clean_shutdown_eq c) as (l & a & -> & _). Qed.

Lemma send_one_spec data c seg :
  inv data c -> out_ok data (_sender c) seg ->
  let c' := send_one c seg in
  inv data c' /\ quiet c c' /\ segments_out (_sender c') = segments_out (_sender c) /\
  _active c' = _active c && negb (_rst_set c) /\
  (_rst_set c = true -> error (stream_in (_sender c')) = true /\ error (inbound_stream c') = true) /\
  exists seg', _segments_out c' = _segments_out c ++ [seg'] /\ same_core seg seg' /\
    acks_ok (_receiver c) seg' /\ rst (_header seg') = rst (_header seg) || _rst_set c.
Proof.
  intros Hi Hok. unfold send_one. set (c1 := if syn (_header seg) then set_syn c true else c).
  assert (inv data c1 /\ quiet c c1 /\ _receiver c1 = _receiver c /\ _sender c1 = _sender c /\
    _active c1 = _active c /\ _segments_out c1 = _segments_out c) as (Hi1 & Hq1 & Hr1 & Hs1 & Ha1 & Ho1)
    by (subst c1; destruct (syn _); split_and!; try done; destruct Hi; by constructor).
  clearbody c1. rewrite Hr1.
  match goal with |- context [let '(_, _) := ?x in _] => destruct x as [c2 seg2] eqn:E2 end.
  assert (inv data c2 /\ quiet c c2 /\ _receiver c2 = _receiver c /\ _sender c2 = _sender c /\
    _active c2 = _active c /\ _segments_out c2 = _segments_out c /\
    same_core seg seg2 /\ acks_ok (_receiver c) seg2 /\ rst (_header seg2) = rst (_header seg))
    as (Hi2 & Hq2 & Hr2 & Hs2 & Ha2 & Ho2 & Hcore & Hacks & Hrst).
  { destruct (TCPReceiver.ackno (_receiver c)) as [a|] eqn:Hack.
    - injection E2 as <- <-. destruct (_rec_fin_seqno c1); [destruct (_ <? _)|];
        (split_and!; try done; try (destruct Hi1; by constructor); try (by destruct Hq1);
         unfold acks_ok; by rewrite Hack).
    - injection E2 as <- <-. split_and!; try done. unfold acks_ok. by rewrite Hack. }
  rewrite (q_rst _ _ Hq2). assert (out_ok data (_sender c) seg2) as Hok2 by by eapply out_ok_core.
  destruct (_rst_set c) eqn:Hrs.
  - rewrite andb_false_r, orb_true_r. pose proof (inv_set_errors data c2 Hi2) as He.
    split.
    { destruct He. constructor; try done. simpl. rewrite Ho2, Hs2. apply Forall_app. split; [apply Hi|].
      apply Forall_singleton. by apply (out_ok_core _ _ seg2). }
    split; [destruct Hq2; by constructor|]. split; [simpl; by rewrite Hs2|].
    split; [done|]. split; [done|]. exists (set_rst_flag seg2). simpl. by rewrite Ho2.
  - rewrite andb_true_r, orb_false_r. split.
    { destruct Hi2. constructor; try done. simpl. rewrite Ho2, Hs2. apply Forall_app. split; [apply Hi|].
      by apply Forall_singleton. }
    split; [destruct Hq2; by constructor|]. split; [simpl; by rewrite Hs2|].
    split; [done|]. split; [done|]. exists seg2. simpl. by rewrite Ho2.
Qed.

Lemma acks_ok_quiet c c' seg : quiet c c' -> acks_ok (_receiver c') seg <-> acks_ok (_receiver c) seg.
Proof. intros []. unfold acks_ok. by rewrite q_ackno0, q_window0. Qed.

(** The result of sending the queue [q]: [segs] are its segments, stamped. *)
Record sent_all (q : list TCPSegment) (c c' : TCPConnection) : Prop := mkSentAll {
  sa_quiet : quiet c c';
  sa_drained : q <> [] -> segments_out (_sender c') = [];
  sa_active : _active c' = _active c && (bool_decide (q = []) || negb (_rst_set c));
  sa_error : q <> [] -> _rst_set c = true ->
    error (stream_in (_sender c')) = true /\ error (inbound_stream c') = true;
  sa_out : exists segs, _segments_out c' = _segments_out c ++ segs /\ Forall2 same_core q segs /\
    Forall (acks_ok (_receiver c)) segs /\
    Forall2 (fun seg seg' => rst (_header seg') = rst (_header seg) || _rst_set c) q segs
}.

(** The loop body does not look at the rest of the sender's queue. *)
Definition set_queue (c : TCPConnection) (q : list TCPSegment) : TCPConnection :=
  set_sender c (set_segments_out (_sender c) q).

Lemma send_one_queue c seg q : send_one (set_queue c q) seg = set_queue (send_one c seg) q.
Proof.
  unfold send_one, set_queue. destruct (syn (_header seg)); simpl;
    (destruct (TCPReceiver.ackno (_receiver c)); simpl; [destruct (_rec_fin_seqno c); simpl; [destruct (_ <? _); simpl|]|]);
    by destruct (_rst_set c).
Qed.

Lemma send_all_fold q : forall c, send_all q (set_queue c q) = fold_left send_one q (set_queue c []).
Proof.
  induction q as [|seg q IH]; intros c; [done|]. cbn [send_all fold_left].
  change (set_sender (set_queue c (seg :: q)) _) with (set_queue c q).
  by rewrite send_one_queue, IH, <- send_one_queue.
Qed.

Lemma send_fold_spec data q : forall c,
  inv data c -> segments_out (_sender c) = [] -> Forall (out_ok data (_sender c)) q ->
  inv data (fold_left send_one q c) /\ sent_all q c (fold_left send_one q c).
Proof.
  induction q as [|seg q IH]; intros c Hi Hnil Hq; cbn [fold_left].
  { split; [done|]. constructor; try done; [simpl; by rewrite andb_true_r|].
    exists []. split_and!; try constructor. by rewrite app_nil_r. }
  apply Forall_cons in Hq as [Hseg Hq].
  destruct (send_one_spec data c seg Hi Hseg) as (Hi1 & Hq1 & Hs1 & Ha1 & He1 & seg' & Ho1 & Hc1 & Hk1 & Hr1).
  destruct (IH (send_one c seg) Hi1) as [Hi2 [Hq2 Hd2 Ha2 He2 (segs & Ho2 & Hc2 & Hk2 & Hr2)]];
    [congruence|eapply Forall_impl; [done|]; intros sg; apply out_ok_mono; by destruct Hq1 as []; congruence|].
  rewrite (q_rst _ _ Hq1) in *. split; [done|]. constructor.
  - by eapply quiet_trans.
  - intros _. destruct q as [|sg q]; [simpl; congruence|by apply Hd2].
  - rewrite Ha2, Ha1, (bool_decide_eq_false_2 (seg :: q = [])) by done.
    by destruct (_rst_set c), (_active c), (bool_decide (q = [])).
  - intros _ Hr. destruct q as [|sg q]; [by apply He1|by apply He2].
  - exists (seg' :: segs). rewrite Ho2, Ho1, <- app_assoc. split_and!; try done; constructor; try done.
    eapply Forall_impl; [done|]. intros sg. by apply (acks_ok_quiet c (send_one c seg)).
Qed.

(** What [sendseg] sends: the sender's queue, or one empty acknowledgment. *)
Definition to_send (c : TCPConnection) : list TCPSegment :=
  match segments_out (_sender c) with [] => [TCPSegment.new] | q => q end.

Lemma to_send_nonempty c : to_send c <> [].
Proof. unfold to_send. by destruct (segments_out (_sender c)). Qed.

Lemma to_send_ok data c : inv data c -> Forall (out_ok data (_sender c)) (to_send c).
Proof.
  intros Hi. pose proof (TCPSender.inv_out _ _ (inv_sender _ _ Hi)) as Ho. unfold to_send, segments_out.
  destruct (TCPSender._segments_out (_sender c)) as [|seg q].
  - apply Forall_singleton. split; [right; by vm_compute|done].
  - eapply Forall_impl; [done|]. intros sg (pos & Hseg & Hf & _). split; [left; eauto|].
    intros Hx. by apply (TCPSender.inv_fin _ _ (inv_sender _ _ Hi)), Hf.
Qed.

Lemma sendseg_eq c :
  sendseg c = clean_shutdown (fold_left send_one (to_send c) (set_queue c [])).
Proof.
  rewrite <- send_all_fold. unfold sendseg, to_send. f_equal.
  destruct (segments_out (_sender c)) as [|seg q] eqn:E; [done|]. f_equal; [done|].
  unfold set_queue, set_segments_out. rewrite <- E. by destruct c as [? ? [] ? ? ? ? ? ? ? ? ?].
Qed.

(** Everything about [sendseg]. *)
Record sent_out (c c' : TCPConnection) : Prop := mkSentOut {
  so_quiet : quiet c c';
  so_drained : segments_out (_sender c') = [];
  so_inactive : _rst_set c = true -> _active c' = false /\
    error (stream_in (_sender c')) = true /\ error (inbound_stream c') = true;
  so_out : exists segs, _segments_out c' = _segments_out c ++ segs /\
    Forall2 same_core (to_send c) segs /\ Forall (acks_ok (_receiver c)) segs /\
    Forall2 (fun seg seg' => rst (_header seg') = rst (_header seg) || _rst_set c) (to_send c) segs
}.

Lemma sendseg_spec data c : inv data c -> inv data (sendseg c) /\ sent_out c (sendseg c).
Proof.
  intros Hi. rewrite sendseg_eq. set (c0 := set_queue c []).
  assert (inv data c0) as Hi0 by (apply inv_set_sender; [done|apply TCPSender.inv_drain, Hi|done|done]).
  destruct (send_fold_spec data (to_send c) c0 Hi0 eq_refl (to_send_ok data c Hi)) as [Hi1 [Hq Hd Ha He Ho]].
  pose proof (to_send_nonempty c) as Hne.
  set (c1 := fold_left send_one (to_send c) c0) in *.
  split; [by apply inv_clean_shutdown|].
  destruct (clean_shutdown_eq c1) as (l & a & E & Hact & _). rewrite E. constructor.
  - destruct Hq. by constructor.
  - by apply Hd.
  - intros Hr. split; [|by apply He]. simpl. destruct a; [|done]. specialize (Hact eq_refl).
    rewrite Ha in Hact. change (_rst_set c0) with (_rst_set c) in Hact.
    rewrite Hr, bool_decide_eq_false_2, andb_false_r in Hact by done. done.
  - exact Ho.
Qed.

(** ** Operations keep the invariant

    [good e data c0 c]: [c] satisfies the invariant and comes after [c0]: the
    initial sequence number is the same, and the outbound stream is ended if it
    was before or [e] says that it was ended since. *)

Record good (e : bool) (data : bytes) (c0 c : TCPConnection) : Prop := mkGood {
  good_inv : inv data c;
  good_isn : TCPSender._isn (_sender c) = TCPSender._isn (_sender c0);
  good_ended : input_ended (stream_in (_sender c)) = input_ended (stream_in (_sender c0)) || e
}.

Lemma good_refl data c : inv data c -> good false data c c.
Proof. intros. constructor; [done..|by rewrite orb_false_r]. Qed.

(** Only the other members change. *)
Lemma good_flags e data c0 c c' :
  good e data c0 c -> _receiver c' = _receiver c -> _sender c' = _sender c -> _segments_out c' = _segments_out c ->
  good e data c0 c'.
Proof.
  intros [[Hs Hr Ho] Hi He] Er Es Eo. constructor; [constructor|..]; rewrite ?Er, ?Es, ?Eo; done.
Qed.

Lemma good_quiet e data c0 c c' : good e data c0 c -> inv data c' -> quiet c c' -> good e data c0 c'.
Proof. intros [] ? []. constructor; [done|congruence|]. by rewrite q_outbound0. Qed.

Lemma good_clean e data c0 c : good e data c0 c -> good e data c0 (clean_shutdown c).
Proof.
  intros Hg. eapply good_quiet; [done|apply inv_clean_shutdown, Hg|apply quiet_clean_shutdown].
Qed.

Lemma good_sendseg e data c0 c : good e data c0 c -> good e data c0 (sendseg c).
Proof.
  intros Hg. destruct (sendseg_spec data c (good_inv _ _ _ _ Hg)) as [? []]. by eapply good_quiet.
Qed.

Lemma good_errors e data c0 c : good e data c0 c -> good e data c0 (set_errors c).
Proof. intros Hg. eapply good_quiet; [done|apply inv_set_errors, Hg|done]. Qed.

Lemma good_receiver e data c0 c r : good e data c0 c -> TCPReceiver.inv r -> good e data c0 (set_receiver c r).
Proof. intros [] ?. constructor; try done. by apply inv_set_receiver. Qed.

(** An operation of the sender that is not a write. *)
Lemma good_step e data c0 c o :
  good e data c0 c -> TCPSender.op_ok (input_ended (stream_in (_sender c))) o ->
  let '(s', d, _) := TCPSender.step o (_sender c) in d = [] -> good (e || ends o) data c0 (set_sender c s').
Proof.
  intros [Hi Hisn He] Hok. pose proof (inv_sender _ _ Hi) as Hs.
  pose proof (TCPSender.step_spec data o (_sender c) Hs Hok) as Hst.
  destruct (TCPSender.step o (_sender c)) as [[s' d] segs]. intros ->. rewrite app_nil_r in Hst.
  destruct Hst as (Hs' & Hisn' & He' & _); [lens_nil; pose proof (TCPSender.inv_headroom _ _ Hs); lia|].
  unfold stream_in in *. constructor; cbn [set_sender _sender]; [|congruence|].
  2: { unfold stream_in. by rewrite He', He, orb_assoc. }
  apply inv_set_sender; try done. unfold stream_in. intros Hx. by rewrite He', Hx.
Qed.

Lemma good_fill e data c0 c : good e data c0 c -> good e data c0 (set_sender c (fill_window (_sender c))).
Proof. intros Hg. rewrite <- (orb_false_r e). by apply (good_step e data c0 c FillWindow). Qed.

Lemma good_ack e data c0 c a w :
  good e data c0 c -> WrappingIntegers.wf a -> is_u16 w ->
  good e data c0 (set_sender c (ack_received (_sender c) a w)).
Proof. intros Hg ? ?. rewrite <- (orb_false_r e). by apply (good_step e data c0 c (Ack a w)). Qed.

(** A segment as the parser produces it, and room to count its bytes. *)
Record arrives (c : TCPConnection) (seg : TCPSegment) : Prop := mkArrives {
  ar_seqno : WrappingIntegers.wf (seqno (_header seg));
  ar_ackno : WrappingIntegers.wf (TCPHeader.ackno (_header seg));
  ar_win : is_u16 (win (_header seg));
  ar_room : headroom (_receiver c) seg
}.

Lemma good_segment_received data c seg :
  inv data c -> arrives c seg -> good false data c (segment_received c seg).
Proof.
  intros Hi%good_refl [Hq Ha Hw Hroom]. unfold segment_received. destruct (negb (_active c)); [done|].
  destruct (negb (_syn_set c) && negb (syn (_header seg))); [done|].
  set (c1 := if negb (_syn_set c) && syn (_header seg) then _ else c).
  assert (good false data c (set_time c1 0) /\ _receiver c1 = _receiver c) as [Hi1 Hr1].
  { subst c1. destruct (negb (_syn_set c) && syn (_header seg)); (split; [|done]).
    - by eapply good_flags; [apply good_fill, Hi|..].
    - by eapply good_flags. }
  destruct (rst (_header seg)).
  { destruct (negb _ && negb _); [done|]. by eapply good_flags; [apply good_errors, Hi1|..]. }
  destruct (received_pushed (_receiver c) seg (inv_receiver _ _ (good_inv _ _ _ _ Hi)) Hroom Hq) as (Hr & _).
  cbn [set_time _receiver] in *. rewrite Hr1.
  set (c2 := set_receiver _ _). assert (good false data c c2) as Hi2 by by apply good_receiver.
  set (c3 := if ack (_header seg) then _ else c2).
  assert (good false data c c3) as Hi3.
  { subst c3. destruct (ack (_header seg)); [|done]. by apply good_clean, good_ack. }
  destruct (_fin_ack_sent c3 && negb (fin (_header seg))); [done|].
  set (c4 := if fin (_header seg) then _ else c3).
  assert (good false data c c4) as Hi4 by (subst c4; destruct (fin (_header seg)); [by eapply good_flags|done]).
  apply good_clean. destruct (0 <? length_in_sequence_space seg); [|done]. by apply good_sendseg.
Qed.

Lemma good_end_input_stream data c : inv data c -> good true data c (end_input_stream c).
Proof.
  intros Hi%good_refl. unfold end_input_stream. apply good_sendseg.
  eapply good_flags; [apply (good_fill true data c), (good_step false data c c TCPSender.EndInput Hi I eq_refl)|done..].
Qed.

Lemma good_connect data c : inv data c -> good false data c (connect c).
Proof. intros Hi%good_refl. by apply good_sendseg, good_fill. Qed.

Lemma good_rst e data c0 c : good e data c0 c -> good e data c0 (sendseg (set_rst c true)).
Proof. intros Hg. apply good_sendseg. by eapply good_flags. Qed.

Lemma good_tick data c ms : inv data c -> good false data c (tick c ms).
Proof.
  intros Hi%good_refl. unfold tick. destruct (negb (_active c)); [done|].
  set (c1 := set_sender _ _).
  assert (good false data c c1) as Hi1.
  { apply (good_step false data c (set_time c _) (Tick ms)); [by eapply good_flags|done|done]. }
  set (c2 := if _ <? _ then _ else c1).
  assert (good false data c c2) as Hi2 by (subst c2; case_match; [by apply good_rst|done]).
  apply good_clean in Hi2. destruct (negb _); [done|].
  destruct (segments_out _); [done|]. by apply good_sendseg.
Qed.

Lemma good_destroy data c : inv data c -> good false data c (destroy c).
Proof. intros Hi%good_refl. unfold destroy. case_match; [by apply good_rst|done]. Qed.

Lemma good_read data c len :
  inv data c -> 0 <= len ->
  good false data c (set_receiver c (set_stream_out (_receiver c) (fst (ByteStream.read (inbound_stream c) len)))).
Proof.
  intros Hi Hl. apply good_receiver; [by apply good_refl|]. destruct (inv_receiver _ _ Hi) as [Hr Hc Hn].
  pose proof (read_out_spec _ len Hr Hl) as Hrd. cbn [StreamReassembler.step] in Hrd.
  unfold inbound_stream, TCPReceiver.stream_out in *.
  destruct (ByteStream.read (StreamReassembler.stream_out (_reassembler (_receiver c))) len) as [o' got].
  destruct Hrd as (Hr' & _). by constructor.
Qed.

Lemma write_good data c d :
  inv data c -> input_ended (stream_in (_sender c)) = false ->
  let '(c', n) := write c d in
  zlen data + n + 2 < 18446744073709551616 -> good false (data ++ ztake n d) c c'.
Proof.
  intros Hi He. unfold write. pose proof (inv_write_stream data (_sender c) d (inv_sender _ _ Hi) He) as Hw.
  assert (input_ended (fst (ByteStream.write (TCPSender._stream (_sender c)) d)) =
    input_ended (TCPSender._stream (_sender c))) as Hkeep by done.
  unfold stream_in. destruct (ByteStream.write (TCPSender._stream (_sender c)) d) as [st n]. intros Hroom.
  specialize (Hw Hroom). apply good_sendseg. pose proof (fill_window_ended _ _ Hw) as Hend.
  destruct (fill_window_eq _ _ Hw) as (Hf & _ & segs & Hx). pose proof (ex_isn _ _ _ Hx) as Hisn.
  destruct Hi as [Hs Hr Ho]. constructor; [|done|rewrite orb_false_r; etrans; [exact Hend|exact Hkeep]].
  constructor; simpl; try done.
  eapply Forall_impl; [done|]. intros seg [Hok Hfin]. unfold out_ok. rewrite Hisn. simpl. split.
  - destruct Hok as [(pos & Hseg)|]; [left|by right]. exists pos. apply seg_of_app; [|done].
    intros Hx'. specialize (Hfin Hx'). congruence.
  - intros Hx'. specialize (Hfin Hx'). congruence.
Qed.

(** ** Runs

    What the network, the application and the clock can do to a connection;
    [Dequeue] is the owner taking the queued segments. *)

Inductive op :=
  | SegmentReceived (seg : TCPSegment)
  | AppWrite (d : bytes)
  | AppRead (len : Z)
  | EndInputStream
  | Connect
  | TimePasses (ms : Z)
  | Dequeue.

Definition step (o : op) (c : TCPConnection) : TCPConnection * bytes * list TCPSegment :=
  match o with
  | SegmentReceived seg => (segment_received c seg, [], [])
  | AppWrite d => let '(c', n) := write c d in (c', ztake n d, [])
  | AppRead len =>
      (set_receiver c (set_stream_out (_receiver c) (fst (ByteStream.read (inbound_stream c) len))), [], [])
  | EndInputStream => (end_input_stream c, [], [])
  | Connect => (connect c, [], [])
  | TimePasses ms => (tick c ms, [], [])
  | Dequeue =>
      (mkConnection (_cfg c) (_receiver c) (_sender c) [] (_linger_after_streams_finish c)
         (_time_since_last_segment_received c) (_active c) (_rst_set c) (_fin_ack_sent c) (_closedByApp c)
         (_syn_set c) (_rec_fin_seqno c), [], _segments_out c)
  end.

Fixpoint run (ops : list op) (c : TCPConnection) : TCPConnection * bytes * list TCPSegment :=
  match ops with
  | [] => (c, [], [])
  | o :: ops =>
      let '(c', d, segs) := step o c in
      let '(c'', d', segs') := run ops c' in (c'', d ++ d', segs ++ segs')
  end.

Definition op_ok (o : op) (c : TCPConnection) : Prop :=
  match o with
  | SegmentReceived seg => arrives c seg
  | AppWrite _ => input_ended (stream_in (_sender c)) = false
  | AppRead len => 0 <= len
  | _ => True
  end.

Fixpoint ops_ok (ops : list op) (c : TCPConnection) : Prop :=
  match ops with
  | [] => True
  | o :: ops => op_ok o c /\ ops_ok ops (fst (fst (step o c)))
  end.

(** The operation that ends the outbound stream. *)
Definition ends_stream (o : op) : bool := match o with EndInputStream => true | _ => false end.

Lemma connection_step_spec data o c :
  inv data c -> op_ok o c ->
  let '(c', d, segs) := step o c in
  zlen data + zlen d + 2 < 18446744073709551616 ->
  good (ends_stream o) (data ++ d) c c' /\ (input_ended (stream_in (_sender c)) = true -> d = []) /\
  Forall (out_ok data (_sender c)) segs.
Proof.
  intros Hi Ho. destruct o as [seg|d|len| | |ms|]; cbn [step]; rewrite ?app_nil_r.
  - intros _. split; [by apply good_segment_received|done].
  - pose proof (write_good data c d Hi Ho) as Hw.
    assert (0 <= Datatypes.snd (write c d) <= zlen d) as Hn.
    { unfold write. pose proof (write_bounds (stream_in (_sender c)) d (TCPSender.inv_stream _ _ (inv_sender _ _ Hi))).
      by destruct (ByteStream.write _ d). }
    destruct (write c d) as [c' n]. simpl in Hn. rewrite zlen_ztake, Z.min_l by lia. intros Hroom.
    split_and!; [by apply Hw| |done]. simpl in Ho. congruence.
  - intros _. split; [by apply good_read|done].
  - intros _. split; [by apply good_end_input_stream|done].
  - intros _. split; [by apply good_connect|done].
  - intros _. split; [by apply good_tick|done].
  - intros _. split_and!; try done; [|apply Hi]. destruct Hi as [Hs Hr Hout].
    constructor; [by constructor|done|by rewrite orb_false_r].
Qed.

Lemma connection_run_spec ops : forall data c,
  inv data c -> ops_ok ops c ->
  let '(c', d, segs) := run ops c in
  zlen data + zlen d + 2 < 18446744073709551616 ->
  good (existsb ends_stream ops) (data ++ d) c c' /\ (input_ended (stream_in (_sender c)) = true -> d = []) /\
  Forall (fun seg => (exists pos, seg_of (data ++ d) (TCPSender._isn (_sender c)) pos seg) \/ empty_ack seg) segs.
Proof.
  induction ops as [|o ops IH]; intros data c Hi Hok; cbn [run].
  - intros _. rewrite app_nil_r. split_and!; [by apply good_refl|done|constructor].
  - destruct Hok as [Ho Hok]. pose proof (connection_step_spec data o c Hi Ho) as Hs.
    destruct (step o c) as [[c1 d1] segs1]. specialize (IH (data ++ d1) c1).
    destruct (run ops c1) as [[c2 d2] segs2]. rewrite zlen_app. intros Hz.
    pose proof (zlen_nonneg d1). pose proof (zlen_nonneg d2).
    destruct Hs as ([Hi1 Hisn1 He1] & Hd1 & Hsegs1); [lia|].
    destruct IH as ([Hi2 Hisn2 He2] & Hd2 & Hsegs2); [done|done|rewrite zlen_app; lia|].
    rewrite app_assoc. rewrite Hisn1 in *. split_and!.
    + constructor; [done|congruence|]. rewrite He2, He1. simpl. by rewrite orb_assoc.
    + intros Hend. rewrite Hd1, Hd2; auto. by rewrite He1, Hend.
    + apply Forall_app. split; [|done]. eapply Forall_impl; [apply Hsegs1|].
      intros seg [[(pos & Hseg)|He] Hf]; [left|by right]. exists pos. rewrite <- app_assoc.
      apply seg_of_app; [|done]. intros Hx. specialize (Hf Hx). rewrite Hd1, Hd2; auto. by rewrite He1, Hf.
Qed.

(** ** Properties *)

(** Both streams are finished: everything received is assembled and ended, the
    outbound stream is ended, and nothing is queued or in flight. *)
Definition finished (c : TCPConnection) : Prop :=
  unassembled_bytes c = 0 /\ input_ended (inbound_stream c) = true /\
  input_ended (stream_in (_sender c)) = true /\ segments_out (_sender c) = [] /\ bytes_in_flight c = 0.

Lemma clean_shutdown_finished c :
  _active c = true -> _active (clean_shutdown c) = false -> finished (clean_shutdown c).
Proof.
  intros Ha. destruct (clean_shutdown_eq c) as (l & a & -> & _ & Hf). simpl. intros ->.
  destruct (Hf eq_refl Ha) as (? & ? & ? & ? & ? & _). done.
Qed.

(** C10 A connection is correct for any peer and any application that writes
    nothing after it has ended its stream ([ByteStream::write] would accept such
    data): after any sequence of arrivals (of any segments), writes, reads, ticks,
    connects and end of input, the invariants of the sender and of the receiver
    hold, and every segment ever handed to the network is a piece of the data
    written at the right sequence number (FIN only at its end) or an empty
    acknowledgment.  Less than 2^64 - 2 bytes are written, and the receiver's
    capacity and the bytes received stay below about 2^63, so that its 64-bit
    indices do not overflow. *)
Theorem connection_run_correct cfg random ops :
  config_wf cfg -> ops_ok ops (new cfg random) ->
  let '(c, data, segs) := run ops (new cfg random) in
  zlen data + 2 < 18446744073709551616 ->
  TCPSender.inv data (_sender c) /\ TCPReceiver.inv (_receiver c) /\
  Forall (fun seg => (exists pos, seg_of data (TCPSender._isn (_sender c)) pos seg) \/ empty_ack seg) segs.
Proof.
  intros Hc Hok. pose proof (connection_run_spec ops [] (new cfg random) (connection_inv_new cfg random Hc) Hok) as H.
  destruct (run ops (new cfg random)) as [[c data] segs]. intros Hz.
  destruct H as ([[] Hisn _] & _ & Hsegs); [by lens_nil|]. rewrite Hisn. done.
Qed.

(** What [sendseg] puts on the wire: the sender's queue, in order and with the
    sender's fields untouched, or one empty segment when the queue is empty;
    once a SYN has been received, every one of them carries the receiver's
    current acknowledgment and window (the low 16 bits of it). *)
Theorem sendseg_stamps data c :
  inv data c ->
  exists segs, _segments_out (sendseg c) = _segments_out c ++ segs /\
    Forall2 same_core (to_send c) segs /\ segs <> [] /\
    segments_out (_sender (sendseg c)) = [] /\
    forall a, TCPReceiver.ackno (_receiver c) = Some a ->
      Forall (fun seg => ack (_header seg) = true /\ TCPHeader.ackno (_header seg) = a /\
        win (_header seg) = u16 (window_size (_receiver c))) segs.
Proof.
  intros Hi. destruct (sendseg_spec data c Hi) as [_ [_ Hd _ (segs & Ho & Hc & Hk & _)]].
  exists segs. split_and!; try done.
  - intros ->. apply Forall2_nil_inv_r in Hc. by apply to_send_nonempty in Hc.
  - intros a Ha. eapply Forall_impl; [done|]. unfold acks_ok. intros seg. by rewrite Ha.
Qed.

(** An RST ends the connection at once: both streams are marked with an error,
    nothing is sent, and from then on arrivals and time change nothing. *)
Theorem rst_received_kills c seg :
  _active c = true -> _syn_set c = true -> rst (_header seg) = true ->
  let c' := segment_received c seg in
  _active c' = false /\ error (inbound_stream c') = true /\ error (stream_in (_sender c')) = true /\
  _segments_out c' = _segments_out c /\ state c' = of_State RESET /\
  (forall seg', segment_received c' seg' = c') /\ (forall ms, tick c' ms = c').
Proof.
  intros Ha Hs Hr c'. assert (c' = set_active (set_rst (set_errors (set_time c 0)) true) false) as ->.
  { subst c'. unfold segment_received. rewrite Ha, Hs, Hr. simpl. by rewrite Hs. }
  split_and!; done.
Qed.

(** C29 The connection gives up after [MAX_RETX_ATTEMPTS] retransmissions: the tick
    at which the sender's count exceeds it resets the connection, and at least
    one segment is sent, all of them with the RST flag. *)
Theorem too_many_retransmissions_reset data c ms :
  inv data c -> _active c = true ->
  MAX_RETX_ATTEMPTS < consecutive_retransmissions (TCPSender.tick (_sender c) ms) ->
  let c' := tick c ms in
  _active c' = false /\ state c' = of_State RESET /\
  exists segs, _segments_out c' = _segments_out c ++ segs /\ segs <> [] /\
    Forall (fun seg => rst (_header seg) = true) segs.
Proof.
  intros Hi Ha Hmax c'. subst c'. unfold tick. rewrite Ha. cbn [negb].
  set (c1 := set_sender _ _).
  assert (inv data (set_rst c1 true)) as Hi1.
  { assert (good false data c c1) as Hg.
    { apply (good_step false data c (set_time c _) (Tick ms)); [eapply good_flags; [by apply good_refl|done..]|done|done]. }
    by eapply good_inv, good_flags. }
  change (_sender c1) with (TCPSender.tick (_sender c) ms).
  destruct (Z.ltb_spec MAX_RETX_ATTEMPTS (consecutive_retransmissions (TCPSender.tick (_sender c) ms))); [|lia].
  destruct (sendseg_spec data _ Hi1) as [_ [Hq Hd Hin (segs & Ho & Hc & _ & Hr)]].
  destruct (Hin eq_refl) as (Hact & He1 & He2). set (c2 := sendseg (set_rst c1 true)) in *.
  destruct (clean_shutdown_eq c2) as (l & a & E & Hax & _). rewrite E. cbn [set_active set_linger _active].
  assert (a = false) as -> by (destruct a; [by rewrite Hax in Hact|done]). cbn [negb].
  split_and!; [done| |].
  - unfold state, of_parts. cbn [active set_active set_linger _active _sender _receiver].
    unfold sender_summary, receiver_summary. unfold inbound_stream in He2. by rewrite He1, He2.
  - exists segs. split_and!; [done| |].
    + intros ->. apply Forall2_nil_inv_r in Hc. by apply to_send_nonempty in Hc.
    + clear Ho Hc. induction Hr as [|sg sg' q segs Hx _ IH]; constructor; [|done]. rewrite Hx. by rewrite orb_true_r.
Qed.

(** *** How a connection ends *)

Definition alive_or_finished (c : TCPConnection) : Prop := _active c = true \/ finished c.

Lemma finished_quiet c c' : quiet c c' -> segments_out (_sender c') = [] -> finished c -> finished c'.
Proof.
  intros [] Hnil (? & ? & ? & ? & ?). unfold finished. split_and!; try congruence.
Qed.

Lemma ends_clean c : alive_or_finished c -> alive_or_finished (clean_shutdown c).
Proof.
  unfold alive_or_finished. intros [Ha|Hf].
  - destruct (_active (clean_shutdown c)) eqn:E; [by left|right]. by apply clean_shutdown_finished.
  - right. pose proof (quiet_clean_shutdown c) as Hq. eapply finished_quiet; [done| |done].
    destruct (clean_shutdown_eq c) as (l & a & -> & _). apply Hf.
Qed.

Lemma ends_sendseg data c :
  inv data c -> _rst_set c = false -> alive_or_finished c -> alive_or_finished (sendseg c).
Proof.
  intros Hi Hr Ha. rewrite sendseg_eq. apply ends_clean. set (c0 := set_queue c []).
  assert (inv data c0) as Hi0 by (apply inv_set_sender; [done|apply TCPSender.inv_drain, Hi|done|done]).
  destruct (send_fold_spec data (to_send c) c0 Hi0 eq_refl (to_send_ok data c Hi)) as [_ [Hq Hd Hac _ _]].
  destruct Ha as [Ha|Hf].
  - left. rewrite Hac. change (_active c0) with (_active c). change (_rst_set c0) with (_rst_set c).
    by rewrite Ha, Hr, orb_true_r.
  - right. eapply finished_quiet; [done|apply Hd, to_send_nonempty|].
    destruct Hf as (? & ? & ? & ? & ?). by split_and!.
Qed.

(** Steps that touch neither the halves nor the flag. *)
Lemma ends_flags c c' :
  alive_or_finished c -> _active c' = _active c -> _sender c' = _sender c -> _receiver c' = _receiver c ->
  alive_or_finished c'.
Proof.
  unfold alive_or_finished, finished, unassembled_bytes, bytes_in_flight, inbound_stream.
  intros Ha -> -> ->. done.
Qed.

Lemma ends_segment_received data c seg :
  inv data c -> arrives c seg -> _active c = true -> _rst_set c = false -> rst (_header seg) = false ->
  alive_or_finished (segment_received c seg).
Proof.
  intros Hi%good_refl [Hq Ha Hw Hroom] Hact Hrs Hrst. unfold segment_received. rewrite Hact, Hrst. cbn [negb].
  destruct (negb (_syn_set c) && negb (syn (_header seg))); [by left|].
  set (c1 := if negb (_syn_set c) && syn (_header seg) then _ else c).
  assert (good false data c (set_time c1 0) /\ _receiver c1 = _receiver c /\ _active c1 = true /\ _rst_set c1 = false)
    as (Hi1 & Hr1 & Ha1 & Hrs1).
  { subst c1. destruct (negb (_syn_set c) && syn (_header seg)); split_and!; try done.
    - by eapply good_flags; [apply good_fill, Hi|..].
    - by eapply good_flags. }
  destruct (received_pushed (_receiver c) seg (inv_receiver _ _ (good_inv _ _ _ _ Hi)) Hroom Hq) as (Hr & _).
  cbn [set_time _receiver] in *. rewrite Hr1.
  set (c2 := set_receiver _ _). assert (good false data c c2) as Hi2 by by apply good_receiver.
  set (c3 := if ack (_header seg) then _ else c2).
  assert (good false data c c3 /\ _rst_set c3 = false /\ alive_or_finished c3) as (Hi3 & Hrs3 & Hal3).
  { subst c3. destruct (ack (_header seg)); [|split_and!; [done|done|by left]].
    split_and!; [by apply good_clean, good_ack| |apply ends_clean; by left].
    by rewrite (q_rst _ _ (quiet_clean_shutdown _)). }
  destruct (_fin_ack_sent c3 && negb (fin (_header seg))); [done|].
  set (c4 := if fin (_header seg) then _ else c3).
  assert (good false data c c4 /\ _rst_set c4 = false /\ alive_or_finished c4) as (Hi4 & Hrs4 & Hal4).
  { subst c4. destruct (fin (_header seg)); [|done].
    split_and!; [by eapply good_flags|done|by eapply ends_flags]. }
  apply ends_clean. destruct (0 <? length_in_sequence_space seg); [|done].
  eapply ends_sendseg; [apply Hi4|done|done].
Qed.

Lemma ends_tick data c ms :
  inv data c -> _active c = true -> _rst_set c = false ->
  consecutive_retransmissions (TCPSender.tick (_sender c) ms) <= MAX_RETX_ATTEMPTS ->
  alive_or_finished (tick c ms).
Proof.
  intros Hi Ha Hrs Hmax. unfold tick. rewrite Ha. cbn [negb]. set (c1 := set_sender _ _).
  assert (good false data c c1) as Hi1.
  { apply (good_step false data c (set_time c _) (Tick ms)); [eapply good_flags; [by apply good_refl|done..]|done|done]. }
  change (_sender c1) with (TCPSender.tick (_sender c) ms).
  destruct (Z.ltb_spec MAX_RETX_ATTEMPTS (consecutive_retransmissions (TCPSender.tick (_sender c) ms))); [lia|].
  assert (alive_or_finished (clean_shutdown c1)) as Hal by (apply ends_clean; by left).
  destruct (negb _); [done|]. destruct (segments_out _) eqn:E; [done|].
  eapply ends_sendseg; [apply inv_clean_shutdown, Hi1|by rewrite (q_rst _ _ (quiet_clean_shutdown _))|done].
Qed.

(** C28 A connection ends cleanly only when it is done: unless an RST arrives or
    the retransmissions run out, the arrival of a segment or the passage of
    time makes it inactive only with everything received and assembled, both
    streams ended, and nothing queued or in flight. *)
Theorem ends_only_when_finished data c :
  inv data c -> _active c = true -> _rst_set c = false ->
  (forall seg, arrives c seg -> rst (_header seg) = false ->
     _active (segment_received c seg) = false -> finished (segment_received c seg)) /\
  (forall ms, consecutive_retransmissions (TCPSender.tick (_sender c) ms) <= MAX_RETX_ATTEMPTS ->
     _active (tick c ms) = false -> finished (tick c ms)).
Proof.
  intros Hi Ha Hr. split.
  - intros seg Har Hrst Hfin. assert (alive_or_finished (segment_received c seg)) as [|]; [|congruence|done].
    by eapply ends_segment_received.
  - intros ms Hmax Hfin. assert (alive_or_finished (tick c ms)) as [|]; [|congruence|done].
    by eapply ends_tick.
Qed.

(** *** Opening a connection *)

(** Nothing happens to a fresh reassembler when an empty, unfinished piece
    arrives at whatever index. *)
Lemma push_nothing cap index :
  is_u64 cap -> is_u64 index -> push_substring (StreamReassembler.new cap) [] index false = StreamReassembler.new cap.
Proof.
  intros Hc Hi. unfold push_substring. cbn [push_substring_fuel nextIndex StreamReassembler.new andb].
  destruct ((0 <? index) && _); [done|]. lens_nil. rewrite Z.add_0_r.
  destruct (Z.ltb_spec (u64 index) 0); [pose proof (u64_range index); words; lia|].
  destruct (Z.ltb_spec index 0); [words; lia|].
  assert (forall n, ztake n (@nil Z) = []) as Ht by (intros n; unfold ztake; by rewrite take_nil).
  rewrite !Ht. by destruct (Z.ltb_spec 0 index).
Qed.

(** A receiver that has the peer's SYN and nothing else. *)
Definition opened (cap : Z) (isn : WrappingInt32) : TCPReceiver :=
  mkReceiver (StreamReassembler.new cap) cap isn true.

Lemma receiver_syn cap seg :
  is_u64 cap -> WrappingIntegers.wf (seqno (_header seg)) ->
  syn (_header seg) = true -> fin (_header seg) = false -> payload seg = [] ->
  TCPReceiver.segment_received (TCPReceiver.new cap) seg = opened cap (seqno (_header seg)).
Proof.
  intros Hc Hw Hs Hf Hp. unfold TCPReceiver.segment_received. rewrite Hs. unfold place. simpl.
  change (copy (_payload seg)) with (payload seg). rewrite Hp, Hf.
  rewrite push_nothing by (done || apply u64_range). done.
Qed.

Lemma receiver_empty cap isn seg :
  is_u64 cap -> syn (_header seg) = false -> fin (_header seg) = false -> payload seg = [] ->
  TCPReceiver.segment_received (opened cap isn) seg = opened cap isn.
Proof.
  intros Hc Hs Hf Hp. unfold TCPReceiver.segment_received. rewrite Hs. unfold place. simpl.
  change (copy (_payload seg)) with (payload seg). rewrite Hp, Hf.
  by rewrite push_nothing by (done || apply u64_range).
Qed.

Lemma clean_shutdown_open c : input_ended (inbound_stream c) = false -> clean_shutdown c = c.
Proof. intros H. unfold clean_shutdown. rewrite H. cbn [andb]. by rewrite H, andb_false_r. Qed.

(** [sendseg] with nothing queued, on an open connection. *)
Lemma sendseg_empty c a :
  segments_out (_sender c) = [] -> input_ended (inbound_stream c) = false -> _rst_set c = false ->
  _rec_fin_seqno c = None -> TCPReceiver.ackno (_receiver c) = Some a ->
  sendseg c = push_out c (stamp TCPSegment.new a (window_size (_receiver c))).
Proof.
  intros Hq He Hr Hf Ha. rewrite sendseg_eq. unfold to_send. rewrite Hq. cbn [fold_left].
  assert (set_queue c [] = c) as -> by (unfold set_queue, set_segments_out; rewrite <- Hq; by destruct c as [? ? [] ? ? ? ? ? ? ? ? ?]).
  unfold send_one. simpl. rewrite Ha, Hf, Hr. apply clean_shutdown_open. done.
Qed.

(** The sender's SYN. *)
Definition syn_segment (isn : WrappingInt32) : TCPSegment := mk_segment (wrap 0 isn) true false Buffer_empty.

Section handshake.
Context (cfg : TCPConfig) (random : Z) (Hcfg : config_wf cfg).
Let isn : WrappingInt32 := TCPSender._isn (_sender (new cfg random)).
Context (Hisn : raw_value isn + 1 < 4294967296).

(** The sender that has sent its SYN, and its queue was taken. *)
Definition syn_sent : TCPSender := set_segments_out (fill_window (_sender (new cfg random))) [].

Lemma isn_wf : WrappingIntegers.wf isn.
Proof. apply (TCPSender.inv_isn []), (inv_sender [] (new cfg random)), connection_inv_new, Hcfg. Qed.

Lemma syn_sent_inv : TCPSender.inv [] syn_sent.
Proof. apply TCPSender.inv_drain, fill_window_eq, (inv_sender [] (new cfg random)), connection_inv_new, Hcfg. Qed.

Lemma syn_sent_acked w :
  is_u16 w ->
  let s := ack_received syn_sent (wrap 1 isn) w in
  sender_summary s = S.SYN_ACKED /\ segments_out s = [].
Proof.
  intros Hw. destruct (syn_acked syn_sent w syn_sent_inv) as (Hn & Hb & Hq & He & Her); try done.
  split; [|done]. unfold sender_summary, next_seqno_absolute, TCPSender.bytes_in_flight, stream_in.
  change (TCPSender._isn syn_sent) with isn in *. rewrite Her, Hn, Hb. unfold eof. rewrite He. reflexivity.
Qed.

Definition after_connect (segs : list TCPSegment) : TCPConnection :=
  mkConnection cfg (TCPReceiver.new (recv_capacity cfg)) syn_sent segs true 0 true false false false true None.

Lemma connect_new : connect (new cfg random) = after_connect [syn_segment isn].
Proof. reflexivity. Qed.

(** A listener that got a SYN answers with its own, acknowledging it. *)
Lemma listener_syn peer_isn :
  WrappingIntegers.wf peer_isn ->
  segment_received (new cfg random) (syn_segment peer_isn) =
  mkConnection cfg (opened (recv_capacity cfg) peer_isn) syn_sent
    [stamp (syn_segment isn) (wrap 1 peer_isn) (window_size (opened (recv_capacity cfg) peer_isn))]
    true 0 true false false false true None.
Proof.
  intros Hp.
  assert (TCPReceiver.segment_received (TCPReceiver.new (recv_capacity cfg)) (syn_segment peer_isn) =
    opened (recv_capacity cfg) peer_isn) as Hr.
  { rewrite receiver_syn; [|exact (wf_recv_capacity _ Hcfg)|apply wf_wrap|reflexivity|reflexivity|reflexivity].
    f_equal. by apply wrap_0. }
  unfold segment_received. change (_receiver (set_time _ _)) with (TCPReceiver.new (recv_capacity cfg)).
  rewrite Hr. reflexivity.
Qed.

(** An end that is open and has sent only its SYN, which was acknowledged. *)
Definition established (peer_isn : WrappingInt32) (w : Z) : TCPConnection :=
  mkConnection cfg (opened (recv_capacity cfg) peer_isn) (ack_received syn_sent (wrap 1 isn) (u16 w))
    [] true 0 true false false false true None.

(** The opener gets the answer and acknowledges it. *)
Lemma opener_established peer_isn w :
  WrappingIntegers.wf peer_isn ->
  segment_received (after_connect []) (stamp (syn_segment peer_isn) (wrap 1 isn) w) =
  push_out (established peer_isn w) (stamp TCPSegment.new (wrap 1 peer_isn) (window_size (opened (recv_capacity cfg) peer_isn))).
Proof.
  intros Hp. set (seg := stamp (syn_segment peer_isn) (wrap 1 isn) w) in *.
  assert (TCPReceiver.segment_received (TCPReceiver.new (recv_capacity cfg)) seg =
    opened (recv_capacity cfg) peer_isn) as Hr.
  { rewrite receiver_syn; [|exact (wf_recv_capacity _ Hcfg)|apply wf_wrap|reflexivity|reflexivity|reflexivity].
    f_equal. by apply wrap_0. }
  destruct (syn_sent_acked (u16 w) (u16_range w)) as [_ Hq].
  transitivity (sendseg (established peer_isn w)); [|by apply (sendseg_empty (established peer_isn w) (wrap 1 peer_isn))].
  unfold segment_received. change (_receiver (set_time _ _)) with (TCPReceiver.new (recv_capacity cfg)).
  rewrite Hr. change (clean_shutdown (set_sender _ _)) with (established peer_isn w).
  cbn [negb andb _fin_ack_sent after_connect]. change (fin (_header seg)) with false.
  change (0 <? length_in_sequence_space seg) with true. cbn [negb andb].
  apply clean_shutdown_open. rewrite (sendseg_empty (established peer_isn w) (wrap 1 peer_isn)); done.
Qed.

(** The listener gets that acknowledgment. *)
Lemma listener_established peer_isn w :
  segment_received
    (mkConnection cfg (opened (recv_capacity cfg) peer_isn) syn_sent [] true 0 true false false false true None)
    (stamp TCPSegment.new (wrap 1 isn) w) = established peer_isn w.
Proof.
  set (seg := stamp TCPSegment.new (wrap 1 isn) w) in *.
  assert (TCPReceiver.segment_received (opened (recv_capacity cfg) peer_isn) seg =
    opened (recv_capacity cfg) peer_isn) as Hr
    by (apply receiver_empty; [exact (wf_recv_capacity _ Hcfg)|reflexivity|reflexivity|reflexivity]).
  unfold segment_received. change (_receiver (set_time _ _)) with (opened (recv_capacity cfg) peer_isn).
  rewrite Hr. change (clean_shutdown (set_sender _ _)) with (established peer_isn w). by apply clean_shutdown_open.
Qed.

Lemma established_state peer_isn w : state (established peer_isn w) = of_State ESTABLISHED.
Proof.
  destruct (syn_sent_acked (u16 w) (u16_range w)) as [Hsum _]. unfold state, of_parts. simpl. by rewrite Hsum.
Qed.
End handshake.

(** Legality of a run is decidable. *)
Global Instance arrives_dec c seg : Decision (arrives c seg).
Proof.
  refine (cast_if (decide (is_u32 (raw_value (seqno (_header seg))) /\
    is_u32 (raw_value (TCPHeader.ackno (_header seg))) /\ is_u16 (win (_header seg)) /\
    (TCPReceiver._capacity (_receiver c) < 9223372036854775808 /\
     bytes_written (TCPReceiver.stream_out (_receiver c)) + zlen (payload seg) < 9223372028264841216))));
    [by constructor; naive_solver|intros []; naive_solver].
Defined.

Global Instance op_ok_dec o c : Decision (op_ok o c).
Proof. destruct o; simpl; apply _. Defined.

Fixpoint ops_okb (ops : list op) (c : TCPConnection) : bool :=
  match ops with
  | [] => true
  | o :: ops => bool_decide (op_ok o c) && ops_okb ops (fst (fst (step o c)))
  end.

Lemma ops_okb_sound ops : forall c, ops_okb ops c = true -> ops_ok ops c.
Proof.
  induction ops as [|o ops IH]; intros c; cbn [ops_okb ops_ok]; [done|].
  intros [?%bool_decide_eq_true ?]%andb_true_iff. auto.
Qed.

(** The owner takes the queue. *)
Definition dequeue (c : TCPConnection) : TCPConnection := fst (fst (step Dequeue c)).

(** C15 The three-way handshake: for any two configurations whose initial sequence
    numbers are not the last one, [connect] sends one segment; the listener
    answers it with one segment; the opener answers that with one segment; and
    when it arrives both ends are in the official state ESTABLISHED (having
    been in SYN_SENT and SYN_RCVD). *)
Theorem three_way_handshake cfg_c cfg_s random_c random_s :
  config_wf cfg_c -> config_wf cfg_s ->
  raw_value (TCPSender._isn (_sender (new cfg_c random_c))) + 1 < 4294967296 ->
  raw_value (TCPSender._isn (_sender (new cfg_s random_s))) + 1 < 4294967296 ->
  exists s1 s2 s3,
    let client1 := connect (new cfg_c random_c) in
    let server1 := segment_received (new cfg_s random_s) s1 in
    let client2 := segment_received (dequeue client1) s2 in
    let server2 := segment_received (dequeue server1) s3 in
    _segments_out client1 = [s1] /\ state client1 = of_State SYN_SENT /\
    _segments_out server1 = [s2] /\ state server1 = of_State SYN_RCVD /\
    _segments_out client2 = [s3] /\ state client2 = of_State ESTABLISHED /\
    _segments_out server2 = [] /\ state server2 = of_State ESTABLISHED.
Proof.
  intros Hc Hs Hic His. set (isn_c := TCPSender._isn (_sender (new cfg_c random_c))) in *.
  set (isn_s := TCPSender._isn (_sender (new cfg_s random_s))) in *.
  pose proof (isn_wf cfg_c random_c Hc : WrappingIntegers.wf isn_c) as Hwc.
  pose proof (isn_wf cfg_s random_s Hs : WrappingIntegers.wf isn_s) as Hws.
  set (ws := window_size (opened (recv_capacity cfg_s) isn_c)). set (wc := window_size (opened (recv_capacity cfg_c) isn_s)).
  exists (syn_segment isn_c), (stamp (syn_segment isn_s) (wrap 1 isn_c) ws), (stamp TCPSegment.new (wrap 1 isn_s) wc).
  pose proof (opener_established cfg_c random_c Hc Hic isn_s ws Hws) as E1.
  pose proof (listener_established cfg_s random_s Hs isn_c wc) as E2.
  cbv zeta. rewrite connect_new, listener_syn by done. split_and!; try done.
  - exact (f_equal _segments_out E1).
  - exact (eq_trans (f_equal state E1) (established_state cfg_c random_c Hc Hic isn_s ws)).
  - exact (f_equal _segments_out E2).
  - exact (eq_trans (f_equal state E2) (established_state cfg_s random_s Hs His isn_c wc)).
Qed.

Lemma three_way_handshake_witness :
  exists s1 s2 s3,
    _segments_out (segment_received (dequeue (connect (new default_config 7))) s2) = [s3] /\
    _segments_out (segment_received (new default_config 99) s1) = [s2].
Proof.
  destruct (three_way_handshake default_config default_config 7 99) as (s1 & s2 & s3 & _ & _ & H2 & _ & H3 & _);
    [constructor; vm_compute; try split; congruence|constructor; vm_compute; try split; congruence|
     reflexivity|reflexivity|].
  exists s1, s2, s3. split; [exact H3|exact H2].
Defined.

(** A bare acknowledgment does not carry the sender's sequence number: when
    the sender has nothing queued, the segment [sendseg] makes up has sequence
    number 0, whatever [next_seqno] is. *)
Theorem bare_ack_seqno_zero data c :
  inv data c -> segments_out (_sender c) = [] ->
  exists seg, _segments_out (sendseg c) = _segments_out c ++ [seg] /\
    seqno (_header seg) = mkW32 0 /\ length_in_sequence_space seg = 0 /\
    (raw_value (TCPSender.next_seqno (_sender c)) <> 0 -> seqno (_header seg) <> TCPSender.next_seqno (_sender c)).
Proof.
  intros Hi Hq. destruct (sendseg_spec data c Hi) as [_ [_ _ _ (segs & Ho & Hc & _)]].
  unfold to_send in Hc. rewrite Hq in Hc. apply Forall2_cons_inv_l in Hc as (seg & l & (Hs & Hsy & Hfi & Hp) & Hl & ->).
  apply Forall2_nil_inv_l in Hl as ->. exists seg. rewrite Ho. change (seqno (_header TCPSegment.new)) with (mkW32 0) in Hs.
  split_and!; try done.
  - rewrite seglen_eq; rewrite Hp; [rewrite Hsy, Hfi; done|vm_compute; split; congruence].
  - rewrite Hs. intros Hne Heq. apply Hne. by rewrite <- Heq.
Qed.

(** Witnesses *)

Definition demo_cfg : TCPConfig := mkTCPConfig 100 50 50 (Some (mkW32 1000)).

Lemma demo_cfg_wf : config_wf demo_cfg.
Proof. constructor; vm_compute; split; congruence. Qed.

(** The peer's answer to our SYN, some data from it, and a reset. *)
Definition demo_synack : TCPSegment := stamp (syn_segment (mkW32 5)) (mkW32 1001) 40.
Definition demo_peer_data : TCPSegment := stamp (data_segment (mkW32 6) false false [9; 9]) (mkW32 1003) 40.
Definition demo_reset : TCPSegment := set_rst_flag demo_peer_data.

Definition demo_ops : list op :=
  [Connect; Dequeue; SegmentReceived demo_synack; AppWrite [1; 2]; TimePasses 30; SegmentReceived demo_peer_data;
   AppRead 1; EndInputStream; Dequeue].

Lemma demo_ops_ok : ops_ok demo_ops (new demo_cfg 0).
Proof. apply ops_okb_sound. vm_compute. reflexivity. Qed.

(** States reached by legal runs satisfy the invariant. *)
Lemma demo_reached ops :
  ops_okb ops (new demo_cfg 0) = true ->
  let '(c, d, _) := run ops (new demo_cfg 0) in zlen d + 2 < 18446744073709551616 -> inv d c.
Proof.
  intros Hok. pose proof (connection_run_spec ops [] _ (connection_inv_new demo_cfg 0 demo_cfg_wf) (ops_okb_sound _ _ Hok)) as H.
  destruct (run ops (new demo_cfg 0)) as [[c d] segs]. intros Hz. by destruct H as ([Hi _ _] & _).
Qed.

Definition demo_connection : TCPConnection := fst (fst (run (firstn 4 demo_ops) (new demo_cfg 0))).

Lemma demo_connection_inv : inv [1; 2] demo_connection.
Proof.
  pose proof (demo_reached (firstn 4 demo_ops)) as H. unfold demo_connection.
  destruct (run (firstn 4 demo_ops) (new demo_cfg 0)) as [[c d] segs] eqn:E.
  assert (d = [1; 2]) as -> by (vm_compute in E; injection E as _ <- _; reflexivity).
  apply H; vm_compute; reflexivity.
Qed.

(** Eight retransmissions of the SYN. *)
Definition demo_retx : TCPConnection :=
  fst (fst (run (Connect :: map (fun k => TimePasses (100 * 2 ^ k)) [0; 1; 2; 3; 4; 5; 6; 7]) (new demo_cfg 0))).

Lemma demo_retx_inv : inv [] demo_retx.
Proof.
  pose proof (demo_reached (Connect :: map (fun k => TimePasses (100 * 2 ^ k)) [0; 1; 2; 3; 4; 5; 6; 7])) as H.
  unfold demo_retx. destruct (run _ (new demo_cfg 0)) as [[c d] segs] eqn:E.
  assert (d = []) as -> by (vm_compute in E; injection E as _ <- _; reflexivity).
  apply H; vm_compute; reflexivity.
Qed.

(** Both sides have closed; the connection lingers. *)
Definition demo_fin : TCPSegment := stamp (data_segment (mkW32 6) false true []) (mkW32 1002) 40.
Definition demo_close_ops : list op :=
  [Connect; SegmentReceived demo_synack; EndInputStream; SegmentReceived demo_fin].
Definition demo_lingering : TCPConnection := fst (fst (run demo_close_ops (new demo_cfg 0))).

Lemma demo_lingering_inv : inv [] demo_lingering.
Proof.
  pose proof (demo_reached demo_close_ops) as H.
  unfold demo_lingering. destruct (run _ (new demo_cfg 0)) as [[c d] segs] eqn:E.
  assert (d = []) as -> by (vm_compute in E; injection E as _ <- _; reflexivity).
  apply H; vm_compute; reflexivity.
Qed.

Lemma connection_run_correct_witness :
  let '(c, data, segs) := run demo_ops (new demo_cfg 0) in
  data = [1; 2] /\ length segs = 5%nat /\
  Forall (fun seg => (exists pos, seg_of data (TCPSender._isn (_sender c)) pos seg) \/ empty_ack seg) segs.
Proof.
  pose proof (connection_run_correct demo_cfg 0 demo_ops demo_cfg_wf demo_ops_ok) as H.
  destruct (run demo_ops (new demo_cfg 0)) as [[c data] segs] eqn:E.
  assert (data = [1; 2] /\ length segs = 5%nat) as [-> Hl]
    by (vm_compute in E; injection E as _ <- <-; split; reflexivity).
  split; [reflexivity|]. split; [exact Hl|]. apply H. reflexivity.
Defined.

Lemma sendseg_stamps_witness :
  exists segs, _segments_out (sendseg demo_connection) = _segments_out demo_connection ++ segs /\
    Forall (fun seg => ack (_header seg) = true /\ TCPHeader.ackno (_header seg) = mkW32 6 /\
      win (_header seg) = 50) segs.
Proof.
  destruct (sendseg_stamps [1; 2] demo_connection demo_connection_inv) as (segs & H1 & _ & _ & _ & H2).
  exists segs. split; [exact H1|exact (H2 (mkW32 6) eq_refl)].
Defined.

Lemma rst_received_kills_witness :
  state demo_connection = of_State ESTABLISHED /\
  state (segment_received demo_connection demo_reset) = of_State RESET.
Proof.
  split; [vm_compute; reflexivity|].
  apply (rst_received_kills demo_connection demo_reset); vm_compute; reflexivity.
Defined.

Lemma too_many_retransmissions_reset_witness :
  _active demo_retx = true /\ state (tick demo_retx 25600) = of_State RESET.
Proof.
  split; [vm_compute; reflexivity|].
  apply (too_many_retransmissions_reset [] demo_retx 25600);
    [exact demo_retx_inv|vm_compute; reflexivity|vm_compute; reflexivity].
Defined.

Lemma ends_only_when_finished_witness :
  state demo_lingering = of_State TIME_WAIT /\ state (tick demo_lingering 1000) = of_State CLOSED /\
  finished (tick demo_lingering 1000).
Proof.
  split; [vm_compute; reflexivity|]. split; [vm_compute; reflexivity|].
  apply (ends_only_when_finished [] demo_lingering demo_lingering_inv);
    vm_compute; (reflexivity || congruence).
Defined.

Lemma bare_ack_seqno_zero_witness :
  exists seg, _segments_out (sendseg demo_connection) = _segments_out demo_connection ++ [seg] /\
    seqno (_header seg) = mkW32 0.
Proof.
  destruct (bare_ack_seqno_zero [1; 2] demo_connection demo_connection_inv) as (seg & H1 & H2 & _);
    [vm_compute; reflexivity|].
  exists seg. split; [exact H1|exact H2].
Defined.
