(* ===== verification/ConnectionPair.v ===== *)
(** * ConnectionPair: what a connection delivers

    Runs of a [TCPConnection] seen from its reading side, and two of them
    facing each other.  Between its operations a connection touches its
    receiver in two ways only: the segments it accepts are handed to
    [TCPReceiver::segment_received], and an error marks the inbound stream.  So
    a connection that hears only segments of one stream (and the bare
    acknowledgments that a [TCPConnection] sends) delivers a prefix of that
    stream, and of two connections each delivers a prefix of what was written to
    the other. *)

From S2P Require Import Prelude WrappingIntegers ByteStream StreamReassembler Buffer TCPHeader TCPSegment TCPConfig.
From S2P Require Import SegmentOf TCPReceiver TCPSender TCPState TCPConnection.

(** ** Runs of a connection, extended at the end *)

(** The bytes removed by the reads of a run. *)
Fixpoint delivered (ops : list op) (c : TCPConnection) : bytes :=
  match ops with
  | [] => []
  | o :: ops =>
      match o with AppRead len => snd (ByteStream.read (inbound_stream c) len) | _ => [] end ++
      delivered ops (fst (fst (TCPConnection.step o c)))
  end.

(** The segments that arrive in a run. *)
Definition arrivals (ops : list op) : list TCPSegment :=
  omap (fun o => match o with SegmentReceived seg => Some seg | _ => None end) ops.

(** Every arrival finds room to count its bytes. *)
Fixpoint roomy (ops : list op) (c : TCPConnection) : Prop :=
  match ops with
  | [] => True
  | o :: ops =>
      match o with SegmentReceived seg => headroom (_receiver c) seg | _ => True end /\
      roomy ops (fst (fst (TCPConnection.step o c)))
  end.

Section runs.
Context (c0 : TCPConnection).

Lemma run_snoc ops o c d segs c' d' segs' :
  TCPConnection.run ops c0 = (c, d, segs) -> TCPConnection.step o c = (c', d', segs') ->
  TCPConnection.run (ops ++ [o]) c0 = (c', d ++ d', segs ++ segs').
Proof.
  revert c0 d segs. induction ops as [|o' ops IH]; intros c1 d segs; simpl.
  - intros [= -> <- <-] ->. by rewrite !app_nil_r.
  - destruct (TCPConnection.step o' c1) as [[c2 d2] segs2].
    destruct (TCPConnection.run ops c2) as [[c3 d3] segs3] eqn:E. intros [= -> <- <-] Hs.
    rewrite (IH _ _ _ E Hs). by rewrite !app_assoc.
Qed.

Lemma delivered_snoc ops o c d segs :
  TCPConnection.run ops c0 = (c, d, segs) ->
  delivered (ops ++ [o]) c0 = delivered ops c0 ++
    match o with AppRead len => snd (ByteStream.read (inbound_stream c) len) | _ => [] end.
Proof.
  revert c0 d segs. induction ops as [|o' ops IH]; intros c1 d segs; simpl.
  - intros [= -> _ _]. by rewrite app_nil_r.
  - destruct (TCPConnection.step o' c1) as [[c2 d2] segs2].
    destruct (TCPConnection.run ops c2) as [[c3 d3] segs3] eqn:E. intros [= -> _ _].
    simpl. by rewrite (IH _ _ _ E), app_assoc.
Qed.

Lemma roomy_snoc ops o c d segs :
  TCPConnection.run ops c0 = (c, d, segs) -> roomy (ops ++ [o]) c0 ->
  roomy ops c0 /\ match o with SegmentReceived seg => headroom (_receiver c) seg | _ => True end.
Proof.
  revert c0 d segs. induction ops as [|o' ops IH]; intros c1 d segs; simpl.
  - intros [= -> _ _] [? _]. done.
  - destruct (TCPConnection.step o' c1) as [[c2 d2] segs2].
    destruct (TCPConnection.run ops c2) as [[c3 d3] segs3] eqn:E. intros [= -> _ _] [? Hr].
    simpl in *. destruct (IH _ _ _ E Hr). done.
Qed.

Lemma ops_ok_snoc ops o c d segs :
  TCPConnection.run ops c0 = (c, d, segs) -> TCPConnection.ops_ok ops c0 -> TCPConnection.op_ok o c ->
  TCPConnection.ops_ok (ops ++ [o]) c0.
Proof.
  revert c0 d segs. induction ops as [|o' ops IH]; intros c1 d segs; simpl.
  - intros [= -> _ _] _ ?. done.
  - destruct (TCPConnection.step o' c1) as [[c2 d2] segs2].
    destruct (TCPConnection.run ops c2) as [[c3 d3] segs3] eqn:E. intros [= -> _ _] [? Hr] Ho.
    simpl in *. split; [done|]. by eapply IH.
Qed.

(** The outbound stream of a connection that was not told to end is open. *)
Lemma run_not_ended ops c d segs :
  TCPConnection.inv [] c0 -> input_ended (stream_in (_sender c0)) = false ->
  TCPConnection.run ops c0 = (c, d, segs) -> TCPConnection.ops_ok ops c0 ->
  zlen d + 2 < 18446744073709551616 -> existsb ends_stream ops = false ->
  input_ended (stream_in (_sender c)) = false.
Proof.
  intros Hi He Hr Hok Hz Hx. pose proof (connection_run_spec ops [] c0 Hi Hok) as Hs. rewrite Hr in Hs.
  destruct Hs as ([_ _ Hend] & _); [lens_nil; lia|]. by rewrite Hend, He, Hx.
Qed.
End runs.

(** ** The receiver inside a connection *)

(** [rc'] is [rc], its stream possibly marked with an error. *)
Definition marked (rc rc' : TCPReceiver) : Prop :=
  rc' = rc \/ rc' = set_stream_out rc (set_error (TCPReceiver.stream_out rc)).

Global Instance marked_refl : Reflexive marked.
Proof. intros rc. by left. Qed.

Global Instance marked_trans : Transitive marked.
Proof. intros r1 r2 r3 [-> | ->] [-> | ->]; [by left|by right|by right|by right]. Qed.

Lemma clean_shutdown_receiver c : _receiver (clean_shutdown c) = _receiver c.
Proof. by destruct (clean_shutdown_eq c) as (l & a & -> & _). Qed.

Lemma send_one_marked c seg : marked (_receiver c) (_receiver (send_one c seg)).
Proof.
  unfold send_one. destruct (syn (_header seg)); simpl;
    (destruct (TCPReceiver.ackno (_receiver c)); simpl; [destruct (_rec_fin_seqno c); simpl; [destruct (_ <? _); simpl|]|]);
    (destruct (_rst_set c); simpl; [right|left]; reflexivity).
Qed.

Lemma sendseg_marked c : marked (_receiver c) (_receiver (sendseg c)).
Proof.
  rewrite sendseg_eq, clean_shutdown_receiver. change (_receiver c) with (_receiver (set_queue c [])).
  generalize (set_queue c []). induction (to_send c) as [|seg q IH]; intros c1; simpl; [done|].
  etrans; [apply send_one_marked|apply IH].
Qed.

Lemma tick_marked c ms : marked (_receiver c) (_receiver (tick c ms)).
Proof.
  unfold tick. destruct (negb (_active c)); [done|]. set (c1 := set_sender _ _).
  set (c2 := if _ <? _ then _ else c1).
  assert (marked (_receiver c) (_receiver (clean_shutdown c2))) as Hm.
  { rewrite clean_shutdown_receiver. subst c2. case_match; [|done]. apply (sendseg_marked (set_rst c1 true)). }
  destruct (negb _); [done|]. destruct (segments_out _); [done|]. etrans; [exact Hm|apply sendseg_marked].
Qed.

(** A segment is ignored or handed to the receiver. *)
Lemma segment_received_marked c seg :
  marked (_receiver c) (_receiver (TCPConnection.segment_received c seg)) \/
  marked (TCPReceiver.segment_received (_receiver c) seg) (_receiver (TCPConnection.segment_received c seg)).
Proof.
  unfold TCPConnection.segment_received. destruct (negb (_active c)); [by left|].
  destruct (negb (_syn_set c) && negb (syn (_header seg))); [by left|].
  set (c1 := if negb (_syn_set c) && syn (_header seg) then _ else c).
  assert (_receiver c1 = _receiver c) as Hr by (subst c1; by destruct (negb (_syn_set c) && syn (_header seg))).
  clearbody c1. destruct (rst (_header seg)).
  { left. rewrite <- Hr. destruct (negb _ && negb _); [by left|by right]. }
  right. cbn [set_time _receiver]. rewrite Hr. set (c2 := set_receiver _ _). set (c3 := if ack (_header seg) then _ else c2).
  assert (_receiver c3 = TCPReceiver.segment_received (_receiver c) seg) as H3.
  { subst c3. destruct (ack (_header seg)); [|done]. by rewrite clean_shutdown_receiver. }
  destruct (_fin_ack_sent c3 && negb (fin (_header seg))); [by rewrite H3|].
  set (c4 := if fin (_header seg) then _ else c3).
  assert (_receiver c4 = _receiver c3) as H4 by (subst c4; by destruct (fin (_header seg))).
  rewrite clean_shutdown_receiver, <- H3, <- H4. case_match; [apply sendseg_marked|done].
Qed.

(** What an operation does to the receiver, errors aside. *)
Definition receiver_step (o : op) (rc rc' : TCPReceiver) : Prop :=
  match o with
  | SegmentReceived seg => rc' = rc \/ rc' = TCPReceiver.segment_received rc seg
  | AppRead len => rc' = set_stream_out rc (fst (ByteStream.read (TCPReceiver.stream_out rc) len))
  | _ => rc' = rc
  end.

Lemma step_receiver o c :
  exists rc, receiver_step o (_receiver c) rc /\ marked rc (_receiver (fst (fst (TCPConnection.step o c)))).
Proof.
  destruct o as [seg|d|len| | |ms|]; cbn [TCPConnection.step receiver_step].
  - destruct (segment_received_marked c seg); eexists; eauto.
  - exists (_receiver c). split; [done|]. unfold TCPConnection.write. destruct (ByteStream.write _ _) as [st n].
    apply (sendseg_marked (set_sender c _)).
  - eexists. split; [done|]. done.
  - exists (_receiver c). split; [done|]. apply (sendseg_marked (set_closed (set_sender c _) true)).
  - exists (_receiver c). split; [done|]. apply (sendseg_marked (set_sender c _)).
  - exists (_receiver c). split; [done|]. apply tick_marked.
  - exists (_receiver c). done.
Qed.

(** ** Hearing one stream *)

(** What a peer that writes [stream] may send: segments of the stream, and bare
    acknowledgments. *)
Definition speaks (stream : bytes) (isn : WrappingInt32) (seg : TCPSegment) : Prop :=
  (exists pos, seg_of stream isn pos seg) \/ empty_ack seg.

Record hears (stream out : bytes) (isn : WrappingInt32) (rc : TCPReceiver) : Prop := mkHears {
  he_sound : sound stream out (_reassembler rc);
  he_isn : isn_ok isn rc
}.

Lemma marked_hears stream out isn rc rc' : marked rc rc' -> hears stream out isn rc -> hears stream out isn rc'.
Proof.
  intros [-> | ->] [[Hi Ho Hn Hm] Hisn]; [done|]. constructor; [|done]. constructor; try done.
  apply inv_set_output; try done. apply inv_set_error, StreamReassembler.inv_output, Hi.
Qed.

(** A push without bytes adds nothing. *)
Lemma pushed_nothing stream out index r r' : sound stream out r -> pushed [] index r r' -> sound stream out r'.
Proof.
  intros [Hi Ho Hn Hm] [Hi' Hc (bs & Hb & Hn' & _ & Hbs) Hm' _].
  assert (forall k, data_at index [] k = None) as Hnone by (intros k; unfold data_at; by case_match).
  pose proof (inv_next_u64 r Hi) as Hu.
  destruct (ztake_snoc stream (nextIndex r) bs) as [Hl Ht]; [words; lia| |].
  { intros i b Hb'. apply Hbs in Hb' as [Hd|Hd]; [by rewrite Hnone in Hd|].
    apply Hm in Hd as (b' & [= <-] & ?). done. }
  constructor; try done.
  - by rewrite Hb, app_assoc, Ho, Hn', Ht.
  - lia.
  - intros k v Hk. apply Hm' in Hk as [Hk|(b & -> & Hk)]; [by apply Hm|]. by rewrite Hnone in Hk.
Qed.

Section hearing.
Context (stream : bytes) (isn : WrappingInt32).
Context (Hisn : WrappingIntegers.wf isn) (Hshort : zlen stream < 2147483646).

Lemma near_short out rc pos seg :
  hears stream out isn rc -> seg_of stream isn pos seg ->
  Z.abs (index_of pos seg + 1 - bytes_written (TCPReceiver.stream_out rc)) < 2147483648.
Proof.
  intros [Hsd _] [_ _ (H0 & Hl & _) _]. pose proof (zlen_nonneg (payload seg)).
  pose proof (sound_next _ _ _ Hsd) as Hn. pose proof (inv_next _ (sound_inv _ _ _ Hsd)) as He.
  pose proof (inv_next_u64 _ (sound_inv _ _ _ Hsd)) as Hu.
  unfold TCPReceiver.stream_out, StreamReassembler.stream_out. rewrite <- He. words. lia.
Qed.

Lemma arrival_heard out rc seg :
  TCPReceiver.inv rc -> headroom rc seg -> hears stream out isn rc -> speaks stream isn seg ->
  hears stream out isn (TCPReceiver.segment_received rc seg).
Proof.
  intros Hi Hroom Hh [(pos & Hseg)|(Hp & Hs & _ & Hq)].
  - rewrite (segment_received_abs stream isn out pos) by (try done; try lia; try apply Hh; intros _; by eapply near_short).
    unfold arrive_abs. destruct (_ || _); [|done]. pose proof (seg_excerpt _ _ _ _ Hseg) as (H0 & Hl & _).
    destruct Hh as [Hsd _]. constructor; [|done]. eapply pushed_sound; [exact Hsd|apply Hseg|].
    apply push_pushed; [apply Hsd|done|lia].
  - unfold TCPReceiver.segment_received. rewrite Hs. destruct (_isn_set rc) eqn:Hset; [|done]. cbn [negb].
    destruct (place_pushed rc seg (seqno (_header seg)) Hi Hroom) as (index & Hpu & _ & _ & Hk & _);
      [by rewrite Hq|]. rewrite Hp in Hpu. destruct Hh as [Hsd Hok].
    constructor; [by eapply pushed_nothing|]. intros _. rewrite Hk. auto.
Qed.

Lemma read_heard out rc len :
  0 <= len -> hears stream out isn rc ->
  hears stream (out ++ snd (ByteStream.read (TCPReceiver.stream_out rc) len)) isn
    (set_stream_out rc (fst (ByteStream.read (TCPReceiver.stream_out rc) len))).
Proof.
  intros Hl [Hsd Hok]. pose proof (step_sound stream out (ReadOut len) _ ltac:(lia) Hsd Hl) as Hst.
  pose proof (set_stream_out_read rc len) as Hrd.
  destruct (ByteStream.read (TCPReceiver.stream_out rc) len) as [o' b].
  destruct (StreamReassembler.step (ReadOut len) (_reassembler rc)) as [r' b'].
  destruct Hrd as [E ->]. cbn [fst snd]. rewrite E. by constructor.
Qed.

Lemma step_heard out data c o :
  TCPConnection.inv data c -> TCPConnection.op_ok o c -> Forall (speaks stream isn) (arrivals [o]) ->
  hears stream out isn (_receiver c) ->
  hears stream (out ++ match o with AppRead len => snd (ByteStream.read (inbound_stream c) len) | _ => [] end) isn
    (_receiver (fst (fst (TCPConnection.step o c)))).
Proof.
  intros Hi Ho Hsp Hh. destruct (step_receiver o c) as (rc & Hrc & Hm). apply (marked_hears _ _ _ _ _ Hm). clear Hm.
  destruct o as [seg|d|len| | |ms|]; cbn [receiver_step] in Hrc; rewrite ?app_nil_r; subst; try done.
  - apply Forall_cons in Hsp as [Hsp _]. destruct Hrc as [-> | ->]; [done|].
    apply arrival_heard; [apply Hi|apply Ho|done|done].
  - by apply read_heard.
Qed.

Lemma run_heard ops : forall out data c,
  TCPConnection.inv data c -> TCPConnection.ops_ok ops c -> Forall (speaks stream isn) (arrivals ops) ->
  hears stream out isn (_receiver c) ->
  let '(c', d, _) := TCPConnection.run ops c in
  zlen data + zlen d + 2 < 18446744073709551616 -> hears stream (out ++ delivered ops c) isn (_receiver c').
Proof.
  induction ops as [|o ops IH]; intros out data c Hi Hok Hsp Hh; cbn [TCPConnection.run delivered].
  { intros _. by rewrite app_nil_r. }
  destruct Hok as [Ho Hok]. pose proof (connection_step_spec data o c Hi Ho) as Hs.
  assert (Forall (speaks stream isn) (arrivals [o]) /\ Forall (speaks stream isn) (arrivals ops)) as [Hs1 Hs2].
  { change (o :: ops) with ([o] ++ ops) in Hsp. unfold arrivals in Hsp. by rewrite omap_app, Forall_app in Hsp. }
  pose proof (step_heard out data c o Hi Ho Hs1 Hh) as Hh1.
  destruct (TCPConnection.step o c) as [[c1 d1] segs1]. cbn [fst] in *.
  pose proof (fun out => IH out (data ++ d1) c1) as IH1. destruct (TCPConnection.run ops c1) as [[c2 d2] segs2].
  rewrite zlen_app. intros Hz. pose proof (zlen_nonneg d2). destruct Hs as ([Hi1 _ _] & _); [lia|].
  rewrite app_assoc. apply IH1; [done..|]. rewrite zlen_app. lia.
Qed.
End hearing.

(** ** Two connections *)

(** What reaches a peer is a copy, as far as the sender's fields go, of
    something that was sent. *)
Definition carries (sent received : list TCPSegment) : Prop :=
  Forall (fun seg => exists seg', seg' ∈ sent /\ same_core seg' seg) received.

Global Instance same_core_dec seg seg' : Decision (same_core seg seg').
Proof. unfold same_core. apply _. Defined.

Global Instance carries_dec sent received : Decision (carries sent received).
Proof. apply Forall_dec. intros seg. apply list_exist_dec. apply _. Defined.

Lemma speaks_core stream isn seg seg' : same_core seg seg' -> speaks stream isn seg -> speaks stream isn seg'.
Proof.
  intros (Hq & Hs & Hf & Hp) [(pos & [H1 H2 H3 H4])|(H1 & H2 & H3 & H4)].
  - left. exists pos. unfold index_of in *. constructor; unfold index_of; rewrite ?Hq, ?Hs, ?Hf, ?Hp; done.
  - right. unfold empty_ack. by rewrite Hq, Hs, Hf, Hp.
Qed.

Lemma pair_prefix cfgA randomA opsA cfgB randomB opsB :
  config_wf cfgA -> config_wf cfgB ->
  TCPConnection.ops_ok opsA (TCPConnection.new cfgA randomA) ->
  TCPConnection.ops_ok opsB (TCPConnection.new cfgB randomB) ->
  let '(a, dataA, sentA) := TCPConnection.run opsA (TCPConnection.new cfgA randomA) in
  let '(b, dataB, sentB) := TCPConnection.run opsB (TCPConnection.new cfgB randomB) in
  zlen dataA < 2147483646 -> zlen dataB + 2 < 18446744073709551616 -> carries sentA (arrivals opsB) ->
  let written := bytes_written (inbound_stream b) in
  delivered opsB (TCPConnection.new cfgB randomB) ++ _buf (inbound_stream b) = ztake written dataA /\
  written <= zlen dataA.
Proof.
  intros HA HB HokA HokB. pose proof (connection_inv_new cfgB randomB HB) as HiB.
  pose proof (connection_run_spec opsA [] _ (connection_inv_new cfgA randomA HA) HokA) as HrA.
  destruct (TCPConnection.run opsA _) as [[a dataA] sentA].
  pose proof (fun Hi Hs Hsp => run_heard dataA (TCPSender._isn (_sender (TCPConnection.new cfgA randomA))) Hi Hs opsB []
    [] (TCPConnection.new cfgB randomB) HiB HokB Hsp) as HrB.
  destruct (TCPConnection.run opsB _) as [[b dataB] sentB]. intros HzA HzB Hnet.
  destruct HrA as ([[HsA _ _] Hisn _] & _ & Hspk); [lens_nil; lia|].
  destruct HrB as [Hsd _].
  - rewrite <- Hisn. apply HsA.
  - done.
  - unfold carries in Hnet. eapply Forall_impl; [exact Hnet|]. intros seg (seg' & Hin & Hc).
    rewrite Forall_forall in Hspk. by apply (speaks_core _ _ seg'), Hspk.
  - constructor; [|done]. apply sound_new. apply HB.
  - lens_nil. lia.
  - destruct Hsd as [Hi Ho Hn _]. rewrite (inv_next _ Hi) in *. done.
Qed.

Lemma carries_all sent received : incl received sent -> carries sent received.
Proof. intros Hi. apply Forall_forall. intros seg Hin%list_elem_of_In. exists seg. split; [by apply list_elem_of_In, Hi|done]. Qed.

(** ** Property *)

(** C6 Two connections deliver to each other's reader a prefix of what was
    written: take any runs of two connections, connecting or listening, in
    which each hears only copies of segments the other has sent (lost,
    reordered, duplicated and with any acknowledgment fields).  The bytes each
    application has read, followed by the bytes waiting for it, are the first
    [bytes_written] bytes written to the other side (less than 2^31 - 2 of them, so
    that sequence numbers are not ambiguous).  An application writes nothing after
    it has ended its stream, and the capacities and the bytes received stay below
    about 2^63. *)
Theorem connection_pair_prefix cfgA randomA opsA cfgB randomB opsB :
  config_wf cfgA -> config_wf cfgB ->
  TCPConnection.ops_ok opsA (TCPConnection.new cfgA randomA) ->
  TCPConnection.ops_ok opsB (TCPConnection.new cfgB randomB) ->
  let '(a, dataA, sentA) := TCPConnection.run opsA (TCPConnection.new cfgA randomA) in
  let '(b, dataB, sentB) := TCPConnection.run opsB (TCPConnection.new cfgB randomB) in
  zlen dataA < 2147483646 -> zlen dataB < 2147483646 ->
  carries sentA (arrivals opsB) -> carries sentB (arrivals opsA) ->
  (let written := bytes_written (inbound_stream b) in
   delivered opsB (TCPConnection.new cfgB randomB) ++ _buf (inbound_stream b) = ztake written dataA /\
   written <= zlen dataA) /\
  (let written := bytes_written (inbound_stream a) in
   delivered opsA (TCPConnection.new cfgA randomA) ++ _buf (inbound_stream a) = ztake written dataB /\
   written <= zlen dataB).
Proof.
  intros HA HB HokA HokB. pose proof (pair_prefix cfgA randomA opsA cfgB randomB opsB HA HB HokA HokB) as H1.
  pose proof (pair_prefix cfgB randomB opsB cfgA randomA opsA HB HA HokB HokA) as H2.
  destruct (TCPConnection.run opsA _) as [[a dataA] sentA], (TCPConnection.run opsB _) as [[b dataB] sentB].
  intros. split; [apply H1|apply H2]; (done || lia).
Qed.

(** Witness: a handshake, three bytes one way and two the other; the first
    data segment arrives twice. *)

Definition sent_by (ops : list op) (c : TCPConnection) : list TCPSegment := snd (TCPConnection.run ops c).

Definition demo_a0 : TCPConnection := TCPConnection.new demo_cfg 5.
Definition demo_b0 : TCPConnection := TCPConnection.new demo_cfg 11.
Definition demo_a1 : list op := [Connect; Dequeue].
Definition demo_b1 : list op := map SegmentReceived (sent_by demo_a1 demo_a0) ++ [Dequeue].
Definition demo_a2 : list op :=
  demo_a1 ++ map SegmentReceived (sent_by demo_b1 demo_b0) ++ [AppWrite [1; 2; 3]; Dequeue].
Definition demo_b2 : list op :=
  demo_b1 ++ map SegmentReceived (skipn 1 (sent_by demo_a2 demo_a0)) ++ map SegmentReceived (sent_by demo_a2 demo_a0) ++
  [AppRead 2; AppWrite [8; 9]; Dequeue].
Definition demo_a3 : list op :=
  demo_a2 ++ map SegmentReceived (skipn 1 (sent_by demo_b2 demo_b0)) ++ [AppRead 10].

Lemma connection_pair_prefix_witness :
  delivered demo_b2 demo_b0 = [1; 2] /\
  exists n, delivered demo_b2 demo_b0 ++ _buf (inbound_stream (fst (fst (TCPConnection.run demo_b2 demo_b0)))) =
    ztake n [1; 2; 3].
Proof.
  split; [vm_compute; reflexivity|].
  pose proof (connection_pair_prefix demo_cfg 5 demo_a3 demo_cfg 11 demo_b2 demo_cfg_wf demo_cfg_wf) as H.
  specialize (H ltac:(apply ops_okb_sound; vm_compute; reflexivity) ltac:(apply ops_okb_sound; vm_compute; reflexivity)).
  fold demo_a0 demo_b0 in H.
  destruct (TCPConnection.run demo_a3 demo_a0) as [[a dataA] sentA] eqn:EA,
    (TCPConnection.run demo_b2 demo_b0) as [[b dataB] sentB] eqn:EB.
  assert (dataA = [1; 2; 3]) as -> by (vm_compute in EA; congruence).
  assert (dataB = [8; 9]) as -> by (vm_compute in EB; congruence).
  assert (incl (arrivals demo_b2) sentA) as H1.
  { vm_compute in EA. injection EA as _ <-. intros seg Hin. vm_compute in Hin |- *. tauto. }
  assert (incl (arrivals demo_a3) sentB) as H2.
  { vm_compute in EB. injection EB as _ <-. intros seg Hin. vm_compute in Hin |- *. tauto. }
  destruct H as [[H _] _]; [reflexivity|reflexivity|by apply carries_all|by apply carries_all|].
  exists (bytes_written (inbound_stream b)). exact H.
Defined.
