(* ===== verification/Progress.v ===== *)
(** * Progress: a sender and a receiver when everything arrives in order

    Lemmas about [TCPSender] and [TCPReceiver] for networks that deliver, shared
    by the two directions of a conversation ([Exchange], [Delivery]): what
    [fill_window] does with any window and what it leaves alone; a sender that
    waits for its turn ([ready]), one that pushes a string through a window
    ([pushing]) and one that is done ([spent]); and a receiver that gets a bare
    acknowledgment.

    The class [Resting] is what an exchange needs to know of the sender at the
    hearing end: acknowledgments of what it has sent leave it as it is. *)

From S2P Require Import Prelude WrappingIntegers ByteStream StreamReassembler Buffer TCPHeader TCPSegment TCPConfig.
From S2P Require Import SegmentOf RETimer TCPReceiver TCPSender TCPState TCPConnection EndToEnd Transfer.

(** ** The window *)

(** What [fill_window] does with any window; a window of 0 counts as 1. *)
Lemma fill_window_any data s a :
  let w := Z.max 1 (TCPSender._true_window_size s) in
  TCPSender.inv data s -> TCPSender._syn_flag s = true ->
  TCPSender._ackGot s = wrap a (TCPSender._isn s) -> 0 <= TCPSender._next_seqno s - a <= w ->
  let s' := fill_window s in
  TCPSender._next_seqno s' - a <= w /\ TCPSender.inv data s' /\
  (TCPSender._next_seqno s' - a = w \/ _buf (TCPSender._stream s') = [] /\ TCPSender._fin_flag s' = input_ended (TCPSender._stream s')).
Proof.
  intros w Hi Hsyn Hgot Hin s'. pose proof (TCPSender.inv_window _ _ Hi) as Hu.
  destruct (Z.eq_dec (TCPSender._true_window_size s) 0) as [H0|H0].
  - assert (w = 1) as -> by (subst w; lia). destruct (TCPSender._fin_flag s) eqn:Hfin.
    { subst s'. rewrite TCPSender.fill_window_fin by done. destruct (TCPSender.inv_fin _ _ Hi Hfin) as [? ->].
      split_and!; [lia|done|by right]. }
    destruct (TCPSender.fill_window_spec_zero data s Hi Hsyn Hfin H0) as (s1 & early & Hi1 & [[segs Hg] Hw Hx] & Es).
    destruct (TCPSender.fill_window_eq data s Hi) as [Hi' _]. fold s' in Hi', Es.
    assert (TCPSender.in_window a (TCPSender.set_window s 1)) as Hw1 by done. specialize (Hw a Hw1).
    pose proof (TCPSender.inv_window _ _ Hi1) as Hu1. pose proof (TCPSender.remain_eq a s1 Hu1 Hw) as Hr.
    pose proof (TCPSender.gr_window _ _ _ Hg) as Ew. simpl in Ew. destruct Hw as [_ Hle]. rewrite Ew in Hle, Hr.
    destruct early.
    + destruct Hx as (Hf & Hb & He & _). rewrite Es. rewrite Es in Hi'. split_and!; [lia|done|right].
      by rewrite Hf, He.
    + rewrite Es. simpl. rewrite Es in Hi'. split_and!; [lia|done|]. destruct Hx as [Hx|Hf]; [left; lia|right].
      destruct (TCPSender.inv_fin _ _ Hi1 Hf) as [Hb He]. by rewrite Hf, He.
  - assert (w = TCPSender._true_window_size s) as Ew by (subst w; words; lia).
    destruct (TCPSender.fill_window_open data s a Hi Hsyn H0) as (segs & _ & _ & _ & F3 & F4 & F5);
      [split; [done|lia]|]. fold s' in F3, F4, F5. rewrite Ew. done.
Qed.

(** What [fill_window] keeps: it changes the sender by these assignments only. *)
Section preserved.
Context (P : TCPSender -> Prop).
Context (P_stream : forall s len, P s -> P (set_stream s (fst (ByteStream.read (TCPSender._stream s) len)))) (P_fin : forall s b, P s -> P (set_fin_flag s b)).
Context (P_window : forall s w, P s -> P (set_window s w)) (P_syn : forall s b, P s -> P (set_syn_flag s b)).
Context (P_send : forall s n32 syn fin data, P s -> P (sendSegment s (mk_segment n32 syn fin data))).

Lemma fill_loop_preserves fuel : forall s n32 s' early, P s -> fill_loop fuel s n32 = Some (s', early) -> P s'.
Proof.
  induction fuel as [|fuel IH]; intros s n32 s' early Hs; [done|]. cbn [fill_loop].
  destruct (_ || _); [by intros [= <- _]|]. unfold make_segment.
  destruct (ByteStream.read _ _) as [st data] eqn:E. apply (f_equal fst) in E. cbn [fst] in E.
  assert (P (set_stream s st)) as Hst by (rewrite <- E; auto). clear E. destruct (_ && _).
  all: destruct (_ =? 0); [intros [= <- _]; auto|apply IH; auto].
Qed.

Lemma fill_window_preserves s : P s -> P (fill_window s).
Proof.
  intros Hs. unfold fill_window, fill_window_fuel. destruct (TCPSender._fin_flag s); [done|].
  destruct (TCPSender._syn_flag s); cbn [negb]; [|simpl; auto].
  assert (P (if TCPSender._true_window_size s =? 0 then set_window s 1 else s)) as H0 by (case_match; auto).
  destruct (fill_loop _ _ _) as [[s1 early]|] eqn:E; [|done]. apply fill_loop_preserves in E; [|done].
  destruct early; [done|]. simpl. case_match; auto.
Qed.
End preserved.

(** The timer has not expired, and runs while something is in flight. *)
Record timely (timeout elapsed : Z) (s : TCPSender) : Prop := mkTimely {
  tm_rto : rto (timer s) = timeout;
  tm_time : 0 <= _time (timer s) <= elapsed;
  tm_running : isRunning (timer s) = true \/ TCPSender.outSegments s = []
}.

Lemma fill_window_timely timeout elapsed s : timely timeout elapsed s -> timely timeout elapsed (fill_window s).
Proof.
  apply fill_window_preserves; try by (intros ? ? []).
  intros s1 n32 sy fi data [Hr Ht Hrun]. constructor; simpl; destruct (isRunning (timer s1)) eqn:E; simpl; try done; try lia; by left.
Qed.

(** No segment of the sender carries the flag RST. *)
Definition no_rst (segs : list TCPSegment) : Prop := Forall (fun seg => rst (_header seg) = false) segs.

Lemma fill_window_no_rst s : no_rst (TCPSender._segments_out s) -> no_rst (TCPSender._segments_out (fill_window s)).
Proof.
  apply (fill_window_preserves (fun s => no_rst (TCPSender._segments_out s))); try done.
  intros s1 n32 sy fi data Hs. apply Forall_app. split; [done|]. by apply Forall_singleton.
Qed.

Lemma ack_received_no_rst s a w :
  no_rst (TCPSender._segments_out s) -> no_rst (TCPSender._segments_out (ack_received s a w)).
Proof.
  intros Hs. rewrite ack_received_eq. destruct (_ <? _); [done|]. apply fill_window_no_rst.
  destruct (TCPSender.acked_fields s a w) as (_ & -> & _). done.
Qed.

Lemma tick_timely timeout elapsed s ms :
  timely timeout elapsed s -> 0 <= ms -> elapsed + ms < timeout -> timeout < 65536 ->
  TCPSender.tick s ms = set_timer s (passTime ms (timer s)) /\
  timely timeout (elapsed + ms) (TCPSender.tick s ms).
Proof.
  intros [Hr Ht Hrun] Hms He Hu. unfold TCPSender.tick, passTime. cbv zeta.
  rewrite (u32_id ms), (u32_id (_ + ms)) by (words; lia). rewrite Hr.
  destruct (Z.leb_spec timeout (_time (timer s) + ms)); [lia|].
  destruct (isRunning (timer s)) eqn:E; cbn [negb]; cbn [set_timer TCPSender.outSegments timer isRunning _isrunning].
  - unfold isRunning in E. rewrite E. destruct (TCPSender.outSegments s) eqn:Eo; (split; [done|]);
      (constructor; simpl; [done|lia|by left]).
  - destruct Hrun as [|Ho]; [done|]. rewrite Ho. split; [done|]. constructor; simpl; [done|lia|by right].
Qed.

(** ** A sender that sends [d], in a window of at most [cap] *)
Section pushes.
Context (d : bytes) (cap : Z) (isn : WrappingInt32).

Record pushing (s : TCPSender) : Prop := mkPushing {
  pu_inv : TCPSender.inv d s;
  pu_isn : TCPSender._isn s = isn;
  pu_numbers : raw_value isn + zlen d + 2 < 4294967296;
  pu_syn : TCPSender._syn_flag s = true;
  pu_ended : input_ended (TCPSender._stream s) = true;
  pu_error : error (TCPSender._stream s) = false;
  pu_got : TCPSender._ackGot s = wrap (TCPSender.una s) isn;
  pu_cap : TCPSender._next_seqno s - TCPSender.una s <= cap;
  pu_done : TCPSender.outSegments s = [] -> TCPSender._next_seqno s = zlen d + 2;
  pu_retx : TCPSender._consecutive_retransmission s = 0
}.

Lemma pushing_bound s : pushing s -> 0 <= TCPSender.una s <= TCPSender._next_seqno s /\ TCPSender._next_seqno s <= zlen d + 2.
Proof.
  intros []. split; [by apply (TCPSender.inv_una d)|]. pose proof (TCPSender.inv_len _ _ pu_inv0) as Hl.
  unfold TCPSender.sent in Hl. pose proof (zlen_nonneg (_buf (TCPSender._stream s))).
  destruct (TCPSender._syn_flag s), (TCPSender._fin_flag s); cbn [Z.b2z] in Hl; lia.
Qed.

(** What was sent is all, once nothing is in flight and the window is open. *)
Lemma all_sent s w :
  TCPSender.inv d s -> TCPSender._syn_flag s = true -> input_ended (TCPSender._stream s) = true -> 1 <= w ->
  (TCPSender._next_seqno s - TCPSender.una s = w \/
   _buf (TCPSender._stream s) = [] /\ TCPSender._fin_flag s = input_ended (TCPSender._stream s)) ->
  TCPSender.outSegments s = [] -> TCPSender._next_seqno s = zlen d + 2.
Proof.
  intros Hi Hsyn Hend Hw Hor Hno. pose proof (TCPSender.inv_flight _ _ Hi) as Hc. rewrite Hno in Hc. simpl in Hc.
  destruct Hor as [|[Hb Hf]]; [lia|]. pose proof (TCPSender.inv_len _ _ Hi) as Hl. unfold TCPSender.sent in Hl.
  rewrite Hb, Hf, Hsyn, Hend in Hl. revert Hl. lens_nil. cbn [Z.b2z]. lia.
Qed.

(** Exactly the oldest segment is taken from the flight. *)
Lemma acked_first s seg q win :
  pushing s -> TCPSender.outSegments s = seg :: q -> is_u16 win ->
  let a := TCPSender.una s + length_in_sequence_space seg in
  let s1 := TCPSender.acked s (wrap a isn) win in
  ack_received s (wrap a isn) win = fill_window s1 /\ TCPSender.inv d s1 /\
  TCPSender.una s < a <= TCPSender._next_seqno s /\
  TCPSender.outSegments s1 = q /\ TCPSender.una s1 = a /\ TCPSender._ackGot s1 = wrap a isn /\
  TCPSender._consecutive_retransmission s1 = 0 /\ timely (TCPSender._initial_retransmission_timeout s) 0 s1.
Proof.
  intros Hp Ho Hw a s1. pose proof (pushing_bound s Hp) as [Hu Hn].
  destruct Hp as [Hi Hisn Hnum Hsyn Hend _ Hgot _ _ Hretx].
  pose proof (TCPSender.inv_flight _ _ Hi) as Hf. rewrite Ho in Hf. destruct Hf as (_ & Hlen & Hq%TCPSender.consecutive_le).
  fold a in Hq. assert (TCPSender.una s < a) as Hlt by (subst a; lia).
  assert (TCPSender.no_wrap s) as Hnw by (unfold TCPSender.no_wrap; rewrite Hisn; lia).
  destruct (TCPSender.acked_spec d s a win Hi Hnw ltac:(lia) Hw) as (Es & Hi1 & popped & E & Hle & Hc & Hhead).
  rewrite Hisn in Es, Hi1, E, Hle, Hc, Hhead. fold s1 in Es, Hi1, E, Hle, Hc, Hhead.
  assert (popped = [seg] /\ TCPSender.outSegments s1 = q /\ TCPSender.una s1 = a) as (-> & Eq & Eu).
  { rewrite Ho in E. destruct popped as [|seg' popped].
    - simpl in E, Hc. rewrite <- E in Hhead. lia.
    - injection E as <- E. destruct Hc as (_ & _ & Hc). fold a in Hc. destruct Hle as [|Hle]; [done|].
      destruct popped as [|seg2 popped]; [simpl in Hc; done|].
      destruct Hc as (_ & ? & Hc%TCPSender.consecutive_le). lia. }
  assert (raw_value (TCPSender._ackGot s) <? raw_value (wrap a isn) = true) as Hnew.
  { pose proof (TCPSender.inv_isn _ _ Hi) as Hwf. rewrite Hisn in Hwf. rewrite Hgot, !TCPSender.raw_pos by (done || lia). lia. }
  split_and!; try done.
  - destruct (TCPSender.acked_fields s (wrap a isn) win) as (_ & _ & _ & _ & _ & _ & _ & _ & _ & E10).
    fold s1 in E10. by rewrite E10, Hnew.
  - clear -Hnew. subst s1. unfold TCPSender.acked. destruct (pop_acked _ _ _) as [q' n']. cbv zeta.
    change (TCPSender._ackGot (set_flight s q' n')) with (TCPSender._ackGot s). rewrite Hnew. by destruct q'.
  - clear -Hnew. subst s1. unfold TCPSender.acked. destruct (pop_acked _ _ _) as [q' n']. cbv zeta.
    change (TCPSender._ackGot (set_flight s q' n')) with (TCPSender._ackGot s). rewrite Hnew.
    destruct q'; constructor; simpl; try done; [by right|by left].
Qed.

(** The acknowledgment of the oldest segment: the next ones are sent. *)
Lemma ack_first s seg q win :
  pushing s -> TCPSender._segments_out s = [] -> TCPSender.outSegments s = seg :: q -> is_u16 win ->
  let a := TCPSender.una s + length_in_sequence_space seg in
  TCPSender._next_seqno s - a <= Z.max 1 win <= cap ->
  let s' := ack_received s (wrap a isn) win in
  pushing s' /\ TCPSender.una s' = a /\ timely (TCPSender._initial_retransmission_timeout s) 0 s' /\
  TCPSender._initial_retransmission_timeout s' = TCPSender._initial_retransmission_timeout s /\
  exists segs, TCPSender.outSegments s' = q ++ segs /\ TCPSender._segments_out s' = segs.
Proof.
  intros Hp Hout Ho Hw a Hroom s'. pose proof (pushing_bound s Hp) as [Hu Hn].
  destruct (acked_first s seg q win Hp Ho Hw) as (Es & Hi1 & Ha & Eq & Eu & Eg & Er & Ht). fold a in Es, Hi1, Ha, Eq, Eu, Eg, Er, Ht.
  destruct Hp as [Hi Hisn Hnum Hsyn Hend Herr Hgot _ _ Hretx].
  fold s' in Es. set (s1 := TCPSender.acked s (wrap a isn) win) in *.
  destruct (TCPSender.acked_fields s (wrap a isn) win) as (E1 & E2 & E3 & E4 & _ & E6 & E7 & E8 & _).
  fold s1 in E1, E2, E3, E4, E6, E7, E8. clearbody s1 s'.
  destruct (fill_window_any d s1 a Hi1) as (F1 & F2 & F3); [congruence|congruence|rewrite E4, E8; lia|].
  destruct (TCPSender.fill_window_eq d s1 Hi1) as (_ & _ & segs & Hx).
  destruct (TCPSender.fill_window_stream d s1 Hi1) as [He Hee].
  pose proof (TCPSender.fill_window_syn d s1 Hi1 ltac:(congruence)) as Hs.
  pose proof (fill_window_timely _ _ _ Ht) as Ht'. rewrite <- Es in *. rewrite E8 in F1, F3.
  assert (TCPSender.una s' = a) as Eu' by (rewrite (TCPSender.ex_una _ _ _ Hx); done).
  split_and!; [|done|done|rewrite (TCPSender.ex_timeout _ _ _ Hx); done|].
  - constructor; try done.
    + rewrite (TCPSender.ex_isn _ _ _ Hx). congruence.
    + congruence.
    + rewrite Hee, E3. done.
    + rewrite (TCPSender.ex_ackGot _ _ _ Hx), Eu'. done.
    + rewrite Eu'. lia.
    + apply (all_sent s' (Z.max 1 win)); try done; [congruence|lia|]. by rewrite Eu'.
    + rewrite (TCPSender.ex_retx _ _ _ Hx). done.
  - exists segs. split; [rewrite (TCPSender.ex_flight _ _ _ Hx); congruence|].
    rewrite (TCPSender.ex_out _ _ _ Hx), E2, Hout. done.
Qed.
End pushes.

(** ** The receivers *)

(** Nothing arrives in a bare acknowledgment, whatever its sequence number. *)
Lemma push_empty r index :
  myMap r = ∅ -> (eof_flag r = true -> input_ended (_output r) = true) -> push_substring r [] index false = r.
Proof.
  intros Hm He. unfold push_substring. cbn [push_substring_fuel andb]. destruct (_ && _); [done|]. lens_nil. rewrite Z.add_0_r.
  assert (forall n, ztake n (@nil Z) = []) as Ht by (intros n; unfold ztake; by rewrite take_nil).
  destruct (Z.ltb_spec (u64 index) (nextIndex r)); [done|]. rewrite !Ht. cbn [store_loop write_loop].
  destruct (Z.ltb_spec index (nextIndex r)).
  - destruct (Z.ltb_spec (nextIndex r) (u64 index)); [|done].
    unfold zdrop. rewrite drop_nil, !Z.ltb_irrefl. cbn [andb]. lens_nil. rewrite Z.add_0_r.
    destruct (_ <? _); [done|]. rewrite Ht. cbn [write_loop]. unfold flush. rewrite Hm, map_size_empty. cbn [flush_loop].
    destruct (eof_flag r && empty r) eqn:E; [|done]. apply andb_true_iff in E as [E _]. specialize (He E).
    destruct r as [[] ? ? ? ? ?]. simpl in *. by rewrite He.
  - destruct (_ <? _); [done|]. unfold flush. rewrite Hm, map_size_empty. cbn [flush_loop].
    destruct (eof_flag r && empty r) eqn:E; [|done]. apply andb_true_iff in E as [E _]. specialize (He E).
    destruct r as [[] ? ? ? ? ?]. simpl in *. by rewrite He.
Qed.

Lemma receive_empty rc seg :
  myMap (_reassembler rc) = ∅ ->
  (eof_flag (_reassembler rc) = true -> input_ended (TCPReceiver.stream_out rc) = true) ->
  syn (_header seg) = false -> fin (_header seg) = false -> payload seg = [] ->
  TCPReceiver.segment_received rc seg = rc.
Proof.
  intros Hm He Hs Hf Hp. unfold TCPReceiver.segment_received. rewrite Hs. destruct (negb _); [done|]. unfold place.
  change (copy (_payload seg)) with (payload seg). rewrite Hp, Hf, push_empty by done. by destruct rc.
Qed.

(** The receiver only looks at what belongs to the sender. *)
Lemma receive_core rc seg seg' :
  same_core seg seg' -> TCPReceiver.segment_received rc seg' = TCPReceiver.segment_received rc seg.
Proof.
  intros (Hq & Hs & Hf & Hp). unfold TCPReceiver.segment_received, place.
  change (copy (_payload seg')) with (payload seg'). change (copy (_payload seg)) with (payload seg).
  by rewrite Hs, Hf, Hp, Hq.
Qed.

(** No segment marks the inbound stream with an error. *)
Lemma push_error r data index eof : error (_output (push_substring r data index eof)) = error (_output r).
Proof.
  assert (forall chunk k r, error (_output (store_loop chunk k r)) = error (_output r)) as H1
    by (induction chunk as [|b chunk IH]; intros k r1; [done|]; simpl; rewrite IH; by destruct (stored _ _)).
  assert (forall chunk k r, error (_output (write_loop chunk k r)) = error (_output r)) as H2
    by (induction chunk as [|b chunk IH]; intros k r1; [done|]; simpl; rewrite IH; by destruct (stored _ _)).
  assert (forall fuel r, error (_output (flush_loop fuel r)) = error (_output r)) as H3.
  { induction fuel as [|fuel IH]; intros r1; [done|]. simpl. destruct (myMap r1 !! nextIndex r1); [|done].
    destruct (_ <? _); [|done]. by rewrite IH. }
  assert (forall fuel r data index eof r', push_substring_fuel fuel r data index eof = Some r' ->
    error (_output r') = error (_output r)) as H4.
  { induction fuel as [|fuel IH]; intros r1 dt i e r'; cbn [push_substring_fuel]; [done|].
    destruct (_ && _); [by intros [= <-]|]. destruct (_ <? _); [by intros [= <-]|].
    set (r2 := if e && _ then _ else r1). assert (error (_output r2) = error (_output r1)) as <- by (subst r2; by case_match).
    clearbody r2. cbv zeta. destruct (_ <? _).
    - destruct (_ <? _); [apply IH|by intros [= <-]].
    - destruct (_ <? _); [intros [= <-]; apply H1|]. set (r3 := write_loop _ _ r2).
      assert (error (_output r3) = error (_output r2)) as <- by apply H2. clearbody r3.
      destruct (_ && _); intros [= <-]; [change (error (_output (flush r3)) = error (_output r3))|]; apply H3. }
  unfold push_substring. destruct (push_substring_fuel 2 r data index eof) eqn:E; [by eapply H4|done].
Qed.

Lemma receive_error rc seg : error (TCPReceiver.stream_out (TCPReceiver.segment_received rc seg)) = error (TCPReceiver.stream_out rc).
Proof.
  unfold TCPReceiver.segment_received. destruct (syn (_header seg)); [|destruct (negb _); [done|]]; unfold place; simpl; apply push_error.
Qed.

Definition ended (rc : TCPReceiver) : bool := input_ended (TCPReceiver.stream_out rc).

Lemma flight_empty data s : TCPSender.inv data s -> TCPSender._bytes_in_flight s = 0 -> TCPSender.outSegments s = [].
Proof.
  intros Hi Hf. pose proof (TCPSender.inv_flight _ _ Hi) as Hc. unfold TCPSender.una in Hc.
  destruct (TCPSender.outSegments s); [done|]. destruct Hc as (_ & ? & ?%TCPSender.consecutive_le). lia.
Qed.

(** The client acknowledges the SYN, once or again. *)
(** ** A sender whose SYN is acknowledged and that has nothing to send *)

Section idles.
Context (isn : WrappingInt32) (Hisn : raw_value isn + 2 < 4294967296).

Record idle (s : TCPSender) : Prop := mkIdle {
  id_inv : TCPSender.inv [] s;
  id_isn : TCPSender._isn s = isn;
  id_syn : TCPSender._syn_flag s = true;
  id_ended : input_ended (TCPSender._stream s) = false;
  id_error : error (TCPSender._stream s) = false;
  id_queue : TCPSender._segments_out s = [];
  id_flight : TCPSender._bytes_in_flight s = 0;
  id_next : TCPSender._next_seqno s = 1;
  id_got : TCPSender._ackGot s = wrap 1 isn
}.

(** The client acknowledges the SYN, once or again. *)
Lemma idle_ack s w :
  TCPSender.inv [] s -> TCPSender._isn s = isn -> TCPSender._syn_flag s = true ->
  input_ended (TCPSender._stream s) = false -> error (TCPSender._stream s) = false ->
  TCPSender._segments_out s = [] -> TCPSender._next_seqno s = 1 ->
  raw_value (TCPSender._ackGot s) <= raw_value (wrap 1 isn) -> is_u16 w ->
  idle (ack_received s (wrap 1 isn) w).
Proof.
  intros Hi Es Hsyn Hend Herr Hq Hn Hgot Hw. pose proof (TCPSender.inv_isn _ _ Hi) as Hwf.
  assert (TCPSender.no_wrap s) as Hnw by (unfold TCPSender.no_wrap; rewrite Es, Hn; lia).
  pose proof (TCPSender.inv_ack_received [] s (wrap 1 isn) w Hi (wf_wrap _ _) Hw) as Hi'.
  destruct (TCPSender.syn_acked s w Hi Hnw Hn Hsyn Hq Hend Hw) as (K1 & K2 & K3 & K4 & K5). rewrite Es in K1, K2, K3, K4, K5.
  destruct (TCPSender.acked_spec [] s 1 w Hi Hnw ltac:(lia) Hw) as (Ea & Hi1 & _). rewrite Es in Ea, Hi1.
  destruct (TCPSender.acked_fields s (wrap 1 isn) w) as (E1 & _ & _ & _ & _ & E6 & _ & _ & _ & E10).
  destruct (TCPSender.fill_window_eq [] _ Hi1) as (_ & _ & segs & Hx).
  pose proof (TCPSender.fill_window_syn [] _ Hi1 ltac:(congruence)) as Hs. rewrite <- Ea in *.
  constructor; try done; [rewrite (TCPSender.ex_isn _ _ _ Hx); congruence|congruence|].
  rewrite (TCPSender.ex_ackGot _ _ _ Hx), E10. destruct (Z.ltb_spec (raw_value (TCPSender._ackGot s)) (raw_value (wrap 1 isn))); [done|].
  apply W32_ext. lia.
Qed.
End idles.

(** ** Worlds *)

(** The sender, the data and the receiver as a world of [EndToEnd]; what is in
    flight is on the wire. *)
Definition world_of (d : bytes) (s : TCPSender) (rc : TCPReceiver) (out : bytes) : world :=
  mkWorld s d (TCPSender.outSegments s) rc out.

Section worlds.
Context (d : bytes) (Hd : zlen d < 2147483646).

Lemma rewire w : EndToEnd.inv w -> data w = d -> EndToEnd.inv (world_of d (snd w) (rcv w) (out w)).
Proof.
  intros [I1 _ I3 I4 I5 I6 I7 I8] Hw. rewrite Hw in I1, I4. refine (EndToEnd.mkInv (world_of d (snd w) (rcv w) (out w)) I1 _ I3 I4 I5 I6 I7 I8). simpl.
  pose proof (TCPSender.inv_flight _ _ I1) as Hc. revert Hc. generalize (TCPSender.una (snd w)) as pos.
  induction (TCPSender.outSegments (snd w)) as [|seg q IH]; intros pos Hc; [constructor|].
  destruct Hc as (Hseg & _ & Hc). constructor; [by exists pos|by eapply IH].
Qed.

Lemma world_step s rc out o s' segs :
  EndToEnd.inv (world_of d s rc out) -> TCPSender.op_ok (input_ended (TCPSender._stream s)) o ->
  TCPSender.step o s = (s', [], segs) -> EndToEnd.inv (world_of d s' rc out).
Proof.
  intros Hi Hok Hs. pose proof (EndToEnd.inv_step_sender (world_of d s rc out) o s' [] segs Hi Hok Hs) as H.
  simpl in H. rewrite app_nil_r in H. specialize (H Hd). exact (rewire _ H eq_refl).
Qed.
End worlds.

Lemma opened_window capacity isn : 0 <= capacity < 65536 -> window_size (TCPConnection.opened capacity isn) = capacity.
Proof. intros Hc. unfold window_size. simpl. change (u64 0) with 0. rewrite Z.sub_0_r. apply u64_id. words. lia. Qed.

Lemma fill_window_window data s :
  TCPSender.inv data s -> TCPSender._syn_flag s = true -> TCPSender._true_window_size s <> 0 ->
  TCPSender._true_window_size (fill_window s) = TCPSender._true_window_size s.
Proof.
  intros Hi Hsyn Hw. destruct (TCPSender.fill_window_eq data s Hi) as (_ & [_ ->|_ ?|_ _ _ (early & [[segs Hg] _ _])|? ? _ _ ?] & _);
    [done|congruence|by rewrite (TCPSender.gr_window _ _ _ Hg)|congruence].
Qed.

Lemma fill_window_capacity s : ByteStream._capacity (TCPSender._stream (fill_window s)) = ByteStream._capacity (TCPSender._stream s).
Proof.
  apply (fill_window_preserves (fun s' => ByteStream._capacity (TCPSender._stream s') = ByteStream._capacity (TCPSender._stream s))); done.
Qed.

Lemma read_empty st len : ByteStream.inv st -> _buf st = [] -> 0 <= len -> ByteStream.read st len = (st, []).
Proof.
  intros Hi Hb Hl. rewrite read_pop by done. unfold buffer_size. rewrite Hb. lens_nil. rewrite Z.min_r by done.
  unfold pop_output, ztake, zdrop. rewrite Hb, take_nil, drop_nil, Z.add_0_r, u64_id by apply Hi. destruct st. simpl in *. by subst.
Qed.

(** ** A sender that is ready to send *)

Section ready.
Context (isn : WrappingInt32) (cap timeout capacity : Z).
Local Notation rc := (TCPConnection.opened cap isn).

Record ready (s : TCPSender) : Prop := mkReady {
  rd_isn : TCPSender._isn s = isn;
  rd_syn : TCPSender._syn_flag s = true;
  rd_queue : TCPSender._segments_out s = [];
  rd_flight : TCPSender.outSegments s = [];
  rd_in_flight : TCPSender._bytes_in_flight s = 0;
  rd_next : TCPSender._next_seqno s = 1;
  rd_una : TCPSender.una s = 1;
  rd_got : TCPSender._ackGot s = wrap 1 isn;
  rd_window : TCPSender._true_window_size s = cap;
  rd_retx : TCPSender._consecutive_retransmission s = 0;
  rd_initial : TCPSender._initial_retransmission_timeout s = timeout;
  rd_timer : timely timeout 0 s;
  rd_error : error (TCPSender._stream s) = false;
  rd_ended : input_ended (TCPSender._stream s) = false;
  rd_stream : ByteStream._capacity (TCPSender._stream s) = capacity;
  rd_world : EndToEnd.inv (world_of [] s rc [])
}.

(** Its buffer is empty. *)
Lemma ready_buf s : ready s -> _buf (TCPSender._stream s) = [].
Proof.
  intros Hs. pose proof (EndToEnd.inv_sender _ (rd_world _ Hs)) as Hi. simpl in Hi.
  pose proof (TCPSender.inv_len _ _ Hi) as Hl. pose proof (TCPSender.inv_sent _ _ Hi).
  pose proof (zlen_nonneg (_buf (TCPSender._stream s))). change (zlen (@nil Z)) with 0 in Hl. apply zlen_0_inv. lia.
Qed.

Lemma ready_fin s : ready s -> TCPSender._fin_flag s = false.
Proof.
  intros Hs. destruct (TCPSender._fin_flag s) eqn:Hf; [|done].
  destruct (TCPSender.inv_fin _ _ (EndToEnd.inv_sender _ (rd_world _ Hs)) Hf) as [_ He]. pose proof (rd_ended _ Hs) as Hn. simpl in He. congruence.
Qed.

Lemma ready_fill s : ready s -> 1 <= cap < 65536 -> fill_window s = s.
Proof.
  intros Hs Hc. pose proof (EndToEnd.inv_sender _ (rd_world _ Hs)) as Hi. simpl in Hi.
  unfold fill_window, fill_window_fuel, enough_fuel. rewrite (ready_fin s Hs), (rd_syn _ Hs), (rd_window _ Hs). cbn [negb].
  destruct (Z.eqb_spec cap 0); [lia|]. cbn [fill_loop]. unfold remain.
  rewrite (rd_window _ Hs), (rd_next _ Hs), (rd_isn _ Hs), (rd_got _ Hs), Z.sub_diag. change (u32 0) with 0.
  rewrite Z.sub_0_r, (u32_id cap), (ready_fin s Hs) by (words; lia). destruct (Z.eqb_spec cap 0); [lia|]. cbn [orb]. unfold make_segment.
  rewrite read_empty; [|apply Hi|by apply ready_buf|unfold MAX_PAYLOAD_SIZE; lia].
  unfold eof. rewrite (rd_ended _ Hs). cbn [andb]. by destruct s.
Qed.

(** The SYN is acknowledged again. *)
Lemma ready_again s : ready s -> 1 <= cap < 65536 -> ack_received s (wrap 1 isn) cap = s.
Proof.
  intros Hs Hc. unfold ack_received. rewrite (rd_next _ Hs), (rd_isn _ Hs), Z.ltb_irrefl, (rd_flight _ Hs). cbn [pop_acked].
  assert (set_flight s [] (TCPSender._bytes_in_flight s) = s) as -> by (rewrite <- (rd_flight _ Hs); by destruct s).
  rewrite (rd_got _ Hs), Z.ltb_irrefl.
  assert (set_window s cap = s) as -> by (rewrite <- (rd_window _ Hs); by destruct s). by apply ready_fill.
Qed.

(** After a write and after the end of the stream. *)
Definition wrote (d : bytes) (s : TCPSender) : TCPSender := fill_window (set_stream s (fst (ByteStream.write (TCPSender._stream s) d))).
Definition finishes (s : TCPSender) : TCPSender := fill_window (set_stream s (end_input (TCPSender._stream s))).

Section sends.
Context (d : bytes) (s : TCPSender) (Hs : ready s).
Context (Hcap : 1 <= cap < 65536) (Hfit : zlen d <= capacity) (Hnum : raw_value isn + zlen d + 2 < 4294967296).
Context (Hd : zlen d < 2147483646).

Lemma wrote_open e s' : input_ended (TCPSender._stream s') = false -> input_ended (TCPSender._stream (wrote e s')) = false.
Proof. intros Hs'. apply (fill_window_preserves (fun s => input_ended (TCPSender._stream s) = false)); done. Qed.

(** The stream takes everything that is written to it. *)
Lemma write_all : TCPSender.step (TCPSender.Write d) s = (set_stream s (fst (ByteStream.write (TCPSender._stream s) d)), d, []).
Proof.
  pose proof (EndToEnd.inv_sender _ (rd_world _ Hs)) as Hi. simpl in Hi. cbn [TCPSender.step].
  pose proof (TCPSender.inv_stream _ _ Hi) as Hst. pose proof (write_spec (TCPSender._stream s) d Hst) as Hw.
  pose proof (ready_buf s Hs) as Hb.
  destruct (ByteStream.write (TCPSender._stream s) d) as [st n]. destruct Hw as (_ & -> & _). cbn [fst].
  rewrite ztake_all; [done|]. rewrite remaining_capacity_eq, Hb, (rd_stream _ Hs) by done. lens_nil. lia.
Qed.

(** One of the two times the window is filled. *)
Record filling (s1 : TCPSender) (segs : list TCPSegment) : Prop := mkFilling {
  fi_isn : TCPSender._isn s1 = isn;
  fi_syn : TCPSender._syn_flag s1 = true;
  fi_out : TCPSender._segments_out s1 = segs;
  fi_una : TCPSender.una s1 = 1;
  fi_got : TCPSender._ackGot s1 = wrap 1 isn;
  fi_window : TCPSender._true_window_size s1 = cap;
  fi_retx : TCPSender._consecutive_retransmission s1 = 0;
  fi_initial : TCPSender._initial_retransmission_timeout s1 = timeout;
  fi_timer : timely timeout 0 s1;
  fi_error : error (TCPSender._stream s1) = false;
  fi_world : EndToEnd.inv (world_of d s1 rc []);
  fi_next : TCPSender._next_seqno s1 - 1 <= cap
}.

Lemma filling_fill s1 :
  filling s1 [] ->
  let s2 := fill_window s1 in
  exists segs, filling s2 segs /\ no_rst segs /\ TCPSender.outSegments s2 = TCPSender.outSegments s1 ++ segs /\
    input_ended (TCPSender._stream s2) = input_ended (TCPSender._stream s1) /\
    (TCPSender._next_seqno s2 - 1 = cap \/
     _buf (TCPSender._stream s2) = [] /\ TCPSender._fin_flag s2 = input_ended (TCPSender._stream s2)).
Proof.
  intros [F1 F2 F3 F4 F5 F6 F7 F8 F9 F10 F11 F12] s2. pose proof (EndToEnd.inv_sender _ F11) as Hi. simpl in Hi.
  pose proof (TCPSender.inv_una _ _ Hi) as Hu. assert (Z.max 1 (TCPSender._true_window_size s1) = cap) as Ew by (rewrite F6; lia).
  destruct (fill_window_any d s1 1 Hi F2) as (A1 & A2 & A3); [congruence|rewrite Ew; lia|]. rewrite Ew in A1, A3. fold s2 in A1, A2, A3.
  destruct (TCPSender.fill_window_eq d s1 Hi) as (_ & _ & segs & Hx). destruct (TCPSender.fill_window_stream d s1 Hi) as [He Hee].
  fold s2 in Hx, He, Hee. exists segs. pose proof (TCPSender.ex_out _ _ _ Hx) as Ho. rewrite F3 in Ho. cbn [app] in Ho. split_and!.
  - constructor; try done.
    + rewrite (TCPSender.ex_isn _ _ _ Hx). done.
    + by apply (TCPSender.fill_window_syn d).
    + rewrite (TCPSender.ex_una _ _ _ Hx). done.
    + rewrite (TCPSender.ex_ackGot _ _ _ Hx). done.
    + subst s2. rewrite (fill_window_window d); [done|done|done|lia].
    + rewrite (TCPSender.ex_retx _ _ _ Hx). done.
    + rewrite (TCPSender.ex_timeout _ _ _ Hx). done.
    + by apply fill_window_timely.
    + congruence.
    + exact (world_step d Hd s1 rc [] TCPSender.FillWindow _ _ F11 I eq_refl).
  - rewrite <- Ho. apply fill_window_no_rst. rewrite F3. constructor.
  - exact (TCPSender.ex_flight _ _ _ Hx).
  - done.
  - done.
Qed.

(** The two segments queues, and the sender that is left. *)
Lemma sender_sends :
  let s1 := wrote d s in
  let s2 := finishes (set_segments_out s1 []) in
  let s' := set_segments_out s2 [] in
  pushing d cap isn s' /\ TCPSender.una s' = 1 /\ timely timeout 0 s' /\
  TCPSender._initial_retransmission_timeout s' = timeout /\ EndToEnd.inv (world_of d s' rc []) /\
  no_rst (TCPSender._segments_out s1) /\ no_rst (TCPSender._segments_out s2) /\
  TCPSender.outSegments s' = TCPSender._segments_out s1 ++ TCPSender._segments_out s2.
Proof.
  intros s1 s2 s'. pose proof (rd_world _ Hs) as Hw.
  pose proof (EndToEnd.inv_step_sender _ (TCPSender.Write d) _ _ _ Hw (rd_ended _ Hs) write_all Hd) as Hw1.
  pose proof (rewire d _ Hw1 eq_refl) as Hw2. cbn [snd rcv out] in Hw2. set (s0 := set_stream s _) in *.
  assert (filling s0 []) as Hf0.
  { destruct Hs. constructor; try done; [by destruct rd_timer0|].
    change (TCPSender._next_seqno s - 1 <= cap). lia. }
  destruct (filling_fill s0 Hf0) as (segs1 & H1 & Hr1 & Ho1 & _). change (fill_window s0) with s1 in *.
  change (TCPSender.outSegments s0) with (TCPSender.outSegments s) in Ho1. rewrite (rd_flight _ Hs) in Ho1. cbn [app] in Ho1.
  assert (filling (set_segments_out s1 []) []) as H1'.
  { pose proof (world_step d Hd s1 rc [] TCPSender.Drain _ _ (fi_world _ _ H1) I eq_refl) as Hx.
    destruct H1 as [? ? ? ? ? ? ? ? [] ? ? ?]. constructor; done. }
  set (s1e := set_stream (set_segments_out s1 []) (end_input (TCPSender._stream (set_segments_out s1 [])))).
  assert (filling s1e []) as H1e.
  { pose proof (world_step d Hd _ rc [] TCPSender.EndInput _ _ (fi_world _ _ H1') I eq_refl) as Hx.
    destruct H1' as [? ? ? ? ? ? ? ? [] ? ? ?]. constructor; done. }
  destruct (filling_fill s1e H1e) as (segs2 & H2 & Hr2 & Ho2 & He2 & Hor). change (fill_window s1e) with s2 in *.
  change (TCPSender.outSegments s1e) with (TCPSender.outSegments s1) in Ho2. change (input_ended (TCPSender._stream s1e)) with true in He2.
  rewrite (fi_out _ _ H1), (fi_out _ _ H2), Ho1 in *.
  pose proof (world_step d Hd s2 rc [] TCPSender.Drain _ _ (fi_world _ _ H2) I eq_refl) as Hw'. fold s' in Hw'.
  destruct H2 as [G1 G2 G3 G4 G5 G6 G7 G8 G9 G10 G11 G12]. split_and!; try done; [|by destruct G9].
  pose proof (EndToEnd.inv_sender _ Hw') as Hi'. change (TCPSender.inv d s') in Hi'. change (TCPSender.una s2) with (TCPSender.una s') in G4.
  constructor; try done.
  - rewrite G4. exact G5.
  - change (TCPSender._next_seqno s2 - TCPSender.una s' <= cap). lia.
  - apply (all_sent d s' cap Hi' G2 He2); [lia|]. rewrite G4. exact Hor.
Qed.
End sends.
End ready.

(** ** The sender of a connection that has just been established *)

Section established.
Context (cfg : TCPConfig) (random cap : Z) (Hcfg : config_wf cfg) (Hcap : 1 <= cap < 65536).
Local Notation isn := (TCPSender._isn (_sender (TCPConnection.new cfg random))).
Local Notation s0 := (syn_sent cfg random).
Context (Hisn : raw_value isn + 2 < 4294967296).

Definition answered : TCPSender := ack_received s0 (wrap 1 isn) cap.

Lemma answered_idle : idle isn answered.
Proof.
  pose proof (isn_wf cfg random Hcfg) as Hwf. apply idle_ack; try done; [exact (syn_sent_inv cfg random Hcfg)| |words; lia].
  rewrite (TCPSender.raw_pos _ 1) by (done || lia). simpl. unfold WrappingIntegers.wf in Hwf. rewrite u32_id by exact Hwf. lia.
Qed.

(** The acknowledgment of the SYN, before the window is filled. *)
Lemma answered_acked :
  answered = fill_window (TCPSender.acked s0 (wrap 1 isn) cap) /\ TCPSender.inv [] (TCPSender.acked s0 (wrap 1 isn) cap) /\
  timely (rt_timeout cfg) 0 (TCPSender.acked s0 (wrap 1 isn) cap) /\
  TCPSender._consecutive_retransmission (TCPSender.acked s0 (wrap 1 isn) cap) = 0.
Proof.
  assert (TCPSender.no_wrap s0) as Hnw by (change (raw_value isn + 1 < 4294967296); lia).
  destruct (TCPSender.acked_spec [] s0 1 cap (syn_sent_inv cfg random Hcfg) Hnw ltac:(split; vm_compute; congruence)
    ltac:(words; lia)) as (Ea & Hi1 & _).
  split; [exact Ea|]. split; [exact Hi1|]. unfold TCPSender.acked. destruct (pop_acked _ _ _) as [q n]. cbv zeta.
  destruct (_ <? _); [destruct q|]; (split; [constructor; [done|simpl; lia|by left]|done]).
Qed.

Lemma answered_world : EndToEnd.inv (world_of [] answered (TCPConnection.opened cap isn) []).
Proof.
  assert (is_u64 cap) as Hc by (words; lia). assert (is_u16 cap) as Hw by (words; lia).
  pose proof (EndToEnd.inv_init (send_capacity cfg) (rt_timeout cfg) (fixed_isn cfg) random cap
    (wf_send_capacity _ Hcfg) (wf_rt_timeout _ Hcfg) Hc (wf_fixed_isn _ Hcfg)) as W0.
  pose proof (EndToEnd.inv_step_sender _ TCPSender.FillWindow _ _ _ W0 I eq_refl eq_refl) as W1.
  pose proof (EndToEnd.inv_step_sender _ TCPSender.Drain _ _ _ W1 I eq_refl eq_refl) as W2.
  pose proof (EndToEnd.inv_step_deliver _ (syn_segment isn) W2 eq_refl ltac:(by left)) as W3.
  pose proof (EndToEnd.inv_step_sender _ (TCPSender.Ack (wrap 1 isn) cap) _ _ _ W3 (conj (wf_wrap _ _) Hw) eq_refl eq_refl) as W4.
  pose proof (rewire [] _ W4 eq_refl) as W5. cbn [rcv out snd] in W5.
  assert (TCPReceiver.segment_received (TCPReceiver.new cap) (syn_segment isn) = TCPConnection.opened cap isn) as Hr.
  { rewrite receiver_syn; [|exact Hc|apply wf_wrap|reflexivity|reflexivity|reflexivity]. f_equal. apply wrap_0, isn_wf, Hcfg. }
  rewrite <- Hr. exact W5.
Qed.

Lemma answered_ready : ready isn cap (rt_timeout cfg) (send_capacity cfg) answered.
Proof.
  destruct answered_idle as [I1 I2 I3 I4 I5 I6 I7 I8 I9]. destruct answered_acked as (Ea & Hi1 & Ht & Hretx).
  destruct (TCPSender.acked_fields s0 (wrap 1 isn) cap) as (_ & _ & E3 & _ & _ & E6 & E7 & E8 & _).
  destruct (TCPSender.fill_window_eq [] _ Hi1) as (_ & _ & segs & Hx). rewrite <- Ea in Hx.
  constructor; try done.
  - by eapply flight_empty.
  - unfold TCPSender.una. lia.
  - rewrite Ea, (fill_window_window []), E8; [done|done|by rewrite E6|rewrite E8; lia].
  - by rewrite (TCPSender.ex_retx _ _ _ Hx).
  - by rewrite (TCPSender.ex_timeout _ _ _ Hx), E7.
  - rewrite Ea. by apply fill_window_timely.
  - rewrite Ea, fill_window_capacity, E3. done.
  - apply answered_world.
Qed.
End established.

(** ** A sender that is done *)

Record spent (d : bytes) (isn : WrappingInt32) (s : TCPSender) : Prop := mkSpent {
  sp_inv : TCPSender.inv d s;
  sp_isn : TCPSender._isn s = isn;
  sp_error : error (TCPSender._stream s) = false;
  sp_fin : TCPSender._fin_flag s = true;
  sp_next : TCPSender._next_seqno s = zlen d + 2;
  sp_got : TCPSender._ackGot s = wrap (zlen d + 2) isn;
  sp_queue : TCPSender._segments_out s = [];
  sp_flight : TCPSender.outSegments s = [];
  sp_in_flight : TCPSender._bytes_in_flight s = 0;
  sp_retx : TCPSender._consecutive_retransmission s = 0
}.

Lemma pushing_spent d cap isn s :
  pushing d cap isn s -> TCPSender._segments_out s = [] -> TCPSender.una s = zlen d + 2 -> spent d isn s.
Proof.
  intros Hp Hq Hu. pose proof (pushing_bound d cap isn s Hp) as [H1 H2]. destruct Hp as [Hi Hisn _ Hsyn _ Herr Hgot _ _ Hretx].
  assert (TCPSender._next_seqno s = zlen d + 2) as Hn by lia.
  assert (TCPSender._bytes_in_flight s = 0) as Hf by (unfold TCPSender.una in *; lia).
  constructor; try done; [|congruence|by eapply flight_empty].
  pose proof (TCPSender.inv_len _ _ Hi) as Hl. unfold TCPSender.sent in Hl. rewrite Hsyn in Hl.
  pose proof (zlen_nonneg (_buf (TCPSender._stream s))). destruct (TCPSender._fin_flag s); [done|]. cbn [Z.b2z] in Hl. lia.
Qed.

Lemma spent_eof d isn s : spent d isn s -> eof (TCPSender._stream s) = true.
Proof. intros []. apply TCPSender.eof_buf. by destruct (TCPSender.inv_fin _ _ sp_inv0 sp_fin0). Qed.

(** Its FIN is acknowledged again. *)
Lemma spent_again d isn s w : spent d isn s -> ack_received s (wrap (zlen d + 2) isn) w = set_window s w.
Proof.
  intros []. unfold ack_received. rewrite sp_next0, sp_isn0, Z.ltb_irrefl, sp_flight0. cbn [pop_acked].
  assert (set_flight s [] (TCPSender._bytes_in_flight s) = s) as -> by (rewrite <- sp_flight0; by destruct s).
  rewrite sp_got0, Z.ltb_irrefl. by apply TCPSender.fill_window_fin.
Qed.

(** ** The sender at the hearing end *)

(** It has sent nothing that is not acknowledged; acknowledgments of [ua], with
    the window [wa], change nothing that matters; and [over] says whether its
    stream has ended. *)
Class Resting (P : TCPSender -> Prop) (ua : WrappingInt32) (wa : Z) (over : bool) : Prop := {
  rs_again s : P s -> P (ack_received s ua wa);
  rs_queue s : P s -> TCPSender._segments_out s = [];
  rs_flight s : P s -> TCPSender._bytes_in_flight s = 0;
  rs_ended s : P s -> input_ended (TCPSender._stream s) = over;
  rs_eof s : P s -> eof (TCPSender._stream s) = over
}.

Lemma ready_resting isn cap timeout capacity :
  1 <= cap < 65536 -> Resting (ready isn cap timeout capacity) (wrap 1 isn) cap false.
Proof.
  intros Hc. constructor; intros s Hs; try apply Hs.
  - by rewrite (ready_again _ _ _ _ s Hs Hc).
  - unfold eof. by rewrite (rd_ended _ _ _ _ _ Hs).
Qed.

Lemma spent_resting d isn w : is_u16 w -> Resting (spent d isn) (wrap (zlen d + 2) isn) w true.
Proof.
  intros Hw. constructor; intros s Hs; [|apply Hs..| |by apply (spent_eof d isn)].
  - rewrite (spent_again d isn s w Hs). destruct Hs. constructor; try done. by apply TCPSender.inv_set_window.
  - pose proof (spent_eof d isn s Hs) as He. unfold eof in He. by apply andb_true_iff in He as [? _].
Qed.
