(* ===== verification/Exchange.v ===== *)
(** * Exchange: one connection talks, the other listens

    Two [TCPConnection]s and the segments on their way between them, in order.
    The talker writes a string and ends its stream; then, over and over, the next
    segment arrives at the listener, whose application reads what there is, the
    answer arrives at the talker, and time passes there.  Everything that happens
    is an operation of [TCPConnection].

    The talker may have heard everything from the other side before it talks, or
    nothing; the listener's own stream may be over, or not have begun.  So the
    two directions of a conversation are two uses of the same lemmas
    ([Delivery]).  What the listener's sender must be is the class [Resting].

    The main lemma is [exchanges_transfer]: after a number of exchanges bounded by
    the length of the string the listener has read all of it and seen its end. *)

From S2P Require Import Prelude WrappingIntegers ByteStream StreamReassembler Buffer TCPHeader TCPSegment TCPConfig.
From S2P Require Import SegmentOf RETimer TCPReceiver TCPSender TCPState TCPConnection EndToEnd Transfer Progress.

(** ** The pair *)

Record pair := mkPair {
  talker : TCPConnection;
  listener : TCPConnection;
  forth : list TCPSegment;
  back : list TCPSegment;
  heard : bytes;                     (** read by the listener's application *)
  heard_back : bytes                 (** read by the talker's application *)
}.

Definition read_by (o : op) (c : TCPConnection) : bytes :=
  match o with AppRead len => Datatypes.snd (ByteStream.read (inbound_stream c) len) | _ => [] end.

(** One end does something; [Dequeue] puts its segments on their way. *)
Definition talker_does (o : op) (p : pair) : pair :=
  let '(c, _, segs) := TCPConnection.step o (talker p) in
  mkPair c (listener p) (forth p ++ segs) (back p) (heard p) (heard_back p ++ read_by o (talker p)).

Definition listener_does (o : op) (p : pair) : pair :=
  let '(c, _, segs) := TCPConnection.step o (listener p) in
  mkPair (talker p) c (forth p) (back p ++ segs) (heard p ++ read_by o (listener p)) (heard_back p).

(** The first segment on its way arrives. *)
Definition arrives (p : pair) : pair :=
  match forth p with
  | [] => p
  | seg :: rest => listener_does (SegmentReceived seg) (mkPair (talker p) (listener p) rest (back p) (heard p) (heard_back p))
  end.

Definition returns (p : pair) : pair :=
  match back p with
  | [] => p
  | seg :: rest => talker_does (SegmentReceived seg) (mkPair (talker p) (listener p) (forth p) rest (heard p) (heard_back p))
  end.

(** The listener's application reads everything there is. *)
Definition listener_reads (p : pair) : pair := listener_does (AppRead (buffer_size (inbound_stream (listener p)))) p.

Definition talking (d : bytes) (p : pair) : pair :=
  talker_does Dequeue (talker_does EndInputStream (talker_does (AppWrite d) p)).

Definition exchange (ms : Z) (p : pair) : pair :=
  let p := listener_does Dequeue (listener_reads (arrives p)) in
  talker_does Dequeue (talker_does (TimePasses ms) (returns p)).

Fixpoint exchanges (n : nat) (ms : Z) (p : pair) : pair :=
  match n with O => p | S n => exchanges n ms (exchange ms p) end.

(** What [sendseg] sends: a default segment if there is nothing else. *)
Definition outgoing (segs : list TCPSegment) : list TCPSegment := match segs with [] => [TCPSegment.new] | _ => segs end.

Lemma to_send_outgoing c : to_send c = outgoing (TCPSender._segments_out (_sender c)).
Proof. unfold to_send, outgoing. change (segments_out (_sender c)) with (TCPSender._segments_out (_sender c)). by destruct (TCPSender._segments_out (_sender c)). Qed.

(** A receiver with nothing stored, that knows the end only if it has told it. *)
Record settled_receiver (rc : TCPReceiver) : Prop := mkSettledReceiver {
  sr_inv : TCPReceiver.inv rc;
  sr_map : myMap (_reassembler rc) = ∅;
  sr_flag : eof_flag (_reassembler rc) = true -> ended rc = true
}.

Lemma unassembled_none rc : settled_receiver rc -> TCPReceiver.unassembled_bytes rc = 0.
Proof.
  intros [[Hi _ _] Hm _]. unfold TCPReceiver.unassembled_bytes, StreamReassembler.unassembled_bytes.
  by rewrite (inv_count _ Hi), Hm, map_size_empty.
Qed.

(** ** The talker *)

Section talker.
Context (cfg : TCPConfig) (rc : TCPReceiver) (ua : WrappingInt32) (rec_fin : option WrappingInt32).
Context (Hrc : settled_receiver rc) (Hua : TCPReceiver.ackno rc = Some ua) (Hfin : ended rc = false -> rec_fin = None).

(** Both streams are over, and everything is acknowledged. *)
Definition finished (s : TCPSender) : bool :=
  ended rc && (input_ended (TCPSender._stream s) && bool_decide (TCPSender._segments_out s = [])) &&
  (TCPSender._bytes_in_flight s =? 0).

(** The connection, whose receiver does not change while it talks. *)
Definition voice (active closed : bool) (s : TCPSender) (t : Z) (q : list TCPSegment) : TCPConnection :=
  mkConnection cfg rc s q (negb (ended rc)) t active false (ended rc) closed true rec_fin.

Definition speaking (closed : bool) (s : TCPSender) (t : Z) (q : list TCPSegment) : TCPConnection :=
  voice (negb (finished s)) closed s t q.

Definition stamped (seg : TCPSegment) : TCPSegment := stamp seg ua (window_size rc).

Lemma voice_shutdown active closed s t q :
  clean_shutdown (voice active closed s t q) = voice (active && negb (finished s)) closed s t q.
Proof.
  unfold clean_shutdown, finished. change (inbound_stream (voice active closed s t q)) with (TCPReceiver.stream_out rc).
  fold (ended rc). change (stream_in (_sender (voice active closed s t q))) with (TCPSender._stream s).
  unfold voice. destruct (ended rc) eqn:He; cbn [andb negb].
  - assert (forall b : bool, (if b then set_linger (mkConnection cfg rc s q false t active false true closed true rec_fin) false
      else mkConnection cfg rc s q false t active false true closed true rec_fin) =
      mkConnection cfg rc s q false t active false true closed true rec_fin) as -> by (by intros []).
    change (unassembled_bytes _) with (TCPReceiver.unassembled_bytes rc). rewrite unassembled_none by done.
    change (inbound_stream _) with (TCPReceiver.stream_out rc). fold (ended rc). rewrite He. cbn [Z.eqb andb].
    change (segments_out (_sender _)) with (TCPSender._segments_out s). change (stream_in (_sender _)) with (TCPSender._stream s).
    change (TCPSender.bytes_in_flight (_sender _)) with (TCPSender._bytes_in_flight s).
    destruct (_ && _); [|by rewrite andb_true_r]. destruct (_ =? 0); [|by rewrite andb_true_r].
    cbn [_linger_after_streams_finish Bool.eqb]. rewrite orb_true_r. by rewrite andb_false_r.
  - change (inbound_stream _) with (TCPReceiver.stream_out rc). fold (ended rc). rewrite He, andb_false_r. by rewrite andb_true_r.
Qed.

Lemma voice_send_one active closed s t q seg : send_one (voice active closed s t q) seg = voice active closed s t (q ++ [stamped seg]).
Proof.
  unfold send_one.
  assert ((if syn (_header seg) then set_syn (voice active closed s t q) true else voice active closed s t q) = voice active closed s t q)
    as -> by (by destruct (syn (_header seg))).
  change (_receiver (voice active closed s t q)) with rc. rewrite Hua. cbv zeta. change (_rec_fin_seqno (voice active closed s t q)) with rec_fin.
  destruct rec_fin as [n|] eqn:Hr; [|done]. unfold voice. destruct (ended rc); [|by specialize (Hfin eq_refl)].
  by destruct (_ <? _).
Qed.

Lemma voice_sendseg active closed s t q :
  sendseg (voice active closed s t q) =
  voice (active && negb (finished (set_segments_out s []))) closed (set_segments_out s []) t
    (q ++ map stamped (outgoing (TCPSender._segments_out s))).
Proof.
  rewrite sendseg_eq, to_send_outgoing. change (TCPSender._segments_out (_sender (voice active closed s t q))) with (TCPSender._segments_out s).
  change (set_queue (voice active closed s t q) []) with (voice active closed (set_segments_out s []) t q).
  assert (forall l q, fold_left send_one l (voice active closed (set_segments_out s []) t q) =
    voice active closed (set_segments_out s []) t (q ++ map stamped l)) as ->.
  { induction l as [|seg l IH]; intros q'; cbn [fold_left map]; [by rewrite app_nil_r|].
    by rewrite voice_send_one, IH, <- app_assoc. }
  apply voice_shutdown.
Qed.

Lemma not_finished s : TCPSender._bytes_in_flight s <> 0 \/ input_ended (TCPSender._stream s) = false -> finished s = false.
Proof.
  unfold finished. intros [Hf|He]; [|rewrite He; by rewrite andb_false_r].
  destruct (Z.eqb_spec (TCPSender._bytes_in_flight s) 0); [done|]. by rewrite andb_false_r.
Qed.

(** A bare acknowledgment arrives. *)
Lemma talker_acked s t a w :
  finished s = false ->
  TCPConnection.segment_received (speaking true s t []) (stamp TCPSegment.new a w) = speaking true (ack_received s a (u16 w)) 0 [].
Proof.
  intros Hf. unfold speaking at 1. rewrite Hf. cbn [negb]. unfold TCPConnection.segment_received. set (seg := stamp TCPSegment.new a w).
  assert (TCPReceiver.segment_received rc seg = rc) as Hr by (destruct Hrc; by apply receive_empty).
  cbn [negb andb _active voice _syn_set]. change (rst (_header seg)) with false. cbv zeta.
  change (_receiver (set_time _ 0)) with rc. rewrite Hr. change (ack (_header seg)) with true. cbv iota.
  change (set_sender (set_receiver (set_time _ 0) rc) _) with (voice true true (ack_received s a (u16 w)) 0 []).
  rewrite voice_shutdown. cbn [andb]. fold (speaking true (ack_received s a (u16 w)) 0 []).
  change (fin (_header seg)) with false. cbn [negb]. rewrite andb_true_r.
  change (_fin_ack_sent (speaking true (ack_received s a (u16 w)) 0 [])) with (ended rc).
  change (0 <? length_in_sequence_space seg) with false. cbv iota.
  assert (clean_shutdown (speaking true (ack_received s a (u16 w)) 0 []) = speaking true (ack_received s a (u16 w)) 0 []) as ->
    by (unfold speaking; by rewrite voice_shutdown, andb_diag).
  by destruct (ended rc).
Qed.

(** Time passes: what the sender has queued leaves the connection. *)
Lemma talker_ticks closed s t q ms :
  let s1 := TCPSender.tick s ms in
  finished s = false -> TCPSender.consecutive_retransmissions s1 <= MAX_RETX_ATTEMPTS ->
  TCPConnection.tick (speaking closed s t q) ms =
  speaking closed (set_segments_out s1 []) (u64 (t + ms)) (q ++ map stamped (TCPSender._segments_out s1)).
Proof.
  intros s1 Hf Hretx. unfold speaking at 1. rewrite Hf. cbn [negb]. unfold TCPConnection.tick. cbn [_active voice negb].
  change (set_sender (set_time _ _) _) with (voice true closed s1 (u64 (t + ms)) q).
  change (TCPSender.consecutive_retransmissions (_sender _)) with (TCPSender.consecutive_retransmissions s1).
  destruct (Z.ltb_spec MAX_RETX_ATTEMPTS (TCPSender.consecutive_retransmissions s1)); [lia|].
  rewrite voice_shutdown. cbn [_active voice]. change (segments_out (_sender _)) with (TCPSender._segments_out s1).
  destruct (TCPSender._segments_out s1) as [|seg segs] eqn:E.
  - cbn [map]. rewrite app_nil_r. assert (set_segments_out s1 [] = s1) as -> by (rewrite <- E; by destruct s1).
    by destruct (negb _).
  - assert (finished s1 = false) as -> by (unfold finished; rewrite bool_decide_eq_false_2, !andb_false_r by congruence; done).
    cbn [andb negb]. rewrite voice_sendseg, E. done.
Qed.

(** A connection that is finished does not change. *)
Lemma talker_rests closed s t q ms : finished s = true -> TCPConnection.tick (speaking closed s t q) ms = speaking closed s t q.
Proof. intros Hf. unfold speaking. by rewrite Hf. Qed.

(** The write and the end of the stream. *)
Lemma talking_eq d s sv f g g' :
  let s1 := wrote d s in
  let s2 := finishes (set_segments_out s1 []) in
  input_ended (TCPSender._stream s) = false -> input_ended (TCPSender._stream s1) = false -> TCPSender._segments_out s = [] ->
  talking d (mkPair (speaking false s f []) sv [] [] g g') =
  mkPair (speaking true (set_segments_out s2 []) f []) sv
    (map stamped (outgoing (TCPSender._segments_out s1) ++ outgoing (TCPSender._segments_out s2))) [] g g'.
Proof.
  intros s1 s2 He He1 Hq. unfold talking. unfold talker_does at 3. cbn [TCPConnection.step talker listener forth back heard heard_back read_by].
  unfold TCPConnection.write. change (stream_in (_sender (speaking false s f []))) with (TCPSender._stream s).
  rewrite (surjective_pairing (ByteStream.write (TCPSender._stream s) d)).
  change (set_sender (speaking false s f []) _) with (voice (negb (finished s)) false s1 f []).
  rewrite voice_sendseg, (not_finished s), (not_finished (set_segments_out s1 [])) by (by right). cbn [negb andb app].
  unfold talker_does at 2. cbn [TCPConnection.step talker listener forth back heard heard_back read_by app].
  set (q1 := map stamped (outgoing (TCPSender._segments_out s1))). unfold end_input_stream.
  change (set_closed (set_sender (voice true false (set_segments_out s1 []) f q1) _) true) with (voice true true s2 f q1).
  rewrite voice_sendseg. subst q1. rewrite <- map_app. unfold talker_does.
  cbn [TCPConnection.step talker listener forth back heard heard_back read_by app]. rewrite !app_nil_r. reflexivity.
Qed.
End talker.

(** ** The listener *)

Section listener.
Context (cfg : TCPConfig) (Hrto : 0 < rt_timeout cfg).
Context (P : TCPSender -> Prop) (ua : WrappingInt32) (wa : Z) (over : bool) `{!Resting P ua wa over}.

(** What changes in it besides the receiver. *)
Record ear := mkEar {
  e_sender : TCPSender;
  e_linger : bool;
  e_time : Z;
  e_fin_ack : bool;
  e_rec_fin : option WrappingInt32
}.

Definition hearing (h : ear) (rc : TCPReceiver) (q : list TCPSegment) : TCPConnection :=
  mkConnection cfg rc (e_sender h) q (e_linger h) (e_time h) true false (e_fin_ack h) over true (e_rec_fin h).

(** Before the end of the talker's stream, and after it. *)
Record attentive (h : ear) (rc : TCPReceiver) : Prop := mkAttentive {
  at_sender : P (e_sender h);
  at_open : ended rc = false -> e_linger h = true /\ e_fin_ack h = false /\ e_rec_fin h = None;
  at_ended : ended rc = true -> e_linger h = over /\ e_fin_ack h = true /\ e_time h = 0
}.

(** Its streams are not both over, or it lingers; so it stays active. *)
Lemma hearing_shutdown s linger t fin_ack rec_fin rc q :
  P s -> (over = true -> linger = true /\ t = 0) ->
  clean_shutdown (hearing (mkEar s linger t fin_ack rec_fin) rc q) =
  hearing (mkEar s (if ended rc && negb over then false else linger) t fin_ack rec_fin) rc q.
Proof.
  intros Hs Hl. unfold clean_shutdown. change (inbound_stream (hearing _ _ _)) with (TCPReceiver.stream_out rc). fold (ended rc).
  change (stream_in (_sender (hearing _ _ _))) with (TCPSender._stream s). rewrite (rs_eof s Hs).
  set (h := mkEar s (if ended rc && negb over then false else linger) t fin_ack rec_fin).
  assert ((if ended rc && negb over then set_linger (hearing (mkEar s linger t fin_ack rec_fin) rc q) false
    else hearing (mkEar s linger t fin_ack rec_fin) rc q) = hearing h rc q) as -> by (subst h; by destruct (ended rc && negb over)).
  change (inbound_stream (hearing _ _ _)) with (TCPReceiver.stream_out rc). fold (ended rc).
  change (stream_in (_sender (hearing _ _ _))) with (TCPSender._stream s). rewrite (rs_ended s Hs). cbv zeta.
  destruct (_ && ended rc); [|done]. destruct over eqn:Ho; cbn [andb]; [|done]. destruct (bool_decide _); [|done].
  destruct (_ =? 0); [|done]. destruct (Hl eq_refl) as [-> ->].
  change (_time_since_last_segment_received (hearing h rc q)) with 0. change (_cfg (hearing h rc q)) with cfg.
  destruct (Z.leb_spec (10 * rt_timeout cfg) 0); [lia|].
  assert (e_linger h = true) as Hh by (subst h; simpl; by rewrite andb_false_r).
  change (_linger_after_streams_finish (hearing h rc q)) with (e_linger h). rewrite Hh. done.
Qed.

(** A segment of the talker, as its connection sends it. *)
Record carries_ack (seg : TCPSegment) : Prop := mkCarriesAck {
  cy_ack : ack (_header seg) = true;
  cy_ackno : TCPHeader.ackno (_header seg) = ua;
  cy_rst : rst (_header seg) = false;
  cy_win : win (_header seg) = wa
}.

(** The part of [segment_received] up to the answer. *)
Lemma listener_takes h rc seg :
  attentive h rc -> carries_ack seg ->
  let rc' := TCPReceiver.segment_received rc seg in
  let s' := ack_received (e_sender h) ua wa in
  let linger := if ended rc' && negb over then false else e_linger h in
  P s' /\ (over = true -> linger = true) /\
  TCPConnection.segment_received (hearing h rc []) seg =
  if e_fin_ack h && negb (fin (_header seg)) then hearing (mkEar s' linger 0 (e_fin_ack h) (e_rec_fin h)) rc' []
  else
    let rec_fin := if fin (_header seg) then Some (seqno (_header seg)) else e_rec_fin h in
    let c := hearing (mkEar s' linger 0 (e_fin_ack h) rec_fin) rc' [] in
    clean_shutdown (if 0 <? length_in_sequence_space seg then sendseg c else c).
Proof.
  intros [Hs Hop Hen] [Ha Hn Hr Hw] rc' s' linger. pose proof (rs_again _ Hs) as Hs'. fold s' in Hs'. split; [done|].
  assert (over = true -> e_linger h = true) as Hl.
  { intros Ho. destruct (ended rc) eqn:He; [destruct (Hen eq_refl) as [-> _]; done|by destruct (Hop eq_refl)]. }
  split; [intros Ho; subst linger; rewrite Ho, andb_false_r; by apply Hl|].
  destruct h as [s l t fa rf]. simpl in *. unfold TCPConnection.segment_received. cbn [negb andb _active _syn_set hearing].
  rewrite Hr, Ha, Hn, Hw. cbv zeta. change (_receiver (set_time _ _)) with rc. fold rc'.
  change (_sender (set_receiver _ _)) with s. fold s'.
  change (set_sender (set_receiver _ rc') s') with (hearing (mkEar s' l 0 fa rf) rc' []).
  rewrite hearing_shutdown by (done || (intros Ho; split; [by apply Hl|done])). fold linger.
  change (_fin_ack_sent (hearing _ _ _)) with fa. destruct (fa && negb (fin (_header seg))); [done|]. by destruct (fin (_header seg)).
Qed.

(** The answer. *)
Lemma listener_sends s linger t fin_ack rec_fin rc a :
  P s -> (over = true -> linger = true /\ t = 0) -> TCPReceiver.ackno rc = Some a ->
  sendseg (hearing (mkEar s linger t fin_ack rec_fin) rc []) =
  hearing (mkEar s (if ended rc && negb over then false else linger) t
    (match rec_fin with Some n => if raw_value n <? raw_value a then true else fin_ack | None => fin_ack end) rec_fin) rc
    [stamp TCPSegment.new a (window_size rc)].
Proof.
  intros Hs Hl Ha. pose proof (rs_queue _ Hs) as Hq. rewrite sendseg_eq, to_send_outgoing.
  change (TCPSender._segments_out (_sender (hearing _ rc []))) with (TCPSender._segments_out s). rewrite Hq.
  assert (set_queue (hearing (mkEar s linger t fin_ack rec_fin) rc []) [] = hearing (mkEar s linger t fin_ack rec_fin) rc []) as ->
    by (unfold set_queue, set_sender, hearing; simpl; f_equal; unfold set_segments_out; rewrite <- Hq; by destruct s).
  cbn [outgoing fold_left]. rewrite <- hearing_shutdown by done. f_equal.
  unfold send_one. cbn [syn _header TCPSegment.new TCPHeader.new]. change (_receiver (hearing _ rc [])) with rc. rewrite Ha.
  cbn [_rec_fin_seqno hearing e_rec_fin stamp TCPHeader.ackno _header]. destruct rec_fin as [n|]; [|done]. by destruct (_ <? _).
Qed.

(** The next segment of the stream arrives: it is answered. *)
Lemma listener_answers h rc seg a :
  attentive h rc -> ended rc = false -> carries_ack seg -> 0 < length_in_sequence_space seg ->
  let rc' := TCPReceiver.segment_received rc seg in
  TCPReceiver.ackno rc' = Some a -> ended rc' = fin (_header seg) ->
  (fin (_header seg) = true -> raw_value (seqno (_header seg)) < raw_value a) ->
  exists h', attentive h' rc' /\
  TCPConnection.segment_received (hearing h rc []) seg = hearing h' rc' [stamp TCPSegment.new a (window_size rc')].
Proof.
  intros Hat Ho Hca Hlen rc' Ha He Hraw. destruct (listener_takes h rc seg Hat Hca) as (Hs & Hl & ->).
  destruct Hat as [_ Hop _]. destruct (Hop Ho) as (El & Ef & Er). fold rc' in Hl |- *. rewrite El, Ef, Er in *. cbn [andb]. cbv zeta.
  set (s' := ack_received (e_sender h) ua wa) in *. destruct (Z.ltb_spec 0 (length_in_sequence_space seg)); [|lia].
  rewrite (listener_sends _ _ _ _ _ _ a) by (done || (intros Hx; split; [by apply Hl|done])).
  rewrite hearing_shutdown by (done || (intros Hx; split; [rewrite Hx, andb_false_r; done|done])).
  eexists. split; [|reflexivity]. rewrite He. constructor; simpl; [done|..].
  - rewrite He. intros ->. done.
  - rewrite He. intros Hf. rewrite Hf in *. specialize (Hraw eq_refl).
    destruct (Z.ltb_spec (raw_value (seqno (_header seg))) (raw_value a)); [|lia]. cbn [andb]. by destruct over.
Qed.

(** An empty segment is not answered. *)
Lemma listener_ignores h rc seg :
  attentive h rc -> carries_ack seg -> length_in_sequence_space seg = 0 -> fin (_header seg) = false ->
  TCPReceiver.segment_received rc seg = rc ->
  exists h', attentive h' rc /\ TCPConnection.segment_received (hearing h rc []) seg = hearing h' rc [].
Proof.
  intros Hat Hca Hlen Hfin Hrc. destruct (listener_takes h rc seg Hat Hca) as (Hs & Hl & ->). rewrite Hrc, Hfin, Hlen in *.
  destruct Hat as [_ Hop Hen]. cbn [negb]. rewrite andb_true_r. cbv zeta. change (0 <? 0) with false. cbv iota.
  rewrite hearing_shutdown by (done || (intros Hx; split; [by apply Hl|done])).
  exists (mkEar (ack_received (e_sender h) ua wa) (if ended rc && negb over then false else e_linger h) 0 (e_fin_ack h) (e_rec_fin h)).
  split; [|destruct (e_fin_ack h); [done|]; by destruct (ended rc && negb over)].
  constructor; simpl; [done|..]; intros He; rewrite He.
  - by apply Hop.
  - destruct (Hen He) as (-> & -> & _). cbn [andb]. by destruct over.
Qed.
End listener.

(** ** Exchanges *)

(** The segments on their way: those in flight, in their order, and [n] empty
    ones. *)
Inductive queued (ua : WrappingInt32) (wa : Z) : nat -> list TCPSegment -> list TCPSegment -> Prop :=
  | queued_nil : queued ua wa 0 [] []
  | queued_segment n seg seg' q f :
      same_core seg seg' -> carries_ack ua wa seg' -> queued ua wa n q f -> queued ua wa n (seg :: q) (seg' :: f)
  | queued_empty n seg q f :
      empty_ack seg -> carries_ack ua wa seg -> queued ua wa n q f -> queued ua wa (S n) q (seg :: f).

Lemma queued_app ua wa n n' q f q' f' :
  queued ua wa n q f -> queued ua wa n' q' f' -> queued ua wa (n + n') (q ++ q') (f ++ f').
Proof. intros Hq Hq'. induction Hq; simpl; [done|by constructor|by constructor]. Qed.

Lemma queued_stamped rc ua segs : no_rst segs -> queued ua (u16 (window_size rc)) 0 segs (map (stamped rc ua) segs).
Proof.
  induction segs as [|seg segs IH]; intros Hs; [constructor|]. inversion_clear Hs as [|? ? Hr Hs'].
  constructor; [done| |by apply IH]. by constructor.
Qed.

Lemma queued_outgoing rc ua segs :
  no_rst segs -> queued ua (u16 (window_size rc)) (if decide (segs = []) then 1 else 0) segs (map (stamped rc ua) (outgoing segs)).
Proof.
  intros Hr. destruct segs as [|seg segs]; [|by apply queued_stamped]. apply queued_empty; [done|by constructor|constructor].
Qed.

Section flow.
Context (cfg_x cfg_y : TCPConfig) (Hcfg_x : config_wf cfg_x) (Hrto_y : 0 < rt_timeout cfg_y).
Context (rc0 : TCPReceiver) (ua : WrappingInt32) (rec_fin0 : option WrappingInt32).
Context (Hrc0 : settled_receiver rc0) (Hua : TCPReceiver.ackno rc0 = Some ua) (Hfin0 : ended rc0 = false -> rec_fin0 = None).
Local Notation wa := (u16 (window_size rc0)).
Context (P : TCPSender -> Prop) (over : bool) `{!Resting P ua wa over}.
Context (isn : WrappingInt32) (cap : Z) (Hcap : 1 <= cap < 65536).
Context (d : bytes) (Hd : zlen d < 2147483646) (ms : Z) (Hms : 0 <= ms) (Hrto : 2 * ms < rt_timeout cfg_x) (past : bytes).
Local Notation speaks := (speaking cfg_x rc0 rec_fin0 true).
Local Notation hears := (hearing cfg_y over).

(** The listener has everything up to where the sender is, and its application
    has read it. *)
Record abreast (s : TCPSender) (rc : TCPReceiver) (g : bytes) (h : ear) : Prop := mkAbreast {
  ab_world : EndToEnd.inv (world_of d s rc g);
  ab_clean : clean (world_of d s rc g);
  ab_set : TCPReceiver._isn_set rc = true;
  ab_error : error (TCPReceiver.stream_out rc) = false;
  ab_capacity : TCPReceiver._capacity rc = cap;
  ab_read : _buf (TCPReceiver.stream_out rc) = [];
  ab_place : TCPSender.una s = acked_upto (world_of d s rc g);
  ab_ear : attentive P over h rc
}.

(** Between two exchanges. *)
Record flow (n : nat) (p : pair) (s : TCPSender) (t : Z) (rc : TCPReceiver) (h : ear) : Prop := mkFlow {
  fw_talker : talker p = speaks s t [];
  fw_listener : listener p = hears h rc [];
  fw_back : back p = [];
  fw_past : heard_back p = past;
  fw_pushing : pushing d cap isn s;
  fw_out : TCPSender._segments_out s = [];
  fw_timer : TCPSender.outSegments s = [] \/ timely (rt_timeout cfg_x) ((2 - Z.of_nat n) * ms) s;
  fw_initial : TCPSender._initial_retransmission_timeout s = rt_timeout cfg_x;
  fw_queue : queued ua wa n (TCPSender.outSegments s) (forth p);
  fw_few : (n <= 1)%nat;
  fw_abreast : abreast s rc (heard p) h
}.

(** *** A segment arrives *)

(** While something is in flight the stream has not ended. *)
Lemma still_open n p s t rc h seg q :
  flow n p s t rc h -> TCPSender.outSegments s = seg :: q ->
  let w := world_of d s rc (heard p) in
  ended rc = false /\ acked_upto w = 1 + written w /\ room w = cap /\ 0 <= written w <= zlen d /\
  TCPSender._bytes_in_flight s <> 0.
Proof.
  intros Hfl Ho w. pose proof (fw_pushing _ _ _ _ _ _ Hfl) as Hp. pose proof (pushing_bound _ _ _ s Hp) as [Hu Hn].
  pose proof (TCPSender.inv_flight _ _ (pu_inv _ _ _ _ Hp)) as Hf. rewrite Ho in Hf. destruct Hf as (_ & Hlen & Hq%TCPSender.consecutive_le).
  destruct (fw_abreast _ _ _ _ _ _ Hfl) as [Hw Hcl _ _ Hc Hrd Hpl _]. fold w in Hw, Hcl, Hpl. destruct (written_u64 w Hw Hd) as [Hwr _]. change (data w) with d in Hwr.
  assert (ended rc = false) as Hopen.
  { destruct (ended rc) eqn:He; [|done]. pose proof (cl_end _ Hcl He) as Hx. unfold acked_upto in Hpl. change (data w) with d in Hx.
    unfold ended in He. simpl in Hpl, Hx. rewrite He in Hpl. lia. }
  split_and!; [done| | |exact (proj1 Hwr)|exact (proj2 Hwr)|unfold TCPSender.una in *; lia].
  - unfold acked_upto. fold (written w). unfold ended in Hopen. simpl. rewrite Hopen. lia.
  - unfold room. pose proof (TCPReceiver.window_size_eq _ (EndToEnd.inv_receiver _ Hw)) as (V1 & V2 & _).
    simpl in V1, V2. simpl. rewrite <- V1, V2, Hc. unfold buffer_size. rewrite Hrd. lens_nil. lia.
Qed.

(** A receiver that has got a segment, and nothing after it, has ended its
    stream just if the segment has the FIN. *)
Lemma fin_ends w pos seg :
  clean w -> data w = d -> written w <= zlen d -> seg_of d isn pos seg -> 1 <= pos ->
  1 + written w + (if ended (rcv w) then 1 else 0) = pos + length_in_sequence_space seg ->
  ended (rcv w) = fin (_header seg).
Proof.
  intros Hcl Hdt Hw Hseg Hpos Hup. pose proof (seg_excerpt _ _ _ _ Hseg) as (H0 & Hl & _). pose proof (seg_pos _ _ _ _ Hseg) as Hsp.
  pose proof (zlen_nonneg (payload seg)). destruct (syn (_header seg)) eqn:Hsyn; [lia|].
  rewrite seglen_eq, Hsyn in Hup by (words; lia). pose proof (seg_fin _ _ _ _ Hseg) as Hfi. unfold index_of in *. rewrite Hsyn in *.
  pose proof (cl_end _ Hcl) as Hx. fold (written w) (ended (rcv w)) in Hx. rewrite Hdt in Hx.
  destruct (ended (rcv w)), (fin (_header seg)); try done; [specialize (Hx eq_refl); lia|specialize (Hfi eq_refl); lia].
Qed.

(** What the receiver makes of the oldest segment in flight. *)
Lemma receiver_gets n p s t rc h seg q :
  flow n p s t rc h -> TCPSender.outSegments s = seg :: q ->
  let a := TCPSender.una s + length_in_sequence_space seg in
  let rc' := TCPReceiver.segment_received rc seg in
  let w' := world_of d s rc' (heard p) in
  EndToEnd.inv w' /\ clean w' /\ TCPReceiver._isn_set rc' = true /\ TCPReceiver._capacity rc' = cap /\
  acked_upto w' = a /\ TCPReceiver.ackno rc' = Some (wrap a isn) /\
  (ended rc' = fin (_header seg)) /\ seqno (_header seg) = wrap (TCPSender.una s) isn /\
  TCPSender._next_seqno s - a <= Z.max 1 (window_size rc') <= cap /\ 0 <= window_size rc'.
Proof.
  intros Hfl Ho a rc' w'. destruct (still_open _ _ _ _ _ _ _ _ Hfl Ho) as (Hopen & Hup & Hroom & Hwr & _).
  destruct Hfl as [_ _ _ _ Hp _ _ _ _ _ [Hw Hcl Hset _ Hc Hbuf Hpl _]].
  pose proof (pushing_bound _ _ _ s Hp) as [Hu Hn]. destruct Hp as [Hi Hisn _ _ _ _ _ Hcp _ _].
  set (w := world_of d s rc (heard p)) in *. assert (bounded w) as Hb by exact Hd.
  pose proof (TCPSender.inv_flight _ _ Hi) as Hf. rewrite Ho in Hf. destruct Hf as ((Hseg & _) & Hlen & Hq%TCPSender.consecutive_le).
  fold a in Hq. rewrite Hisn in Hseg.
  destruct (deliver_run [seg] w (TCPSender.una s) a) as ([X1 X2 X3 X4] & (S1 & S2 & S3 & S4 & S5) & S6).
  { by constructor. } { done. } { apply Forall_singleton. simpl. rewrite Ho. by left. }
  { split; [|by split]. unfold isn_of. simpl. rewrite Hisn. exact Hseg. }
  { rewrite Hroom. unfold a in *. lia. }
  cbn [fold_left] in *. change (deliver w seg) with w' in *. rewrite Hroom in S6.
  pose proof (ackno_upto w' X1 Hb X3) as Hack. rewrite X4 in Hack. unfold isn_of in Hack. simpl in Hack. rewrite Hisn in Hack.
  pose proof (TCPReceiver.window_size_eq _ (EndToEnd.inv_receiver _ X1)) as (V1 & V2 & _). simpl in V1, V2.
  change (remaining_capacity (TCPReceiver.stream_out rc')) with (room w') in V1.
  destruct (written_u64 w' X1 Hb) as [Hwr' _]. fold (written w') in Hwr'. change (data w') with d in Hwr'.
  unfold acked_upto in X4. fold (written w') in X4. simpl in X4.
  split_and!; try done; [exact (eq_trans S5 Hc)| |by apply Hseg| | |].
  - apply (fin_ends w' (TCPSender.una s)); try done; lia.
  - rewrite V1. unfold a in *. destruct (input_ended (TCPReceiver.stream_out rc')); lia.
  - rewrite V1. unfold a in *. destruct (input_ended (TCPReceiver.stream_out rc')); lia.
  - rewrite V1. unfold room. apply u64_range.
Qed.

(** *** The turns of an exchange *)
Lemma listener_turn x h w q f g' :
  listener_does Dequeue (listener_reads (mkPair x (hears h (rcv w) q) f [] (out w) g')) =
  mkPair x (hears h (rcv (take_all w)) []) f q (out (take_all w)) g'.
Proof.
  unfold listener_reads, take_all. cbn [listener].
  change (inbound_stream (hears h (rcv w) q)) with (TCPReceiver.stream_out (rcv w)).
  unfold listener_does at 2. cbn [TCPConnection.step listener read_by].
  change (inbound_stream (hears h (rcv w) q)) with (TCPReceiver.stream_out (rcv w)).
  destruct (ByteStream.read (TCPReceiver.stream_out (rcv w)) _) as [o got']. unfold listener_does. simpl. by rewrite app_nil_r.
Qed.

(** No retransmission is due. *)
Lemma tick_quiet s e :
  TCPSender.outSegments s = [] \/ timely (rt_timeout cfg_x) e s -> e + ms < rt_timeout cfg_x ->
  TCPSender.tick s ms = set_timer s (passTime ms (timer s)) /\
  (TCPSender.outSegments s = [] \/ timely (rt_timeout cfg_x) (e + ms) (TCPSender.tick s ms)).
Proof.
  intros [Ho|Ht] He.
  - split; [|by left]. unfold TCPSender.tick. simpl. by rewrite Ho.
  - destruct (tick_timely _ _ s ms Ht Hms He) as [? ?]; [|eauto]. pose proof (wf_rt_timeout _ Hcfg_x). words. lia.
Qed.

(** Time passes at the talker: it sends what is queued, or is finished. *)
Lemma talker_turn s t e y f g :
  pushing d cap isn s -> TCPSender.outSegments s = [] \/ timely (rt_timeout cfg_x) e s -> e + ms < rt_timeout cfg_x ->
  exists s' t', talker_does Dequeue (talker_does (TimePasses ms) (mkPair (speaks s t []) y f [] g past)) =
    mkPair (speaks s' t' []) y (f ++ map (stamped rc0 ua) (TCPSender._segments_out s)) [] g past /\
  ((s' = s /\ TCPSender._segments_out s = [] /\ TCPSender.outSegments s = []) \/
   (s' = set_segments_out (set_timer s (passTime ms (timer s))) [] /\
    (TCPSender.outSegments s = [] \/ timely (rt_timeout cfg_x) (e + ms) s'))).
Proof.
  intros Hp Ht He. destruct (tick_quiet s e Ht He) as [Et Ht'].
  assert (forall c q, TCPConnection.tick (speaks s t []) ms = c -> TCPConnection._segments_out c = q ->
    talker_does Dequeue (talker_does (TimePasses ms) (mkPair (speaks s t []) y f [] g past)) =
    mkPair (TCPConnection.dequeue c) y (f ++ q) [] g past) as Hgo.
  { intros c q Hc Hq. unfold talker_does at 2. cbn [TCPConnection.step talker listener forth back heard heard_back read_by]. rewrite Hc.
    unfold talker_does. cbn [TCPConnection.step talker listener forth back heard heard_back read_by]. by rewrite Hq, !app_nil_r. }
  destruct (finished rc0 s) eqn:Hf.
  - exists s, t. pose proof (talker_rests cfg_x rc0 rec_fin0 true s t [] ms Hf) as Hc. unfold finished in Hf.
    apply andb_true_iff in Hf as [[_ [_ Hq%bool_decide_eq_true]%andb_true_iff]%andb_true_iff Hz%Z.eqb_eq].
    rewrite (Hgo _ [] Hc eq_refl), Hq. split; [done|]. left. split_and!; [done|done|]. by apply (flight_empty d), Hz; apply Hp.
  - set (s1 := set_timer s (passTime ms (timer s))) in *. exists (set_segments_out s1 []), (u64 (t + ms)).
    pose proof (talker_ticks cfg_x rc0 ua rec_fin0 Hrc0 Hua Hfin0 true s t [] ms Hf) as Hc. rewrite Et in Hc.
    rewrite (Hgo _ _ (Hc ltac:(unfold TCPSender.consecutive_retransmissions; simpl; by rewrite (pu_retx _ _ _ _ Hp))) eq_refl).
    split; [done|]. right. split; [done|]. rewrite Et in Ht'. destruct Ht' as [|[]]; [by left|by right].
Qed.

(** The end of an exchange: [s] is the talker's sender before the tick. *)
Lemma settled n f g s t e rc h q :
  pushing d cap isn s -> TCPSender.outSegments s = q ++ TCPSender._segments_out s -> no_rst (TCPSender._segments_out s) ->
  TCPSender.outSegments s = [] \/ timely (rt_timeout cfg_x) e s -> e + ms <= (2 - Z.of_nat n) * ms -> (n <= 1)%nat ->
  TCPSender._initial_retransmission_timeout s = rt_timeout cfg_x -> queued ua wa n q f -> abreast s rc g h ->
  exists s' t', TCPSender.una s' = TCPSender.una s /\
  flow n (talker_does Dequeue (talker_does (TimePasses ms) (mkPair (speaks s t []) (hears h rc []) f [] g past))) s' t' rc h.
Proof.
  intros Hp Ho Hr Ht He Hn Hin Hq Hab. destruct (talker_turn s t e (hears h rc []) f g Hp Ht) as (s' & t' & -> & Hs'); [nia|].
  exists s', t'. assert (queued ua wa n (TCPSender.outSegments s) (f ++ map (stamped rc0 ua) (TCPSender._segments_out s))) as Hq'
    by (rewrite Ho, <- (Nat.add_0_r n); apply queued_app; [done|by apply queued_stamped]).
  destruct Hs' as [(-> & Hx & Hy)|[-> Ht']]; (split; [done|]).
  - constructor; try done. by left.
  - destruct (tick_quiet s e Ht) as [Et _]; [nia|]. destruct Hab as [Hw Hcl Hset Her Hc Hb Hpl Hea].
    pose proof (world_step d Hd s rc g (TCPSender.Tick ms) _ _ Hw I eq_refl) as Hw1.
    pose proof (world_step d Hd (TCPSender.tick s ms) rc g TCPSender.Drain _ _ Hw1 I eq_refl) as Hw2. rewrite Et in Hw2.
    pose proof (EndToEnd.inv_sender _ Hw2) as Hi. constructor; try done; [by destruct Hp| |].
    + destruct Ht' as [|[T1 T2 T3]]; [by left|right]. constructor; try done. simpl in *. lia.
    + constructor; try done. by destruct Hcl.
Qed.

(** The listener's application reads. *)
Lemma read_turn s rc g h :
  let w1 := world_of d s rc g in
  EndToEnd.inv w1 -> clean w1 -> TCPReceiver._isn_set rc = true -> TCPReceiver._capacity rc = cap ->
  error (TCPReceiver.stream_out rc) = false -> attentive P over h rc -> TCPSender.una s = acked_upto w1 ->
  abreast s (rcv (take_all w1)) (out (take_all w1)) h.
Proof.
  intros w1 Hi Hcl Hset Hc Her [A1 A2 A3] Hpl.
  destruct (take_all_spec w1 Hi Hd) as (T1 & T2 & T3 & T4 & T5 & T6 & T7 & T8 & T9 & _).
  specialize (T5 Hcl). pose proof (rewire d _ T1 T9) as Hi2. rewrite T8 in Hi2.
  assert (ended (rcv (take_all w1)) = ended rc /\ error (TCPReceiver.stream_out (rcv (take_all w1))) = error (TCPReceiver.stream_out rc))
    as [E1 E2] by (unfold take_all, ended; by destruct (ByteStream.read _ _) as [o g'] eqn:E; injection E as <- _).
  constructor; [exact Hi2|destruct T5; constructor; try done; simpl; by rewrite <- T9|exact (eq_trans T6 Hset)|congruence|
    exact (eq_trans T4 Hc)|done|exact (eq_trans Hpl (eq_sym T7))|]. by constructor; rewrite ?E1.
Qed.

(** The sum of what is left to send and the empty segments. *)
Definition flowing (left_over : Z) (p : pair) : Prop :=
  exists n s t rc h, flow n p s t rc h /\ left_over = zlen d + 2 - TCPSender.una s + Z.of_nat n.

(** An exchange in which nothing is acknowledged. *)
Lemma exchange_silent n p s t rc h n' f h' :
  flow n p s t rc h -> (n' <= n)%nat -> (n' < n)%nat \/ TCPSender.outSegments s = [] ->
  queued ua wa n' (TCPSender.outSegments s) f -> attentive P over h' rc ->
  arrives p = mkPair (talker p) (hears h' rc []) f [] (heard p) past ->
  flowing (zlen d + 2 - TCPSender.una s + Z.of_nat n') (exchange ms p).
Proof.
  intros [Htk _ _ _ Hp Hout Htm Hin _ Hfew [Hw Hcl Hset Her Hc _ Hpl _]] Hn' Hnn Hq Hh Hto.
  pose proof (read_turn s rc (heard p) h' Hw Hcl Hset Hc Her Hh Hpl) as Hab.
  unfold exchange. rewrite Hto, Htk, (listener_turn _ h' (world_of d s rc (heard p))). cbv zeta. unfold returns. cbn [back].
  destruct (settled n' f (out (take_all (world_of d s rc (heard p)))) s t ((1 - Z.of_nat n') * ms)
    (rcv (take_all (world_of d s rc (heard p)))) h' (TCPSender.outSegments s)) as (s' & t' & Hu & Hf'); try done.
  - by rewrite Hout, app_nil_r.
  - rewrite Hout. constructor.
  - destruct Hnn as [Hnn|Ho]; [|by left]. destruct Htm as [|[T1 T2 T3]]; [by left|right]. constructor; [done|nia|done].
  - nia.
  - lia.
  - eexists _, s', t', _, h'. split; [exact Hf'|]. by rewrite Hu.
Qed.

(** The oldest segment arrives and is answered. *)
Lemma segment_arrives n p s t rc h seg seg' q f :
  flow n p s t rc h -> TCPSender.outSegments s = seg :: q -> forth p = seg' :: f -> same_core seg seg' -> carries_ack ua wa seg' ->
  let a := TCPSender.una s + length_in_sequence_space seg in
  let rc' := TCPReceiver.segment_received rc seg in
  exists h', attentive P over h' rc' /\
  arrives p = mkPair (speaks s t []) (hears h' rc' [stamp TCPSegment.new (wrap a isn) (window_size rc')]) f [] (heard p) past.
Proof.
  intros Hfl Ho Hf Hcore Hca a rc'. destruct (receiver_gets _ _ _ _ _ _ seg q Hfl Ho) as (_ & _ & _ & _ & _ & G6 & G8 & G9 & _).
  destruct (still_open _ _ _ _ _ _ _ _ Hfl Ho) as (Hopen & _). destruct Hfl as [Htk Hls Hb Hpast Hp _ _ _ _ _ [_ _ _ _ _ _ _ Hea]].
  pose proof (TCPSender.inv_flight _ _ (pu_inv _ _ _ _ Hp)) as Hx. rewrite Ho in Hx. destruct Hx as (_ & Hlen & Hnx%TCPSender.consecutive_le).
  assert (length_in_sequence_space seg' = length_in_sequence_space seg) as Hlen'
    by (destruct Hcore as (_ & E1 & E2 & E3); unfold length_in_sequence_space; rewrite E1, E2;
        change (str (_payload seg')) with (payload seg'); by rewrite E3).
  pose proof (receive_core rc seg seg' Hcore) as Hrc. destruct Hcore as (Eno & _ & Efin & _).
  destruct (listener_answers cfg_y Hrto_y P ua wa over h rc seg' (wrap a isn)) as (h' & Hat & Hrec); try done.
  - lia.
  - by rewrite Hrc.
  - by rewrite Hrc, Efin.
  - intros _. rewrite Eno, G9. pose proof (TCPSender.inv_isn _ _ (pu_inv _ _ _ _ Hp)) as Hwf. rewrite (pu_isn _ _ _ _ Hp) in Hwf.
    pose proof (pushing_bound _ _ _ s Hp). pose proof (pu_numbers _ _ _ _ Hp). fold a in Hnx. subst a. rewrite !TCPSender.raw_pos by (done || lia). lia.
  - rewrite Hrc in Hat, Hrec. exists h'. split; [done|]. unfold arrives. rewrite Hf, Hls, Htk. unfold listener_does.
    cbn [TCPConnection.step talker listener forth back heard heard_back read_by]. by rewrite Hrec, Hb, Hpast, !app_nil_r.
Qed.

(** An exchange in which the oldest segment is acknowledged. *)
Lemma exchange_segment n p s t rc h seg seg' q f :
  flow n p s t rc h -> TCPSender.outSegments s = seg :: q -> forth p = seg' :: f ->
  same_core seg seg' -> carries_ack ua wa seg' -> queued ua wa n q f ->
  exists left_over, flowing left_over (exchange ms p) /\ left_over < zlen d + 2 - TCPSender.una s + Z.of_nat n.
Proof.
  intros Hfl Ho Hf Hcore Hca Hq.
  destruct (receiver_gets _ _ _ _ _ _ seg q Hfl Ho) as (G1 & G2 & G3 & G4 & G5 & _ & _ & _ & G10 & G11).
  destruct (still_open _ _ _ _ _ _ _ _ Hfl Ho) as (_ & _ & _ & _ & Hnz).
  destruct (segment_arrives _ _ _ _ _ _ seg seg' q f Hfl Ho Hf Hcore Hca) as (h' & Hat & Hto).
  pose proof Hfl as [_ _ _ _ Hp Hout _ Hin _ Hfew [_ _ _ Her _ _ _ _]].
  set (a := TCPSender.una s + length_in_sequence_space seg) in *. set (rc1 := TCPReceiver.segment_received rc seg) in *.
  assert (TCPSender.una s < a) as Hlt.
  { pose proof (TCPSender.inv_flight _ _ (pu_inv _ _ _ _ Hp)) as Hx. rewrite Ho in Hx. destruct Hx as (_ & Hx & _). subst a. lia. }
  unfold exchange. rewrite Hto, (listener_turn _ h' (world_of d s rc1 (heard p))). cbv zeta. unfold returns. cbn [back].
  unfold talker_does at 3. cbn [TCPConnection.step talker listener forth back heard heard_back read_by].
  rewrite (talker_acked cfg_x rc0 rec_fin0 Hrc0 Hfin0), !app_nil_r by (apply not_finished; by left).
  set (win := window_size rc1) in *. assert (is_u16 win) as Hwin by (words; lia). rewrite (u16_id win) by done.
  destruct (ack_first d cap isn s seg q win Hp Hout Ho Hwin G10) as (Hp2 & Hu2 & Ht2 & Hi2 & segs & Hq2 & Hs2).
  fold a in Hp2, Hu2, Ht2, Hi2, Hq2, Hs2. assert (no_rst segs) as Hr
    by (rewrite <- Hs2; apply ack_received_no_rst; rewrite Hout; constructor).
  pose proof (world_step d Hd s rc1 (heard p) (TCPSender.Ack (wrap a isn) win) _ _ G1 (conj (wf_wrap _ _) Hwin) eq_refl) as Hw2.
  set (s2 := ack_received s (wrap a isn) win) in *. clearbody s2.
  assert (clean (world_of d s2 rc1 (heard p))) as Hcl2 by by destruct G2.
  pose proof (read_turn s2 rc1 (heard p) h' Hw2 Hcl2 G3 G4 (eq_trans (receive_error rc seg) Her) Hat (eq_trans Hu2 (eq_sym G5))) as Hab.
  change (rcv (take_all (world_of d s2 rc1 (heard p)))) with (rcv (take_all (world_of d s rc1 (heard p)))) in Hab.
  change (out (take_all (world_of d s2 rc1 (heard p)))) with (out (take_all (world_of d s rc1 (heard p)))) in Hab.
  destruct (settled n f _ s2 0 0 _ h' q Hp2 ltac:(congruence) ltac:(congruence) ltac:(right; by rewrite Hin in Ht2) ltac:(nia) Hfew
    ltac:(congruence) Hq Hab) as (s' & t' & Hu & Hf').
  exists (zlen d + 2 - TCPSender.una s' + Z.of_nat n). split; [|rewrite Hu, Hu2; lia].
  eexists n, s', t', _, h'. split; [exact Hf'|done].
Qed.

(** An empty segment arrives. *)
Lemma empty_arrives n p s t rc h seg f :
  flow n p s t rc h -> forth p = seg :: f -> empty_ack seg -> carries_ack ua wa seg ->
  exists h', attentive P over h' rc /\ arrives p = mkPair (talker p) (hears h' rc []) f [] (heard p) past.
Proof.
  intros [_ Hls Hb Hpast _ _ _ _ _ _ [_ [C1 C2 _] _ _ _ _ _ Hea]] Ef (E1 & E2 & E3 & _) Hca. simpl in C1, C2.
  assert (length_in_sequence_space seg = 0) as Hlen by (rewrite seglen_eq, E1, E2, E3 by (rewrite E1; words; lens_nil; lia); done).
  destruct (listener_ignores cfg_y Hrto_y P ua wa over h rc seg Hea Hca Hlen E3 (receive_empty rc seg C1 C2 E2 E3 E1)) as (h' & Hat & Hrec).
  exists h'. split; [done|]. unfold arrives. rewrite Ef, Hls. unfold listener_does.
  cbn [TCPConnection.step talker listener forth back heard heard_back read_by]. by rewrite Hrec, Hb, Hpast, !app_nil_r.
Qed.

(** Every exchange brings the transfer nearer to its end. *)
Lemma exchange_progress left_over p :
  flowing left_over p -> exists left_over', flowing left_over' (exchange ms p) /\ left_over' <= Z.max 0 (left_over - 1).
Proof.
  intros (n & s & t & rc & h & Hfl & ->). pose proof (fw_pushing _ _ _ _ _ _ Hfl) as Hp.
  pose proof (pushing_bound _ _ _ s Hp) as [Hu Hn].
  pose proof (fw_queue _ _ _ _ _ _ Hfl) as Hq. remember (forth p) as fp eqn:Ef. symmetry in Ef.
  remember (TCPSender.outSegments s) as qs eqn:Eq. symmetry in Eq. destruct Hq as [|n seg seg' q f Hcore Hca Hq|n seg q f He Hca Hq].
  - exists (zlen d + 2 - TCPSender.una s + Z.of_nat 0). split.
    + eapply (exchange_silent _ _ _ _ _ _ 0 [] h Hfl); [done|by right|rewrite Eq; constructor|apply Hfl|].
      destruct Hfl as [_ Hls Hb Hpast _ _ _ _ _ _ _]. unfold arrives. rewrite Ef. destruct p as [c sv fo ba g g']. simpl in *. by subst.
    + pose proof (TCPSender.inv_flight _ _ (pu_inv _ _ _ _ Hp)) as Hc. rewrite Eq in Hc. simpl in Hc. rewrite (pu_done _ _ _ _ Hp Eq) in Hc. lia.
  - destruct (exchange_segment _ _ _ _ _ _ seg seg' q f Hfl Eq Ef Hcore Hca Hq) as (l & Hl & Hlt). exists l. split; [done|lia].
  - exists (zlen d + 2 - TCPSender.una s + Z.of_nat n). split; [|lia].
    destruct (empty_arrives _ _ _ _ _ _ _ _ Hfl Ef He Hca) as (h' & Hat & Hto).
    eapply (exchange_silent _ _ _ _ _ _ n f h' Hfl); [lia|left; lia|by rewrite Eq|done|done].
Qed.

Lemma exchanges_progress n : forall left_over p, flowing left_over p ->
  exists left_over', flowing left_over' (exchanges n ms p) /\ left_over' <= Z.max 0 (left_over - Z.of_nat n).
Proof.
  induction n as [|n IH]; intros l p Hp; cbn [exchanges]; [exists l; split; [done|lia]|].
  destruct (exchange_progress l p Hp) as (l1 & H1 & Hle1). destruct (IH l1 _ H1) as (l2 & H2 & Hle2).
  exists l2. split; [done|lia].
Qed.

(** The transfer is over: the listener has read everything and seen the end. *)
Record transferred (p : pair) (s : TCPSender) (t : Z) (rc : TCPReceiver) (h : ear) : Prop := mkTransferred {
  tr_pair : p = mkPair (speaks s t []) (hears h rc []) [] [] d past;
  tr_spent : spent d isn s;
  tr_ended : ended rc = true;
  tr_error : error (TCPReceiver.stream_out rc) = false;
  tr_ackno : TCPReceiver.ackno rc = Some (wrap (zlen d + 2) isn);
  tr_receiver : settled_receiver rc;
  tr_ear : attentive P over h rc
}.

Lemma flow_finished left_over p : flowing left_over p -> left_over <= 0 -> exists s t rc h, transferred p s t rc h.
Proof.
  intros (n & s & t & rc & h & [Htk Hls Hb Hpast Hp Hout _ _ Hq _ [Hw Hcl Hset Her _ Hbuf Hpl Hea]] & ->) Hle.
  pose proof (pushing_bound _ _ _ s Hp) as [Hu Hn]. set (w := world_of d s rc (heard p)) in *. assert (bounded w) as Hbd by exact Hd.
  assert (TCPSender.una s = zlen d + 2 /\ n = 0%nat) as [Eu ->] by lia. pose proof (pushing_spent d cap isn s Hp Hout Eu) as Hsp.
  rewrite (sp_flight _ _ _ Hsp) in Hq. inversion Hq as [E1 E2 E3| |].
  destruct (written_u64 w Hw Hbd) as [Hwr Hnx]. change (data w) with d in Hwr. rewrite Eu in Hpl.
  pose proof (ackno_upto w Hw Hbd Hset) as Hack. rewrite <- Hpl in Hack. unfold isn_of in Hack. simpl in Hack.
  rewrite (pu_isn _ _ _ _ Hp) in Hack. unfold acked_upto in Hpl. simpl in Hpl, Hwr, Hnx. assert (ended rc = true) as He.
  { unfold ended. destruct (input_ended (TCPReceiver.stream_out rc)); [done|lia]. }
  assert (heard p = d) as Hg.
  { pose proof (sound_out _ _ _ (EndToEnd.inv_sound _ Hw)) as Hs. simpl in Hs.
    change (_output (_reassembler rc)) with (TCPReceiver.stream_out rc) in Hs. rewrite Hbuf, app_nil_r in Hs.
    unfold ended in He. rewrite He in Hpl. rewrite Hs, ztake_all by lia. done. }
  exists s, t, rc, h. constructor; try done.
  - destruct p as [c sv f b g g']. simpl in *. by subst.
  - constructor; [exact (EndToEnd.inv_receiver _ Hw)|by destruct Hcl|done].
Qed.

(** *** The start *)
Context (s0 : TCPSender) (capacity t0 : Z) (h0 : ear).
Context (Hs0 : ready isn cap (rt_timeout cfg_x) capacity s0) (Hh0 : attentive P over h0 (TCPConnection.opened cap isn)).
Context (Hfit : zlen d <= capacity) (Hnum : raw_value isn + zlen d + 2 < 4294967296).
Local Notation start := (mkPair (speaking cfg_x rc0 rec_fin0 false s0 t0 []) (hears h0 (TCPConnection.opened cap isn) []) [] [] [] past).

Lemma talking_flows : exists left_over, flowing left_over (talking d start) /\ left_over <= zlen d + 2.
Proof.
  pose proof (zlen_nonneg d) as Hdn. destruct (sender_sends isn cap _ capacity d s0 Hs0 Hcap Hfit Hnum Hd) as (P1 & P2 & P3 & P4 & P5 & P6 & P7 & P8).
  rewrite (talking_eq cfg_x rc0 ua rec_fin0 Hrc0 Hua Hfin0), map_app; [|apply Hs0|apply wrote_open, Hs0|apply Hs0].
  set (s1 := wrote d s0) in *. set (s2 := finishes (set_segments_out s1 [])) in *. set (s' := set_segments_out s2 []) in *.
  assert (TCPSender._segments_out s' = []) as P9 by reflexivity. clearbody s1 s2 s'.
  pose proof (queued_outgoing rc0 ua _ P6) as Q1. pose proof (queued_outgoing rc0 ua _ P7) as Q2.
  assert (~ (TCPSender._segments_out s1 = [] /\ TCPSender._segments_out s2 = [])) as Hne.
  { intros [E1 E2]. rewrite E1, E2 in P8. pose proof (pu_done _ _ _ _ P1 P8) as Hx.
    pose proof (TCPSender.inv_flight _ _ (pu_inv _ _ _ _ P1)) as Hy. rewrite P8 in Hy. simpl in Hy. lia. }
  assert (exists n, (n <= 1)%nat /\ queued ua wa n (TCPSender.outSegments s') (map (stamped rc0 ua) (outgoing (TCPSender._segments_out s1)) ++
    map (stamped rc0 ua) (outgoing (TCPSender._segments_out s2)))) as (n & Hn & Hq).
  { rewrite P8. eexists. split; [|by eapply queued_app]. do 2 destruct (decide _); lia || by destruct Hne. }
  exists (zlen d + 2 - TCPSender.una s' + Z.of_nat n). split; [|lia].
  exists n, s', t0, (TCPConnection.opened cap isn), h0. split; [|done]. constructor; try done.
  - right. destruct P3. constructor; try done. nia.
Qed.

(** A string written at one end arrives at the other. *)
Lemma exchanges_transfer n :
  zlen d + 2 <= Z.of_nat n -> exists s t rc h, transferred (exchanges n ms (talking d start)) s t rc h.
Proof.
  intros Hn. destruct talking_flows as (l & Hfl & Hle). destruct (exchanges_progress n l _ Hfl) as (l' & Hfl' & Hle').
  apply (flow_finished l'); [done|lia].
Qed.
End flow.
