(* ===== verification/Delivery.v ===== *)
(** * Delivery: a conversation over a network that delivers

    A client and a server, both [TCPConnection]s, over a network that delivers
    every segment, once and in order ([Exchange]).  The client connects, writes a
    request and ends its stream; when the server has read it, it writes a reply
    and ends its stream; the client reads it, and waits.  Everything that happens
    is an operation of [TCPConnection].

    The theorem is about progress, for whole connections: after numbers of
    exchanges bounded by the lengths of the two strings each application has read
    the other's string and seen its end, and the connections have gone through
    the official states from [ESTABLISHED] to [CLOSED]. *)

From S2P Require Import Prelude WrappingIntegers ByteStream StreamReassembler Buffer TCPHeader TCPSegment TCPConfig.
From S2P Require Import SegmentOf RETimer TCPReceiver TCPSender TCPState TCPConnection EndToEnd Transfer Progress Exchange.

(** ** The phases *)

Definition opening (cfg_c cfg_s : TCPConfig) (random_c random_s : Z) : pair :=
  let p := mkPair (TCPConnection.new cfg_c random_c) (TCPConnection.new cfg_s random_s) [] [] [] [] in
  let p := talker_does Dequeue (talker_does Connect p) in
  let p := listener_does Dequeue (arrives p) in
  let p := talker_does Dequeue (returns p) in
  arrives p.

(** The roles are exchanged. *)
Definition turn (p : pair) : pair := mkPair (listener p) (talker p) (back p) (forth p) (heard_back p) (heard p).

(** The client writes [d], and then the server writes [e]. *)
Definition request (d : bytes) (n : nat) (ms : Z) (p : pair) : pair := exchanges n ms (talking d p).
Definition reply (e : bytes) (n : nat) (ms : Z) (p : pair) : pair := turn (exchanges n ms (talking e (turn p))).
Definition waiting (ms : Z) (p : pair) : pair := talker_does (TimePasses ms) p.

(** The states of the client and the server. *)
Definition in_states (c s : State) (p : pair) : Prop :=
  TCPConnection.state (talker p) = of_State c /\ TCPConnection.state (listener p) = of_State s.

(** ** The handshake *)

Ltac pair_step :=
  cbn [TCPConnection.step talker listener forth back heard heard_back read_by app push_out established after_connect _cfg _receiver
    _sender TCPConnection._segments_out _linger_after_streams_finish _time_since_last_segment_received _active _rst_set
    _fin_ack_sent _closedByApp _syn_set _rec_fin_seqno].

Lemma opened_settled cap isn : is_u64 cap -> WrappingIntegers.wf isn -> settled_receiver (TCPConnection.opened cap isn).
Proof.
  intros Hc Hi. destruct (TCPReceiver.receiver_inv_new cap Hc) as [I1 I2 _]. constructor; [|done|done]. by constructor.
Qed.

Section conversation.
Context (cfg_c cfg_s : TCPConfig) (random_c random_s : Z) (Hcfg_c : config_wf cfg_c) (Hcfg_s : config_wf cfg_s).
Local Notation isn_c := (TCPSender._isn (_sender (TCPConnection.new cfg_c random_c))).
Local Notation isn_s := (TCPSender._isn (_sender (TCPConnection.new cfg_s random_s))).
Local Notation cap_c := (recv_capacity cfg_c).
Local Notation cap_s := (recv_capacity cfg_s).
Context (Hcap_c : 1 <= cap_c < 65536) (Hcap_s : 1 <= cap_s < 65536).
Context (Hisn_c : raw_value isn_c + 2 < 4294967296) (Hisn_s : raw_value isn_s + 2 < 4294967296).
Context (ms : Z) (Hms : 0 <= ms) (Hrto_c : 2 * ms < rt_timeout cfg_c) (Hrto_s : 2 * ms < rt_timeout cfg_s).

(** The receivers when the connection is open. *)
Definition client_receiver : TCPReceiver := TCPConnection.opened cap_c isn_s.
Definition server_receiver : TCPReceiver := TCPConnection.opened cap_s isn_c.

Lemma client_settled : settled_receiver client_receiver.
Proof. apply opened_settled; [apply Hcfg_c|by apply isn_wf]. Qed.

Lemma client_ackno : TCPReceiver.ackno client_receiver = Some (wrap 1 isn_s).
Proof. reflexivity. Qed.

(** The ends when the connection is open: the client is about to talk, and the
    server listens. *)
Definition open_client : TCPConnection := speaking cfg_c client_receiver None false (answered cfg_c random_c cap_s) 0 [].
Definition open_server : TCPConnection :=
  hearing cfg_s false (mkEar (answered cfg_s random_s cap_c) true 0 false None) server_receiver [].

Lemma opening_open : opening cfg_c cfg_s random_c random_s = mkPair open_client open_server [] [] [] [].
Proof.
  pose proof (isn_wf cfg_c random_c Hcfg_c) as Hwc. pose proof (isn_wf cfg_s random_s Hcfg_s) as Hws.
  unfold opening. set (p0 := mkPair _ _ [] [] [] []). cbv zeta.
  change (talker_does Dequeue (talker_does Connect p0)) with
    (mkPair (after_connect cfg_c random_c []) (TCPConnection.new cfg_s random_s) [syn_segment isn_c] [] [] []).
  unfold arrives at 2. cbn [forth]. unfold listener_does at 2. pair_step.
  rewrite (listener_syn cfg_s random_s Hcfg_s isn_c Hwc). unfold listener_does at 1. pair_step.
  unfold returns. cbn [back]. unfold talker_does at 2. pair_step.
  rewrite (opener_established cfg_c random_c Hcfg_c ltac:(lia) isn_s _ Hws). unfold talker_does. pair_step.
  unfold arrives. cbn [forth]. unfold listener_does. pair_step.
  rewrite (listener_established cfg_s random_s Hcfg_s isn_c _). pair_step.
  unfold established. rewrite !opened_window, !u16_id by (words; lia). reflexivity.
Qed.

Lemma opening_states : in_states ESTABLISHED ESTABLISHED (opening cfg_c cfg_s random_c random_s).
Proof.
  rewrite opening_open.
  pose proof (established_state cfg_c random_c Hcfg_c ltac:(lia) isn_s cap_s) as Hc.
  pose proof (established_state cfg_s random_s Hcfg_s ltac:(lia) isn_c cap_c) as Hs.
  unfold established in Hc, Hs. rewrite (u16_id cap_s) in Hc by (words; lia). rewrite (u16_id cap_c) in Hs by (words; lia).
  split; [exact Hc|exact Hs].
Qed.

(** *** The request *)

Context (d e : bytes) (Hd : zlen d < 2147483646) (He : zlen e < 2147483646).
Context (Hfit_d : zlen d <= send_capacity cfg_c) (Hfit_e : zlen e <= send_capacity cfg_s).
Context (Hnum_d : raw_value isn_c + zlen d + 2 < 4294967296) (Hnum_e : raw_value isn_s + zlen e + 2 < 4294967296).
Local Notation waits := (ready isn_s cap_c (rt_timeout cfg_s) (send_capacity cfg_s)).
Local Notation asked := (transferred cfg_c cfg_s client_receiver None waits false isn_c d []).

Lemma request_transfers n :
  zlen d + 2 <= Z.of_nat n ->
  exists s t rc h, asked (request d n ms (opening cfg_c cfg_s random_c random_s)) s t rc h.
Proof.
  intros Hn. rewrite opening_open. unfold request, open_client, open_server, server_receiver.
  assert (Resting waits (wrap 1 isn_s) (u16 (window_size client_receiver)) false) as Hrest.
  { unfold client_receiver. rewrite opened_window, u16_id by (words; lia). by apply ready_resting. }
  apply (exchanges_transfer cfg_c cfg_s Hcfg_c ltac:(lia) client_receiver (wrap 1 isn_s) None client_settled client_ackno (fun _ => eq_refl)
    waits false isn_c cap_s Hcap_s d Hd ms Hms Hrto_c [] (answered cfg_c random_c cap_s) (send_capacity cfg_c)
    0 (mkEar (answered cfg_s random_s cap_c) true 0 false None)); [by apply answered_ready| |done..].
  by constructor; [apply answered_ready|..].
Qed.

(** *** The reply *)

Local Notation replied rc h :=
  (transferred cfg_s cfg_c rc (e_rec_fin h) (spent d isn_c) true isn_s e d).

(** The end that listened talks, and the end that talked listens. *)
Lemma turned p s t rc h :
  asked p s t rc h ->
  turn p = mkPair (speaking cfg_s rc (e_rec_fin h) false (e_sender h) (e_time h) [])
    (hearing cfg_c true (mkEar s true t false None) client_receiver []) [] [] [] d.
Proof.
  intros [-> _ He' _ _ _ [Hs _ Hen]]. unfold turn. cbn [talker listener forth back heard heard_back]. f_equal.
  destruct (Hen He') as (El & Ef & _). unfold hearing, speaking, voice. rewrite El, Ef, He'.
  rewrite not_finished by (right; apply Hs). done.
Qed.

Lemma reply_transfers m p s t rc h :
  asked p s t rc h -> zlen e + 2 <= Z.of_nat m ->
  exists s' t' rc' h', replied rc h (turn (reply e m ms p)) s' t' rc' h'.
Proof.
  intros Ha Hm. unfold reply. rewrite (turned _ _ _ _ _ Ha). destruct Ha as [_ Hsp Hend _ Hack Hset [Hs _ _]].
  assert (Resting (spent d isn_c) (wrap (zlen d + 2) isn_c) (u16 (window_size rc)) true) as Hrest by apply spent_resting, u16_range.
  assert (forall q, turn (turn q) = q) as -> by (by intros []).
  apply (exchanges_transfer cfg_s cfg_c Hcfg_s ltac:(lia) rc (wrap (zlen d + 2) isn_c) (e_rec_fin h) Hset Hack ltac:(congruence)
    (spent d isn_c) true isn_s cap_c Hcap_c e He ms Hms Hrto_s d (e_sender h) (send_capacity cfg_s)); try done.
Qed.
End conversation.

(** ** The states *)
Lemma ready_summary isn cap timeout capacity s : ready isn cap timeout capacity s -> sender_summary s = S.SYN_ACKED.
Proof.
  intros []. unfold sender_summary, next_seqno_absolute, TCPSender.bytes_in_flight, stream_in, eof.
  by rewrite rd_error, rd_next, rd_in_flight, rd_ended.
Qed.

Lemma spent_summary d isn s : spent d isn s -> sender_summary s = S.FIN_ACKED.
Proof.
  intros Hs. pose proof (spent_eof _ _ _ Hs) as He. destruct Hs as [Hi _ Her _ Hn _ _ _ Hf _].
  pose proof (zlen_nonneg d). pose proof (TCPSender.inv_headroom _ _ Hi) as Hh.
  unfold sender_summary, next_seqno_absolute, TCPSender.bytes_in_flight, stream_in. rewrite Her, Hn, Hf, (TCPSender.inv_written _ _ Hi), He.
  rewrite u64_id by (words; lia). destruct (Z.eqb_spec (zlen d + 2) 0); [lia|]. cbn [negb Z.eqb]. by rewrite Z.ltb_irrefl.
Qed.

Lemma ended_summary rc a :
  error (TCPReceiver.stream_out rc) = false -> TCPReceiver.ackno rc = Some a -> ended rc = true -> receiver_summary rc = R.FIN_RECV.
Proof. intros He Ha Hx. unfold receiver_summary. rewrite He, Ha. unfold ended in Hx. by rewrite Hx. Qed.

Lemma spent_finished rc d isn s : ended rc = true -> spent d isn s -> finished rc s = true.
Proof.
  intros He Hs. pose proof (spent_eof _ _ _ Hs) as Hx. apply andb_true_iff in Hx as [Hx _]. unfold finished.
  rewrite He, Hx, (sp_queue _ _ _ Hs), (sp_in_flight _ _ _ Hs). done.
Qed.

(** [clean_shutdown] when both streams are over. *)
Lemma clean_shutdown_over c :
  unassembled_bytes c = 0 -> input_ended (inbound_stream c) = true -> eof (stream_in (_sender c)) = true ->
  segments_out (_sender c) = [] ->
  clean_shutdown c =
  if (TCPSender.bytes_in_flight (_sender c) =? 0) &&
     ((10 * rt_timeout (_cfg c) <=? _time_since_last_segment_received c) || negb (TCPConnection._linger_after_streams_finish c))
  then set_active c false else c.
Proof.
  intros H1 H2 H3 H4. unfold clean_shutdown. rewrite H2, H3. cbn [negb andb]. rewrite H1, H2.
  unfold eof in H3. apply andb_true_iff in H3 as [-> _]. rewrite H4, bool_decide_eq_true_2 by done. cbn [andb Z.eqb].
  destruct (TCPSender.bytes_in_flight (_sender c) =? 0); [|done]. by destruct (TCPConnection._linger_after_streams_finish c).
Qed.

Section states.
Context (cfg_x cfg_y : TCPConfig) (rc0 : TCPReceiver) (rec_fin0 : option WrappingInt32).

(** The end that waits for its turn. *)
Lemma listening_state isn cap timeout capacity h rc a linger :
  ready isn cap timeout capacity (e_sender h) -> error (TCPReceiver.stream_out rc) = false -> TCPReceiver.ackno rc = Some a ->
  e_linger h = linger -> linger = negb (ended rc) ->
  TCPConnection.state (hearing cfg_y false h rc []) = of_State (if ended rc then CLOSE_WAIT else ESTABLISHED).
Proof.
  intros Hs He Ha Hl ->. unfold TCPConnection.state, of_parts, hearing.
  cbn [_sender _receiver TCPConnection.active _active TCPConnection._linger_after_streams_finish]. rewrite (ready_summary _ _ _ _ _ Hs), Hl. unfold receiver_summary. rewrite He, Ha.
  fold (ended rc). by destruct (ended rc).
Qed.

(** The end that has talked, and is not finished or is. *)
Lemma talked_state d isn s t a :
  spent d isn s -> error (TCPReceiver.stream_out rc0) = false -> TCPReceiver.ackno rc0 = Some a ->
  TCPConnection.state (speaking cfg_x rc0 rec_fin0 true s t []) = of_State (if ended rc0 then CLOSED else FIN_WAIT_2).
Proof.
  intros Hs He Ha. unfold TCPConnection.state, of_parts, speaking, voice.
  cbn [_sender _receiver TCPConnection.active _active TCPConnection._linger_after_streams_finish]. rewrite (spent_summary _ _ _ Hs). unfold receiver_summary. rewrite He, Ha. fold (ended rc0).
  destruct (ended rc0) eqn:E; [by rewrite (spent_finished _ _ _ _ E Hs)|]. unfold finished. by rewrite E.
Qed.

(** The end that has talked and heard everything. *)
Lemma heard_state d isn h rc a :
  spent d isn (e_sender h) -> error (TCPReceiver.stream_out rc) = false -> TCPReceiver.ackno rc = Some a -> ended rc = true ->
  e_linger h = true -> TCPConnection.state (hearing cfg_y true h rc []) = of_State TIME_WAIT.
Proof.
  intros Hs He Ha Hx Hl. unfold TCPConnection.state, of_parts, hearing.
  cbn [_sender _receiver TCPConnection.active _active TCPConnection._linger_after_streams_finish]. by rewrite (spent_summary _ _ _ Hs), (ended_summary _ _ He Ha Hx), Hl.
Qed.

(** Its wait. *)
Lemma waited d isn h rc ms :
  spent d isn (e_sender h) -> settled_receiver rc -> ended rc = true -> e_linger h = true -> e_time h = 0 ->
  10 * rt_timeout cfg_y <= ms < 18446744073709551616 -> 0 <= ms ->
  TCPConnection.tick (hearing cfg_y true h rc []) ms =
  mkConnection cfg_y rc (set_timer (e_sender h) (passTime ms (timer (e_sender h)))) [] true ms false false (e_fin_ack h) true true
    (e_rec_fin h).
Proof.
  intros Hs Hrc He Hl Ht Hms H0. destruct h as [s l t fa rf]. simpl in *. subst l t. pose proof (spent_eof _ _ _ Hs) as Heof.
  destruct Hs as [_ _ _ _ _ _ Hq Ho Hf Hr]. unfold TCPConnection.tick. cbn [_active hearing negb].
  assert (TCPSender.tick s ms = set_timer s (passTime ms (timer s))) as Et by (unfold TCPSender.tick; simpl; by rewrite Ho).
  change (_sender (set_time _ _)) with s. rewrite Et. set (s' := set_timer s (passTime ms (timer s))) in *.
  change (set_sender (set_time _ _) s') with (hearing cfg_y true (mkEar s' true (u64 (0 + ms)) fa rf) rc []).
  rewrite Z.add_0_l, u64_id by (words; lia). change (TCPSender.consecutive_retransmissions _) with (TCPSender._consecutive_retransmission s).
  rewrite Hr. change (MAX_RETX_ATTEMPTS <? 0) with false. cbv iota. rewrite clean_shutdown_over; try done.
  - change (TCPSender.bytes_in_flight (_sender _)) with (TCPSender._bytes_in_flight s). rewrite Hf.
    cbn [hearing TCPConnection._linger_after_streams_finish _cfg _time_since_last_segment_received e_linger e_time].
    destruct (Z.leb_spec (10 * rt_timeout cfg_y) ms); [done|lia].
  - exact (unassembled_none rc Hrc).
Qed.
End states.

(** The request has arrived. *)
Lemma request_states cfg_c cfg_s isn_c isn_s cap_c cap timeout capacity d p s t rc h :
  transferred cfg_c cfg_s (TCPConnection.opened cap_c isn_s) None (ready isn_s cap timeout capacity) false isn_c d [] p s t rc h ->
  in_states FIN_WAIT_2 CLOSE_WAIT p /\ heard p = d /\ heard_back p = [].
Proof.
  intros [-> Hsp He Her Ha _ [Hs _ Hen]]. destruct (Hen He) as (El & _). split; [|done]. split; cbn [talker listener].
  - exact (talked_state cfg_c (TCPConnection.opened cap_c isn_s) None d isn_c s t _ Hsp eq_refl eq_refl).
  - rewrite (listening_state cfg_s _ _ _ _ _ _ _ false Hs Her Ha El); [|by rewrite He]. by rewrite He.
Qed.

(** The reply has arrived, and the client has waited. *)
Lemma reply_states cfg_c cfg_s rc0 a rec_fin isn_c isn_s d e p s t rc h linger :
  error (TCPReceiver.stream_out rc0) = false -> TCPReceiver.ackno rc0 = Some a -> ended rc0 = true ->
  transferred cfg_s cfg_c rc0 rec_fin (spent d isn_c) true isn_s e d (turn p) s t rc h ->
  10 * rt_timeout cfg_c <= linger < 18446744073709551616 -> 0 <= linger ->
  let q := waiting linger p in
  (in_states TIME_WAIT CLOSED p /\ heard p = d /\ heard_back p = e) /\
  in_states CLOSED CLOSED q /\ heard q = d /\ heard_back q = e.
Proof.
  intros Her0 Ha0 He0 [Hp Hsp He Her Ha Hset [Hs _ Hen]] Hl H0 q. destruct (Hen He) as (El & _ & Et).
  destruct p as [c sv f b g g']. injection Hp as -> -> -> -> -> ->.
  assert (TCPConnection.state (speaking cfg_s rc0 rec_fin true s t []) = of_State CLOSED) as Hcl
    by (rewrite (talked_state cfg_s rc0 rec_fin _ _ _ _ _ Hsp Her0 Ha0); by rewrite He0).
  split; [split; [split; [exact (heard_state cfg_c _ _ _ _ _ Hs Her Ha He El)|exact Hcl]|done]|].
  subst q. unfold waiting, talker_does. cbn [TCPConnection.step talker listener forth back heard heard_back read_by].
  rewrite (waited cfg_c _ _ _ _ _ Hs Hset He El Et Hl H0), !app_nil_r. split; [split; [|exact Hcl]|done].
  unfold TCPConnection.state, of_parts. cbn [talker _sender _receiver TCPConnection.active _active].
  rewrite (ended_summary _ _ Her Ha He). change (sender_summary (set_timer _ _)) with (sender_summary (e_sender h)).
  by rewrite (spent_summary _ _ _ Hs).
Qed.

(** ** Properties *)

(** C3 A whole conversation goes well over a network that delivers.  A client
    connects to a server and both are ESTABLISHED.  The client writes a request
    [d] that its buffer holds and ends its stream; after at most two exchanges
    more than there are bytes in it (for any windows from one byte up to
    2^16 - 1) the server's application has read exactly the request and its end,
    and the states are FIN_WAIT_2 and CLOSE_WAIT.  Then the server writes a reply
    [e] and ends its stream; after at most two exchanges more than there are
    bytes in it the client's application has read exactly the reply and its end;
    the server is CLOSED and the client in TIME_WAIT.  When ten times the
    client's timeout has passed, the client is CLOSED too.  The strings are shorter
    than 2^31 - 2 bytes, the sequence numbers in use must not pass 2^32, and the
    time between two exchanges must be less than half of the timeouts. *)
Theorem conversation_completes cfg_c cfg_s random_c random_s d e n m ms linger :
  let isn_c := TCPSender._isn (_sender (TCPConnection.new cfg_c random_c)) in
  let isn_s := TCPSender._isn (_sender (TCPConnection.new cfg_s random_s)) in
  config_wf cfg_c -> config_wf cfg_s ->
  1 <= recv_capacity cfg_c < 65536 -> 1 <= recv_capacity cfg_s < 65536 ->
  zlen d <= send_capacity cfg_c -> zlen e <= send_capacity cfg_s -> zlen d < 2147483646 -> zlen e < 2147483646 ->
  raw_value isn_c + zlen d + 2 < 4294967296 -> raw_value isn_s + zlen e + 2 < 4294967296 ->
  0 <= ms -> 2 * ms < rt_timeout cfg_c -> 2 * ms < rt_timeout cfg_s ->
  zlen d + 2 <= Z.of_nat n -> zlen e + 2 <= Z.of_nat m -> 10 * rt_timeout cfg_c <= linger < 18446744073709551616 ->
  let p0 := opening cfg_c cfg_s random_c random_s in
  let p1 := request d n ms p0 in
  let p2 := reply e m ms p1 in
  let p3 := waiting linger p2 in
  in_states ESTABLISHED ESTABLISHED p0 /\
  (in_states FIN_WAIT_2 CLOSE_WAIT p1 /\ heard p1 = d /\ heard_back p1 = []) /\
  (in_states TIME_WAIT CLOSED p2 /\ heard p2 = d /\ heard_back p2 = e) /\
  in_states CLOSED CLOSED p3 /\ heard p3 = d /\ heard_back p3 = e.
Proof.
  intros isn_c isn_s Hcc Hcs Hc Hs Hfd Hfe Hd He Hnd Hne Hms Hrc Hrs Hn Hm Hl p0 p1 p2 p3.
  pose proof (zlen_nonneg d). pose proof (zlen_nonneg e).
  destruct (request_transfers cfg_c cfg_s random_c random_s Hcc Hcs Hc Hs ltac:(fold isn_c; lia) ltac:(fold isn_s; lia) ms Hms Hrc Hrs d Hd
    Hfd Hnd n Hn) as (s & t & rc & h & Hask). fold p0 p1 in Hask.
  destruct (reply_transfers cfg_c cfg_s random_c random_s Hcs Hc ms Hms Hrc Hrs d e He Hfe Hne m p1 s t rc h Hask Hm)
    as (s' & t' & rc' & h' & Hrep). fold p2 in Hrep.
  split; [apply opening_states; (done || fold isn_c isn_s; lia)|]. split; [exact (request_states _ _ _ _ _ _ _ _ _ _ _ _ _ _ Hask)|].
  destruct Hask as [_ _ Hend Her Ha _ _]. apply (reply_states _ _ _ _ _ _ _ _ _ _ _ _ _ _ _ Her Ha Hend Hrep Hl). lia.
Qed.

(** Witness: ten bytes through a window of three, and seven bytes through a
    window of four. *)
Definition demo_client_cfg : TCPConfig := mkTCPConfig 1000 4 4000 (Some (mkW32 1000)).
Definition demo_server_cfg : TCPConfig := mkTCPConfig 1000 3 4000 (Some (mkW32 77)).
Definition demo_request (n : nat) : pair :=
  request [1; 2; 3; 4; 5; 6; 7; 8; 9; 10] n 10 (opening demo_client_cfg demo_server_cfg 0 0).
Definition demo_reply (m : nat) : pair := reply [11; 12; 13; 14; 15; 16; 17] m 10 (demo_request 12).

Lemma conversation_completes_witness :
  heard (demo_request 5) = [1; 2; 3; 4; 5; 6; 7] /\ heard (demo_request 12) = [1; 2; 3; 4; 5; 6; 7; 8; 9; 10] /\
  heard_back (demo_reply 2) = [11; 12; 13; 14] /\ heard_back (demo_reply 9) = [11; 12; 13; 14; 15; 16; 17] /\
  in_states CLOSED CLOSED (waiting 10000 (demo_reply 9)).
Proof.
  split; [vm_compute; reflexivity|].
  assert (config_wf demo_client_cfg) as Hc by (constructor; vm_compute; try split; congruence).
  assert (config_wf demo_server_cfg) as Hs by (constructor; vm_compute; try split; congruence).
  destruct (conversation_completes demo_client_cfg demo_server_cfg 0 0 [1; 2; 3; 4; 5; 6; 7; 8; 9; 10] [11; 12; 13; 14; 15; 16; 17]
    12 9 10 10000 Hc Hs) as (_ & (_ & H1 & _) & (_ & _ & H2) & H3 & _); [vm_compute; try split; congruence..|].
  split; [exact H1|]. split; [vm_compute; reflexivity|]. split; [exact H2|exact H3].
Defined.
