(* ===== verification/FdAdapter.v ===== *)
(** * FdAdapter: segments in and out of datagrams

    Models [src/libsponge/tcp_helpers/fd_adapter.hh] and [.cc] (the base class
    and [TCPOverUDPSocketAdapter]), [tcp_over_ip.cc] ([TCPOverIPv4Adapter]),
    [tuntap_adapter.hh] and [lossy_fd_adapter.hh].  The devices themselves are
    not modelled: [read] takes what the socket or the TUN device delivered, and
    [write] returns what is handed to it.  An address is its number and its
    port; writing an address in dotted form and reading it back is the
    identity.

    The adapters share an interface, the class [Adapter], with the law
    [AdapterLaw]: what one end writes the other end reads.  [LossyFdAdapter],
    a template over any adapter in the source, is modelled and verified
    against that interface. *)

From S2P Require Import Prelude IPv4Header IPv4Datagram.
From S2P Require Import WrappingIntegers InternetChecksum Buffer Parser TCPHeader TCPSegment.
From S2P Require Import TCPConfig.

(** ** [FdAdapterBase] *)

Record FdAdapterBase := mkBase { _cfg : FdAdapterConfig; _listen : bool }.

Definition listening (a : FdAdapterBase) : bool := _listen a.
Definition config (a : FdAdapterBase) : FdAdapterConfig := _cfg a.
Definition set_listening (a : FdAdapterBase) (l : bool) : FdAdapterBase := mkBase (_cfg a) l.
Definition tick (a : FdAdapterBase) (ms : Z) : FdAdapterBase := a.

(** [config_mut() = cfg] *)
Definition set_config (a : FdAdapterBase) (cfg : FdAdapterConfig) : FdAdapterBase := mkBase cfg (_listen a).

(** [config_mutable().source = ...] and [config_mutable().destination = ...] *)
Definition set_source (a : FdAdapterBase) (s : Address) : FdAdapterBase :=
  mkBase (mkFdAdapterConfig s (destination (_cfg a)) (loss_rate_dn (_cfg a)) (loss_rate_up (_cfg a))) (_listen a).
Definition set_destination (a : FdAdapterBase) (d : Address) : FdAdapterBase :=
  mkBase (mkFdAdapterConfig (source (_cfg a)) d (loss_rate_dn (_cfg a)) (loss_rate_up (_cfg a))) (_listen a).

Global Instance Address_eq_dec : EqDecision Address.
Proof. solve_decision. Defined.

(** [seg.header().sport = config().source.port(); seg.header().dport = ...] *)
Definition set_ports (a : FdAdapterBase) (seg : TCPSegment) : TCPSegment :=
  let h := TCPSegment._header seg in
  mkTCPSegment (mkTCPHeader (port (source (config a))) (port (destination (config a))) (seqno h) (ackno h) (doff h)
    (urg h) (ack h) (psh h) (rst h) (syn h) (fin h) (win h) (TCPHeader.cksum h) (uptr h)) (TCPSegment._payload seg).

(** ** [TCPOverUDPSocketAdapter] *)

(** A received UDP datagram. *)
Record datagram := mkDatagram { source_address : Address; udp_payload : bytes }.

Definition udp_read (a : FdAdapterBase) (d : datagram) : outcome (FdAdapterBase * option TCPSegment) :=
  if negb (listening a) && negb (bool_decide (source_address d = destination (config a))) then Ret (a, None)
  else
    try: (seg, res) <- TCPSegment.parse TCPSegment.new (Buffer_of (udp_payload d)) 0;
    if negb (bool_decide (NoError = res)) then Ret (a, None)
    else if listening a then
      if syn (TCPSegment._header seg) && negb (rst (TCPSegment._header seg))
      then Ret (set_listening (set_destination a (source_address d)) false, Some seg)
      else Ret (a, None)
    else Ret (a, Some seg).

(** The caller's segment keeps the ports that were set. *)
Definition udp_write (a : FdAdapterBase) (seg : TCPSegment) : outcome (TCPSegment * (Address * BufferList)) :=
  let seg := set_ports a seg in
  try: l <- TCPSegment.serialize seg 0;
  Ret (seg, (destination (config a), l)).

(** ** [TCPOverIPv4Adapter] *)

Definition unwrap_tcp_in_ip (a : FdAdapterBase) (ip_dgram : IPv4Datagram)
    : outcome (FdAdapterBase * option TCPSegment) :=
  let iph := IPv4Datagram._header ip_dgram in
  if negb (listening a) && negb (dst iph =? ipv4_numeric (source (config a))) then Ret (a, None)
  else if negb (listening a) && negb (src iph =? ipv4_numeric (destination (config a))) then Ret (a, None)
  else if negb (proto iph =? PROTO_TCP) then Ret (a, None)
  else
    try: payload <- to_Buffer (IPv4Datagram._payload ip_dgram);
    try: (tcp_seg, res) <- TCPSegment.parse TCPSegment.new payload (pseudo_cksum iph);
    if negb (bool_decide (NoError = res)) then Ret (a, None)
    else
      let h := TCPSegment._header tcp_seg in
      if negb (dport h =? port (source (config a))) then Ret (a, None)
      else
        let finish (a : FdAdapterBase) :=
          if negb (sport h =? port (destination (config a))) then Ret (a, None) else Ret (a, Some tcp_seg) in
        if listening a then
          if syn h && negb (rst h) then
            let a := set_source a (mkAddress (dst iph) (port (source (config a)))) in
            let a := set_destination a (mkAddress (src iph) (sport h)) in
            finish (set_listening a false)
          else Ret (a, None)
        else finish a.

(** The header of the new datagram. *)
Definition ip_header (a : FdAdapterBase) (seg : TCPSegment) : IPv4Header :=
  let h := IPv4Header.new in
  mkIPv4Header (ver h) (hlen h) (tos h)
    (u16 (hlen h * 4 + doff (TCPSegment._header seg) * 4 + Buffer_size (TCPSegment._payload seg)))
    (id h) (df h) (mf h) (IPv4Header.offset h) (ttl h) (proto h) (IPv4Header.cksum h)
    (ipv4_numeric (source (config a))) (ipv4_numeric (destination (config a))).

Definition wrap_tcp_in_ip (a : FdAdapterBase) (seg : TCPSegment) : outcome (TCPSegment * IPv4Datagram) :=
  let seg := set_ports a seg in
  let iph := ip_header a seg in
  try: payload <- TCPSegment.serialize seg (pseudo_cksum iph);
  Ret (seg, mkIPv4Datagram iph payload).

(** ** [TCPOverIPv4OverTunFdAdapter] *)

Definition tun_read (a : FdAdapterBase) (packet : bytes) : outcome (FdAdapterBase * option TCPSegment) :=
  try: (ip_dgram, res) <- IPv4Datagram.parse IPv4Datagram.new (Buffer_of packet);
  if negb (bool_decide (res = NoError)) then Ret (a, None)
  else unwrap_tcp_in_ip a ip_dgram.

Definition tun_write (a : FdAdapterBase) (seg : TCPSegment) : outcome (TCPSegment * BufferList) :=
  try: (seg, ip_dgram) <- wrap_tcp_in_ip a seg;
  try: l <- IPv4Datagram.serialize ip_dgram;
  Ret (seg, l).

(** ** The interface *)

(** [In] is what the device delivers, [Out] what it is handed. *)
Class Adapter (A In Out : Type) := {
  a_config : A -> FdAdapterConfig;
  a_set_config : A -> FdAdapterConfig -> A;
  a_set_listening : A -> bool -> A;
  a_tick : A -> Z -> A;
  a_read : A -> In -> outcome (A * option TCPSegment);
  a_write : A -> TCPSegment -> outcome (A * TCPSegment * Out)
}.

Global Instance UDPAdapter : Adapter FdAdapterBase datagram (Address * BufferList) := {|
  a_config := config; a_set_config := set_config; a_set_listening := set_listening; a_tick := tick;
  a_read := udp_read; a_write a seg := try: (seg, o) <- udp_write a seg; Ret (a, seg, o) |}.

Global Instance TunAdapter : Adapter FdAdapterBase bytes BufferList := {|
  a_config := config; a_set_config := set_config; a_set_listening := set_listening; a_tick := tick;
  a_read := tun_read; a_write a seg := try: (seg, o) <- tun_write a seg; Ret (a, seg, o) |}.

(** ** [LossyFdAdapter]

    The random number generator is a parameter: a state, and a function that
    draws the next number from it. *)

Class Generator (G : Type) := draw : G -> Z * G.

Record LossyFdAdapter (G A : Type) := mkLossy { _rand : G; _adapter : A }.
Arguments mkLossy {G A} _ _.
Arguments _rand {G A} _.
Arguments _adapter {G A} _.

Section lossy.
Context {G A In Out : Type} `{Generator G} `{Adapter A In Out}.
Local Notation lossy := (LossyFdAdapter G A).

(** A number is drawn only when the loss rate is not zero. *)
Definition _should_drop (l : lossy) (uplink : bool) : lossy * bool :=
  let cfg := a_config (_adapter l) in
  let loss := if uplink then loss_rate_up cfg else loss_rate_dn cfg in
  if loss =? 0 then (l, false)
  else let '(r, g) := draw (_rand l) in (mkLossy g (_adapter l), u16 r <? loss).

(** The segment is read before the decision to drop it, which is made with the
    configuration that [read] leaves. *)
Definition lossy_read (l : lossy) (i : In) : outcome (lossy * option TCPSegment) :=
  try: (a, ret) <- a_read (_adapter l) i;
  let '(l, drop) := _should_drop (mkLossy (_rand l) a) false in
  Ret (l, if drop then None else ret).

Definition lossy_write (l : lossy) (seg : TCPSegment) : outcome (lossy * TCPSegment * option Out) :=
  let '(l, drop) := _should_drop l true in
  if drop then Ret (l, seg, None)
  else try: (a, seg, o) <- a_write (_adapter l) seg; Ret (mkLossy (_rand l) a, seg, Some o).

(** The members that pass through. *)
Definition lossy_config (l : lossy) : FdAdapterConfig := a_config (_adapter l).
Definition lossy_set_config (l : lossy) (cfg : FdAdapterConfig) : lossy :=
  mkLossy (_rand l) (a_set_config (_adapter l) cfg).
Definition lossy_set_listening (l : lossy) (b : bool) : lossy := mkLossy (_rand l) (a_set_listening (_adapter l) b).
Definition lossy_tick (l : lossy) (ms : Z) : lossy := mkLossy (_rand l) (a_tick (_adapter l) ms).

(** It is an adapter itself, which hands the device nothing when it drops. *)
Global Instance LossyAdapter : Adapter lossy In (option Out) := {|
  a_config := lossy_config; a_set_config := lossy_set_config; a_set_listening := lossy_set_listening;
  a_tick := lossy_tick; a_read := lossy_read; a_write := lossy_write |}.
End lossy.

(** ** The law of an adapter *)

(** The receiver gets the header fields (ports and checksum aside) and the
    payload that were sent. *)
Definition same_segment (seg seg' : TCPSegment) : Prop :=
  TCPHeader.eqb (TCPSegment._header seg') (TCPSegment._header seg) = true /\ payload seg' = payload seg.

(** Two ends that talk to each other. *)
Record connected (a b : FdAdapterBase) : Prop := mkConnected {
  con_there : source (config b) = destination (config a);
  con_back : destination (config b) = source (config a);
  con_listen : listening b = false
}.

Record address_wf (x : Address) : Prop := mkAddressWf {
  wf_ip : is_u32 (ipv4_numeric x);
  wf_port : is_u16 (port x)
}.

Definition base_wf (a : FdAdapterBase) : Prop :=
  address_wf (source (config a)) /\ address_wf (destination (config a)).

(** The bytes of a segment. *)
Definition segment_size (seg : TCPSegment) : Z := 4 * doff (TCPSegment._header seg) + zlen (payload seg).

Class AdapterLaw (A In Out : Type) `{Adapter A In Out} := {
  a_deliver : A -> Out -> In;
  a_connected : A -> A -> Prop;
  a_fits : A -> TCPSegment -> Prop;
  a_roundtrip a b seg :
    a_connected a b -> TCPSegment.wf seg -> a_fits a seg ->
    exists seg' o seg'', a_write a seg = Ret (a, seg', o) /\
      a_read b (a_deliver a o) = Ret (b, Some seg'') /\ same_segment seg seg''
}.

(** *** Lemmas *)
Lemma set_ports_wf a seg : base_wf a -> TCPSegment.wf seg -> TCPSegment.wf (set_ports a seg).
Proof. intros [[_ H1] [_ H2]] [[] ? ?]. by constructor. Qed.

Lemma header_eqb_cksum h c p q :
  TCPHeader.eqb (TCPSegment.set_cksum (mkTCPHeader p q (seqno h) (ackno h) (doff h) (urg h) (ack h) (psh h) (rst h)
    (syn h) (fin h) (win h) (TCPHeader.cksum h) (uptr h)) c) h = true.
Proof.
  unfold TCPHeader.eqb, WrappingIntegers.eqb; simpl. by rewrite !Z.eqb_refl, !Bool.eqb_reflx.
Qed.

(** A segment sent through an adapter is parsed back by any buffer holding its
    bytes. *)
Lemma ported_roundtrip a seg dsum b :
  base_wf a -> TCPSegment.wf seg -> fits_checksum seg dsum -> Buffer_wf b ->
  str b = TCPSegment.wire (set_ports a seg) dsum ->
  exists seg'', TCPSegment.parse TCPSegment.new b dsum = Ret (seg'', NoError) /\ same_segment seg seg'' /\
    TCPSegment._header seg'' =
      TCPSegment.set_cksum (TCPSegment._header (set_ports a seg)) (segment_cksum (set_ports a seg) dsum).
Proof.
  intros Ha Hw Hf Hb Hs. pose proof (set_ports_wf a seg Ha Hw) as Hw'.
  destruct (TCPSegment.parse_wire (set_ports a seg) dsum TCPSegment.new b Hw' Hf Hb Hs) as (seg'' & E & Hh & Hp & _).
  exists seg''. split; [done|]. split; [|done]. split; [|by rewrite Hp]. rewrite Hh. apply header_eqb_cksum.
Qed.

(** *** UDP *)

(** The network delivers the payload with the sender's address. *)
Definition udp_deliver (a : FdAdapterBase) (o : Address * BufferList) : datagram :=
  mkDatagram (source (config a)) (concatenate (snd o)).

Definition udp_fits (a : FdAdapterBase) (seg : TCPSegment) : Prop :=
  base_wf a /\ 65280 * segment_size seg < 4294967296.

Lemma udp_roundtrip a b seg :
  connected a b -> TCPSegment.wf seg -> udp_fits a seg ->
  exists seg' o seg'', udp_write a seg = Ret (seg', o) /\
    udp_read b (udp_deliver a o) = Ret (b, Some seg'') /\ same_segment seg seg''.
Proof.
  intros [Hs Hd Hl] Hw [Ha Hfit]. pose proof (wf_doff _ (wf_header _ Hw)) as Hdo.
  unfold segment_size in Hfit. pose proof (zlen_nonneg (payload seg)).
  assert (fits_checksum seg 0) as Hf by (split; [lia|unfold segment_size in *; lia]).
  destruct (TCPSegment.serialize_wire (set_ports a seg) 0) as (l & El & Hc); [simpl; lia|].
  destruct (ported_roundtrip a seg 0 (Buffer_of (concatenate l)) Ha Hw Hf) as (seg'' & Ep & Hsame & _).
  - apply Buffer_of_wf. rewrite Hc, TCPSegment.zlen_wire by apply (set_ports_wf a seg Ha Hw).
    change (payload (set_ports a seg)) with (payload seg).
    change (doff (TCPSegment._header (set_ports a seg))) with (doff (TCPSegment._header seg)). words. lia.
  - by rewrite str_Buffer_of.
  - exists (set_ports a seg), (destination (config a), l), seg''. split_and!; [|unfold udp_read|done].
    + unfold udp_write. by rewrite El.
    + rewrite Hl. simpl. rewrite Hd, bool_decide_eq_true_2 by done. cbn [negb andb]. by rewrite Ep.
Qed.

Lemma udp_law (a b : FdAdapterBase) seg :
  connected a b -> TCPSegment.wf seg -> udp_fits a seg ->
  exists seg' o seg'', a_write (Adapter := UDPAdapter) a seg = Ret (a, seg', o) /\
    a_read b (udp_deliver a o) = Ret (b, Some seg'') /\ same_segment seg seg''.
Proof.
  intros Hc Hw Hf. destruct (udp_roundtrip a b seg Hc Hw Hf) as (seg' & o & seg'' & E & Hr).
  exists seg', o, seg''. simpl. by rewrite E.
Qed.

Global Instance UDPLaw : AdapterLaw FdAdapterBase datagram (Address * BufferList) := {|
  a_deliver := udp_deliver; a_connected := connected; a_fits := udp_fits; a_roundtrip := udp_law |}.

(** *** IPv4 *)

Definition tun_deliver (a : FdAdapterBase) (o : BufferList) : bytes := concatenate o.

Definition tun_fits (a : FdAdapterBase) (seg : TCPSegment) : Prop :=
  base_wf a /\ 20 + segment_size seg < 65536.

Lemma pseudo_cksum_bound h :
  is_u32 (src h) -> is_u32 (dst h) -> is_u8 (proto h) -> 0 <= pseudo_cksum h <= 327930.
Proof.
  intros Hs Hd Hp. unfold pseudo_cksum. change 0xffff with (Z.ones 16).
  rewrite !Z.land_ones, !Z.shiftr_div_pow2 by lia. change (2 ^ 16) with 65536.
  pose proof (u16_range (len h - 4 * hlen h)) as Hl. unfold payload_length. wsolve.
Qed.

Section tun.
Context (a : FdAdapterBase) (seg : TCPSegment).
Context (Hw : TCPSegment.wf seg) (Hfits : tun_fits a seg).

Let iph : IPv4Header := ip_header a (set_ports a seg).
Let dsum : Z := pseudo_cksum iph.

Lemma ip_len : len iph = 20 + segment_size seg /\ 40 <= len iph < 65536.
Proof.
  destruct Hfits as [_ Hs]. pose proof (wf_doff _ (wf_header _ Hw)) as Hd.
  unfold segment_size in *. pose proof (zlen_nonneg (payload seg)).
  assert (len iph = u16 (20 + doff (TCPSegment._header seg) * 4 + zlen (payload seg))) as -> by done.
  rewrite u16_id by (words; lia). lia.
Qed.

Lemma dsum_bound : 0 <= dsum <= 327930.
Proof.
  destruct Hfits as [[[] []] _]. by apply pseudo_cksum_bound.
Qed.

Lemma ip_fits_checksum : fits_checksum seg dsum.
Proof.
  pose proof dsum_bound. destruct Hfits as [_ Hs]. unfold segment_size in Hs. split; lia.
Qed.

Lemma ip_header_wf : IPv4Header.wf iph.
Proof.
  destruct ip_len as [_ Hb]. destruct Hfits as [[[Hs _] [Hd _]] _].
  constructor; [done|by split|by split| |by split|by split|by split|by split|by split|exact Hs|exact Hd].
  unfold is_u16. lia.
Qed.

Lemma ip_datagram_wf l :
  concatenate l = TCPSegment.wire (set_ports a seg) dsum -> IPv4Datagram.wf (mkIPv4Datagram iph l).
Proof.
  intros Hl. pose proof (set_ports_wf a seg (proj1 Hfits) Hw) as Hw'. destruct ip_len as [Hlen Hb].
  constructor; [exact ip_header_wf| |]; cbn [IPv4Datagram._payload IPv4Datagram._header].
  - rewrite Hl. by apply TCPSegment.wf_wire.
  - rewrite Hl, TCPSegment.zlen_wire by apply Hw'. rewrite Hlen. done.
Qed.

Lemma unwrap_wrapped b b' :
  connected a b -> Buffer_wf b' -> str b' = TCPSegment.wire (set_ports a seg) dsum -> forall c,
  exists seg'', unwrap_tcp_in_ip b (mkIPv4Datagram (IPv4Datagram.set_cksum iph c) (BufferList_of_Buffer b')) =
    Ret (b, Some seg'') /\ same_segment seg seg''.
Proof.
  intros [Hs Hd Hl] Hb' Hstr c.
  destruct (ported_roundtrip a seg dsum b' (proj1 Hfits) Hw ip_fits_checksum Hb' Hstr) as (seg'' & Ep & Hsame & Hh).
  exists seg''. split; [|done]. unfold unwrap_tcp_in_ip. rewrite Hl, Hs, Hd.
  cbn [negb andb IPv4Datagram._header IPv4Datagram._payload].
  change (dst (IPv4Datagram.set_cksum iph c)) with (ipv4_numeric (destination (config a))).
  change (src (IPv4Datagram.set_cksum iph c)) with (ipv4_numeric (source (config a))).
  change (pseudo_cksum (IPv4Datagram.set_cksum iph c)) with dsum. rewrite !Z.eqb_refl.
  cbn [negb]. change (proto (IPv4Datagram.set_cksum iph c) =? PROTO_TCP) with true. cbn [negb].
  change (to_Buffer (BufferList_of_Buffer b')) with (Ret b'). cbn [obind]. rewrite Ep. cbn [obind].
  rewrite bool_decide_eq_true_2 by done. cbn [negb]. rewrite Hh.
  change (dport (TCPSegment.set_cksum _ _)) with (port (destination (config a))).
  change (sport (TCPSegment.set_cksum _ _)) with (port (source (config a))). rewrite !Z.eqb_refl. done.
Qed.
End tun.

Lemma tun_roundtrip a b seg :
  connected a b -> TCPSegment.wf seg -> tun_fits a seg ->
  exists seg' o seg'', tun_write a seg = Ret (seg', o) /\
    tun_read b (tun_deliver a o) = Ret (b, Some seg'') /\ same_segment seg seg''.
Proof.
  intros Hcon Hw Hfit. pose proof (wf_doff _ (wf_header _ Hw)) as Hdo.
  destruct (TCPSegment.serialize_wire (set_ports a seg) (pseudo_cksum (ip_header a (set_ports a seg))))
    as (l & El & Hl); [simpl; lia|].
  pose proof (ip_datagram_wf a seg Hw Hfit l Hl) as Hdw. set (dg := mkIPv4Datagram _ l) in *.
  destruct (IPv4Datagram.datagram_serialize_wire dg Hdw) as (l' & El' & Hl').
  destruct (IPv4Datagram.datagram_parse_wire dg IPv4Datagram.new (Buffer_of (concatenate l')) Hdw) as (b' & Ep & Hs & Hb').
  { apply Buffer_of_wf. rewrite Hl', IPv4Datagram.datagram_zlen_wire by done.
    pose proof (wf_len _ (IPv4Datagram.wf_header _ Hdw)). words. lia. }
  { by rewrite str_Buffer_of. }
  destruct (unwrap_wrapped a seg Hw Hfit b b' Hcon Hb') with (c := header_cksum (IPv4Datagram._header dg))
    as (seg'' & Eu & Hsame); [by rewrite Hs|].
  exists (set_ports a seg), l', seg''. split_and!; [| |done].
  - unfold tun_write, wrap_tcp_in_ip. rewrite El. cbn [obind]. fold dg. by rewrite El'.
  - unfold tun_read, tun_deliver. rewrite Ep. cbn [obind]. rewrite bool_decide_eq_true_2 by done. exact Eu.
Qed.

Lemma tun_law (a b : FdAdapterBase) seg :
  connected a b -> TCPSegment.wf seg -> tun_fits a seg ->
  exists seg' o seg'', a_write (Adapter := TunAdapter) a seg = Ret (a, seg', o) /\
    a_read b (tun_deliver a o) = Ret (b, Some seg'') /\ same_segment seg seg''.
Proof.
  intros Hc Hw Hf. destruct (tun_roundtrip a b seg Hc Hw Hf) as (seg' & o & seg'' & E & Hr).
  exists seg', o, seg''. simpl. by rewrite E.
Qed.

Global Instance TunLaw : AdapterLaw FdAdapterBase bytes BufferList := {|
  a_deliver := tun_deliver; a_connected := connected; a_fits := tun_fits; a_roundtrip := tun_law |}.

(** *** Parsing arbitrary bytes *)
Lemma segment_parse_total seg b dsum :
  Buffer_wf b -> wf_bytes (str b) -> exists seg' res, TCPSegment.parse seg b dsum = Ret (seg', res).
Proof.
  intros Hb Hw. unfold TCPSegment.parse. case_match; [by eauto|].
  destruct (TCPHeader.safe_parse (Parser.new b)) as ([h r] & p' & E & _); [by split|]. rewrite E. eauto.
Qed.

Lemma datagram_parse_total dg s :
  wf_bytes s -> is_u64 (zlen s) ->
  exists h b res, IPv4Datagram.parse dg (Buffer_of s) = Ret (mkIPv4Datagram h (BufferList_of_Buffer b), res) /\
    Buffer_wf b /\ wf_bytes (str b).
Proof.
  intros Hw Hu. destruct (parse_verdict (IPv4Datagram._header dg) s Hw Hu) as (h & p' & E & _ & Hb & Hc).
  exists h, (_buffer p'). unfold IPv4Datagram.parse. rewrite E.
  assert (wf_bytes (str (_buffer p'))) as Hw'.
  { case_match; [destruct Hc as [_ ->]; done|]. destruct Hc as (_ & _ & _ & ->).
    case_match; by apply Forall_drop. }
  clear Hc. case_match; eauto.
Qed.

(** The configuration after a segment from [peer] to [self] is accepted. *)
Definition adopt (a : FdAdapterBase) (self peer : Address) : FdAdapterBase :=
  set_listening (set_destination (set_source a self) peer) false.

Lemma unwrap_spec a iph b :
  Buffer_wf b -> wf_bytes (str b) ->
  exists a' o, unwrap_tcp_in_ip a (mkIPv4Datagram iph (BufferList_of_Buffer b)) = Ret (a', o) /\
  match o with
  | None => a' = a
  | Some seg =>
      let h := TCPSegment._header seg in
      proto iph = PROTO_TCP /\ TCPSegment.parse TCPSegment.new b (pseudo_cksum iph) = Ret (seg, NoError) /\
      dport h = port (source (config a)) /\
      if listening a then syn h = true /\ rst h = false /\
        a' = adopt a (mkAddress (dst iph) (dport h)) (mkAddress (src iph) (sport h))
      else a' = a /\ dst iph = ipv4_numeric (source (config a)) /\
        mkAddress (src iph) (sport h) = destination (config a)
  end.
Proof.
  intros Hb Hw. unfold unwrap_tcp_in_ip. cbn [IPv4Datagram._header IPv4Datagram._payload].
  change (to_Buffer (BufferList_of_Buffer b)) with (Ret b). cbn [obind].
  destruct (segment_parse_total TCPSegment.new b (pseudo_cksum iph) Hb Hw) as (seg & res & E). rewrite E.
  destruct (Z.eqb_spec (proto iph) PROTO_TCP); [|repeat case_match; by exists a, None].
  cbn [obind negb]. destruct (decide (NoError = res)) as [<-|]; simpl;
    [|rewrite (bool_decide_eq_false_2 (_ = res)) by done; repeat case_match; by exists a, None].
  destruct (Z.eqb_spec (dport (TCPSegment._header seg)) (port (source (config a)))) as [Hp|];
    [|repeat case_match; by exists a, None]. cbn [negb].
  destruct (listening a) eqn:Hl; cbn [negb andb].
  - destruct (syn _) eqn:Hs, (rst _) eqn:Hr; cbn [negb andb]; try by exists a, None.
    change (port (destination (config (set_listening _ _)))) with (sport (TCPSegment._header seg)).
    rewrite Z.eqb_refl. cbn [negb]. do 2 eexists. split; [done|]. cbv beta iota zeta. by rewrite Hp.
  - destruct (Z.eqb_spec (dst iph) (ipv4_numeric (source (config a)))); cbn [negb]; [|by exists a, None].
    destruct (Z.eqb_spec (src iph) (ipv4_numeric (destination (config a)))) as [Hi|]; cbn [negb]; [|by exists a, None].
    destruct (Z.eqb_spec (sport (TCPSegment._header seg)) (port (destination (config a)))) as [Hq|]; cbn [negb]; [|by exists a, None].
    do 2 eexists. split; [done|]. cbv beta iota zeta. rewrite Hi, Hq. by destruct (destination (config a)).
Qed.

Lemma tun_read_spec a s :
  wf_bytes s -> is_u64 (zlen s) ->
  exists a' o, tun_read a s = Ret (a', o) /\
  match o with
  | None => a' = a
  | Some seg =>
      let h := TCPSegment._header seg in
      exists iph b, IPv4Datagram.parse IPv4Datagram.new (Buffer_of s) =
          Ret (mkIPv4Datagram iph (BufferList_of_Buffer b), NoError) /\
        proto iph = PROTO_TCP /\ TCPSegment.parse TCPSegment.new b (pseudo_cksum iph) = Ret (seg, NoError) /\
        dport h = port (source (config a)) /\
        if listening a then syn h = true /\ rst h = false /\
          a' = adopt a (mkAddress (dst iph) (dport h)) (mkAddress (src iph) (sport h))
        else a' = a /\ dst iph = ipv4_numeric (source (config a)) /\
          mkAddress (src iph) (sport h) = destination (config a)
  end.
Proof.
  intros Hw Hu. destruct (datagram_parse_total IPv4Datagram.new s Hw Hu) as (h & b & res & E & Hb & Hwb).
  unfold tun_read. rewrite E. cbn [obind].
  destruct (decide (res = NoError)) as [->|]; [|rewrite bool_decide_eq_false_2 by done; by exists a, None].
  rewrite bool_decide_eq_true_2 by done. cbn [negb].
  destruct (unwrap_spec a h b Hb Hwb) as (a' & [seg|] & Eu & Hs); do 2 eexists; (split; [exact Eu|]); [|exact Hs].
  exists h, b. split; [done|]. exact Hs.
Qed.

Lemma udp_read_spec a d :
  wf_bytes (udp_payload d) -> is_u64 (zlen (udp_payload d)) ->
  exists a' o, udp_read a d = Ret (a', o) /\
  match o with
  | None => a' = a
  | Some seg =>
      TCPSegment.parse TCPSegment.new (Buffer_of (udp_payload d)) 0 = Ret (seg, NoError) /\
      if listening a then syn (TCPSegment._header seg) = true /\ rst (TCPSegment._header seg) = false /\
        a' = set_listening (set_destination a (source_address d)) false
      else a' = a /\ source_address d = destination (config a)
  end.
Proof.
  intros Hw Hu. unfold udp_read.
  destruct (segment_parse_total TCPSegment.new (Buffer_of (udp_payload d)) 0) as (seg & res & E);
    [by apply Buffer_of_wf|by rewrite str_Buffer_of|].
  rewrite E. cbn [obind]. destruct (decide (NoError = res)) as [<-|];
    [|rewrite (bool_decide_eq_false_2 (_ = res)) by done; case_match; by exists a, None].
  rewrite (bool_decide_eq_true_2 (_ = NoError)) by done. cbn [negb].
  destruct (listening a); cbn [negb andb].
  - destruct (syn _) eqn:Hs, (rst _) eqn:Hr; simpl; try (by exists a, None); by do 2 eexists.
  - destruct (decide (source_address d = destination (config a)));
      [rewrite bool_decide_eq_true_2 by done|rewrite bool_decide_eq_false_2 by done]; simpl; try (by exists a, None); by do 2 eexists.
Qed.

(** *** What is read has the types of the members *)

Record typed (seg : TCPSegment) : Prop := mkTyped {
  ty_seqno : WrappingIntegers.wf (seqno (TCPSegment._header seg));
  ty_ackno : WrappingIntegers.wf (ackno (TCPSegment._header seg));
  ty_win : is_u16 (win (TCPSegment._header seg))
}.

Lemma parse_typed seg0 b dsum seg :
  Buffer_wf b -> wf_bytes (str b) -> TCPSegment.parse seg0 b dsum = Ret (seg, NoError) -> typed seg.
Proof.
  intros Hb Hw. unfold TCPSegment.parse. case_match; [done|].
  destruct (TCPHeader.safe_parse (Parser.new b)) as ([h r] & p' & E & (H1 & H2 & H3 & _) & _); [by split|].
  rewrite E. intros [= <- _]. by constructor.
Qed.

(** The segments an adapter returns, for what its device can deliver. *)
Class AdapterTyped (A In Out : Type) `{Adapter A In Out} := {
  a_in_ok : In -> Prop;
  a_read_typed a i a' seg : a_in_ok i -> a_read a i = Ret (a', Some seg) -> typed seg
}.

Definition bytes_ok (s : bytes) : Prop := wf_bytes s /\ is_u64 (zlen s).

Lemma udp_read_typed a d a' seg :
  bytes_ok (udp_payload d) -> udp_read a d = Ret (a', Some seg) -> typed seg.
Proof.
  intros [Hw Hu] E. destruct (udp_read_spec a d Hw Hu) as (a2 & o & E' & Hs). rewrite E' in E.
  injection E as -> ->. destruct Hs as [Hp _].
  eapply parse_typed; [by apply Buffer_of_wf|by rewrite str_Buffer_of|exact Hp].
Qed.

Lemma tun_read_typed a s a' seg : bytes_ok s -> tun_read a s = Ret (a', Some seg) -> typed seg.
Proof.
  intros [Hw Hu] E. destruct (tun_read_spec a s Hw Hu) as (a2 & o & E' & Hs). rewrite E' in E.
  injection E as -> ->. destruct Hs as (iph & b & Hd & _ & Hp & _).
  destruct (datagram_parse_total IPv4Datagram.new s Hw Hu) as (h & b' & res & Ed & Hb & Hwb).
  rewrite Hd in Ed. injection Ed as _ <- _. by eapply parse_typed.
Qed.

Global Instance UDPTyped : AdapterTyped FdAdapterBase datagram (Address * BufferList) := {|
  a_in_ok := fun d => bytes_ok (udp_payload d); a_read_typed := udp_read_typed |}.
Global Instance TunTyped : AdapterTyped FdAdapterBase bytes BufferList := {|
  a_in_ok := bytes_ok; a_read_typed := tun_read_typed |}.

Section lossy_typed.
Context {G A In Out : Type} `{Generator G} `{AdapterTyped A In Out}.

Lemma lossy_read_typed (l : LossyFdAdapter G A) i l' seg :
  a_in_ok (Out := Out) i -> lossy_read (Out := Out) l i = Ret (l', Some seg) -> typed seg.
Proof.
  intros Hi. unfold lossy_read. destruct (a_read (_adapter l) i) as [[a ret]|] eqn:E; [|done]. cbn [obind].
  destruct (_should_drop _ _) as [l2 drop]. destruct drop; [done|]. intros [= _ ->]. by eapply a_read_typed.
Qed.

Global Instance LossyTyped : AdapterTyped (LossyFdAdapter G A) In (option Out) :=
  Build_AdapterTyped _ _ _ LossyAdapter (a_in_ok (Out := Out)) lossy_read_typed.
End lossy_typed.

(** ** Properties *)

(** C19 [TCPOverIPv4OverTunFdAdapter::read] filters what the device delivers,
    whatever the bytes: it always returns, it leaves the adapter alone when it
    returns no segment, and a segment it does return is the payload, accepted by
    [TCPSegment::parse] under the packet's pseudo-header, of a packet that
    [IPv4Datagram::parse] accepts, and is for the adapter's own port.  Out of the
    listening state the packet comes from the configured peer and the adapter
    does not change; in it the segment is a SYN without RST, and the adapter
    then has the packet's addresses and no longer listens. *)
Theorem tun_read_filters a s :
  wf_bytes s -> is_u64 (zlen s) ->
  exists a' o, tun_read a s = Ret (a', o) /\
  match o with
  | None => a' = a
  | Some seg =>
      let h := TCPSegment._header seg in
      exists iph b, IPv4Datagram.parse IPv4Datagram.new (Buffer_of s) =
          Ret (mkIPv4Datagram iph (BufferList_of_Buffer b), NoError) /\
        proto iph = PROTO_TCP /\ TCPSegment.parse TCPSegment.new b (pseudo_cksum iph) = Ret (seg, NoError) /\
        dport h = port (source (config a)) /\
        if listening a then syn h = true /\ rst h = false /\
          a' = adopt a (mkAddress (dst iph) (dport h)) (mkAddress (src iph) (sport h))
        else a' = a /\ dst iph = ipv4_numeric (source (config a)) /\
          mkAddress (src iph) (sport h) = destination (config a)
  end.
Proof. apply tun_read_spec. Qed.

(** The UDP adapter filters likewise: [read] always returns, changes the
    adapter only when it accepts a segment while listening (a SYN without RST,
    whose sender becomes the destination), and otherwise returns only valid
    segments that come from the configured destination. *)
Theorem udp_read_filters a d :
  wf_bytes (udp_payload d) -> is_u64 (zlen (udp_payload d)) ->
  exists a' o, udp_read a d = Ret (a', o) /\
  match o with
  | None => a' = a
  | Some seg =>
      TCPSegment.parse TCPSegment.new (Buffer_of (udp_payload d)) 0 = Ret (seg, NoError) /\
      if listening a then syn (TCPSegment._header seg) = true /\ rst (TCPSegment._header seg) = false /\
        a' = set_listening (set_destination a (source_address d)) false
      else a' = a /\ source_address d = destination (config a)
  end.
Proof. apply udp_read_spec. Qed.

Section lossy_properties.
Context {G A In Out : Type} `{Generator G} `{AdapterLaw A In Out}.

Lemma should_drop_adapter (l : LossyFdAdapter G A) up : _adapter (fst (_should_drop l up)) = _adapter l.
Proof. unfold _should_drop. case_match; [done|]. by destruct (draw _). Qed.

Lemma lossless_keeps (l : LossyFdAdapter G A) up :
  (if up : bool then loss_rate_up (a_config (_adapter l)) else loss_rate_dn (a_config (_adapter l))) = 0 ->
  _should_drop l up = (l, false).
Proof. intros Hz. unfold _should_drop. by rewrite Hz. Qed.

(** [LossyFdAdapter] over any adapter that keeps its law either loses a
    segment or passes it on unaltered, in both directions and whatever the
    random numbers: the written segment reaches the device exactly when the
    uplink does not drop it, the read one the caller exactly when the downlink
    does not, with the sender's header fields and payload; only the generator
    changes; and with both loss rates zero the segment arrives, and no number
    is drawn. *)
Theorem lossy_transit (a b : LossyFdAdapter G A) seg :
  a_connected (_adapter a) (_adapter b) -> TCPSegment.wf seg -> a_fits (_adapter a) seg ->
  exists a' b' (lost_up lost_dn : bool) seg' o seg'', same_segment seg seg'' /\
    _should_drop a true = (a', lost_up) /\ _should_drop b false = (b', lost_dn) /\
    _adapter a' = _adapter a /\ _adapter b' = _adapter b /\
    lossy_write a seg = Ret (if lost_up then (a', seg, None) else (a', seg', Some o)) /\
    lossy_read b (a_deliver (_adapter a) o) = Ret (b', if lost_dn then None else Some seg'') /\
    (loss_rate_up (lossy_config a) = 0 -> loss_rate_dn (lossy_config b) = 0 ->
     lossy_write a seg = Ret (a, seg', Some o) /\ lossy_read b (a_deliver (_adapter a) o) = Ret (b, Some seg'')).
Proof.
  intros Hc Hw Hf. destruct (a_roundtrip (_adapter a) (_adapter b) seg Hc Hw Hf) as (seg' & o & seg'' & Ew & Er & Hs).
  pose proof (should_drop_adapter a true) as Ha. pose proof (should_drop_adapter b false) as Hb.
  destruct (_should_drop a true) as [a' lost_up] eqn:Ea, (_should_drop b false) as [b' lost_dn] eqn:Eb. simpl in Ha, Hb.
  exists a', b', lost_up, lost_dn, seg', o, seg''. unfold lossy_config, lossy_write, lossy_read.
  rewrite Er, Ea, Ha, Ew. cbn [obind].
  assert (mkLossy (_rand b) (_adapter b) = b) as -> by by destruct b. rewrite Eb.
  assert (mkLossy (_rand a') (_adapter a) = a') as -> by (rewrite <- Ha; by destruct a').
  split_and!; [done..|by destruct lost_up|done|].
  intros Hz1 Hz2. rewrite lossless_keeps in Ea by done. rewrite lossless_keeps in Eb by done.
  injection Ea as <- <-. by injection Eb as <- <-.
Qed.
End lossy_properties.

(** Witnesses *)

Definition demo_a : FdAdapterBase :=
  mkBase (mkFdAdapterConfig (mkAddress 167772161 80) (mkAddress 167772162 443) 0 0) false.
Definition demo_b : FdAdapterBase :=
  mkBase (mkFdAdapterConfig (mkAddress 167772162 443) (mkAddress 167772161 80) 32768 0) false.

(** The packet that [demo_a] writes for [demo_segment]. *)
Definition demo_wire : bytes := Eval vm_compute in
  match tun_write demo_a demo_segment with Ret (_, l) => concatenate l | Throw _ => [] end.

Lemma tun_read_filters_witness :
  exists seg, tun_read demo_b demo_wire = Ret (demo_b, Some seg) /\ sport (TCPSegment._header seg) = 80.
Proof.
  destruct (tun_read_filters demo_b demo_wire) as (a' & o & H1 & H2);
    [repeat constructor; vm_compute; congruence|vm_compute; split; congruence|].
  destruct o as [seg|]; [|vm_compute in H1; discriminate].
  destruct H2 as (iph & b & _ & _ & _ & _ & -> & _ & H3). exists seg. split; [exact H1|].
  injection H3 as _ H3. exact H3.
Defined.

Lemma udp_read_filters_witness :
  udp_read demo_b (mkDatagram (mkAddress 1 2) [1; 2; 3]) = Ret (demo_b, None).
Proof.
  destruct (udp_read_filters demo_b (mkDatagram (mkAddress 1 2) [1; 2; 3])) as (a' & o & H1 & H2);
    [repeat constructor; vm_compute; congruence|vm_compute; split; congruence|].
  destruct o as [seg|]; [destruct H2 as (_ & _ & H2); discriminate|]. rewrite H1, H2. reflexivity.
Defined.

(** A generator that goes through a list. *)
Global Instance demo_generator : Generator (list Z) := fun l => match l with r :: l => (r, l) | [] => (0, []) end.

Lemma lossy_transit_witness :
  exists seg' o, lossy_write (mkLossy [7] demo_a) demo_segment = Ret (mkLossy [7] demo_a, seg', Some o) /\
    lossy_read (mkLossy [12345; 9] demo_b) (tun_deliver demo_a o) = Ret (mkLossy [9] demo_b, None).
Proof.
  destruct (lossy_transit (In := bytes) (Out := BufferList) (mkLossy [7] demo_a) (mkLossy [12345; 9] demo_b) demo_segment)
    as (a' & b' & up & dn & seg' & o & seg'' & _ & H1 & H2 & _ & _ & H3 & H4 & _).
  - by constructor.
  - exact demo_segment_wf.
  - split; [split; constructor; vm_compute; split; congruence|reflexivity].
  - vm_compute in H1, H2. injection H1 as <- <-. injection H2 as <- <-. exists seg', o. split; [exact H3|exact H4].
Defined.
