(* ===== verification/TcpDump.v ===== *)
(** * TcpDump: finding a TCP segment in a captured packet

    Models [src/apps/udp_tcpdump.cc]: the command line, the link layer headers,
    [process_ipv4_ipv6], and what is reported of a packet.  A packet
    is its captured bytes; the loop that captures them is in [Monitors].  A read
    outside of them, undefined in the source, is the exception [out_of_range].
    The conversion of an address to text, [inet_ntop], is a parameter, the class
    [Ntop].

    The theorems: the dissection never reads outside an IPv6 packet or an IPv4
    packet with a whole header, and its loop over extension headers ends; what
    the UDP adapter sends is found and recognised; shorter packets make it read
    outside, or take a payload of nearly 2^64 bytes; and a segment with a wrong
    checksum is reported with the fields of an empty header. *)

From Stdlib Require Import String.
From S2P Require Import Prelude WrappingIntegers InternetChecksum Buffer Parser TCPHeader TCPSegment TCPConfig FdAdapter NetAddress Text.
Local Open Scope Z_scope.

(** ** The command line *)

(** [strncmp(a, b, n) == 0] *)
Fixpoint strncmp_eq (n : nat) (a b : string) : bool :=
  match n with
  | O => true
  | S n =>
      match a, b with
      | EmptyString, EmptyString => true
      | String x a, String y b => Ascii.eqb x y && strncmp_eq n a b
      | _, _ => false
      end
  end.

(** The process exits, or the loop leaves [curr] and the device. *)
Inductive arguments := Exit (code : Z) | Parsed (curr : Z) (dev : option string).

(** The [while] loop of [parse_arguments]; the list is [argv] from [curr] on. *)
Fixpoint parse_arguments (argv : list string) (curr : Z) (dev : option string) : arguments :=
  match argv with
  | [] => Parsed curr dev
  | arg :: rest =>
      if strncmp_eq 3 "-i" arg then
        match rest with
        | [] => Exit 1
        | name :: rest => parse_arguments rest (curr + 2) (Some name)
        end
      else if strncmp_eq 3 "-h" arg || strncmp_eq 7 "--help" arg then Exit 0
      else Parsed curr dev
  end.

(** ** Packets *)

(** [data[i]] *)
Definition rd (data : bytes) (i : Z) : outcome Z :=
  if i <? 0 then Throw out_of_range
  else match data !! Z.to_nat i with Some b => Ret b | None => Throw out_of_range end.

(** The [n] bytes at [data + i] that make up an address. *)
Definition address_at (data : bytes) (i n : Z) : outcome bytes :=
  if i + n <=? zlen data then Ret (ztake n (zdrop i data)) else Throw out_of_range.

(** The loop over the IPv6 extension headers.  [Ret None] is the value -1;
    without fuel the loop would go on. *)
Fixpoint skip_extensions (fuel : nat) (len : Z) (data : bytes) (nxt data_offset : Z) : option (outcome (option Z)) :=
  match fuel with
  | O => None
  | S fuel =>
      if nxt =? 0x11 then Some (Ret (Some data_offset))
      else if negb (nxt =? 0) && negb (nxt =? 43) && negb (nxt =? 60) then Some (Ret None)
      else
        match rd data data_offset, rd data (data_offset + 1) with
        | Ret nxt, Ret ext_len =>
            let data_offset := data_offset + 8 * (1 + ext_len) in
            if len <? data_offset + 2 then Some (Ret None)
            else skip_extensions fuel len data nxt data_offset
        | _, _ => Some (Throw out_of_range)
        end
  end.

Record located := mkLocated { offset : Z; src_addr : bytes; dst_addr : bytes }.

Definition process_ipv4_ipv6 (len : Z) (data : bytes) : option (outcome (option located)) :=
  if len <? 1 then Some (Ret None)
  else
    match rd data 0 with
    | Throw e => Some (Throw e)
    | Ret b0 =>
        let pt := Z.land b0 0xf0 in
        if pt =? 0x40 then
          let data_offset := Z.land b0 0x0f * 4 in
          if len <? data_offset then Some (Ret None)
          else Some (
            try: proto <- rd data 9;
            if negb (proto =? 0x11) then Ret None
            else
              try: s <- address_at data 12 4;
              try: d <- address_at data 16 4;
              Ret (Some (mkLocated (data_offset + 8) s d)))
        else if pt =? 0x60 then
          if len <? 42 then Some (Ret None)
          else
            match rd data 6 with
            | Throw e => Some (Throw e)
            | Ret nxt =>
                match skip_extensions (S (Z.to_nat len)) len data nxt 40 with
                | None => None
                | Some (Throw e) => Some (Throw e)
                | Some (Ret None) => Some (Ret None)
                | Some (Ret (Some data_offset)) => Some (
                    try: s <- address_at data 8 16;
                    try: d <- address_at data 24 16;
                    Ret (Some (mkLocated (data_offset + 8) s d)))
                end
            end
        else Some (Ret None)
    end.

(** *** Link layers *)

Inductive datalink := DLT_NULL | DLT_EN10MB | DLT_LINUX_SLL | DLT_LINUX_SLL2 | DLT_RAW.

(** A 16-bit type field: [(pkt_data[i] << 8) | pkt_data[i + 1]] is IPv4 or IPv6. *)
Definition ethertype_ok (data : bytes) (i : Z) : outcome bool :=
  try: hi <- rd data i;
  try: lo <- rd data (i + 1);
  let pt := Z.lor (Z.shiftl hi 8) lo in
  Ret ((pt =? 0x0800) || (pt =? 0x86dd)).

(** [hdr_off], or nothing for a packet that is skipped. *)
Definition link_header (dl_type : datalink) (data : bytes) : outcome (option Z) :=
  let caplen := zlen data in
  match dl_type with
  | DLT_NULL =>
      if caplen <? 4 then Ret None
      else
        try: pt <- rd data 3;
        Ret (if negb (pt =? 2) && negb (pt =? 24) && negb (pt =? 28) && negb (pt =? 30) then None else Some 4)
  | DLT_EN10MB =>
      if caplen <? 14 then Ret None
      else try: ok <- ethertype_ok data 12; Ret (if ok : bool then Some 14 else None)
  | DLT_LINUX_SLL =>
      if caplen <? 16 then Ret None
      else try: ok <- ethertype_ok data 14; Ret (if ok : bool then Some 16 else None)
  | DLT_LINUX_SLL2 =>
      if caplen <? 20 then Ret None
      else try: ok <- ethertype_ok data 0; Ret (if ok : bool then Some 20 else None)
  | DLT_RAW => Ret (Some 0)
  end.

(** ** Reports *)

(** [string(payload)]: a view of [n] bytes at [off]. *)
Definition payload_string (data : bytes) (off n : Z) : outcome bytes :=
  if 9223372036854775807 <? n then Throw length_error
  else if off + n <=? zlen data then Ret (ztake n (zdrop off data)) else Throw out_of_range.

Definition flag_text (h : TCPHeader) : string :=
  ((if urg h then "U" else "") ++ (if psh h then "P" else "") ++ (if rst h then "R" else "") ++
   (if syn h then "S" else "") ++ (if fin h then "F" else "") ++ (if ack h then "." else ""))%string.

Inductive report :=
  | Skipped
  | Unparsed
  | NotTCP (src dst : bytes)
  | Shown (src : bytes) (sport : Z) (dst : bytes) (dport : Z) (flags : string) (cksum : Z) (correct : bool)
      (seqno : WrappingInt32) (upto : option WrappingInt32) (ackno : WrappingInt32) (win length : Z).

(** Where the UDP payload of a captured packet is, its length and its bytes; or
    the report of a packet that is skipped. *)
Definition locate (dl_type : datalink) (data : bytes) : option (outcome (report + located * Z * bytes)) :=
  match link_header dl_type data with
  | Throw e => Some (Throw e)
  | Ret None => Some (Ret (inl Skipped))
  | Ret (Some hdr_off) =>
      match process_ipv4_ipv6 (i32 (u64 (zlen data - hdr_off))) (zdrop hdr_off data) with
      | None => None
      | Some (Throw e) => Some (Throw e)
      | Some (Ret None) => Some (Ret (inl Unparsed))
      | Some (Ret (Some loc)) =>
          let payload_off := u64 (hdr_off + offset loc) in
          let payload_len := u64 (zlen data - payload_off) in
          Some (
            try: payload <- payload_string data payload_off payload_len;
            Ret (inr (loc, payload_len, payload)))
      end
  end.

(** The attempt to parse the payload as a TCP segment. *)
Definition report_of (loc : located) (payload_len : Z) (payload : bytes) : outcome report :=
  try: (seg, res) <- TCPSegment.parse TCPSegment.new (Buffer_of payload) 0;
  if (1 <? ParseResult_to_nat res)%nat then Ret (NotTCP (src_addr loc) (dst_addr loc))
  else
    let h := TCPSegment._header seg in
    let seqlen := u32 (length_in_sequence_space seg) in
    Ret (Shown (src_addr loc) (sport h) (dst_addr loc) (dport h) (flag_text h) (cksum h)
           (bool_decide (res = NoError)) (seqno h)
           (if 0 <? seqlen then Some (WrappingIntegers.add (seqno h) seqlen) else None) (ackno h) (win h) payload_len).

(** One captured packet, in the body of the main loop. *)
Definition dissect (dl_type : datalink) (data : bytes) : option (outcome report) :=
  match locate dl_type data with
  | None => None
  | Some m => Some (
      try: r <- m;
      match r with
      | inl r => Ret r
      | inr (loc, payload_len, payload) => report_of loc payload_len payload
      end)
  end.

(** *** Printing *)

(** [inet_ntop] of an IPv6 address. *)
Class Ntop := inet_ntop6 : bytes -> option bytes.

Section printing.
Context `{Ntop}.

(** [inet4_addr] (a dotted quad fits the buffer) and [inet6_addr]. *)
Definition inet4_addr (data : bytes) : bytes := dotted (be_val data).
Definition inet6_addr (data : bytes) : bytes := default (text "unknown") (inet_ntop6 data).
Definition address_text (data : bytes) : bytes := if zlen data =? 4 then inet4_addr data else inet6_addr data.

(** What is printed of a report, but for the dump of the payload. *)
Definition show_report (cout : ostream) (r : report) : ostream :=
  match r with
  | Skipped | Unparsed => cout
  | NotTCP src dst =>
      outs cout [Str (text "(did not recognize TCP header) src: "); Str (address_text src);
                 Str (text " dst: "); Str (address_text dst); Chr 10]
  | Shown src sport dst dport flags cksum correct seqno upto ackno win payload_len =>
      let cout := outs cout
        [Str (address_text src); Chr 58; Int sport; Str (text " > "); Str (address_text dst); Chr 58; Int dport;
         Str ([10] ++ text "    Flags ["); Str (text flags); Str (text "] cksum 0x"); Hex; Setw 4; Int cksum; Dec;
         Str (text (if correct then " (correct)" else " (incorrect!)")); Str (text " seq "); Int (raw_value seqno)] in
      let cout := match upto with Some n => outs cout [Chr 58; Int (raw_value n)] | None => cout end in
      outs cout [Str (text " ack "); Int (raw_value ackno); Str (text " win "); Int win;
                 Str (text " length "); Int payload_len; Chr 10]
  end.

(** The body of the main loop: packets that are skipped are not shown. *)
Definition print_packet (dl_type : datalink) (data : bytes) (cout : ostream) : option (outcome ostream) :=
  match locate dl_type data with
  | None => None
  | Some m => Some (
      try: r <- m;
      match r with
      | inl _ => Ret cout
      | inr (loc, payload_len, payload) =>
          try: r <- report_of loc payload_len payload;
          Ret (hexdump (show_report cout r) payload 8)
      end)
  end.
End printing.

(** ** Lemmas *)
Lemma rd_in data i : 0 <= i < zlen data -> exists b, rd data i = Ret b /\ data !! Z.to_nat i = Some b.
Proof.
  intros Hi. unfold rd. destruct (Z.ltb_spec i 0); [lia|].
  destruct (lookup_lt_is_Some_2 data (Z.to_nat i)) as [b Hb]; [rewrite zlen_eq in Hi; lia|]. rewrite Hb. eauto.
Qed.

Lemma rd_byte data i b : wf_bytes data -> rd data i = Ret b -> is_u8 b.
Proof.
  intros Hw. unfold rd. destruct (i <? 0); [done|]. destruct (data !! Z.to_nat i) as [b'|] eqn:E; [|done].
  intros [= <-]. by eapply Forall_lookup_1.
Qed.

Lemma address_in data i n : 0 <= i -> 0 <= n -> i + n <= zlen data -> address_at data i n = Ret (ztake n (zdrop i data)).
Proof. intros. unfold address_at. by destruct (Z.leb_spec (i + n) (zlen data)); [|lia]. Qed.

(** Every extension header is at least eight bytes long. *)
Lemma skip_extensions_spec data fuel : forall nxt off,
  wf_bytes data -> 0 <= off -> off + 2 <= zlen data -> (Z.to_nat (zlen data - off) < fuel)%nat ->
  exists r, skip_extensions fuel (zlen data) data nxt off = Some (Ret r) /\
    match r with Some o => off <= o /\ o + 2 <= zlen data | None => True end.
Proof.
  induction fuel as [|fuel IH]; intros nxt off Hw H0 Hl Hf; [lia|]. cbn [skip_extensions].
  destruct (nxt =? 0x11); [exists (Some off); split; [done|lia]|].
  destruct (negb (nxt =? 0) && negb (nxt =? 43) && negb (nxt =? 60)); [by exists None|].
  destruct (rd_in data off ltac:(lia)) as (n1 & -> & _). destruct (rd_in data (off + 1) ltac:(lia)) as (e & He & _).
  pose proof (rd_byte _ _ _ Hw He) as Hb. rewrite He. unfold is_u8 in Hb.
  destruct (Z.ltb_spec (zlen data) (off + 8 * (1 + e) + 2)); [by exists None|].
  destruct (IH n1 (off + 8 * (1 + e)) Hw ltac:(lia) ltac:(lia) ltac:(lia)) as (r & -> & Hr).
  exists r. split; [done|]. destruct r; [|done]. lia.
Qed.

(** The IP version of a packet. *)
Definition version (data : bytes) : Z := match data with b :: _ => Z.shiftr b 4 | [] => 0 end.

Lemma high_nibble b : is_u8 b -> (Z.land b 0xf0 =? 0x40) = true -> Z.shiftr b 4 = 4.
Proof.
  intros Hb Hx%Z.eqb_eq. unfold is_u8 in Hb. change 0xf0 with (Z.shiftl (Z.ones 4) 4) in Hx.
  assert (Z.shiftr (Z.land b (Z.shiftl (Z.ones 4) 4)) 4 = 4) as Hy by by rewrite Hx.
  rewrite Z.shiftr_land in Hy. change (Z.shiftr (Z.shiftl (Z.ones 4) 4) 4) with (Z.ones 4) in Hy.
  rewrite Z.land_ones, Z.shiftr_div_pow2 in Hy by lia. rewrite Z.shiftr_div_pow2 by lia.
  change (2 ^ 4) with 16 in *. rewrite Z.mod_small in Hy; [done|].
  split; [apply Z.div_pos; lia|apply Z.div_lt_upper_bound; lia].
Qed.

Lemma process_in_bounds data :
  wf_bytes data -> (version data = 4 -> 20 <= zlen data) ->
  exists r, process_ipv4_ipv6 (zlen data) data = Some (Ret r) /\
    match r with Some loc => 8 <= offset loc <= zlen data + 8 | None => True end.
Proof.
  intros Hw Hv. unfold process_ipv4_ipv6. destruct (Z.ltb_spec (zlen data) 1); [by exists None|].
  destruct (rd_in data 0 ltac:(lia)) as (b0 & Hr & Hb). rewrite Hr. pose proof (rd_byte _ _ _ Hw Hr) as Hb0.
  assert (0 <= Z.land b0 0x0f) as Hnn by (apply Z.land_nonneg; right; lia).
  destruct (Z.land b0 0xf0 =? 0x40) eqn:E4.
  - apply (high_nibble b0 Hb0) in E4. assert (20 <= zlen data) as H20.
    { apply Hv. destruct data as [|b data]; [done|]. simpl in Hb. by injection Hb as ->. }
    destruct (Z.ltb_spec (zlen data) (Z.land b0 0x0f * 4)); [by exists None|].
    destruct (rd_in data 9 ltac:(lia)) as (pr & -> & _). cbn [obind].
    destruct (negb (pr =? 0x11)); [by exists None|]. rewrite !address_in by lia. cbn [obind].
    eexists. split; [done|]. simpl. lia.
  - destruct (Z.land b0 0xf0 =? 0x60); [|by exists None].
    destruct (Z.ltb_spec (zlen data) 42); [by exists None|].
    destruct (rd_in data 6 ltac:(lia)) as (nxt & -> & _).
    destruct (skip_extensions_spec data (S (Z.to_nat (zlen data))) nxt 40 Hw ltac:(lia) ltac:(lia) ltac:(lia))
      as ([o|] & -> & Ho); [|by exists None].
    rewrite !address_in by lia. cbn [obind]. eexists. split; [done|]. simpl. lia.
Qed.

Lemma ethertype_in data i : 0 <= i -> i + 2 <= zlen data -> exists b, ethertype_ok data i = Ret b.
Proof.
  intros H0 Hl. unfold ethertype_ok. destruct (rd_in data i ltac:(lia)) as (hi & -> & _).
  destruct (rd_in data (i + 1) ltac:(lia)) as (lo & -> & _). cbn [obind]. eauto.
Qed.

Lemma link_header_in dl data : exists r, link_header dl data = Ret r /\
  match r with Some h => 0 <= h <= zlen data | None => True end.
Proof.
  pose proof (zlen_nonneg data).
  destruct dl; cbn [link_header]; 
    try match goal with |- context [zlen data <? ?k] => destruct (Z.ltb_spec (zlen data) k) end; try (by exists None).
  - destruct (rd_in data 3 ltac:(lia)) as (b & -> & _). cbn [obind]. eexists. split; [done|].
    destruct (_ && negb (b =? 30)); [done|lia].
  - destruct (ethertype_in data 12 ltac:(lia) ltac:(lia)) as [b ->]. cbn [obind]. eexists. split; [done|]. destruct b; [lia|done].
  - destruct (ethertype_in data 14 ltac:(lia) ltac:(lia)) as [b ->]. cbn [obind]. eexists. split; [done|]. destruct b; [lia|done].
  - destruct (ethertype_in data 0 ltac:(lia) ltac:(lia)) as [b ->]. cbn [obind]. eexists. split; [done|]. destruct b; [lia|done].
  - eexists. split; [done|]. simpl. lia.
Qed.

(** Parsing integers fails in one way only. *)
Definition short_only {A} (m : parser A) : Prop := forall p a p',
  _error p = NoError \/ _error p = PacketTooShort -> m p = Ret (a, p') -> _error p' = NoError \/ _error p' = PacketTooShort.

Lemma short_pret {A} (a : A) : short_only (pret a).
Proof. by intros p a' p' Hp [= _ <-]. Qed.

Lemma short_pget : short_only pget.
Proof. by intros p a' p' Hp [= _ <-]. Qed.

Lemma short_plift {A} (m : outcome A) : short_only (plift m).
Proof. intros p a' p' Hp. unfold plift. destruct m; [|done]. by intros [= _ <-]. Qed.

Lemma short_pbind {A B} (m : parser A) (f : A -> parser B) :
  short_only m -> (forall a, short_only (f a)) -> short_only (pbind m f).
Proof.
  intros Hm Hf p b p' Hp. unfold pbind. destruct (m p) as [[a p1]|] eqn:E; [|done]. apply Hf, (Hm _ _ _ Hp E).
Qed.

Lemma short_if {A} (b : bool) (m n : parser A) : short_only m -> short_only n -> short_only (if b then m else n).
Proof. by destruct b. Qed.

Lemma short_check n : short_only (_check_size n).
Proof. intros p a p' Hp. unfold _check_size, pmodify. intros [= _ <-]. case_match; [by right|done]. Qed.

Lemma short_buffer n : short_only (buffer_remove_prefix n).
Proof.
  unfold buffer_remove_prefix. apply short_pbind; [apply short_pget|]. intros p0.
  apply short_pbind; [apply short_plift|]. intros b p a p' Hp [= _ <-]. done.
Qed.

Lemma short_header : short_only TCPHeader.parse.
Proof.
  unfold TCPHeader.parse, p_u16, p_u32, p_u8, remove_prefix, _parse_int.
  repeat first [apply short_buffer | apply short_check | apply short_plift | apply short_pret | apply short_pget
    | apply short_if | apply short_pbind; [|intros ?]].
Qed.

(** ** Properties *)

(** The packet reaches to the end of its IP header and of its UDP header. *)
Definition whole (dl : datalink) (data : bytes) : Prop :=
  forall hdr, link_header dl data = Ret (Some hdr) ->
    (version (zdrop hdr data) = 4 -> 20 <= zlen data - hdr) /\
    (forall loc, process_ipv4_ipv6 (zlen data - hdr) (zdrop hdr data) = Some (Ret (Some loc)) ->
      hdr + offset loc <= zlen data).

Lemma captured_length (data : bytes) hdr :
  zlen data < 2147483648 -> 0 <= hdr <= zlen data -> i32 (u64 (zlen data - hdr)) = zlen data - hdr.
Proof. intros Hl Hh. rewrite u64_id by (words; lia). unfold i32. rewrite Z.mod_small; lia. Qed.

Lemma locate_safe dl data :
  wf_bytes data -> zlen data < 2147483648 -> whole dl data ->
  exists r, locate dl data = Some (Ret r) /\
    match r with inr (_, _, payload) => wf_bytes payload /\ zlen payload <= zlen data | inl _ => True end.
Proof.
  intros Hw Hl Hwhole. unfold locate. destruct (link_header_in dl data) as ([hdr|] & E & Hh); rewrite E; [|by eauto].
  destruct (Hwhole hdr E) as [H4 Hoff]. rewrite captured_length by done.
  assert (zlen (zdrop hdr data) = zlen data - hdr) as Hz by (rewrite zlen_zdrop by lia; lia).
  assert (wf_bytes (zdrop hdr data)) as Hw' by (rewrite zdrop_drop; by apply Forall_drop).
  rewrite <- Hz in *. destruct (process_in_bounds _ Hw' H4) as ([loc|] & Ep & Ho); rewrite Ep; [|by eauto].
  specialize (Hoff loc Ep).
  assert (u64 (hdr + offset loc) = hdr + offset loc) as Hu1 by (rewrite u64_id by (words; lia); done).
  rewrite Hu1.
  assert (u64 (zlen data - (hdr + offset loc)) = zlen data - (hdr + offset loc)) as -> by (rewrite u64_id by (words; lia); done).
  unfold payload_string. destruct (Z.ltb_spec 9223372036854775807 (zlen data - (hdr + offset loc))); [lia|].
  destruct (Z.leb_spec (hdr + offset loc + (zlen data - (hdr + offset loc))) (zlen data)); [|lia]. cbn [obind].
  eexists. split; [done|]. cbv beta iota. split; [rewrite ztake_take, zdrop_drop; by apply Forall_take, Forall_drop|].
  rewrite zlen_ztake, zlen_zdrop by lia. lia.
Qed.

Lemma report_total loc n payload : wf_bytes payload -> zlen payload < 2147483648 -> exists r, report_of loc n payload = Ret r.
Proof.
  intros Hw Hl. pose proof (zlen_nonneg payload). unfold report_of.
  destruct (segment_parse_total TCPSegment.new (Buffer_of payload) 0) as (seg & res & ->);
    [apply Buffer_of_wf; words; lia|by rewrite str_Buffer_of|]. cbn [obind]. case_match; eauto.
Qed.

(** [udp_tcpdump] stays inside the captured bytes: for every link type and
    every packet that reaches to the end of its UDP header, whatever its bytes,
    the dissection ends and returns a report; in particular the loop over IPv6
    extension headers terminates and never reads past the packet. *)
Theorem dissect_safe dl data :
  wf_bytes data -> zlen data < 2147483648 -> whole dl data -> exists r, dissect dl data = Some (Ret r).
Proof.
  intros Hw Hl Hwhole. unfold dissect. destruct (locate_safe dl data Hw Hl Hwhole) as ([r|[[loc n] pl]] & -> & Hr); cbn [obind]; [by eauto|].
  destruct Hr as [Hwp Hlp]. destruct (report_total loc n pl Hwp ltac:(lia)) as [r ->]. eauto.
Qed.

(** Short packets are not handled: a packet of the single byte 0x40 makes
    [process_ipv4_ipv6] read its tenth byte, and an IPv4 packet that ends with its
    IP header makes the length of the payload wrap around, so that building the
    string fails. *)
Theorem dissect_short_packets :
  dissect DLT_RAW [0x40] = Some (Throw out_of_range) /\
  (forall ip, length ip = 20%nat -> ip !! 0%nat = Some 0x45 -> ip !! 9%nat = Some 0x11 ->
    dissect DLT_RAW ip = Some (Throw length_error)).
Proof.
  split; [reflexivity|]. intros ip Hl H0 H9. do 20 (destruct ip as [|? ip]; [done|]).
  destruct ip; [|done]. injection H0 as ->. injection H9 as ->. reflexivity.
Qed.

(** A segment whose checksum is wrong is shown with the fields of an empty
    header, not its own: ports, sequence numbers, flags and window are all 0. *)
Theorem dissect_bad_checksum_blank dl data s sp d dp fl ck sq up ak w n :
  dissect dl data = Some (Ret (Shown s sp d dp fl ck false sq up ak w n)) ->
  sp = 0 /\ dp = 0 /\ fl = EmptyString /\ ck = 0 /\ sq = mkW32 0 /\ up = None /\ ak = mkW32 0 /\ w = 0.
Proof.
  unfold dissect, locate. destruct (link_header dl data) as [[hdr|]|]; [|done..].
  destruct (process_ipv4_ipv6 _ _) as [[[loc|]|]|]; [|done..].
  destruct (payload_string _ _ _) as [pl|]; [|done]. cbn [obind].
  unfold report_of, TCPSegment.parse. case_match.
  - cbn [obind ParseResult_to_nat]. intros [=]. by subst.
  - destruct (TCPHeader.parse _) as [[[h r] p]|] eqn:Ep; [|done]. cbn [obind].
    destruct (short_header (Parser.new (Buffer_of pl)) _ _ (or_introl eq_refl) Ep) as [He|He]; unfold get_error; rewrite He; simpl; intros [=].
Qed.

(** A UDP datagram in an IPv4 packet in an Ethernet frame. *)
Definition frame (eth ip udp payload : bytes) : bytes := eth ++ ip ++ udp ++ payload.

Record framed (eth ip udp : bytes) : Prop := mkFramed {
  fr_eth : zlen eth = 14 /\ zdrop 12 eth = [0x08; 0x00];
  fr_ip : zlen ip = 20 /\ ip !! 0%nat = Some 0x45 /\ ip !! 9%nat = Some 0x11;
  fr_udp : zlen udp = 8
}.

Lemma framed_link eth ip udp payload : framed eth ip udp -> link_header DLT_EN10MB (frame eth ip udp payload) = Ret (Some 14).
Proof.
  intros [[He Ht] [Hi _] Hu]. unfold link_header, frame. pose proof (zlen_nonneg payload).
  destruct (Z.ltb_spec (zlen (eth ++ ip ++ udp ++ payload)) 14); [lens; lia|].
  rewrite zlen_eq in He. assert (length eth = 14%nat) as Hl by lia.
  do 14 (destruct eth as [|? eth]; [done|]). destruct eth; [|done].
  rewrite zdrop_drop in Ht. simpl in Ht. injection Ht as -> ->. reflexivity.
Qed.

Lemma framed_process eth ip udp payload :
  framed eth ip udp -> let data := zdrop 14 (frame eth ip udp payload) in
  process_ipv4_ipv6 (zlen data) data = Some (Ret (Some (mkLocated 28 (ztake 4 (zdrop 12 ip)) (ztake 4 (zdrop 16 ip))))).
Proof.
  intros [[He _] (Hi & H0 & H9) Hu] data. subst data. unfold frame.
  rewrite zdrop_app_exact by done. pose proof (zlen_nonneg payload) as Hp.
  rewrite zlen_eq in Hi. assert (length ip = 20%nat) as Hl by lia.
  do 20 (destruct ip as [|? ip]; [done|]). destruct ip; [|done]. injection H0 as ->. injection H9 as ->.
  set (data := _ ++ udp ++ payload). assert (zlen data = 28 + zlen payload) as Hz.
  { subst data. rewrite !zlen_app. rewrite Hu. simpl. change (zlen _) with 20 at 1. lia. }
  unfold process_ipv4_ipv6. rewrite Hz. destruct (Z.ltb_spec (28 + zlen payload) 1); [lia|].
  change (rd data 0) with (Ret 69). simpl. change (Z.land 69 15 * 4) with 20. destruct (Z.ltb_spec (28 + zlen payload) 20); [lia|].
  change (rd data 9) with (Ret 17). simpl. rewrite !address_in by lia. cbn [obind].
  subst data. rewrite !ztake_take, !zdrop_drop. reflexivity.
Qed.

Lemma seqlen_fits seg : zlen (payload seg) < 4294967294 -> u32 (length_in_sequence_space seg) = length_in_sequence_space seg.
Proof.
  intros Hl. unfold length_in_sequence_space. change (str (_payload seg)) with (payload seg).
  pose proof (zlen_nonneg (payload seg)). set (h := TCPSegment._header seg).
  assert (0 <= zlen (payload seg) + (if syn h then 1 else 0) + (if fin h then 1 else 0) < 4294967296) as Hr
    by (destruct (syn h), (fin h); lia).
  rewrite u64_id by (words; lia). apply u32_id. words. lia.
Qed.

(** The payload of a frame is found. *)
Lemma locate_framed eth ip udp payload : framed eth ip udp -> zlen payload < 2147483000 ->
  locate DLT_EN10MB (frame eth ip udp payload) =
    Some (Ret (inr (mkLocated 28 (ztake 4 (zdrop 12 ip)) (ztake 4 (zdrop 16 ip)), zlen payload, payload))).
Proof.
  intros Hfr Hl. unfold locate. rewrite framed_link by done. pose proof (zlen_nonneg payload).
  pose proof (framed_process eth ip udp payload Hfr) as Hpr. cbv zeta in Hpr. pose proof Hfr as [[He _] (Hi & _) Hu].
  assert (zlen (frame eth ip udp payload) = 42 + zlen payload) as Hz by (unfold frame; rewrite !zlen_app; lia).
  assert (zlen (zdrop 14 (frame eth ip udp payload)) = 28 + zlen payload) as Hz2 by (rewrite zlen_zdrop by lia; lia).
  rewrite captured_length by lia. rewrite Hz. replace (42 + zlen payload - 14) with (28 + zlen payload) by lia.
  rewrite <- Hz2, Hpr. cbn [offset src_addr dst_addr]. change (u64 (14 + 28)) with 42.
  assert (u64 (42 + zlen payload - 42) = zlen payload) as -> by (rewrite u64_id by (words; lia); lia).
  unfold payload_string. destruct (Z.ltb_spec 9223372036854775807 (zlen payload)); [lia|].
  rewrite Hz. destruct (Z.leb_spec (42 + zlen payload) (42 + zlen payload)); [|lia]. cbn [obind].
  assert (zdrop 42 (frame eth ip udp payload) = payload) as ->.
  { unfold frame. rewrite !app_assoc. apply zdrop_app_exact. rewrite !zlen_app. lia. }
  by rewrite (ztake_all (zlen payload)) by lia.
Qed.

(** What is reported of a payload that the UDP adapter made. *)
Definition shown_segment (a : FdAdapterBase) (seg : TCPSegment) (src dst : bytes) (payload_len : Z) : report :=
  let h := TCPSegment._header seg in
  Shown src (port (source (config a))) dst (port (destination (config a))) (flag_text h)
    (segment_cksum (set_ports a seg) 0) true (seqno h)
    (if 0 <? length_in_sequence_space seg then Some (WrappingIntegers.add (seqno h) (length_in_sequence_space seg)) else None)
    (ackno h) (win h) payload_len.

Lemma report_segment a seg :
  base_wf a -> TCPSegment.wf seg -> udp_fits a seg ->
  exists l, udp_write a seg = Ret (set_ports a seg, (destination (config a), l)) /\
    zlen (concatenate l) < 65800 /\ wf_bytes (concatenate l) /\
    forall loc n, report_of loc n (concatenate l) = Ret (shown_segment a seg (src_addr loc) (dst_addr loc) n).
Proof.
  intros Ha Hw [_ Hfit]. pose proof (wf_doff _ (wf_header _ Hw)) as Hdo.
  unfold segment_size in Hfit. pose proof (zlen_nonneg (payload seg)).
  assert (fits_checksum seg 0) as Hf by (split; lia). pose proof (set_ports_wf a seg Ha Hw) as Hw'.
  destruct (TCPSegment.serialize_wire (set_ports a seg) 0) as (l & El & Hc); [simpl; lia|].
  assert (zlen (concatenate l) = 4 * doff (TCPSegment._header seg) + zlen (payload seg)) as Hlen.
  { by rewrite Hc, TCPSegment.zlen_wire by apply Hw'. }
  assert (Buffer_wf (Buffer_of (concatenate l))) as Hbw by (apply Buffer_of_wf; rewrite Hlen; words; lia).
  destruct (ported_roundtrip a seg 0 (Buffer_of (concatenate l)) Ha Hw Hf Hbw) as (seg'' & Ep & Hsame & Hh);
    [by rewrite str_Buffer_of|].
  exists l. split_and!; [unfold udp_write; by rewrite El|lia|rewrite Hc; by apply TCPSegment.wf_wire|].
  intros loc n. unfold report_of. rewrite Ep. cbn [obind]. simpl.
  assert (length_in_sequence_space seg'' = length_in_sequence_space seg) as Hls.
  { unfold length_in_sequence_space. rewrite Hh. simpl. destruct Hsame as [_ Hp]. unfold payload in Hp. by rewrite Hp. }
  rewrite Hls, seqlen_fits, Hh by lia. done.
Qed.

(** [udp_tcpdump] recognises what the UDP adapter sends: for every well-formed
    segment, the datagram [TCPOverUDPSocketAdapter] writes, in an Ethernet frame
    and an IPv4 packet without options, is reported with the addresses of the
    packet, the ports of the adapter, the flags, numbers and window of the
    segment, a correct checksum, and the sequence number after its last one. *)
Theorem dissect_shows_segment a seg eth ip udp :
  base_wf a -> TCPSegment.wf seg -> udp_fits a seg -> framed eth ip udp -> wf_bytes (eth ++ ip ++ udp) ->
  let h := TCPSegment._header seg in
  exists seg' dst l ck, udp_write a seg = Ret (seg', (dst, l)) /\
    dissect DLT_EN10MB (frame eth ip udp (concatenate l)) = Some (Ret (
      Shown (ztake 4 (zdrop 12 ip)) (port (source (config a))) (ztake 4 (zdrop 16 ip)) (port (destination (config a)))
        (flag_text h) ck true (seqno h)
        (if 0 <? length_in_sequence_space seg then Some (WrappingIntegers.add (seqno h) (length_in_sequence_space seg)) else None)
        (ackno h) (win h) (zlen (concatenate l)))).
Proof.
  intros Ha Hw Hfit Hfr Hb h.
  destruct (report_segment a seg Ha Hw Hfit) as (l & El & Hlen & _ & Hr).
  exists (set_ports a seg), (destination (config a)), l, (segment_cksum (set_ports a seg) 0). split; [done|].
  unfold dissect. rewrite locate_framed by first [done | lia]. cbn [obind]. by rewrite Hr.
Qed.

(** ** Witnesses *)

Definition demo_eth : bytes := replicate 12 7 ++ [0x08; 0x00].
Definition demo_ipv4 : bytes := [0x45; 0; 0; 0; 0; 0; 0; 0; 64; 0x11; 0; 0; 1; 1; 1; 1; 2; 2; 2; 2].
Definition demo_udp_header : bytes := replicate 8 0.
Definition demo_adapter : FdAdapterBase :=
  mkBase (mkFdAdapterConfig (mkAddress 16843009 1000) (mkAddress 33686018 2000) 0 0) false.
Definition demo_segment : TCPSegment :=
  mkTCPSegment (mkTCPHeader 0 0 (mkW32 100) (mkW32 200) 5 false true false false true false 5000 0 0) (Buffer_of [104; 105]).

Lemma demo_framed : framed demo_eth demo_ipv4 demo_udp_header.
Proof. constructor; [split; reflexivity|split_and!; reflexivity|reflexivity]. Qed.

Lemma demo_dumped_wf : TCPSegment.wf demo_segment.
Proof.
  constructor; [|apply Buffer_of_wf; split; vm_compute; congruence|repeat constructor; vm_compute; congruence].
  constructor; try (split; vm_compute; congruence).
Qed.

Lemma demo_adapter_wf : base_wf demo_adapter.
Proof. split; constructor; split; vm_compute; congruence. Qed.

Lemma dissect_shows_segment_witness :
  exists l ck, dissect DLT_EN10MB (frame demo_eth demo_ipv4 demo_udp_header (concatenate l)) = Some (Ret (
    Shown [1; 1; 1; 1] 1000 [2; 2; 2; 2] 2000 "S." ck true (mkW32 100) (Some (mkW32 103)) (mkW32 200) 5000 22)).
Proof.
  destruct (dissect_shows_segment demo_adapter demo_segment demo_eth demo_ipv4 demo_udp_header demo_adapter_wf
    demo_dumped_wf) as (seg' & dst & l & ck & Hw & Hd);
    [split; [exact demo_adapter_wf|reflexivity]|exact demo_framed|repeat constructor; vm_compute; congruence|].
  exists l, ck. rewrite Hd. vm_compute in Hw. injection Hw as _ _ <-. reflexivity.
Defined.

(** An IPv6 packet with a hop-by-hop and a destination options header. *)
Definition demo_ipv6 : bytes :=
  [0x60; 0; 0; 0; 0; 32; 0; 64] ++ replicate 16 1 ++ replicate 16 2 ++
  [60; 0; 1; 4; 0; 0; 0; 0] ++ [0x11; 0; 1; 4; 0; 0; 0; 0] ++ replicate 8 0 ++ [1; 2; 3].

Lemma dissect_safe_witness : exists r, dissect DLT_RAW demo_ipv6 = Some (Ret r).
Proof.
  apply (dissect_safe DLT_RAW demo_ipv6); [|reflexivity|].
  - repeat first [apply Forall_nil_2 | apply Forall_cons_2; [split; vm_compute; congruence|]].
  - intros hdr Hh. injection Hh as <-. split; [vm_compute; congruence|].
    intros loc Hl. vm_compute in Hl. injection Hl as <-. vm_compute. congruence.
Defined.

Lemma dissect_short_packets_witness :
  dissect DLT_RAW [0x40] = Some (Throw out_of_range) /\ dissect DLT_RAW demo_ipv4 = Some (Throw length_error).
Proof. destruct dissect_short_packets as [H1 H2]. split; [exact H1|apply H2; reflexivity]. Defined.

Lemma dissect_bad_checksum_blank_witness :
  exists sq, dissect DLT_EN10MB (frame demo_eth demo_ipv4 demo_udp_header (replicate 20 1)) =
    Some (Ret (Shown [1; 1; 1; 1] 0 [2; 2; 2; 2] 0 "" 0 false sq None (mkW32 0) 0 20)) /\ sq = mkW32 0.
Proof.
  exists (mkW32 0). split; [reflexivity|].
  apply (dissect_bad_checksum_blank DLT_EN10MB (frame demo_eth demo_ipv4 demo_udp_header (replicate 20 1))
    [1; 1; 1; 1] 0 [2; 2; 2; 2] 0 EmptyString 0 (mkW32 0) None (mkW32 0) 0 20). reflexivity.
Defined.
