(* ===== verification/Sendable.v ===== *)
(** * Sendable: what a connection sends can be put on the wire

    The segments that [TCPSender] makes and [TCPConnection] completes always
    have the types of their header members, a header without options and at most
    [MAX_PAYLOAD_SIZE] bytes of payload, whatever segments arrive and however
    the window moves.  This is what the datagram adapters need: so they never
    reject such a segment, and its bytes parse back to it. *)

From S2P Require Import Prelude WrappingIntegers ByteStream StreamReassembler Buffer TCPHeader TCPSegment TCPConfig.
From S2P Require Import SegmentOf TCPReceiver RETimer TCPSender TCPState TCPConnection ConnectionPair FdAdapter.

Record sendable (seg : TCPSegment) : Prop := mkSendable {
  se_wf : TCPSegment.wf seg;
  se_doff : doff (_header seg) = 5;
  se_size : zlen (payload seg) <= MAX_PAYLOAD_SIZE
}.

(** ** The sender *)

Record tidy (s : TCPSender) : Prop := mkTidy {
  ti_stream : wf_bytes (_buf (_stream s));
  ti_out : Forall sendable (TCPSender._segments_out s);
  ti_flight : Forall sendable (outSegments s)
}.

Lemma mk_segment_sendable n syn fin b :
  WrappingIntegers.wf n -> Buffer_wf b -> wf_bytes (str b) -> zlen (str b) <= MAX_PAYLOAD_SIZE ->
  sendable (mk_segment n syn fin b).
Proof.
  intros Hn Hb Hd Hl. constructor; [constructor; [|done|done]|done|done].
  constructor; simpl; try done; words; lia.
Qed.

Lemma piece_sendable n syn fin data :
  WrappingIntegers.wf n -> wf_bytes data -> zlen data <= MAX_PAYLOAD_SIZE ->
  sendable (mk_segment n syn fin (Buffer_of data)).
Proof.
  intros Hn Hd Hl. pose proof (zlen_nonneg data). apply mk_segment_sendable; rewrite ?str_Buffer_of; try done.
  apply Buffer_of_wf. unfold MAX_PAYLOAD_SIZE in Hl. words. lia.
Qed.

Lemma tidy_send s seg : tidy s -> sendable seg -> tidy (sendSegment s seg).
Proof. intros [] ?. constructor; simpl; try done; apply Forall_app; by rewrite Forall_singleton. Qed.

Lemma tidy_make s rem n :
  tidy s -> 0 <= rem -> WrappingIntegers.wf n ->
  tidy (fst (make_segment s rem n)) /\ sendable (snd (make_segment s rem n)).
Proof.
  intros [Hs Ho Hf] Hr Hn. unfold make_segment.
  rewrite read_pop by (unfold MAX_PAYLOAD_SIZE; lia).
  set (st := pop_output _ _). set (d := ztake _ _).
  assert (wf_bytes (_buf st)) as Hst by (subst st; unfold pop_output; simpl; rewrite zdrop_drop; by apply Forall_drop).
  assert (wf_bytes d) as Hd by (subst d; rewrite ztake_take; by apply Forall_take).
  assert (zlen d <= MAX_PAYLOAD_SIZE) as Hl
    by (subst d; rewrite zlen_ztake by (unfold MAX_PAYLOAD_SIZE; lia); unfold MAX_PAYLOAD_SIZE; lia).
  destruct (_ && _); (split; [by constructor|by apply piece_sendable]).
Qed.

Lemma remain_nonneg s n : 0 <= remain s n.
Proof. unfold remain. pose proof (u32_range (_true_window_size s - u32 (raw_value n - raw_value (_ackGot s)))) as Hr. apply Hr. Qed.

Lemma tidy_fill_loop fuel : forall s n s' b,
  tidy s -> WrappingIntegers.wf n -> fill_loop fuel s n = Some (s', b) -> tidy s'.
Proof.
  induction fuel as [|fuel IH]; intros s n s' b Ht Hn; simpl; [done|].
  case_match; [by intros [= <- <-]|].
  destruct (tidy_make s (remain s n) n Ht (remain_nonneg s n) Hn) as [Ht1 Hseg].
  destruct (make_segment s (remain s n) n) as [s1 seg]. simpl in *. case_match; [by intros [= <- <-]|].
  apply IH; [by apply tidy_send|apply wf_wrap].
Qed.

Lemma tidy_fill s : tidy s -> tidy (fill_window s).
Proof.
  intros Ht. unfold fill_window. destruct (fill_window_fuel (enough_fuel s) s) as [s'|] eqn:E; [|done]. simpl.
  unfold fill_window_fuel in E. destruct (_fin_flag s); [by injection E as <-|].
  destruct (negb (_syn_flag s)).
  { injection E as <-. apply tidy_send; [by destruct Ht|].
    apply mk_segment_sendable; [apply wf_wrap|done|constructor|done]. }
  set (s1 := if _ =? 0 then _ else s) in E.
  assert (tidy s1) as Ht1 by (subst s1; destruct (_true_window_size s =? 0); [by destruct Ht|done]).
  destruct (fill_loop _ s1 _) as [[s2 b]|] eqn:El; [|done].
  apply tidy_fill_loop in El; [|done|apply wf_wrap].
  destruct b; injection E as <-; [done|]. case_match; [by destruct El|done].
Qed.

Lemma pop_acked_forall P q : forall a n, Forall P q -> Forall P (fst (pop_acked q a n)).
Proof.
  induction q as [|seg q IH]; intros a n Hq; simpl; [done|]. case_match; [|done].
  apply IH. by apply Forall_cons in Hq as [_ ?].
Qed.

Lemma tidy_ack s a w : tidy s -> tidy (ack_received s a w).
Proof.
  intros Ht. unfold ack_received. case_match; [done|].
  pose proof (pop_acked_forall sendable (outSegments s) (raw_value a) (_bytes_in_flight s) (ti_flight _ Ht)) as Hq.
  destruct (pop_acked _ _ _) as [q n]. simpl in Hq. apply tidy_fill.
  assert (tidy (set_flight s q n)) as Ht1.
  { destruct Ht. by constructor. }
  destruct Ht1. case_match; [|by constructor]. destruct q; by constructor.
Qed.

Lemma tidy_tick s ms : tidy s -> tidy (TCPSender.tick s ms).
Proof.
  intros [Hs Ho Hf]. unfold TCPSender.tick. cbn [set_timer outSegments].
  destruct (outSegments s) as [|seg q] eqn:Eq; [constructor; simpl; by rewrite ?Eq|].
  apply Forall_cons in Hf as [Hseg Hq].
  case_match; [constructor; simpl; rewrite ?Eq; try done; by constructor|].
  case_match; (constructor; simpl; rewrite ?Eq; try done; [apply Forall_app; by rewrite Forall_singleton|by constructor]).
Qed.

(** ** The connection *)

Record tidy_connection (c : TCPConnection) : Prop := mkTidyConnection {
  tc_sender : tidy (_sender c);
  tc_out : Forall sendable (TCPConnection._segments_out c)
}.

Lemma receiver_ackno_wf rc a : TCPReceiver.ackno rc = Some a -> WrappingIntegers.wf a.
Proof.
  unfold TCPReceiver.ackno. destruct (negb _); [done|]. destruct (input_ended _); intros [= <-]; [|apply wf_wrap].
  apply wf_of_uint.
Qed.

Lemma stamp_sendable seg a w : sendable seg -> WrappingIntegers.wf a -> sendable (stamp seg a w).
Proof.
  intros [[[] ? ?] ? ?] Ha. constructor; [constructor; [|done|done]|done|done].
  constructor; try done. apply u16_range.
Qed.

Lemma rst_sendable seg : sendable seg -> sendable (set_rst_flag seg).
Proof. intros [[[] ? ?] ? ?]. constructor; [constructor; [|done|done]|done|done]. by constructor. Qed.

Lemma tidy_same c c' :
  tidy_connection c -> tidy (_sender c') -> TCPConnection._segments_out c' = TCPConnection._segments_out c ->
  tidy_connection c'.
Proof. intros [] ? E. constructor; [done|by rewrite E]. Qed.

Lemma tidy_errors c : tidy_connection c -> tidy_connection (set_errors c).
Proof. intros Ht. eapply tidy_same; [exact Ht| |done]. by destruct Ht as [[] _]. Qed.

Lemma tidy_send_one c seg : tidy_connection c -> sendable seg -> tidy_connection (send_one c seg).
Proof.
  intros Ht Hseg. unfold send_one. set (c1 := if syn (_header seg) then _ else c).
  assert (tidy_connection c1) as Ht1 by (subst c1; destruct (syn (_header seg)); [by destruct Ht|done]).
  match goal with |- context [let '(_, _) := ?x in _] => set (p := x) end.
  assert (tidy_connection (fst p) /\ sendable (snd p)) as [Ht2 Hs2].
  { subst p. destruct (TCPReceiver.ackno (_receiver c1)) as [a|] eqn:Ea; [|done].
    apply receiver_ackno_wf in Ea. split; [|by apply stamp_sendable].
    destruct (_rec_fin_seqno c1); [|done]. cbn [fst]. destruct (_ <? _); [by destruct Ht1|done]. }
  destruct p as [c2 seg2]. cbn [fst snd] in Ht2, Hs2. destruct (_rst_set c2).
  - apply tidy_errors in Ht2. destruct Ht2. constructor; [done|]. simpl. apply Forall_app. split; [done|].
    apply Forall_singleton. by apply rst_sendable.
  - destruct Ht2. constructor; [done|]. simpl. apply Forall_app. by rewrite Forall_singleton.
Qed.

Lemma tidy_clean c : tidy_connection c -> tidy_connection (clean_shutdown c).
Proof. intros []. by destruct (clean_shutdown_eq c) as (l & a & -> & _). Qed.

Lemma to_send_sendable c : tidy_connection c -> Forall sendable (to_send c).
Proof.
  intros [[_ Ho _] _]. unfold to_send, segments_out. destruct (TCPSender._segments_out (_sender c)); [|done].
  apply Forall_singleton. apply (mk_segment_sendable (mkW32 0) false false Buffer_empty); [by split|done|constructor|done].
Qed.

Lemma tidy_sendseg c : tidy_connection c -> tidy_connection (sendseg c).
Proof.
  intros Ht. rewrite sendseg_eq. apply tidy_clean. pose proof (to_send_sendable c Ht) as Hq.
  assert (tidy_connection (set_queue c [])) as Hc by (destruct Ht as [[] ?]; constructor; [by constructor|done]).
  revert Hc. generalize (set_queue c []). induction Hq as [|seg q Hseg Hq IH]; intros c1 Hc; simpl; [done|].
  by apply IH, tidy_send_one.
Qed.

Lemma tidy_set_sender c s : tidy_connection c -> tidy s -> tidy_connection (set_sender c s).
Proof. intros Ht Hs. by apply (tidy_same c). Qed.

Lemma tidy_fill_connection c : tidy_connection c -> tidy_connection (set_sender c (fill_window (_sender c))).
Proof. intros Ht. apply tidy_set_sender; [done|]. apply tidy_fill, Ht. Qed.

Lemma tidy_segment_received c seg : tidy_connection c -> tidy_connection (TCPConnection.segment_received c seg).
Proof.
  intros Ht. unfold TCPConnection.segment_received. destruct (negb (_active c)); [done|].
  destruct (negb (_syn_set c) && negb (syn (_header seg))); [done|].
  set (c1 := if negb (_syn_set c) && syn (_header seg) then _ else c).
  assert (tidy_connection c1) as Ht1.
  { subst c1. destruct (negb (_syn_set c) && syn (_header seg)); [|done].
    eapply tidy_same; [exact Ht|apply tidy_fill, Ht|done]. }
  clearbody c1. destruct (rst (_header seg)).
  { destruct (negb _ && negb _); [by destruct Ht1|]. eapply tidy_same; [apply (tidy_errors (set_time c1 0)); by destruct Ht1| |done].
    by destruct Ht1 as [[] _]. }
  set (c2 := set_receiver _ _). assert (tidy_connection c2) as Ht2 by (by destruct Ht1).
  set (c3 := if ack (_header seg) then _ else c2).
  assert (tidy_connection c3) as Ht3.
  { subst c3. destruct (ack (_header seg)); [|done]. apply tidy_clean, tidy_set_sender; [done|]. apply tidy_ack, Ht2. }
  destruct (_fin_ack_sent c3 && negb (fin (_header seg))); [done|].
  set (c4 := if fin (_header seg) then _ else c3).
  assert (tidy_connection c4) as Ht4 by (subst c4; destruct (fin (_header seg)); [by destruct Ht3|done]).
  apply tidy_clean. destruct (0 <? length_in_sequence_space seg); [by apply tidy_sendseg|done].
Qed.

Lemma tidy_tick_connection c ms : tidy_connection c -> tidy_connection (TCPConnection.tick c ms).
Proof.
  intros Ht. unfold TCPConnection.tick. destruct (negb (_active c)); [done|]. set (c1 := set_sender _ _).
  assert (tidy_connection c1) as Ht1.
  { apply tidy_set_sender; [by destruct Ht|]. apply tidy_tick, Ht. }
  set (c2 := if _ <? _ then _ else c1).
  assert (tidy_connection (clean_shutdown c2)) as Ht2.
  { apply tidy_clean. subst c2. destruct (_ <? _); [|done]. apply tidy_sendseg. by destruct Ht1. }
  destruct (negb _); [done|]. destruct (segments_out _); [done|]. by apply tidy_sendseg.
Qed.

Lemma tidy_write c d : tidy_connection c -> wf_bytes d -> tidy_connection (fst (TCPConnection.write c d)).
Proof.
  intros Ht Hd. unfold TCPConnection.write. pose proof Ht as [[Hs Ho Hf] _].
  assert (wf_bytes (_buf (fst (ByteStream.write (stream_in (_sender c)) d)))) as Hw.
  { simpl. apply Forall_app. split; [done|]. rewrite ztake_take. by apply Forall_take. }
  destruct (ByteStream.write _ d) as [st n]. simpl in *. apply tidy_sendseg, tidy_set_sender; [done|].
  apply tidy_fill. by constructor.
Qed.

(** What the application writes are bytes. *)
Definition writes_bytes (o : op) : Prop := match o with AppWrite d => wf_bytes d | _ => True end.

Lemma tidy_step o c :
  tidy_connection c -> writes_bytes o ->
  let '(c', _, segs) := TCPConnection.step o c in tidy_connection c' /\ Forall sendable segs.
Proof.
  intros Ht Ho. destruct o as [seg|d|len| | |ms|]; cbn [TCPConnection.step].
  - split; [by apply tidy_segment_received|done].
  - pose proof (tidy_write c d Ht Ho) as Hw. destruct (TCPConnection.write c d). split; done.
  - split; [by destruct Ht|done].
  - split; [|done]. unfold end_input_stream. apply tidy_sendseg.
    eapply tidy_same; [exact Ht| |done]. apply tidy_fill. by destruct Ht as [[] _].
  - split; [by apply tidy_sendseg, tidy_fill_connection|done].
  - split; [by apply tidy_tick_connection|done].
  - destruct Ht. split; [by constructor|done].
Qed.

Lemma tidy_run ops : forall c,
  tidy_connection c -> Forall writes_bytes ops ->
  let '(c', _, segs) := TCPConnection.run ops c in tidy_connection c' /\ Forall sendable segs.
Proof.
  induction ops as [|o ops IH]; intros c Ht Ho; cbn [TCPConnection.run]; [done|].
  apply Forall_cons in Ho as [Ho Hops]. pose proof (tidy_step o c Ht Ho) as Hs.
  destruct (TCPConnection.step o c) as [[c1 d1] segs1]. destruct Hs as [Ht1 Hs1].
  specialize (IH c1 Ht1 Hops). destruct (TCPConnection.run ops c1) as [[c2 d2] segs2]. destruct IH.
  split; [done|]. by apply Forall_app.
Qed.

Lemma tidy_new cfg random : tidy_connection (TCPConnection.new cfg random).
Proof. repeat constructor. Qed.

(** ** Through the adapters *)

(** The adapter, with its addresses in range, takes every such segment. *)
Class AdapterFits (A In Out : Type) `{AdapterLaw A In Out} := {
  a_ready : A -> Prop;
  a_fits_sendable a seg : a_ready a -> sendable seg -> a_fits a seg
}.

Lemma sendable_size seg : sendable seg -> 20 <= segment_size seg <= 1472.
Proof.
  intros [_ Hd Hs]. unfold segment_size. rewrite Hd. pose proof (zlen_nonneg (payload seg)).
  unfold MAX_PAYLOAD_SIZE in Hs. lia.
Qed.

Lemma udp_fits_sendable a seg : base_wf a -> sendable seg -> udp_fits a seg.
Proof. intros Ha Hs%sendable_size. split; [done|lia]. Qed.

Lemma tun_fits_sendable a seg : base_wf a -> sendable seg -> tun_fits a seg.
Proof. intros Ha Hs%sendable_size. split; [done|lia]. Qed.

Global Instance UDPFits : AdapterFits FdAdapterBase datagram (Address * BufferList) :=
  Build_AdapterFits _ _ _ UDPAdapter UDPLaw base_wf udp_fits_sendable.
Global Instance TunFits : AdapterFits FdAdapterBase bytes BufferList :=
  Build_AdapterFits _ _ _ TunAdapter TunLaw base_wf tun_fits_sendable.

Lemma same_segment_core seg seg' : same_segment seg seg' -> same_core seg seg'.
Proof.
  intros [He Hp]. unfold TCPHeader.eqb in He.
  repeat match goal with H : _ && _ = true |- _ => apply andb_true_iff in H as [? ?] end.
  split_and!; [|by apply Bool.eqb_prop|by apply Bool.eqb_prop|done].
  by apply W32_ext, Z.eqb_eq.
Qed.

Section carries.
Context {A In Out : Type} `{Fits : AdapterFits A In Out}.

(** A segment of a connection through any adapter that keeps its law. *)
Lemma adapter_carries (a b : A) seg :
  a_connected a b -> a_ready a -> sendable seg ->
  exists seg' o seg'', a_write a seg = Ret (a, seg', o) /\ a_read b (a_deliver a o) = Ret (b, Some seg'') /\
    same_segment seg seg'' /\ same_core seg seg''.
Proof.
  intros Hc Ha Hs. destruct (a_roundtrip a b seg Hc (se_wf _ Hs) (a_fits_sendable a seg Ha Hs)) as (seg' & o & seg'' & Hw & Hr & He).
  exists seg', o, seg''. split_and!; try done. by apply same_segment_core.
Qed.
End carries.

Lemma udp_carries a b seg :
  connected a b -> base_wf a -> sendable seg ->
  exists seg' l seg'', udp_write a seg = Ret (seg', (destination (config a), l)) /\
    udp_read b (mkDatagram (source (config a)) (concatenate l)) = Ret (b, Some seg'') /\
    same_segment seg seg'' /\ same_core seg seg''.
Proof.
  intros Hc Ha Hs. destruct (adapter_carries (Fits := UDPFits) a b seg Hc Ha Hs) as (seg' & [dst l] & seg'' & Hw & Hr).
  simpl in Hw. destruct (udp_write a seg) as [[sg [dst' l']]|] eqn:E; [|done]. injection Hw as <- <- <-.
  exists sg, l', seg''. split; [|exact Hr]. unfold udp_write in E. destruct (TCPSegment.serialize _ _); [|done].
  cbn [obind] in E. by injection E as <- <- <-.
Qed.

Lemma tun_carries a b seg :
  connected a b -> base_wf a -> sendable seg ->
  exists seg' l seg'', tun_write a seg = Ret (seg', l) /\ tun_read b (concatenate l) = Ret (b, Some seg'') /\
    same_segment seg seg'' /\ same_core seg seg''.
Proof.
  intros Hc Ha Hs. destruct (adapter_carries (Fits := TunFits) a b seg Hc Ha Hs) as (seg' & l & seg'' & Hw & Hr).
  simpl in Hw. destruct (tun_write a seg) as [[sg l']|] eqn:E; [|done]. injection Hw as <- <-. by exists sg, l', seg''.
Qed.

(** ** Properties *)

(** C11 Every segment a connection sends or has queued is well formed, whatever
    arrives, however the window moves and whatever is retransmitted or reset:
    each header member is in the range of its type, the header has no options,
    and the payload has at most [MAX_PAYLOAD_SIZE] bytes. *)
Theorem connection_segments_typed cfg random ops :
  Forall writes_bytes ops ->
  let '(c, _, segs) := TCPConnection.run ops (TCPConnection.new cfg random) in
  Forall (fun seg => TCPSegment.wf seg /\ doff (_header seg) = 5 /\ zlen (payload seg) <= MAX_PAYLOAD_SIZE)
    (segs ++ TCPConnection._segments_out c).
Proof.
  intros Ho. pose proof (tidy_run ops _ (tidy_new cfg random) Ho) as Hr.
  destruct (TCPConnection.run ops _) as [[c d] segs]. destruct Hr as [[_ Hq] Hs].
  apply Forall_app. split; (eapply Forall_impl; [done|]); by intros seg [].
Qed.

(** C12 What a connection sends survives the wire: for two adapters with the
    addresses of each other (in the ranges of their types), the second not
    listening, each segment of a run in which the application writes bytes,
    sent or queued, is written by [TCPOverUDPSocketAdapter::write] without an
    exception, and [read] of the other end gets from the datagram, with its
    sender's address, the same segment; and so for
    [TCPOverIPv4OverTunFdAdapter], whose [read] gets the bytes of the packet.  The
    same segment means all header fields but the ports and the checksum, and the
    payload; reading leaves the adapter as it was. *)
Theorem segments_survive_wire cfg random ops (a b : FdAdapterBase) :
  Forall writes_bytes ops -> connected a b -> base_wf a ->
  let '(c, _, segs) := TCPConnection.run ops (TCPConnection.new cfg random) in
  Forall (fun seg =>
    (exists seg' l seg'', udp_write a seg = Ret (seg', (destination (config a), l)) /\
       udp_read b (mkDatagram (source (config a)) (concatenate l)) = Ret (b, Some seg'') /\
       same_segment seg seg'' /\ same_core seg seg'') /\
    (exists seg' l seg'', tun_write a seg = Ret (seg', l) /\ tun_read b (concatenate l) = Ret (b, Some seg'') /\
       same_segment seg seg'' /\ same_core seg seg''))
    (segs ++ TCPConnection._segments_out c).
Proof.
  intros Ho Hc Ha. pose proof (tidy_run ops _ (tidy_new cfg random) Ho) as Hr.
  destruct (TCPConnection.run ops _) as [[c d] segs]. destruct Hr as [[_ Hq] Hs].
  assert (Forall sendable (segs ++ TCPConnection._segments_out c)) as Hall by by apply Forall_app.
  eapply Forall_impl; [exact Hall|]. intros seg Hseg. split; [by apply udp_carries|by apply tun_carries].
Qed.

(** Witnesses: the segments of a connection that writes five bytes. *)

Definition demo_typed_ops : list op := demo_a1 ++ map SegmentReceived (sent_by demo_b1 demo_b0) ++
  [AppWrite [1; 2; 3; 4; 255]; Dequeue; EndInputStream].

Lemma demo_typed_bytes : Forall writes_bytes demo_typed_ops.
Proof.
  apply Forall_app. split; [by repeat constructor|]. apply Forall_app. split; [by apply Forall_map, Forall_true|].
  repeat constructor; vm_compute; congruence.
Qed.

Lemma connection_segments_typed_witness :
  (length (sent_by demo_typed_ops demo_a0) > 2)%nat /\
  Forall (fun seg => doff (_header seg) = 5) (sent_by demo_typed_ops demo_a0).
Proof.
  split; [vm_compute; lia|].
  pose proof (connection_segments_typed demo_cfg 5 demo_typed_ops demo_typed_bytes) as Hs.
  unfold sent_by, demo_a0. destruct (TCPConnection.run _ _) as [[c d] segs]. apply Forall_app in Hs as [Hs _].
  eapply Forall_impl; [exact Hs|]. by intros seg (_ & ? & _).
Defined.

Definition demo_near : FdAdapterBase := mkBase (mkFdAdapterConfig (mkAddress 16843009 1000) (mkAddress 33686018 2000) 0 0) false.
Definition demo_far : FdAdapterBase := mkBase (mkFdAdapterConfig (mkAddress 33686018 2000) (mkAddress 16843009 1000) 0 0) false.

Lemma demo_connected : connected demo_near demo_far.
Proof. constructor; reflexivity. Qed.
Lemma demo_near_wf : base_wf demo_near.
Proof. split; constructor; split; vm_compute; congruence. Qed.

Lemma segments_survive_wire_witness :
  (length (sent_by demo_typed_ops demo_a0) > 2)%nat /\
  Forall (fun seg => exists seg' l seg'', tun_write demo_near seg = Ret (seg', l) /\
    tun_read demo_far (concatenate l) = Ret (demo_far, Some seg'') /\ same_core seg seg'') (sent_by demo_typed_ops demo_a0).
Proof.
  split; [vm_compute; lia|].
  pose proof (segments_survive_wire demo_cfg 5 demo_typed_ops demo_near demo_far demo_typed_bytes demo_connected demo_near_wf) as Hs.
  unfold sent_by, demo_a0. destruct (TCPConnection.run _ _) as [[c d] segs]. apply Forall_app in Hs as [Hs _].
  eapply Forall_impl; [exact Hs|]. intros seg (_ & seg' & l & seg'' & Hw & Hr & _ & Hc).
  exists seg', l, seg''. exact (conj Hw (conj Hr Hc)).
Defined.
