(* ===== verification/Benchmark.v ===== *)
(** * Benchmark: two connections in one program

    Models [src/apps/tcp_benchmark.cc]: a program that moves a string through
    two [TCPConnection]s back to back, in order or with each batch of segments
    reversed, and compares what comes out with what went in.  The string is the
    input; [rand()] only fills it.  The loops that have no bound of their own
    take fuel: [None] when it runs out.

    The theorem: whatever the number of rounds, the program never throws inside
    the loop, and what it has received is a prefix of the string; so the
    comparison at the end can only fail by the string being short. *)

From S2P Require Import Prelude WrappingIntegers ByteStream StreamReassembler Buffer TCPHeader TCPSegment TCPConfig.
From S2P Require Import SegmentOf TCPReceiver TCPSender EndToEnd TCPState TCPConnection ConnectionPair FdAdapter Sendable.

Definition len : Z := 100 * 1024 * 1024.

(** The segments of [x] are moved to the vector, and from there to [y]. *)
Definition move_segments (x y : TCPConnection) (segments : list TCPSegment) (reorder : bool)
    : TCPConnection * TCPConnection * list TCPSegment :=
  let segments := segments ++ TCPConnection._segments_out x in
  let x := dequeue x in
  let y :=
    if reorder then fold_left TCPConnection.segment_received (rev segments) y
    else fold_left TCPConnection.segment_received segments y in
  (x, y, []).

(** The variables of [main_loop]. *)
Record bench := mkBench {
  cx : TCPConnection;
  cy : TCPConnection;
  bytes_to_send : Buffer;
  x_closed : bool;
  string_received : bytes
}.

(** The inner [while]. *)
Fixpoint write_input (fuel : nat) (x : TCPConnection) (b : Buffer) : option (outcome (TCPConnection * Buffer)) :=
  match fuel with
  | O => None
  | S fuel =>
      if negb (Buffer_size b =? 0) && negb (remaining_outbound_capacity x =? 0) then
        let want := Z.min (remaining_outbound_capacity x) (Buffer_size b) in
        let '(x, written) := TCPConnection.write x (ztake want (str b)) in
        if negb (want =? written) then Some (Throw runtime_error)
        else
          match Buffer_remove_prefix b written with
          | Throw e => Some (Throw e)
          | Ret b => write_input fuel x b
          end
      else Some (Ret (x, b))
  end.

(** The lambda [loop], after the inner [while]. *)
Definition exchange (reorder : bool) (x : TCPConnection) (s : bench) (b : Buffer) : bench :=
  let '(x, x_closed) :=
    if (Buffer_size b =? 0) && negb (x_closed s) then (end_input_stream x, true) else (x, x_closed s) in
  let '(x, y, segments) := move_segments x (cy s) [] reorder in
  let '(y, x, _) := move_segments y x segments false in
  let available_output := ByteStream.buffer_size (inbound_stream y) in
  let '(y, received) :=
    if 0 <? available_output then
      let '(st, got) := ByteStream.read (inbound_stream y) available_output in
      (set_receiver y (set_stream_out (_receiver y) st), string_received s ++ got)
    else (y, string_received s) in
  mkBench (TCPConnection.tick x 1000) (TCPConnection.tick y 1000) b x_closed received.

Definition loop (reorder : bool) (s : bench) : option (outcome bench) :=
  match write_input (S (Z.to_nat (Buffer_size (bytes_to_send s)))) (cx s) (bytes_to_send s) with
  | None => None
  | Some (Throw e) => Some (Throw e)
  | Some (Ret (x, b)) => Some (Ret (exchange reorder x s b))
  end.

(** [while (condition) loop();] *)
Fixpoint loop_while (fuel : nat) (condition : bench -> bool) (reorder : bool) (s : bench) : option (outcome bench) :=
  match fuel with
  | O => None
  | S fuel =>
      if condition s then
        match loop reorder s with
        | Some (Ret s) => loop_while fuel condition reorder s
        | r => r
        end
      else Some (Ret s)
  end.

(** [n] rounds, without a condition. *)
Fixpoint loops (n : nat) (reorder : bool) (s : bench) : option (outcome bench) :=
  match n with
  | O => Some (Ret s)
  | S n => match loop reorder s with Some (Ret s) => loops n reorder s | r => r end
  end.

Definition start (config : TCPConfig) (random_x random_y : Z) (string_to_send : bytes) : bench :=
  mkBench (TCPConnection.connect (TCPConnection.new config random_x))
    (end_input_stream (TCPConnection.new config random_y)) (Buffer_of string_to_send) false [].

Definition bytes_eqb (a b : bytes) : bool := bool_decide (a = b).

Definition main_loop (fuel : nat) (config : TCPConfig) (reorder : bool) (random_x random_y : Z) (string_to_send : bytes)
    : option (outcome bench) :=
  match loop_while fuel (fun s => negb (ByteStream.eof (inbound_stream (cy s)))) reorder
          (start config random_x random_y string_to_send) with
  | Some (Ret s) =>
      if negb (bytes_eqb (string_received s) string_to_send) then Some (Throw runtime_error)
      else loop_while fuel (fun s => TCPConnection.active (cx s) || TCPConnection.active (cy s)) reorder s
  | r => r
  end.

(** [main]: a run in order and one with reordering, each with its own random
    numbers and string. *)
Definition benchmark_main (fuel : nat) (in_order reordered : Z * Z * bytes) : finish :=
  let run reorder '(random_x, random_y, string_to_send) :=
    main_loop fuel default_config reorder random_x random_y string_to_send in
  match run false in_order with
  | None => Running
  | Some (Throw _) => Exited EXIT_FAILURE
  | Some (Ret _) =>
      match run true reordered with
      | None => Running
      | Some (Throw _) => Exited EXIT_FAILURE
      | Some (Ret _) => Exited EXIT_SUCCESS
      end
  end.

(** ** One side of a conversation

    [data] was written to the connection, [heard] to its peer, [out] was read
    from it, and [isn] is the peer's initial sequence number. *)

Record side (data heard out : bytes) (isn : WrappingInt32) (c : TCPConnection) : Prop := mkSide {
  sd_inv : TCPConnection.inv data c;
  sd_tidy : tidy_connection c;
  sd_hears : hears heard out isn (_receiver c);
  sd_capacity : TCPReceiver._capacity (_receiver c) < 9223372036854775808
}.

Definition isn_of_connection (c : TCPConnection) : WrappingInt32 := TCPSender._isn (_sender c).

(** What is read by an operation. *)
Definition got (o : op) (c : TCPConnection) : bytes :=
  match o with AppRead n => Datatypes.snd (ByteStream.read (inbound_stream c) n) | _ => [] end.

Lemma receiver_step_capacity o rc rc' : receiver_step o rc rc' -> TCPReceiver._capacity rc' = TCPReceiver._capacity rc.
Proof.
  destruct o; simpl; try by intros ->. intros [-> | ->]; [done|].
  unfold TCPReceiver.segment_received. by repeat case_match.
Qed.

Lemma step_capacity o c :
  TCPReceiver._capacity (_receiver (fst (fst (TCPConnection.step o c)))) = TCPReceiver._capacity (_receiver c).
Proof.
  destruct (step_receiver o c) as (rc & Hrc & Hm). apply receiver_step_capacity in Hrc.
  by destruct Hm as [-> | ->].
Qed.

Lemma side_step data heard out isn o c :
  WrappingIntegers.wf isn -> zlen heard < 2147483646 ->
  side data heard out isn c -> TCPConnection.op_ok o c -> writes_bytes o -> Forall (speaks heard isn) (arrivals [o]) ->
  let '(c', d, segs) := TCPConnection.step o c in
  zlen data + zlen d + 2 < 18446744073709551616 ->
  side (data ++ d) heard (out ++ got o c) isn c' /\
  Forall (fun seg => speaks data (isn_of_connection c) seg /\ sendable seg) segs /\
  isn_of_connection c' = isn_of_connection c /\
  input_ended (stream_in (_sender c')) = input_ended (stream_in (_sender c)) || ends_stream o.
Proof.
  intros Hisn Hl [Hi Ht Hh Hc] Ho Hw Hsp. pose proof (connection_step_spec data o c Hi Ho) as Hst.
  pose proof (tidy_step o c Ht Hw) as Htd. pose proof (step_capacity o c) as Hcap.
  pose proof (step_heard heard isn Hisn Hl out data c o Hi Ho Hsp Hh) as Hh1.
  destruct (TCPConnection.step o c) as [[c' d] segs]. cbn [fst] in *. destruct Htd as [Ht1 Hs1]. intros Hz.
  destruct (Hst Hz) as ([Hi1 Hn He] & _ & Hok). split_and!; [|..|done|exact He].
  - constructor; [done|done|exact Hh1|congruence].
  - apply Forall_and. split; [|done]. eapply Forall_impl; [exact Hok|]. by intros seg [? _].
Qed.

(** The other side writes more. *)
Lemma side_grow data heard more out isn c : side data heard out isn c -> side data (heard ++ more) out isn c.
Proof. intros [? ? [] ?]. constructor; try done. constructor; [by apply sound_app|done]. Qed.

(** A segment the peer sent is a legal arrival. *)
Lemma side_arrives data heard out isn c seg :
  zlen heard < 2147483646 -> side data heard out isn c -> sendable seg -> arrives c seg.
Proof.
  intros Hl [_ _ [Hsd _] Hc] [[[] _ _] _ Hs]. constructor; try done. split; [done|].
  pose proof (sound_next _ _ _ Hsd) as Hn. rewrite (inv_next _ (sound_inv _ _ _ Hsd)) in Hn.
  change (_output (_reassembler (_receiver c))) with (TCPReceiver.stream_out (_receiver c)) in Hn.
  unfold MAX_PAYLOAD_SIZE in Hs. lia.
Qed.

Lemma side_deliver data heard out isn segs : forall c,
  WrappingIntegers.wf isn -> zlen heard < 2147483646 -> zlen data + 2 < 18446744073709551616 ->
  Forall (fun seg => speaks heard isn seg /\ sendable seg) segs -> side data heard out isn c ->
  let c' := fold_left TCPConnection.segment_received segs c in
  side data heard out isn c' /\ isn_of_connection c' = isn_of_connection c /\
  input_ended (stream_in (_sender c')) = input_ended (stream_in (_sender c)).
Proof.
  induction segs as [|seg segs IH]; intros c Hisn Hl Hz Hall Hc; cbn [fold_left]; [done|].
  apply Forall_cons in Hall as [[Hsp Hs] Hall].
  pose proof (side_step data heard out isn (SegmentReceived seg) c Hisn Hl Hc
    (side_arrives _ _ _ _ _ _ Hl Hc Hs) I ltac:(by constructor)) as Hst.
  cbn [TCPConnection.step got ends_stream] in Hst. rewrite !app_nil_r in Hst.
  destruct Hst as (Hc1 & _ & Hn1 & He1); [lens_nil; lia|]. rewrite orb_false_r in He1.
  destruct (IH _ Hisn Hl Hz Hall Hc1) as (? & ? & ?). split_and!; [done|congruence|congruence].
Qed.

(** ** Both sides *)

Record joint (dx ox dy oy : bytes) (x y : TCPConnection) : Prop := mkJoint {
  jo_x : side dx dy ox (isn_of_connection y) x;
  jo_y : side dy dx oy (isn_of_connection x) y;
  jo_dx : zlen dx < 2147483646;
  jo_dy : zlen dy < 2147483646
}.

Lemma joint_sym dx ox dy oy x y : joint dx ox dy oy x y -> joint dy oy dx ox y x.
Proof. by intros []. Qed.

Lemma side_isn data heard out isn c : side data heard out isn c -> WrappingIntegers.wf (isn_of_connection c).
Proof. intros [[Hs _ _] _ _ _]. apply Hs. Qed.

(** An operation of the application or the clock on the first connection. *)
Lemma joint_step dx ox dy oy x y o :
  joint dx ox dy oy x y -> arrivals [o] = [] -> TCPConnection.op_ok o x -> writes_bytes o ->
  let '(x', d, _) := TCPConnection.step o x in
  zlen (dx ++ d) < 2147483646 ->
  joint (dx ++ d) (ox ++ got o x) dy oy x' y /\
  input_ended (stream_in (_sender x')) = input_ended (stream_in (_sender x)) || ends_stream o.
Proof.
  intros [Hx Hy Hdx Hdy] Ha Ho Hw.
  pose proof (side_step dx dy ox (isn_of_connection y) o x (side_isn _ _ _ _ _ Hy) Hdy Hx Ho Hw
    ltac:(rewrite Ha; constructor)) as Hs.
  destruct (TCPConnection.step o x) as [[x' d] segs]. rewrite zlen_app. intros Hz.
  destruct Hs as (Hx' & _ & Hn & He); [lia|]. split; [|done]. constructor; [done| |lens; lia|done].
  rewrite Hn. by apply side_grow.
Qed.

Lemma joint_move dx ox dy oy x y reorder :
  joint dx ox dy oy x y ->
  let '(x', y', segments) := move_segments x y [] reorder in
  joint dx ox dy oy x' y' /\ segments = [] /\
  input_ended (stream_in (_sender x')) = input_ended (stream_in (_sender x)) /\
  input_ended (stream_in (_sender y')) = input_ended (stream_in (_sender y)).
Proof.
  intros [Hx Hy Hdx Hdy]. unfold move_segments. cbn [app].
  set (segs := TCPConnection._segments_out x).
  pose proof (side_step dx dy ox (isn_of_connection y) Dequeue x (side_isn _ _ _ _ _ Hy) Hdy Hx I I
    ltac:(constructor)) as Hs.
  change (TCPConnection.step Dequeue x) with (dequeue x, @nil Z, segs) in Hs.
  cbn [got ends_stream] in Hs. rewrite !app_nil_r, orb_false_r in Hs.
  destruct Hs as (Hx1 & Hsegs & Hn & He); [lens_nil; lia|].
  assert (Forall (fun seg => speaks dx (isn_of_connection x) seg /\ sendable seg) (if reorder then rev segs else segs)) as Hq.
  { destruct reorder; [|done]. by apply Forall_rev. }
  assert ((if reorder then fold_left TCPConnection.segment_received (rev segs) y
           else fold_left TCPConnection.segment_received segs y) =
          fold_left TCPConnection.segment_received (if reorder then rev segs else segs) y) as -> by by destruct reorder.
  destruct (side_deliver dy dx oy _ _ y (side_isn _ _ _ _ _ Hx) Hdx ltac:(lia) Hq Hy) as (Hy1 & Hn1 & He1).
  split_and!; [|done|exact He|exact He1]. constructor; [by rewrite Hn1|by rewrite Hn|done|done].
Qed.

(** *** Writing *)
Lemma write_input_spec fuel : forall dx ox dy oy x y b,
  joint dx ox dy oy x y -> input_ended (stream_in (_sender x)) = false -> Buffer_wf b -> wf_bytes (str b) ->
  zlen dx + zlen (str b) < 2147483646 -> (Z.to_nat (Buffer_size b) < fuel)%nat ->
  exists x' b' d, write_input fuel x b = Some (Ret (x', b')) /\ str b = d ++ str b' /\ Buffer_wf b' /\
    joint (dx ++ d) ox dy oy x' y /\ input_ended (stream_in (_sender x')) = false.
Proof.
  induction fuel as [|fuel IH]; intros dx ox dy oy x y b Hj He Hb Hw Hz Hf; [lia|]. cbn [write_input].
  assert (Buffer_size b = zlen (str b)) as Hsz by done. pose proof (zlen_nonneg (str b)).
  destruct (Z.eqb_spec (Buffer_size b) 0) as [|Hne]; cbn [negb andb].
  { exists x, b, []. by rewrite app_nil_r. }
  destruct (Z.eqb_spec (remaining_outbound_capacity x) 0) as [|Hne2]; cbn [negb].
  { exists x, b, []. by rewrite app_nil_r. }
  pose proof (TCPSender.inv_stream _ _ (inv_sender _ _ (sd_inv _ _ _ _ _ (jo_x _ _ _ _ _ _ Hj)))) as Hst.
  assert (0 < remaining_outbound_capacity x) as Hcap.
  { unfold remaining_outbound_capacity, stream_in in *. pose proof (u64_range (ByteStream._capacity (TCPSender._stream (_sender x)) - zlen (_buf (TCPSender._stream (_sender x))))) as Hr.
    change (u64 _) with (remaining_capacity (TCPSender._stream (_sender x))) in Hr. words. lia. }
  set (want := Z.min (remaining_outbound_capacity x) (Buffer_size b)). set (d := ztake want (str b)).
  assert (zlen d = want) as Hd by (subst d; rewrite zlen_ztake by lia; lia).
  assert (str b = d ++ zdrop want (str b)) as Hsplit by (subst d; by rewrite ztake_zdrop).
  assert (wf_bytes d) as Hwd by (subst d; rewrite ztake_take; by apply Forall_take).
  pose proof (joint_step dx ox dy oy x y (AppWrite d) Hj eq_refl He Hwd) as Hs.
  assert (Datatypes.snd (TCPConnection.write x d) = want) as Hn.
  { unfold TCPConnection.write. pose proof (write_accepted _ d Hst) as Hwa. unfold stream_in.
    destruct (ByteStream.write _ d) as [st n]. cbn [Datatypes.snd] in *. rewrite Hwa, Hd. unfold remaining_outbound_capacity, stream_in in *. lia. }
  cbn [TCPConnection.step] in Hs. destruct (TCPConnection.write x d) as [x1 n]. simpl in Hn. subst n.
  rewrite Z.eqb_refl. cbn [negb got ends_stream] in *. rewrite (ztake_all _ d), app_nil_r, orb_false_r in Hs by lia.
  destruct Hs as [Hj1 He1]; [lens; lia|].
  pose proof (Buffer_remove_prefix_spec b want Hb ltac:(lia)) as Hrm.
  destruct (Buffer_remove_prefix b want) as [b1|]; [|lia]. destruct Hrm as (_ & Hs1 & Hb1).
  destruct (IH (dx ++ d) ox dy oy x1 y b1) as (x' & b' & d' & E & Hs' & Hb' & Hj' & He'); try done.
  - congruence.
  - rewrite Hs1. by rewrite zdrop_drop; apply Forall_drop.
  - rewrite Hs1. lens. rewrite zlen_zdrop by lia. lia.
  - change (Buffer_size b1) with (zlen (str b1)). rewrite Hs1, zlen_zdrop by lia. lia.
  - exists x', b', (d ++ d'). rewrite <- app_assoc, <- Hs', Hs1, app_assoc. split_and!; try done.
Qed.

(** ** The program *)

Record going (string_to_send : bytes) (s : bench) (dx : bytes) : Prop := mkGoing {
  go_split : string_to_send = dx ++ str (bytes_to_send s);
  go_buffer : Buffer_wf (bytes_to_send s);
  go_joint : joint dx [] [] (string_received s) (cx s) (cy s);
  go_open : x_closed s = false -> input_ended (stream_in (_sender (cx s))) = false;
  go_closed : x_closed s = true -> str (bytes_to_send s) = []
}.

Lemma joint_tick dx ox dy oy x y ms :
  joint dx ox dy oy x y -> joint dx ox dy oy (TCPConnection.tick x ms) y /\
  input_ended (stream_in (_sender (TCPConnection.tick x ms))) = input_ended (stream_in (_sender x)).
Proof.
  intros Hj. pose proof (joint_step dx ox dy oy x y (TimePasses ms) Hj eq_refl I I) as Hs.
  cbn [TCPConnection.step got ends_stream] in Hs. rewrite !app_nil_r, orb_false_r in Hs. apply Hs, Hj.
Qed.

Lemma joint_end dx ox dy oy x y : joint dx ox dy oy x y -> joint dx ox dy oy (end_input_stream x) y.
Proof.
  intros Hj. pose proof (joint_step dx ox dy oy x y EndInputStream Hj eq_refl I I) as Hs.
  cbn [TCPConnection.step got ends_stream] in Hs. rewrite !app_nil_r in Hs. apply Hs, Hj.
Qed.

Lemma joint_read dx ox dy oy x y n :
  0 <= n -> joint dx ox dy oy x y ->
  let '(st, g) := ByteStream.read (inbound_stream y) n in
  joint dx ox dy (oy ++ g) x (set_receiver y (set_stream_out (_receiver y) st)).
Proof.
  intros Hn Hj%joint_sym. pose proof (joint_step dy oy dx ox y x (AppRead n) Hj eq_refl Hn I) as Hs.
  cbn [TCPConnection.step got ends_stream] in Hs. destruct (ByteStream.read (inbound_stream y) n) as [st g].
  cbn [fst Datatypes.snd] in Hs. rewrite !app_nil_r in Hs. apply joint_sym, Hs, Hj.
Qed.

Lemma exchange_spec reorder dx x s b :
  joint dx [] [] (string_received s) x (cy s) -> Buffer_wf b ->
  (x_closed s = false -> input_ended (stream_in (_sender x)) = false) -> (x_closed s = true -> str b = []) ->
  going (dx ++ str b) (exchange reorder x s b) dx.
Proof.
  intros Hj Hb Ho Hc. unfold exchange.
  set (p := if (Buffer_size b =? 0) && negb (x_closed s) then _ else _).
  assert (joint dx [] [] (string_received s) (fst p) (cy s) /\
    (Datatypes.snd p = false -> input_ended (stream_in (_sender (fst p))) = false) /\
    (Datatypes.snd p = true -> str b = [])) as (Hj1 & Ho1 & Hc1).
  { subst p. destruct (Z.eqb_spec (Buffer_size b) 0) as [Hz|]; [|done].
    destruct (x_closed s); [done|]. cbn [negb andb fst Datatypes.snd]. split_and!; [by apply joint_end|done|].
    intros _. unfold Buffer_size in Hz. destruct (str b); [done|lens; lia]. }
  destruct p as [x1 closed1]. cbn [fst Datatypes.snd] in *.
  pose proof (joint_move _ _ _ _ _ _ reorder Hj1) as Hm. destruct (move_segments x1 (cy s) [] reorder) as [[x2 y2] segs].
  destruct Hm as (Hj2 & -> & Hex & _). apply joint_sym in Hj2.
  pose proof (joint_move _ _ _ _ _ _ false Hj2) as Hm. destruct (move_segments y2 x2 [] false) as [[y3 x3] segs].
  destruct Hm as (Hj3 & _ & _ & Hex3). apply joint_sym in Hj3.
  set (av := ByteStream.buffer_size (inbound_stream y3)).
  assert (0 <= av) by apply zlen_nonneg.
  set (q := if 0 <? av then _ else _).
  assert (joint dx [] [] (Datatypes.snd q) x3 (fst q)) as Hj4.
  { subst q. destruct (0 <? av); [|done]. pose proof (joint_read _ _ _ _ _ _ av ltac:(done) Hj3) as Hr.
    by destruct (ByteStream.read (inbound_stream y3) av). }
  destruct q as [y4 received]. cbn [fst Datatypes.snd] in Hj4.
  destruct (joint_tick _ _ _ _ _ _ 1000 Hj4) as [Hj5%joint_sym Hex5].
  destruct (joint_tick _ _ _ _ _ _ 1000 Hj5) as [Hj6%joint_sym _].
  constructor; simpl; try done. intros Hf. rewrite Hex5, Hex3, Hex. by apply Ho1.
Qed.

Lemma exchange_received reorder x s b : string_received s `prefix_of` string_received (exchange reorder x s b).
Proof.
  unfold exchange. set (p := if (Buffer_size b =? 0) && negb (x_closed s) then _ else _). destruct p as [x1 closed].
  destruct (move_segments x1 (cy s) [] reorder) as [[x2 y2] segs].
  destruct (move_segments y2 x2 segs false) as [[y3 x3] segs'].
  destruct (0 <? _); [|done]. destruct (ByteStream.read _ _) as [st g]. simpl. by apply prefix_app_r.
Qed.

Section program.
Context (string_to_send : bytes) (Hbytes : wf_bytes string_to_send) (Hshort : zlen string_to_send < 2147483646).

Lemma loop_spec reorder s dx :
  going string_to_send s dx -> exists s' dx', loop reorder s = Some (Ret s') /\ going string_to_send s' dx' /\
    string_received s `prefix_of` string_received s'.
Proof.
  intros [Hs Hb Hj Ho Hc]. unfold loop.
  assert (wf_bytes (str (bytes_to_send s))) as Hw.
  { unfold wf_bytes in Hbytes. rewrite Hs in Hbytes. by apply Forall_app in Hbytes as [_ ?]. }
  assert (zlen dx + zlen (str (bytes_to_send s)) < 2147483646) as Hz by (rewrite Hs in Hshort; lens; lia).
  destruct (x_closed s) eqn:Hx.
  - assert (Buffer_size (bytes_to_send s) = 0) as Hz0 by (unfold Buffer_size; by rewrite (Hc eq_refl)).
    cbn [write_input]. rewrite Hz0. cbn [Z.eqb negb andb].
    exists (exchange reorder (cx s) s (bytes_to_send s)), dx. split; [done|]. split; [|apply exchange_received]. rewrite Hs.
    apply exchange_spec; rewrite ?Hx; auto; congruence.
  - destruct (write_input_spec (S (Z.to_nat (Buffer_size (bytes_to_send s)))) dx [] [] (string_received s) (cx s) (cy s)
      (bytes_to_send s) Hj (Ho eq_refl) Hb Hw Hz ltac:(lia)) as (x' & b' & d & E & Hd & Hb' & Hj' & He').
    rewrite E. exists (exchange reorder x' s b'), (dx ++ d). split; [done|]. split; [|apply exchange_received].
    rewrite Hs, Hd, app_assoc. apply exchange_spec; rewrite ?Hx; auto; congruence.
Qed.

(** A [while] uses up its fuel, or ends before, after rounds that all return. *)
Lemma loop_while_spec condition reorder fuel : forall s dx,
  going string_to_send s dx ->
  exists n s' dx', (n <= fuel)%nat /\ loops n reorder s = Some (Ret s') /\ going string_to_send s' dx' /\
    string_received s `prefix_of` string_received s' /\
    ((loop_while fuel condition reorder s = None /\ n = fuel) \/
     (loop_while fuel condition reorder s = Some (Ret s') /\ condition s' = false)).
Proof.
  induction fuel as [|fuel IH]; intros s dx Hg; cbn [loop_while].
  { exists 0%nat, s, dx. split_and!; try done. by left. }
  destruct (condition s) eqn:Hc.
  - destruct (loop_spec reorder s dx Hg) as (s1 & dx1 & E & Hg1 & Hp). rewrite E.
    destruct (IH s1 dx1 Hg1) as (n & s2 & dx2 & Hn & El & Hg2 & Hp2 & Hcase).
    exists (S n), s2, dx2. cbn [loops]. rewrite E. split_and!; [lia|done|done|by etrans|].
    destruct Hcase as [[-> ->]|?]; [by left|by right].
  - exists 0%nat, s, dx. split_and!; try done; [lia|]. by right.
Qed.

Lemma loops_app n m reorder : forall s s', loops n reorder s = Some (Ret s') ->
  loops (n + m) reorder s = loops m reorder s'.
Proof.
  induction n as [|n IH]; intros s s'; simpl; [by intros [= ->]|].
  destruct (loop reorder s) as [[s1|]|]; [|done..]. apply IH.
Qed.

(** What was received and what is waiting is the front of the string. *)
Lemma going_prefix s dx :
  going string_to_send s dx -> string_received s ++ _buf (inbound_stream (cy s)) `prefix_of` string_to_send.
Proof.
  intros [Hs _ [_ [_ _ [Hsd _] _] _ _] _ _]. pose proof (sound_out _ _ _ Hsd) as Ho.
  exists (zdrop (nextIndex (_reassembler (_receiver (cy s)))) dx ++ str (bytes_to_send s)).
  change (_buf (inbound_stream (cy s))) with (_buf (_output (_reassembler (_receiver (cy s))))).
  by rewrite Ho, app_assoc, ztake_zdrop.
Qed.

Lemma start_going config random_x random_y :
  config_wf config -> recv_capacity config < 9223372036854775808 ->
  going string_to_send (start config random_x random_y string_to_send) [].
Proof.
  intros Hw Hc. set (x0 := TCPConnection.new config random_x). set (y0 := TCPConnection.new config random_y).
  assert (forall r isn, side [] [] [] isn (TCPConnection.new config r)) as Hside.
  { intros r isn. constructor; [by apply connection_inv_new|apply tidy_new| |done].
    constructor; [|done]. apply sound_new. apply Hw. }
  assert (joint [] [] [] [] x0 y0) as Hj by (constructor; [apply Hside|apply Hside|done|done]).
  pose proof (joint_step [] [] [] [] x0 y0 Connect Hj eq_refl I I) as Hs.
  cbn [TCPConnection.step got ends_stream app] in Hs. destruct Hs as [Hj1 He]; [done|].
  constructor; simpl; try done.
  - by rewrite str_Buffer_of.
  - apply Buffer_of_wf. pose proof (zlen_nonneg string_to_send). words. lia.
  - apply joint_sym, joint_end, joint_sym. exact Hj1.
Qed.

Lemma main_loop_spec fuel config reorder random_x random_y :
  config_wf config -> recv_capacity config < 9223372036854775808 ->
  match main_loop fuel config reorder random_x random_y string_to_send with
  | None => exists n s, (fuel <= n)%nat /\
      loops n reorder (start config random_x random_y string_to_send) = Some (Ret s) /\
      string_received s ++ _buf (inbound_stream (cy s)) `prefix_of` string_to_send
  | Some (Ret s) => string_received s = string_to_send /\
      TCPConnection.active (cx s) = false /\ TCPConnection.active (cy s) = false
  | Some (Throw e) => e = runtime_error /\
      exists s, loop_while fuel (fun s => negb (ByteStream.eof (inbound_stream (cy s)))) reorder
        (start config random_x random_y string_to_send) = Some (Ret s) /\
      ByteStream.eof (inbound_stream (cy s)) = true /\
      string_received s `prefix_of` string_to_send /\ string_received s <> string_to_send
  end.
Proof.
  intros Hw Hc. pose proof (start_going config random_x random_y Hw Hc) as Hg. unfold main_loop.
  destruct (loop_while_spec (fun s => negb (ByteStream.eof (inbound_stream (cy s)))) reorder fuel _ _ Hg)
    as (n & s & dx & Hn & El & Hg1 & _ & [[-> ->]|[E Heof]]); [exists fuel, s; eauto using going_prefix|].
  rewrite E. apply negb_false_iff in Heof.
  pose proof (going_prefix _ _ Hg1) as Hp. unfold bytes_eqb. case_bool_decide as Heq; cbn [negb].
  - destruct (loop_while_spec (fun s => TCPConnection.active (cx s) || TCPConnection.active (cy s)) reorder fuel _ _ Hg1)
      as (m & s2 & dx2 & Hm & El2 & Hg2 & Hmono & [[-> ->]|[E2 Hact]]).
    { exists (n + fuel)%nat, s2. rewrite (loops_app _ _ _ _ _ El). split_and!; [lia|done|by eapply going_prefix]. }
    rewrite E2. apply orb_false_iff in Hact as [Hx Hy].
    split; [|done]. rewrite Heq in Hmono. apply (anti_symm prefix); [|exact Hmono].
    etrans; [|exact (going_prefix _ _ Hg2)]. by apply prefix_app_r.
  - split; [done|]. exists s. split_and!; try done. etrans; [|exact Hp]. by apply prefix_app_r.
Qed.
(** What [main_loop] returns with. *)
Lemma main_loop_arrived fuel config reorder random_x random_y s :
  config_wf config -> recv_capacity config < 9223372036854775808 ->
  main_loop fuel config reorder random_x random_y string_to_send = Some (Ret s) -> string_received s = string_to_send.
Proof. intros Hw Hc E. pose proof (main_loop_spec fuel config reorder random_x random_y Hw Hc) as Hs. rewrite E in Hs. apply Hs. Qed.

(** C13 The benchmark passes its string on faithfully, in order and with every
    batch reversed, for any string of at most 2^31 - 3 bytes.  No round throws
    or fails to end: when the rounds given are used up, all of them have
    returned, and what has been received, with what is waiting, is a prefix of
    the string.  [main_loop] can only fail by finding a proper prefix when the
    stream has ended, and when it returns the string has arrived and both
    connections are closed. *)
Theorem benchmark_faithful fuel config reorder random_x random_y :
  config_wf config -> recv_capacity config < 9223372036854775808 ->
  match main_loop fuel config reorder random_x random_y string_to_send with
  | None => exists n s, (fuel <= n)%nat /\
      loops n reorder (start config random_x random_y string_to_send) = Some (Ret s) /\
      string_received s ++ _buf (inbound_stream (cy s)) `prefix_of` string_to_send
  | Some (Ret s) => string_received s = string_to_send /\
      TCPConnection.active (cx s) = false /\ TCPConnection.active (cy s) = false
  | Some (Throw e) => e = runtime_error /\
      exists s, loop_while fuel (fun s => negb (ByteStream.eof (inbound_stream (cy s)))) reorder
        (start config random_x random_y string_to_send) = Some (Ret s) /\
      ByteStream.eof (inbound_stream (cy s)) = true /\
      string_received s `prefix_of` string_to_send /\ string_received s <> string_to_send
  end.
Proof. apply main_loop_spec. Qed.
End program.

(** The program exits with success only if both strings arrived. *)
Theorem benchmark_exit fuel x1 y1 s1 x2 y2 s2 :
  wf_bytes s1 -> wf_bytes s2 -> zlen s1 < 2147483646 -> zlen s2 < 2147483646 ->
  benchmark_main fuel (x1, y1, s1) (x2, y2, s2) = Exited EXIT_SUCCESS ->
  exists r1 r2, main_loop fuel default_config false x1 y1 s1 = Some (Ret r1) /\ string_received r1 = s1 /\
    main_loop fuel default_config true x2 y2 s2 = Some (Ret r2) /\ string_received r2 = s2.
Proof.
  intros H1 H2 L1 L2 Hm. unfold benchmark_main in Hm.
  destruct (main_loop fuel default_config false x1 y1 s1) as [[r1|e1]|] eqn:E1; [|done..].
  destruct (main_loop fuel default_config true x2 y2 s2) as [[r2|e2]|] eqn:E2; [|done..].
  exists r1, r2. split_and!; [done| |done|]; eapply main_loop_arrived; try eassumption; try done; apply default_config_wf.
Qed.

(** Witness: the whole program on a short string, with reordering. *)

Definition demo_string : bytes := [10; 20; 30; 40; 50; 60; 70; 80; 90; 100; 110; 120].
Definition demo_bench_config : TCPConfig := mkTCPConfig 1000 4 5 None.

Lemma demo_string_bytes : wf_bytes demo_string.
Proof. repeat constructor; vm_compute; congruence. Qed.
Lemma demo_bench_config_wf : config_wf demo_bench_config.
Proof. constructor; vm_compute; try split; congruence. Qed.

(** Witness: both runs. *)
Lemma benchmark_exit_witness :
  exists r1 r2, main_loop 60 default_config false 3 4 demo_string = Some (Ret r1) /\ string_received r1 = demo_string /\
    main_loop 60 default_config true 5 6 demo_string = Some (Ret r2) /\ string_received r2 = demo_string.
Proof.
  apply (benchmark_exit 60 3 4 demo_string 5 6 demo_string); [apply demo_string_bytes..|reflexivity|reflexivity|].
  vm_compute. reflexivity.
Defined.

Lemma benchmark_faithful_witness :
  exists s, main_loop 40 demo_bench_config true 3 4 demo_string = Some (Ret s) /\ string_received s = demo_string /\
    TCPConnection.active (cx s) = false.
Proof.
  pose proof (benchmark_faithful demo_string demo_string_bytes eq_refl 40 demo_bench_config true 3 4 demo_bench_config_wf
    eq_refl) as H.
  destruct (main_loop 40 demo_bench_config true 3 4 demo_string) as [[s|e]|] eqn:E; [|vm_compute in E; discriminate E..].
  exists s. destruct H as (Hr & Hx & _). split; [reflexivity|]. split; [exact Hr|exact Hx].
Defined.
