(* ===== verification/FileDescriptor.v ===== *)
(** * FileDescriptor: reads and writes through the kernel

    Models [src/libsponge/util/file_descriptor.hh] and [.cc], the error
    checking of [SystemCall] in [util.cc], and [Socket::shutdown] of
    [src/libsponge/util/socket.cc], which counts as service.  The kernel is a parameter, the
    class [Kernel]: what it answers to the [t]-th system call.  A duplicate of a
    descriptor shares its [FDWrapper]; the owner of the wrapper is the state of
    the caller, so sharing is a projection there; who owns it and when it is closed
    is the subject of [Handles].

    The theorems: [write] hands the kernel the bytes of the buffer in order and
    exactly once, whatever the partial writes, and returns their number; it
    terminates; and under the documented behaviour of [writev] a full write
    succeeds.  [read] returns what the kernel stored and detects the end of
    the file. *)

From S2P Require Import Prelude Buffer.

(** ** System calls *)

(** What the kernel answers: the value returned, [errno], and for [read] and
    [recvfrom] the bytes it stored from the start of the buffer. *)
Record reply := mkReply { r_ret : Z; r_errno : Z; r_data : bytes }.

(** The [t]-th call, with the arguments that matter to the answer. *)
Class Kernel := {
  sys_read : nat -> Z -> reply;
  sys_writev : nat -> list (bytes * Z) -> reply;
  sys_shutdown : nat -> Z -> reply;
  sys_close : nat -> reply
}.

(** The value goes through an [int]. *)
Definition SystemCall (return_value errno errno_mask : Z) : outcome Z :=
  let v := i32 return_value in
  if (0 <=? v) || (errno =? errno_mask) then Ret v else Throw (unix_error errno).

Definition checked (k : reply) : outcome Z := SystemCall (r_ret k) (r_errno k) 0.

(** ** [FDWrapper] *)

Record FDWrapper := mkFD {
  _fd : Z;
  _eof : bool;
  _closed : bool;
  _read_count : Z;
  _write_count : Z
}.

Definition new (fd : Z) : outcome FDWrapper :=
  if fd <? 0 then Throw runtime_error else Ret (mkFD fd false false 0 0).

Definition register_read (w : FDWrapper) : FDWrapper :=
  mkFD (_fd w) (_eof w) (_closed w) (u32 (_read_count w + 1)) (_write_count w).
Definition register_write (w : FDWrapper) : FDWrapper :=
  mkFD (_fd w) (_eof w) (_closed w) (_read_count w) (u32 (_write_count w + 1)).
Definition set_eof (w : FDWrapper) : FDWrapper :=
  mkFD (_fd w) true (_closed w) (_read_count w) (_write_count w).

Definition fd_num (w : FDWrapper) : Z := _fd w.
Definition fd_eof (w : FDWrapper) : bool := _eof w.
Definition closed (w : FDWrapper) : bool := _closed w.
Definition read_count (w : FDWrapper) : Z := _read_count w.
Definition write_count (w : FDWrapper) : Z := _write_count w.

(** The flags [set_blocking] passes to [fcntl], from the ones it got. *)
Definition O_NONBLOCK : Z := 2048.
Definition blocking_flags (flags : Z) (blocking_state : bool) : Z :=
  if blocking_state then Z.lxor flags (Z.land flags O_NONBLOCK) else Z.lor flags O_NONBLOCK.

Section operations.
Context `{Kernel}.

Definition close (t : nat) (w : FDWrapper) : outcome FDWrapper :=
  try: _ <- checked (sys_close t);
  Ret (mkFD (_fd w) true true (_read_count w) (_write_count w)).

(** [~FDWrapper]: nothing is thrown. *)
Definition destroy (t : nat) (w : FDWrapper) : FDWrapper :=
  if _closed w then w else match close t w with Ret w' => w' | Throw _ => w end.

Definition BUFFER_SIZE : Z := 1024 * 1024.

(** The string is as long as the request during the call; [resize] to a
    negative length throws. *)
Definition read (t : nat) (w : FDWrapper) (limit : Z) : outcome (FDWrapper * bytes) :=
  let size_to_read := Z.min BUFFER_SIZE limit in
  let k := sys_read t size_to_read in
  try: bytes_read <- checked k;
  let w := if (0 <? limit) && (bytes_read =? 0) then set_eof w else w in
  if size_to_read <? bytes_read then Throw runtime_error
  else if bytes_read <? 0 then Throw length_error
  else Ret (register_read w, resize (ztake size_to_read (r_data k)) bytes_read).

(** The result of [write]; [taken] is what the kernel took from the buffers. *)
Record written := mkWritten { wr_fd : FDWrapper; wr_time : nat; wr_total : Z; taken : bytes }.

Definition iov_bytes (iovecs : list (bytes * Z)) : bytes := concat (map fst iovecs).

(** The [do] loop.  [None] when the fuel runs out. *)
Fixpoint write_loop (fuel t : nat) (w : FDWrapper) (buffer : BufferViewList) (write_all : bool)
    (total_bytes_written : Z) (acc : bytes) : option (outcome written) :=
  match fuel with
  | O => None
  | S fuel =>
      let iovecs := as_iovecs buffer in
      match checked (sys_writev t iovecs) with
      | Throw e => Some (Throw e)
      | Ret bytes_written =>
          if (bytes_written =? 0) && negb (BufferViewList_size buffer =? 0) then Some (Throw runtime_error)
          else if i64 (BufferViewList_size buffer) <? bytes_written then Some (Throw runtime_error)
          else
            let w := register_write w in
            match BufferViewList_remove_prefix buffer (u64 bytes_written) with
            | Throw e => Some (Throw e)
            | Ret buffer =>
                let total := u64 (total_bytes_written + bytes_written) in
                let acc := acc ++ ztake bytes_written (iov_bytes iovecs) in
                if write_all && negb (BufferViewList_size buffer =? 0)
                then write_loop fuel (S t) w buffer write_all total acc
                else Some (Ret (mkWritten w (S t) total acc))
            end
      end
  end.

Definition write (t : nat) (w : FDWrapper) (buffer : BufferViewList) (write_all : bool) : outcome written :=
  default (Throw runtime_error)
    (write_loop (S (Z.to_nat (BufferViewList_size buffer))) t w buffer write_all 0 []).

(** [Socket::shutdown] *)
Definition SHUT_RD : Z := 0.
Definition SHUT_WR : Z := 1.
Definition SHUT_RDWR : Z := 2.

Definition shutdown (t : nat) (w : FDWrapper) (how : Z) : outcome FDWrapper :=
  try: _ <- checked (sys_shutdown t how);
  if how =? SHUT_RD then Ret (register_read w)
  else if how =? SHUT_WR then Ret (register_write w)
  else if how =? SHUT_RDWR then Ret (register_write (register_read w))
  else Throw runtime_error.
End operations.

(** The documented behaviour of [writev] on a descriptor that can take data: at
    least one byte is taken when there is one, and at most what is given or
    the limit of one call. *)
Class WritevLaw `{Kernel} : Prop :=
  writev_takes t iovecs :
    0 <= r_ret (sys_writev t iovecs) <= Z.min (zlen (iov_bytes iovecs)) 2147479552 /\
    (iov_bytes iovecs <> [] -> 0 < r_ret (sys_writev t iovecs)).

(** ** View lists as strings *)

Definition contents (l : BufferViewList) : bytes := concat (_views l).

Lemma as_iovecs_contents l : iov_bytes (as_iovecs l) = contents l.
Proof.
  unfold iov_bytes, as_iovecs, contents. rewrite (fold_push_back (fun v : bytes => (v, zlen v)) _ []).
  by rewrite app_nil_l, map_map, map_id.
Qed.

Lemma view_size_acc (vs : list bytes) : forall a,
  0 <= a -> a + zlen (concat vs) < 18446744073709551616 ->
  fold_left (fun ret (v : bytes) => u64 (ret + zlen v)) vs a = a + zlen (concat vs).
Proof.
  induction vs as [|v vs IH]; intros a Ha Hs; simpl; [lens_nil; lia|].
  simpl in Hs. rewrite zlen_app in *. pose proof (zlen_nonneg v). pose proof (zlen_nonneg (concat vs)).
  rewrite u64_id by (words; lia). rewrite IH; lia.
Qed.

Lemma view_size l : is_u64 (zlen (contents l)) -> BufferViewList_size l = zlen (contents l).
Proof. intros Hs. unfold BufferViewList_size. rewrite view_size_acc; [done|lia|words; unfold contents in *; lia]. Qed.

Lemma str_of_views vs : map str (map Buffer_of vs) = vs.
Proof. rewrite map_map. rewrite <- (map_id vs) at 2. apply map_ext. intros. apply str_Buffer_of. Qed.

Lemma concat_member (v : bytes) vs : v ∈ vs -> zlen v <= zlen (concat vs).
Proof.
  induction 1 as [|? ? ? ? IH]; simpl; rewrite zlen_app.
  - pose proof (zlen_nonneg (concat l)). lia.
  - pose proof (zlen_nonneg y). lia.
Qed.

Lemma views_buffers vs : is_u64 (zlen (concat vs)) -> Forall Buffer_wf (map Buffer_of vs).
Proof.
  intros Hs. apply Forall_map, Forall_forall. intros v Hv. apply Buffer_of_wf.
  pose proof (concat_member v vs Hv). pose proof (zlen_nonneg v). words. lia.
Qed.

Lemma view_remove_prefix l n :
  is_u64 (zlen (contents l)) -> is_u64 n ->
  match BufferViewList_remove_prefix l n with
  | Ret l' => n <= zlen (contents l) /\ contents l' = zdrop n (contents l)
  | Throw _ => zlen (contents l) < n
  end.
Proof.
  intros Hs Hn. destruct l as [vs]. unfold BufferViewList_remove_prefix, contents in *; simpl in *.
  pose proof (views_buffers vs Hs) as Hw.
  pose proof (remove_prefix_loop_spec (map Buffer_of vs) n Hw ltac:(words; lia) Hn) as Hr.
  pose proof (view_loop_buffers (map Buffer_of vs) n Hw Hn) as Hv.
  rewrite str_of_views in Hv. rewrite Hv. unfold flat in Hr. rewrite str_of_views in Hr.
  destruct (remove_prefix_loop (map Buffer_of vs) n); simpl; naive_solver.
Qed.

(** ** [write] *)

Section write.
Context `{Kernel}.

(** What a write of a buffer that holds [data] does to the descriptor, and to
    what was written before it. *)
Record wrote (t : nat) (w : FDWrapper) (data : bytes) (write_all : bool) (total : Z) (acc : bytes)
    (r : written) (n : Z) : Prop := mkWrote {
  wrote_range : 0 <= n <= zlen data;
  wrote_some : data <> [] -> 0 < n;
  wrote_all : write_all = true -> n = zlen data;
  wrote_taken : taken r = acc ++ ztake n data;
  wrote_total : wr_total r = total + n;
  wrote_time : (t < wr_time r)%nat;
  wrote_flags : _fd (wr_fd r) = _fd w /\ _eof (wr_fd r) = _eof w /\ _closed (wr_fd r) = _closed w /\
    _read_count (wr_fd r) = _read_count w;
  wrote_count : _write_count (wr_fd r) = u32 (_write_count w + Z.of_nat (wr_time r - t))
}.

Lemma checked_Ret k v : checked k = Ret v -> v = i32 (r_ret k).
Proof. unfold checked, SystemCall. case_match; congruence. Qed.

Lemma checked_small k : 0 <= r_ret k < 2147483648 -> checked k = Ret (r_ret k).
Proof.
  intros Hk. assert (i32 (r_ret k) = r_ret k) as E by wsolve. unfold checked, SystemCall. rewrite E.
  destruct (Z.leb_spec 0 (r_ret k)); [done|lia].
Qed.

Lemma i64_small z : 0 <= z < 9223372036854775808 -> i64 z = z.
Proof. intros. wsolve. Qed.

Lemma zlen_nonempty {A} (l : list A) : zlen l <> 0 <-> l <> [].
Proof. split; [by intros ? ->|]. intros Hl Hz. by apply Hl, zlen_0_inv. Qed.

Lemma wrote_trans t w data n total acc buffer' r m :
  0 <= n <= zlen data -> contents buffer' = zdrop n data ->
  wrote (S t) (register_write w) (contents buffer') true (total + n) (acc ++ ztake n data) r m ->
  (data <> [] -> 0 < n) -> wrote t w data true total acc r (n + m).
Proof.
  intros Hn Hc [Hr Hs Ha Ht Htot Htime Hfl Hcnt] Hp.
  assert (zlen (contents buffer') = zlen data - n) as Hlen by (rewrite Hc, zlen_zdrop; lia).
  specialize (Ha eq_refl). constructor; try lia; try done.
  - intros Hd. specialize (Hp Hd). lia.
  - rewrite Ht, <- app_assoc. f_equal. rewrite (ztake_all m) by lia.
    rewrite (ztake_all (n + m)) by lia. rewrite Hc. apply ztake_zdrop.
  - rewrite Hcnt. simpl. replace (Z.of_nat (wr_time r - t)) with (1 + Z.of_nat (wr_time r - S t)) by lia.
    wsolve.
Qed.

Lemma write_loop_spec fuel : forall t w buffer write_all total acc,
  (Z.to_nat (zlen (contents buffer)) < fuel)%nat ->
  0 <= total -> total + zlen (contents buffer) < 9223372036854775808 ->
  exists o, write_loop fuel t w buffer write_all total acc = Some o /\
  match o with
  | Ret r => exists n, wrote t w (contents buffer) write_all total acc r n
  | Throw _ => ~ WritevLaw
  end.
Proof.
  induction fuel as [|fuel IH]; intros t w buffer write_all total acc Hf Ht Hs; [lia|].
  pose proof (zlen_nonneg (contents buffer)) as Hz. cbn [write_loop].
  rewrite (view_size buffer), as_iovecs_contents by (words; lia).
  destruct (checked (sys_writev t (as_iovecs buffer))) as [n|e] eqn:Ec.
  2:{ eexists. split; [done|]. intros L. destruct (L t (as_iovecs buffer)) as [Hr _].
      rewrite checked_small in Ec by lia. done. }
  apply checked_Ret in Ec.
  assert (WritevLaw -> 0 <= n <= zlen (contents buffer) /\ (contents buffer <> [] -> 0 < n)) as Hlaw.
  { intros L. destruct (L t (as_iovecs buffer)) as [Hr Hp]. rewrite as_iovecs_contents in Hr, Hp.
    assert (n = r_ret (sys_writev t (as_iovecs buffer))) as -> by (rewrite Ec; wsolve). split; [lia|done]. }
  assert (-2147483648 <= n) as Hlow by (rewrite Ec; wsolve). clear Ec.
  destruct ((n =? 0) && negb (zlen (contents buffer) =? 0)) eqn:E0.
  { eexists. split; [done|]. intros [_ L]%Hlaw. apply andb_true_iff in E0 as [->%Z.eqb_eq E0%negb_true_iff].
    apply Z.eqb_neq, zlen_nonempty in E0. specialize (L E0). lia. }
  rewrite i64_small by lia. destruct (Z.ltb_spec (zlen (contents buffer)) n) as [Hg|Hg].
  { eexists. split; [done|]. intros [L _]%Hlaw. lia. }
  pose proof (view_remove_prefix buffer (u64 n) ltac:(words; lia) ltac:(apply u64_range)) as Hp.
  destruct (BufferViewList_remove_prefix buffer (u64 n)) as [buffer'|e].
  2:{ eexists. split; [done|]. intros [L _]%Hlaw. rewrite u64_id in Hp by (words; lia). lia. }
  destruct Hp as [Hle Hc]. assert (0 <= n) as Hn by (destruct (decide (0 <= n)); [done|wsolve]).
  rewrite u64_id in Hc by (words; lia).
  assert (contents buffer <> [] -> 0 < n) as Hsome.
  { intros Hne. apply andb_false_iff in E0 as [E0%Z.eqb_neq|E0%negb_false_iff%Z.eqb_eq]; [lia|].
    by apply zlen_nonempty in Hne. }
  rewrite (u64_id (total + n)) by (words; lia).
  assert (zlen (contents buffer') = zlen (contents buffer) - n) as Hlen by (rewrite Hc, zlen_zdrop; lia).
  rewrite (view_size buffer') by (words; lia).
  destruct (write_all && negb (zlen (contents buffer') =? 0)) eqn:Eall.
  - apply andb_true_iff in Eall as [-> Enz%negb_true_iff%Z.eqb_neq].
    assert (0 < n) by (apply Hsome, zlen_nonempty; lia).
    destruct (IH (S t) (register_write w) buffer' true (total + n) (acc ++ ztake n (contents buffer)))
      as (o & E & Ho); [lia..|]. exists o. split; [done|]. destruct o as [r|e]; [|done].
    destruct Ho as [m Ho]. exists (n + m). by eapply wrote_trans; [lia|done..].
  - eexists. split; [done|]. exists n. constructor; simpl; try done; try lia.
    + intros ->. simpl in Eall. apply negb_false_iff, Z.eqb_eq in Eall. lia.
    + by replace (S t - t)%nat with 1%nat by lia.
Qed.

Lemma write_enough t w buffer write_all :
  zlen (contents buffer) < 9223372036854775808 ->
  exists o, write_loop (S (Z.to_nat (BufferViewList_size buffer))) t w buffer write_all 0 [] = Some o /\
    write t w buffer write_all = o /\
    match o with
    | Ret r => exists n, wrote t w (contents buffer) write_all 0 [] r n
    | Throw _ => ~ WritevLaw
    end.
Proof.
  intros Hs. pose proof (zlen_nonneg (contents buffer)). unfold write.
  rewrite view_size by (words; lia).
  destruct (write_loop_spec (S (Z.to_nat (zlen (contents buffer)))) t w buffer write_all 0 []) as (o & E & Ho);
    [lia..|]. exists o. by rewrite E.
Qed.

(** A partial write of the front of a string. *)
Lemma write_front t w n (buf : bytes) r :
  0 <= n -> Z.min n (zlen buf) < 9223372036854775808 ->
  write t w (BufferViewList_of (ztake n buf)) false = Ret r ->
  0 <= wr_total r <= zlen buf /\ taken r = ztake (wr_total r) buf /\ _eof (wr_fd r) = _eof w.
Proof.
  intros Hn Hmin Hw. pose proof (zlen_nonneg buf). set (front := ztake n buf) in *.
  assert (contents (BufferViewList_of front) = front) as Hcon by (unfold contents; simpl; by rewrite app_nil_r).
  assert (zlen front = Z.min n (zlen buf)) as Hlen by (unfold front; rewrite zlen_ztake; lia).
  destruct (write_enough t w (BufferViewList_of front) false) as (o & _ & Ho & Hspec); [rewrite Hcon; lia|].
  rewrite Hw in Ho. subst o. destruct Hspec as [m [Hr _ _ Ht Htot _ Hfl _]]. rewrite Hcon in *.
  rewrite Htot, Z.add_0_l. split; [lia|]. split; [|apply Hfl].
  rewrite Ht, app_nil_l. unfold front. rewrite !ztake_take, take_take by lia. f_equal. lia.
Qed.

(** ** [read] *)

(** What a successful [read] leaves, whatever the kernel answers. *)
Record did_read (w : FDWrapper) (limit : Z) (w' : FDWrapper) (data : bytes) : Prop := mkDidRead {
  did_len : zlen data <= Z.min BUFFER_SIZE limit;
  did_eof : _eof w' = _eof w || (0 <? limit) && bool_decide (data = []);
  did_count : _read_count w' = u32 (_read_count w + 1);
  did_flags : _fd w' = _fd w /\ _closed w' = _closed w /\ _write_count w' = _write_count w
}.

Lemma zlen_resize s n : 0 <= n -> zlen (resize s n) = n.
Proof.
  intros Hn. unfold resize. rewrite zlen_app, zlen_replicate, zlen_ztake by done. pose proof (zlen_nonneg s). lia.
Qed.

Lemma read_spec t w limit w' data : read t w limit = Ret (w', data) -> did_read w limit w' data.
Proof.
  unfold read. destruct (checked _) as [n|]; [|done]. cbn [obind].
  destruct (Z.ltb_spec (Z.min BUFFER_SIZE limit) n) as [|Hn]; [done|].
  destruct (Z.ltb_spec n 0) as [|Hp]; [done|]. set (s := resize _ n).
  assert (zlen s = n) as Hz by by apply zlen_resize.
  assert (bool_decide (s = []) = (n =? 0)) as Hd.
  { rewrite <- Hz. destruct (decide (s = [])) as [->|Hne]; [done|]. rewrite bool_decide_eq_false_2 by done.
    apply zlen_nonempty in Hne. by destruct (Z.eqb_spec (zlen s) 0). }
  intros [= <- <-]. fold s. constructor.
  - lia.
  - rewrite Hd. by destruct ((0 <? limit) && (n =? 0)); simpl; rewrite ?Bool.orb_true_r, ?Bool.orb_false_r.
  - by destruct ((0 <? limit) && (n =? 0)).
  - by destruct ((0 <? limit) && (n =? 0)).
Qed.

(** Under the documented behaviour of [read] the string is what was stored. *)
Lemma read_data t w limit :
  0 <= limit -> let k := sys_read t (Z.min BUFFER_SIZE limit) in
  r_ret k = zlen (r_data k) -> zlen (r_data k) <= Z.min BUFFER_SIZE limit ->
  exists w', read t w limit = Ret (w', r_data k).
Proof.
  intros Hl k Hr Hb. pose proof (zlen_nonneg (r_data k)). unfold read. fold k. unfold BUFFER_SIZE in *.
  rewrite checked_small, Hr by lia. cbn [obind].
  destruct (Z.ltb_spec (Z.min (1024 * 1024) limit) (zlen (r_data k))); [lia|].
  destruct (Z.ltb_spec (zlen (r_data k)) 0); [lia|].
  rewrite (ztake_all _ (r_data k)), (resize_grow _ _ (zlen (r_data k))) by lia.
  rewrite Z.sub_diag, app_nil_r. eauto.
Qed.

(** [set_blocking] changes the one flag. *)
Lemma blocking_flags_spec flags b i :
  0 <= i -> Z.testbit (blocking_flags flags b) i = if i =? 11 then negb b else Z.testbit flags i.
Proof.
  intros Hi. unfold blocking_flags, O_NONBLOCK. change 2048 with (2 ^ 11).
  assert (Z.testbit (2 ^ 11) i = (i =? 11)) as Hb by (rewrite Z.pow2_bits_eqb, Z.eqb_sym by lia; done).
  destruct b; rewrite ?Z.lxor_spec, ?Z.land_spec, ?Z.lor_spec, Hb;
    destruct (Z.eqb_spec i 11), (Z.testbit flags i); done.
Qed.

(** ** Properties *)

(** C23 [FileDescriptor::write] hands the kernel the bytes of its buffers in order
    and exactly once, however the kernel splits the writes: the loop ends within
    one call per byte (and one), what was taken is a prefix of the buffers of
    the length returned, the whole of them for a full write, and non-empty
    unless there was nothing to write; one service is counted per call.  It
    does not throw when every call takes some of the data ([WritevLaw]). *)
Theorem write_in_order t w buffer write_all :
  zlen (contents buffer) < 9223372036854775808 ->
  write_loop (S (Z.to_nat (BufferViewList_size buffer))) t w buffer write_all 0 [] <> None /\
  match write t w buffer write_all with
  | Ret r =>
      taken r = ztake (wr_total r) (contents buffer) /\ wr_total r = zlen (taken r) /\
      (contents buffer <> [] -> taken r <> []) /\ (write_all = true -> taken r = contents buffer) /\
      _write_count (wr_fd r) = u32 (_write_count w + Z.of_nat (wr_time r - t)) /\
      _eof (wr_fd r) = _eof w /\ _closed (wr_fd r) = _closed w
  | Throw _ => ~ WritevLaw
  end.
Proof.
  intros Hs. destruct (write_enough t w buffer write_all Hs) as (o & E & -> & Ho). rewrite E.
  split; [done|]. destruct o as [r|e]; [|done]. destruct Ho as [n [Hr Hp Ha Ht Htot _ Hfl Hc]].
  rewrite app_nil_l in Ht. rewrite Ht, Htot, Z.add_0_l, zlen_ztake by lia.
  split_and!; [done|lia| |intros Hall|done|apply Hfl..].
  - intros Hd. specialize (Hp Hd). apply zlen_nonempty. rewrite zlen_ztake; lia.
  - apply ztake_all. specialize (Ha Hall). lia.
Qed.

End write.

(** A kernel that takes two bytes at a time and whose files are empty. *)
Definition demo_kernel : Kernel := {|
  sys_read := fun _ _ => mkReply 0 0 [];
  sys_writev := fun _ iovecs => mkReply (Z.min 2 (zlen (iov_bytes iovecs))) 0 [];
  sys_shutdown := fun _ _ => mkReply 0 0 [];
  sys_close := fun _ => mkReply 0 0 []
|}.

Lemma write_in_order_witness :
  match @write demo_kernel 0 (mkFD 1 false false 0 0) (mkBufferViewList [[1; 2; 3]; [4; 5]]) true with
  | Ret r => taken r = [1; 2; 3; 4; 5]
  | Throw _ => False
  end.
Proof.
  pose proof (@write_in_order demo_kernel 0 (mkFD 1 false false 0 0) (mkBufferViewList [[1; 2; 3]; [4; 5]]) true
    ltac:(reflexivity)) as [_ H].
  destruct (@write demo_kernel 0 (mkFD 1 false false 0 0) (mkBufferViewList [[1; 2; 3]; [4; 5]]) true) as [r|e].
  - destruct H as (_ & _ & _ & H & _). rewrite H; reflexivity.
  - apply H. intros t iovecs. simpl. destruct (iov_bytes iovecs) as [|b l] eqn:E; simpl.
    + split; [vm_compute; split; congruence|congruence].
    + pose proof (zlen_nonneg l). rewrite zlen_cons. split; [lia|intros _; lia].
Defined.
