(* ===== verification/Handles.v ===== *)
(** * Handles: shared ownership of descriptors

    Models how [FileDescriptor] objects of [src/libsponge/util/file_descriptor.hh]
    and [.cc] share an [FDWrapper]: the constructors, [duplicate], [close], the
    accesses through [_internal_fd], and the destructors.  A wrapper lives in a
    store at a location, with the number of its owners (the [shared_ptr]); a
    handle is a location.  Everything done through one handle is seen through the
    others, which is how the event loop, whose rules hold duplicates, learns that
    a descriptor was closed.

    The theorem is an invariant of all runs: a descriptor stays open while a
    handle is left (unless it is closed through one), and when the last one goes
    it has been closed exactly once. *)

From S2P Require Import Prelude FileDescriptor.

Record cell := mkCell { c_wrapper : FDWrapper; c_owners : nat }.

(** The cells, the next location, and the calls of [close(2)] so far, by the
    location they were made for. *)
Record store := mkStore { cells : gmap nat cell; fresh : nat; closes : list nat }.

Definition empty_store : store := mkStore ∅ 0 [].

Definition set_cell (st : store) (l : nat) (c : cell) : store := mkStore (<[l := c]> (cells st)) (fresh st) (closes st).

Section handles.
Context `{Kernel}.

(** [FileDescriptor(const int fd)] *)
Definition make (st : store) (fd : Z) : outcome (store * nat) :=
  try: w <- FileDescriptor.new fd;
  Ret (mkStore (<[fresh st := mkCell w 1]> (cells st)) (S (fresh st)) (closes st), fresh st).

(** [duplicate]: one owner more; a handle that was moved from has no cell. *)
Definition duplicate (st : store) (l : nat) : outcome (store * nat) :=
  match cells st !! l with
  | Some c => Ret (set_cell st l (mkCell (c_wrapper c) (S (c_owners c))), l)
  | None => Throw out_of_range
  end.

(** A member function that works on the wrapper. *)
Definition through (st : store) (l : nat) (f : FDWrapper -> FDWrapper) : outcome store :=
  match cells st !! l with
  | Some c => Ret (set_cell st l (mkCell (f (c_wrapper c)) (c_owners c)))
  | None => Throw out_of_range
  end.

(** [close]: the call is made whatever it answers. *)
Definition close_handle (st : store) (l : nat) : store * outcome unit :=
  match cells st !! l with
  | Some c =>
      let st' := mkStore (cells st) (fresh st) (closes st ++ [l]) in
      match FileDescriptor.close (length (closes st)) (c_wrapper c) with
      | Ret w => (set_cell st' l (mkCell w (c_owners c)), Ret tt)
      | Throw e => (st', Throw e)
      end
  | None => (st, Throw out_of_range)
  end.

(** [~FileDescriptor]: one owner less; with the last one [~FDWrapper] runs, which
    closes a descriptor that is still open and drops an error. *)
Definition release (st : store) (l : nat) : store :=
  match cells st !! l with
  | Some c =>
      match c_owners c with
      | S (S n) => set_cell st l (mkCell (c_wrapper c) (S n))
      | _ => mkStore (delete l (cells st)) (fresh st) (if closed (c_wrapper c) then closes st else closes st ++ [l])
      end
  | None => st
  end.

(** ** Runs *)

(** A step of a program that holds the handles [held]; it does not close what it
    can see is closed. *)
Inductive step : store * list nat -> store * list nat -> Prop :=
  | s_make st held fd st' l : make st fd = Ret (st', l) -> step (st, held) (st', l :: held)
  | s_duplicate st held l st' l' : l ∈ held -> duplicate st l = Ret (st', l') -> step (st, held) (st', l' :: held)
  | s_use st held l f st' : l ∈ held ->
      (forall w, closed (f w) = closed w) -> through st l f = Ret st' -> step (st, held) (st', held)
  | s_close st held l c st' r : l ∈ held -> cells st !! l = Some c -> closed (c_wrapper c) = false ->
      close_handle st l = (st', r) -> step (st, held) (st', held)
  | s_release st held l held' : held ≡ₚ l :: held' -> step (st, held) (release st l, held').

Definition times (l : nat) (ls : list nat) : nat := count_occ Nat.eq_dec ls l.
Arguments times : simpl never.

(** What is known of one location. *)
Definition accounted (st : store) (held : list nat) (l : nat) : Prop :=
  match cells st !! l with
  | Some c => (l < fresh st)%nat /\ c_owners c = times l held /\ (0 < c_owners c)%nat /\
      times l (closes st) = if closed (c_wrapper c) then 1%nat else 0%nat
  | None => times l held = 0%nat /\ times l (closes st) = if (l <? fresh st)%nat then 1%nat else 0%nat
  end.

Definition inv (s : store * list nat) : Prop := forall l, accounted (fst s) (snd s) l.

Lemma times_app l ls ks : times l (ls ++ ks) = (times l ls + times l ks)%nat.
Proof. apply count_occ_app. Qed.

Lemma times_cons l k ls : times l (k :: ls) = ((if decide (k = l) then 1 else 0) + times l ls)%nat.
Proof. unfold times. simpl. by destruct (Nat.eq_dec k l), (decide (k = l)). Qed.

Lemma times_perm l ls ks : ls ≡ₚ ks -> times l ls = times l ks.
Proof. intros Hp. unfold times. by apply Permutation_count_occ. Qed.

Lemma times_in l ls : l ∈ ls -> (0 < times l ls)%nat.
Proof. intros Hin. apply count_occ_In. by apply list_elem_of_In. Qed.

(** The other locations are as they were. *)
Lemma accounted_frame st held st' held' l :
  accounted st held l -> cells st' !! l = cells st !! l -> times l held' = times l held ->
  times l (closes st') = times l (closes st) -> (fresh st <= fresh st')%nat ->
  (cells st !! l = None -> (l <? fresh st')%nat = (l <? fresh st)%nat) -> accounted st' held' l.
Proof.
  unfold accounted. intros Ha Hc Hh Hcl Hf Hn. rewrite Hc, Hh, Hcl. destruct (cells st !! l) as [c|].
  - destruct Ha as (? & ? & ? & ?). split_and!; [lia|done..].
  - by rewrite Hn.
Qed.

Lemma held_cell st held l : inv (st, held) -> l ∈ held ->
  exists c, cells st !! l = Some c /\ (l < fresh st)%nat /\ c_owners c = times l held /\ (0 < c_owners c)%nat /\
    times l (closes st) = if closed (c_wrapper c) then 1%nat else 0%nat.
Proof.
  intros Hi Hl%times_in. specialize (Hi l). unfold accounted in Hi. simpl in Hi.
  destruct (cells st !! l) as [c|]; [eauto|]. destruct Hi as [Hz _]. lia.
Qed.

(** The kernel closes what it is asked to. *)
Context (close_works : forall t, checked (sys_close t) = Ret 0).

Lemma close_handle_cell st l c : cells st !! l = Some c ->
  exists w, close_handle st l = (mkStore (<[l := mkCell w (c_owners c)]> (cells st)) (fresh st) (closes st ++ [l]), Ret tt) /\
    closed w = true.
Proof.
  intros Hc. unfold close_handle. rewrite Hc. unfold FileDescriptor.close. rewrite close_works. cbn [obind].
  eexists. split; [reflexivity|done].
Qed.

(** Each operation, at the location it is about and at the others. *)
Ltac elsewhere Hk := apply (accounted_frame _ _ _ _ _ Hk); simpl;
  rewrite ?lookup_insert_ne, ?lookup_delete_ne, ?times_app, ?times_cons, ?decide_False by done; try done; try (unfold times; simpl; lia).

Lemma make_inv st held fd st' l : inv (st, held) -> make st fd = Ret (st', l) -> inv (st', l :: held).
Proof.
  intros Hi Hm k. apply obind_Ret in Hm as (w & Hw & [= <- <-]). pose proof (Hi k) as Hk. simpl in *.
  assert (closed w = false) as Hcw by (unfold FileDescriptor.new in Hw; by destruct (fd <? 0); [|injection Hw as <-]).
  destruct (decide (fresh st = k)) as [<-|Hne].
  - unfold accounted in *. simpl. rewrite lookup_insert_eq, times_cons, decide_True by done. simpl. rewrite Hcw.
    destruct (cells st !! fresh st) as [c|]; [destruct Hk; lia|]. destruct Hk as [Hh Hc]. rewrite Nat.ltb_irrefl in Hc.
    rewrite Hh, Hc. split_and!; lia.
  - elsewhere Hk. intros _. destruct (Nat.ltb_spec k (S (fresh st))), (Nat.ltb_spec k (fresh st)); try done; lia.
Qed.

Lemma duplicate_inv st held l st' l' :
  inv (st, held) -> l ∈ held -> duplicate st l = Ret (st', l') -> inv (st', l' :: held).
Proof.
  intros Hi Hl Hd k. destruct (held_cell _ _ _ Hi Hl) as (c & Hc & Hf & Ho & Hp & Hcl). unfold duplicate in Hd.
  rewrite Hc in Hd. injection Hd as <- <-. pose proof (Hi k) as Hk. simpl in *. destruct (decide (l = k)) as [<-|Hne].
  - unfold accounted. simpl. rewrite lookup_insert_eq, times_cons, decide_True by done. simpl. split_and!; [done|lia|lia|done].
  - elsewhere Hk.
Qed.

Lemma through_inv st held l f st' : inv (st, held) -> l ∈ held -> (forall w, closed (f w) = closed w) ->
  through st l f = Ret st' -> inv (st', held).
Proof.
  intros Hi Hl Hf Ht k. destruct (held_cell _ _ _ Hi Hl) as (c & Hc & ? & Ho & Hp & Hcl). unfold through in Ht.
  rewrite Hc in Ht. injection Ht as <-. pose proof (Hi k) as Hk. simpl in *. destruct (decide (l = k)) as [<-|Hne].
  - unfold accounted. simpl. rewrite lookup_insert_eq. simpl. by rewrite Hf.
  - elsewhere Hk.
Qed.

Lemma close_inv st held l c st' r : inv (st, held) -> l ∈ held -> cells st !! l = Some c -> closed (c_wrapper c) = false ->
  close_handle st l = (st', r) -> inv (st', held).
Proof.
  intros Hi Hl Hc Hop Hcl k. destruct (held_cell _ _ _ Hi Hl) as (c' & Hc' & Hf & Ho & Hp & Hn).
  rewrite Hc in Hc'. injection Hc' as <-. destruct (close_handle_cell st l c Hc) as (w & Hw & Hcw).
  rewrite Hw in Hcl. injection Hcl as <- _. pose proof (Hi k) as Hk. simpl in *. rewrite Hop in Hn.
  destruct (decide (l = k)) as [<-|Hne].
  - unfold accounted. simpl. rewrite lookup_insert_eq, times_app, times_cons, decide_True, Hn by done. simpl. by rewrite Hcw.
  - elsewhere Hk.
Qed.

Lemma release_inv st held l held' : inv (st, held) -> held ≡ₚ l :: held' -> inv (release st l, held').
Proof.
  intros Hi Hp k. assert (l ∈ held) as Hl by (rewrite Hp; set_solver).
  destruct (held_cell _ _ _ Hi Hl) as (c & Hc & Hf & Ho & Hpos & Hn). pose proof (Hi k) as Hk. simpl in *.
  pose proof (times_perm k _ _ Hp) as Hpk. pose proof (times_perm l _ _ Hp) as Hpl. rewrite times_cons in Hpk, Hpl.
  rewrite decide_True in Hpl by done. unfold release. rewrite Hc.
  destruct (c_owners c) as [|[|n]] eqn:En; [lia| |]; destruct (decide (l = k)) as [<-|Hne].
  - unfold accounted. simpl. rewrite lookup_delete_eq. split; [lia|].
    destruct (Nat.ltb_spec l (fresh st)); [|lia].
    destruct (closed (c_wrapper c)); rewrite ?times_app, ?times_cons, ?decide_True, Hn by done; done.
  - elsewhere Hk. destruct (closed (c_wrapper c)); [done|].
    rewrite times_app, times_cons, decide_False by done. unfold times; simpl; lia.
  - unfold accounted. simpl. rewrite lookup_insert_eq. simpl. split_and!; [done|lia|lia|done].
  - elsewhere Hk.
Qed.

Lemma step_inv s s' : step s s' -> inv s -> inv s'.
Proof.
  intros [] Hi; eauto using make_inv, duplicate_inv, through_inv, close_inv, release_inv.
Qed.

Lemma inv_empty : inv (empty_store, []).
Proof. intros l. unfold accounted. simpl. by rewrite lookup_empty. Qed.

Lemma handles_reachable_inv s : rtc step (empty_store, []) s -> inv s.
Proof.
  intros Hr. assert (forall s0, rtc step s0 s -> inv s0 -> inv s) as Hgo by (induction 1; eauto using step_inv).
  exact (Hgo _ Hr inv_empty).
Qed.

(** ** Properties *)

(** C35 Descriptors are closed exactly once, and not too early: if the calls of
    [close] succeed, then in every run of a program that makes, duplicates, uses,
    closes (what it can see is open) and drops handles, a descriptor
    with a handle left has as many owners as handles and was closed at most once,
    by a call through one of them; a descriptor without a handle was closed
    exactly once; and one that was never made was not closed. *)
Theorem closed_exactly_once st held l : rtc step (empty_store, []) (st, held) ->
  (l ∈ held -> exists c, cells st !! l = Some c /\ c_owners c = times l held /\
     times l (closes st) = if closed (c_wrapper c) then 1%nat else 0%nat) /\
  (l ∉ held -> cells st !! l = None /\ times l (closes st) = if (l <? fresh st)%nat then 1%nat else 0%nat).
Proof.
  intros Hi%handles_reachable_inv. split; intros Hl.
  - destruct (held_cell _ _ _ Hi Hl) as (c & Hc & _ & Ho & _ & Hn). eauto.
  - specialize (Hi l). unfold accounted in Hi. simpl in Hi.
    assert (times l held = 0%nat) as Hz by (apply count_occ_not_In; by rewrite <- list_elem_of_In).
    destruct (cells st !! l) as [c|]; [destruct Hi as (_ & ? & ? & _); lia|]. by destruct Hi.
Qed.
End handles.

(** Closing through one handle is seen through all of them. *)
Lemma close_is_shared `{Kernel} st l st' : close_handle st l = (st', Ret tt) ->
  exists c, cells st' !! l = Some c /\ closed (c_wrapper c) = true /\ fd_eof (c_wrapper c) = true.
Proof.
  unfold close_handle. destruct (cells st !! l) as [c|]; [|done]. unfold FileDescriptor.close.
  destruct (checked _); [|done]. cbn [obind]. intros [= <-]. eexists. simpl. by rewrite lookup_insert_eq.
Qed.

(** ** Witness: two handles, one used to close, both dropped; another dropped open *)
Lemma closed_exactly_once_witness :
  let st := mkStore ∅ 2 [0; 1]%nat in
  times 0 (closes st) = 1%nat /\ times 1 (closes st) = 1%nat.
Proof.
  intros st. assert (rtc (@step demo_kernel) (empty_store, []) (st, [])) as Hr.
  { eapply rtc_l; [apply (s_make _ _ 3); reflexivity|]. eapply rtc_l; [apply (s_duplicate _ _ 0); [set_solver|reflexivity]|].
    eapply rtc_l; [eapply (s_close _ _ 0); [set_solver|reflexivity|reflexivity|reflexivity]|].
    eapply rtc_l; [apply (s_release _ _ 0 [0]%nat); reflexivity|].
    eapply rtc_l; [apply (s_release _ _ 0 []); reflexivity|].
    eapply rtc_l; [apply (s_make _ _ 4); reflexivity|]. eapply rtc_l; [apply (s_release _ _ 1 []); reflexivity|].
    apply rtc_refl. }
  split; [exact (proj2 (proj2 (@closed_exactly_once demo_kernel (fun _ => eq_refl) st [] 0 Hr) ltac:(set_solver)))
    |exact (proj2 (proj2 (@closed_exactly_once demo_kernel (fun _ => eq_refl) st [] 1 Hr) ltac:(set_solver)))].
Defined.
