(* ===== verification/Sockets.v ===== *)
(** * Sockets: the system calls behind sockets and devices

    Models the operations of [src/libsponge/util/socket.hh] and [socket.cc] that
    are not reads and writes of data, the TUN device of [tun.cc], and the program
    [src/apps/webget.cc].  The kernel is a parameter, the class [SocketKernel]
    next to [FileDescriptor.Kernel]: what it answers to the [t]-th system call.

    The theorem is about the program: it sends its request whole and prints what
    the server sends, in order, up to the end. *)

From S2P Require Import Prelude Buffer NetAddress FileDescriptor.

Definition AF_UNIX : Z := 1.
Definition SOCK_STREAM : Z := 1.
Definition SOCK_DGRAM : Z := 2.
Definition SOL_SOCKET : Z := 1.
Definition SO_REUSEADDR : Z := 2.
Definition SO_TYPE : Z := 3.
Definition SO_DOMAIN : Z := 39.

Inductive name := Local | Peer.

Class SocketKernel := {
  sys_socket : nat -> Z -> Z -> reply;
  sys_getsockopt : nat -> Z -> reply * Z * Z;
  sys_getname : nat -> name -> reply * bytes * Z;
  sys_bind : nat -> address -> reply;
  sys_connect : nat -> address -> reply;
  sys_listen : nat -> Z -> reply;
  sys_accept : nat -> reply;
  sys_setsockopt : nat -> Z -> Z -> Z -> reply;
  sys_open : nat -> reply;
  sys_ioctl : nat -> Z -> bytes -> reply;
  sys_fcntl : nat -> Z -> Z -> reply;
  sys_socketpair : nat -> Z -> Z -> reply * Z * Z
}.

Section sockets.
Context `{Kernel} `{SocketKernel}.

Definition Socket (t : nat) (domain type : Z) : outcome FDWrapper :=
  try: fd <- checked (sys_socket t domain type);
  FileDescriptor.new fd.

(** One [getsockopt] of an [int]. *)
Definition verify (t : nat) (option expected : Z) : outcome unit :=
  let '(k, actual_value, len) := sys_getsockopt t option in
  try: _ <- checked k;
  if negb (len =? 4) || negb (actual_value =? expected) then Throw runtime_error else Ret tt.

Definition Socket_of_fd (t : nat) (fd : FDWrapper) (domain type : Z) : outcome FDWrapper :=
  try: _ <- verify t SO_DOMAIN domain;
  try: _ <- verify (S t) SO_TYPE type;
  Ret fd.

(** The constructors of the subclasses. *)
Definition UDPSocket (t : nat) : outcome FDWrapper := Socket t AF_INET SOCK_DGRAM.
Definition UDPSocket_of (t : nat) (fd : FDWrapper) : outcome FDWrapper := Socket_of_fd t fd AF_INET SOCK_DGRAM.
Definition TCPSocket (t : nat) : outcome FDWrapper := Socket t AF_INET SOCK_STREAM.
Definition TCPSocket_of (t : nat) (fd : FDWrapper) : outcome FDWrapper := Socket_of_fd t fd AF_INET SOCK_STREAM.
Definition LocalStreamSocket (t : nat) (fd : FDWrapper) : outcome FDWrapper := Socket_of_fd t fd AF_UNIX SOCK_STREAM.

Definition get_address (t : nat) (which : name) : outcome address :=
  let '(k, addr, size) := sys_getname t which in
  try: _ <- checked k;
  of_sockaddr addr size.
Definition local_address (t : nat) : outcome address := get_address t Local.
Definition peer_address (t : nat) : outcome address := get_address t Peer.

Definition bind (t : nat) (a : address) : outcome unit := try: _ <- checked (sys_bind t a); Ret tt.
Definition connect (t : nat) (a : address) : outcome unit := try: _ <- checked (sys_connect t a); Ret tt.
Definition listen (t : nat) (backlog : Z) : outcome unit := try: _ <- checked (sys_listen t backlog); Ret tt.

(** The service is counted before the call; the result is checked like any
    descriptor that becomes a socket. *)
Definition accept (t : nat) (w : FDWrapper) : outcome (FDWrapper * FDWrapper) :=
  let w := register_read w in
  try: fd <- checked (sys_accept t);
  try: s <- FileDescriptor.new fd;
  try: s <- TCPSocket_of (S t) s;
  Ret (w, s).

Definition setsockopt (t : nat) (level option option_value : Z) : outcome unit :=
  try: _ <- checked (sys_setsockopt t level option option_value); Ret tt.
Definition set_reuseaddr (t : nat) : outcome unit := setsockopt t SOL_SOCKET SO_REUSEADDR 1.

(** [FileDescriptor::set_blocking] *)
Definition F_GETFL : Z := 3.
Definition F_SETFL : Z := 4.
Definition set_blocking (t : nat) (blocking_state : bool) : outcome unit :=
  try: flags <- checked (sys_fcntl t F_GETFL 0);
  try: _ <- checked (sys_fcntl (S t) F_SETFL (blocking_flags flags blocking_state));
  Ret tt.

(** [socket_pair_helper] of [tcp_sponge_socket.cc] *)
Definition socket_pair_helper (t : nat) (type : Z) : outcome (FDWrapper * FDWrapper) :=
  let '(k, fd0, fd1) := sys_socketpair t AF_UNIX type in
  try: _ <- checked k;
  try: first <- FileDescriptor.new fd0;
  try: second <- FileDescriptor.new fd1;
  Ret (first, second).

(** *** [TunTapFD] *)

Definition IFF_TUN : Z := 1.
Definition IFF_TAP : Z := 2.
Definition IFF_NO_PI : Z := 0x1000.
Definition IFNAMSIZ : Z := 16.

(** [ifr_flags] and [ifr_name] of the request; names hold no null character. *)
Definition tun_req (devname : bytes) (is_tun : bool) : Z * bytes :=
  (Z.lor (if is_tun then IFF_TUN else IFF_TAP) IFF_NO_PI,
   resize (ztake (IFNAMSIZ - 1) devname) IFNAMSIZ).

Definition TunTapFD (t : nat) (devname : bytes) (is_tun : bool) : outcome FDWrapper :=
  try: fd <- checked (sys_open t);
  try: w <- FileDescriptor.new fd;
  let '(ifr_flags, ifr_name) := tun_req devname is_tun in
  try: _ <- checked (sys_ioctl (S t) ifr_flags ifr_name);
  Ret w.

(** *** [get_URL] *)

Context `{Resolver}.

(** "GET ", " HTTP/1.1\r\nHOST: ", "\r\n\r\n" and "http" *)
Definition GET : bytes := [71; 69; 84; 32].
Definition HTTP : bytes := [32; 72; 84; 84; 80; 47; 49; 46; 49; 13; 10; 72; 79; 83; 84; 58; 32].
Definition END : bytes := [13; 10; 13; 10].
Definition http : bytes := [104; 116; 116; 112].

Definition request (host path : bytes) : bytes := GET ++ path ++ HTTP ++ host ++ END.

(** The [while] loop; [None] when the fuel runs out. *)
Fixpoint print_all (fuel t : nat) (sock : FDWrapper) (out : bytes) : option (outcome (nat * FDWrapper * bytes)) :=
  match fuel with
  | O => None
  | S fuel =>
      if fd_eof sock then Some (Ret (t, sock, out))
      else
        match FileDescriptor.read t sock 18446744073709551615 with
        | Throw e => Some (Throw e)
        | Ret (sock, recvd) => print_all fuel (S t) sock (out ++ recvd)
        end
  end.

(** What was sent and what was printed. *)
Record fetched := mkFetched { f_sock : FDWrapper; f_sent : bytes; f_printed : bytes }.

Definition get_URL (fuel t : nat) (host path : bytes) : option (outcome fetched) :=
  let start :=
    try: sock <- Socket t AF_INET SOCK_STREAM;
    try: a <- of_host host http;
    try: _ <- connect (S t) a;
    try: r <- FileDescriptor.write (S (S t)) sock (BufferViewList_of (request host path)) true;
    try: sock <- FileDescriptor.shutdown (wr_time r) (wr_fd r) SHUT_WR;
    Ret (S (wr_time r), sock, taken r) in
  match start with
  | Throw e => Some (Throw e)
  | Ret (t, sock, sent) =>
      match print_all fuel t sock [] with
      | None => None
      | Some (Throw e) => Some (Throw e)
      | Some (Ret (t, sock, out)) => Some (try: sock <- FileDescriptor.close t sock; Ret (mkFetched sock sent out))
      end
  end.

(** [main]. *)
Definition webget_main (fuel t : nat) (argv : list bytes) : finish :=
  match argv with
  | [] => Terminated
  | [_; host; path] =>
      match get_URL fuel t host path with
      | None => Running
      | Some (Throw _) => Exited EXIT_FAILURE
      | Some (Ret _) => Exited EXIT_SUCCESS
      end
  | _ => Exited EXIT_FAILURE
  end.
End sockets.

(** ** Properties *)

Section webget.
Context `{Kernel} `{SocketKernel} `{Resolver}.

(** From the [t]-th call on, the server's bytes arrive in these pieces, and then
    the connection ends. *)
Fixpoint serves (t : nat) (pieces : list bytes) : Prop :=
  match pieces with
  | [] => r_ret (sys_read t BUFFER_SIZE) = 0
  | p :: pieces =>
      sys_read t BUFFER_SIZE = mkReply (zlen p) 0 p /\ 0 < zlen p <= BUFFER_SIZE /\ serves (S t) pieces
  end.

Lemma resize_0 s : resize s 0 = [].
Proof. unfold resize. rewrite ztake_0. pose proof (zlen_nonneg s). by replace (Z.to_nat (0 - zlen s)) with 0%nat by lia. Qed.

Lemma read_piece t w k n :
  sys_read t BUFFER_SIZE = k -> r_ret k = n -> 0 <= n <= BUFFER_SIZE ->
  FileDescriptor.read t w 18446744073709551615 =
    Ret (register_read (if n =? 0 then set_eof w else w), resize (ztake BUFFER_SIZE (r_data k)) n).
Proof.
  intros Hk Hn Hb. unfold FileDescriptor.read. change (Z.min BUFFER_SIZE 18446744073709551615) with BUFFER_SIZE.
  rewrite Hk. assert (checked k = Ret n) as ->.
  { unfold checked, SystemCall. rewrite Hn. unfold BUFFER_SIZE in Hb.
    assert (i32 n = n) as -> by (unfold i32; rewrite Z.mod_small; lia). by destruct (Z.leb_spec 0 n); [|lia]. }
  cbn [obind]. destruct (Z.ltb_spec BUFFER_SIZE n); [lia|]. destruct (Z.ltb_spec n 0); [lia|].
  by destruct (n =? 0).
Qed.

Lemma print_all_spec pieces : forall fuel t w out,
  serves t pieces -> fd_eof w = false -> (S (length pieces) < fuel)%nat ->
  exists w', print_all fuel t w out = Some (Ret ((S (length pieces) + t)%nat, w', out ++ concat pieces)).
Proof.
  induction pieces as [|p pieces IH]; intros fuel t w out Hs Hw Hf; destruct fuel as [|fuel]; try (simpl in Hf; lia);
    cbn [print_all]; rewrite Hw.
  - simpl in Hs. rewrite (read_piece t w _ 0 eq_refl Hs) by (unfold BUFFER_SIZE; lia).
    destruct fuel; [simpl in Hf; lia|]. cbn [print_all]. change (fd_eof (register_read (if 0 =? 0 then set_eof w else w))) with true.
    eexists. simpl. by rewrite resize_0.
  - destruct Hs as (Hk & Hp & Hs). rewrite (read_piece t w _ (zlen p) Hk eq_refl) by lia.
    destruct (Z.eqb_spec (zlen p) 0); [lia|]. cbn [r_data].
    rewrite (ztake_all BUFFER_SIZE p), (resize_grow p (zlen p) (zlen p)), Z.sub_diag, app_nil_r by lia.
    destruct (IH fuel (S t) (register_read w) (out ++ p) Hs Hw) as (w' & ->); [simpl in Hf; lia|].
    exists w'. simpl. by rewrite app_assoc, Nat.add_succ_r.
Qed.

(** C34 [webget] fetches faithfully: when its system calls up to the half-close
    succeed, the request goes out whole, once and in order; and when the server
    then answers in any number of pieces and ends, the loop ends, and the
    program has printed exactly those pieces, in order, closed its socket (when
    [close] succeeds) and exited with success. *)
Theorem webget_faithful fuel t host path sock a r sock' pieces :
  zlen host + zlen path < 1000000000 ->
  Socket t AF_INET SOCK_STREAM = Ret sock -> of_host host http = Ret a -> connect (S t) a = Ret tt ->
  FileDescriptor.write (S (S t)) sock (BufferViewList_of (request host path)) true = Ret r ->
  FileDescriptor.shutdown (wr_time r) (wr_fd r) SHUT_WR = Ret sock' ->
  serves (S (wr_time r)) pieces -> (forall t, checked (sys_close t) = Ret 0) -> (S (length pieces) < fuel)%nat ->
  exists f, get_URL fuel t host path = Some (Ret f) /\
    f_sent f = request host path /\ f_printed f = concat pieces /\ closed (f_sock f) = true /\
    forall name, webget_main fuel t [name; host; path] = Exited EXIT_SUCCESS.
Proof.
  intros Hlen Hsock Ha Hc Hw Hsh Hs Hcl Hf. unfold webget_main, get_URL. rewrite Hsock, Ha. cbn [obind]. rewrite Hc. cbn [obind].
  rewrite Hw. cbn [obind]. rewrite Hsh. cbn [obind].
  assert (contents (BufferViewList_of (request host path)) = request host path) as Hcon
    by (unfold contents; simpl; by rewrite app_nil_r).
  destruct (write_enough (S (S t)) sock (BufferViewList_of (request host path)) true) as (o & _ & Ho & Hspec).
  { rewrite Hcon. unfold request. rewrite !zlen_app. change (zlen GET) with 4. change (zlen HTTP) with 17.
    change (zlen END) with 4. lia. }
  rewrite Hw in Ho. subst o. destruct Hspec as [n [Hr _ Hall Ht _ _ [_ [He _]] _]]. rewrite Hcon in *.
  assert (fd_eof sock' = false) as Heof.
  { unfold FileDescriptor.shutdown in Hsh. destruct (checked _); [|done]. injection Hsh as <-.
    unfold fd_eof, register_write. cbn [_eof]. rewrite He. unfold Socket in Hsock.
    destruct (checked _) as [fd|]; [|done]. cbn [obind] in Hsock. unfold FileDescriptor.new in Hsock.
    by destruct (fd <? 0); [|injection Hsock as <-]. }
  destruct (print_all_spec pieces fuel _ sock' [] Hs Heof Hf) as (w' & ->).
  unfold FileDescriptor.close. rewrite Hcl. cbn [obind]. eexists. split; [done|]. cbn [f_sent f_printed f_sock].
  split_and!; [|done|done|done]. rewrite Ht, app_nil_l. apply ztake_all. specialize (Hall eq_refl). lia.
Qed.
End webget.

(** Witness: a server that answers in two pieces. *)

Definition demo_sockets : SocketKernel := {|
  sys_socket _ _ _ := mkReply 3 0 [];
  sys_getsockopt _ _ := (mkReply 0 0 [], 0, 4);
  sys_getname _ _ := (mkReply 0 0 [], sockaddr_in 0 0, 16);
  sys_bind _ _ := mkReply 0 0 [];
  sys_connect _ _ := mkReply 0 0 [];
  sys_listen _ _ := mkReply 0 0 [];
  sys_accept _ := mkReply 4 0 [];
  sys_setsockopt _ _ _ _ := mkReply 0 0 [];
  sys_open _ := mkReply 5 0 [];
  sys_ioctl _ _ _ := mkReply 0 0 [];
  sys_fcntl _ _ _ := mkReply 0 0 [];
  sys_socketpair _ _ _ := (mkReply 0 0 [], 6, 7)
|}.
Definition demo_web : Kernel := {|
  sys_read t n := match t with
    | 4%nat => mkReply 2 0 [79; 75] | 5%nat => mkReply 1 0 [33] | _ => mkReply 0 0 [] end;
  sys_writev t iov := mkReply (zlen (iov_bytes iov)) 0 [];
  sys_shutdown t how := mkReply 0 0 [];
  sys_close t := mkReply 0 0 []
|}.

Lemma webget_faithful_witness :
  exists f, @get_URL demo_web demo_sockets numeric_resolver 10 0 [48] [47] = Some (Ret f) /\
    f_printed f = [79; 75; 33] /\ f_sent f = request [48] [47].
Proof.
  destruct (@webget_faithful demo_web demo_sockets numeric_resolver 10 0 [48] [47] (mkFD 3 false false 0 0) (v4 0 0)
    (mkWritten (mkFD 3 false false 0 1) 3 (zlen (request [48] [47])) (request [48] [47]))
    (mkFD 3 false false 0 2) [[79; 75]; [33]]) as (f & Hf & Hs & Hp & _); try reflexivity.
  - simpl. split; [reflexivity|]. split; [vm_compute; split; [reflexivity|congruence]|].
    split; [reflexivity|]. split; [vm_compute; split; [reflexivity|congruence]|]. reflexivity.
  - simpl. lia.
  - exists f. split; [exact Hf|]. split; [exact Hp|exact Hs].
Defined.
