(* ===== verification/Monitors.v ===== *)
(** * Monitors: the programs that watch packets

    Models [main] of [src/apps/tun.cc] and of [src/apps/udp_tcpdump.cc], with what
    they print on the standard output.  The capture library is a parameter, the
    class [Pcap]; what the standard error stream shows is left out.  A program's
    loop runs for a number of rounds, [None] when they are used up; the result is
    the exit code and the stream.  An exception that [main] does not catch is
    [Throw].

    The theorems: both programs print every packet they get, in order, and no
    packet stops them; what they print of a packet that an adapter sent is the
    text of its headers and a dump of its bytes.  When a capture ends with an
    error, [udp_tcpdump] uses its handle after closing it. *)

From Stdlib Require Import String.
From S2P Require Import Prelude WrappingIntegers Buffer Parser TCPHeader TCPSegment IPv4Header IPv4Datagram TCPConfig FdAdapter.
From S2P Require Import NetAddress Text HeaderText TcpDump FileDescriptor Sockets.
Local Open Scope Z_scope.

(** ** [tun.cc] *)
Module Tun.
Section tun.
Context `{Kernel} `{SocketKernel}.
(** [e.what()] *)
Context (what : exn -> bytes).

(** The body of the loop, after the packet was read. *)
Definition show_packet (cout : ostream) (buffer : bytes) : outcome ostream :=
  let cout := outs cout [Str ([10; 10] ++ text "***" ++ [10] ++ text "*** Got packet:" ++ [10] ++ text "***" ++ [10])] in
  let cout := hexdump cout buffer 0 in
  let cout := outs cout [Str (text "attempting to parse as ipv4 datagram... ")] in
  try: (ip_dgram, res) <- IPv4Datagram.parse IPv4Datagram.new (Buffer_of buffer);
  if negb (bool_decide (res = NoError)) then Ret (outs cout [Str (text "failed." ++ [10])])
  else
    let h := IPv4Datagram._header ip_dgram in
    let cout := outs cout [Str (text "success! totlen="); Int (len h); Str (text ", IPv4 header contents:" ++ [10])] in
    let cout := outs cout [Str (IPv4Text.to_string h)] in
    if negb (proto h =? PROTO_TCP) then Ret (outs cout [Str ([10] ++ text "Not TCP, skipping." ++ [10])])
    else
      let cout := outs cout [Str ([10] ++ text "Attempting to parse as a TCP segment... ")] in
      try: payload <- to_Buffer (IPv4Datagram._payload ip_dgram);
      try: (tcp_seg, res) <- TCPSegment.parse TCPSegment.new payload (pseudo_cksum h);
      if negb (bool_decide (res = NoError)) then Ret (outs cout [Str (text "failed." ++ [10])])
      else
        let cout := outs cout [Str (text "success! payload len="); Int (Buffer_size (TCPSegment._payload tcp_seg));
                               Str (text ", TCP header contents:" ++ [10])] in
        Ret (outs cout [Str (TCPText.to_string (TCPSegment._header tcp_seg)); Chr 10]).

Definition caught (cout : ostream) (e : exn) : Z * ostream :=
  (EXIT_FAILURE, outs cout [Str (text "Exception: "); Str (what e); Chr 10]).

(** [while (true)]: only an exception ends it. *)
Fixpoint packets (rounds t : nat) (tun : FDWrapper) (cout : ostream) : option (Z * ostream) :=
  match rounds with
  | O => None
  | S rounds =>
      match FileDescriptor.read t tun 18446744073709551615 with
      | Throw e => Some (caught cout e)
      | Ret (tun, buffer) =>
          match show_packet cout buffer with
          | Throw e => Some (caught cout e)
          | Ret cout => packets rounds (S t) tun cout
          end
      end
  end.

Definition main (rounds : nat) : option (Z * ostream) :=
  match TunTapFD 0 (text "tun144") true with
  | Throw e => Some (caught ostream_new e)
  | Ret tun => packets rounds 2 tun ostream_new
  end.
End tun.
End Tun.

(** ** [udp_tcpdump.cc] *)

(** The answers of the capture library: an error text or the link type of the
    handle; descriptions; results of compiling and setting a filter; error texts;
    and the [t]-th [pcap_next_ex] with the bytes captured. *)
Class Pcap := {
  pcap_open_live : option string -> bytes + Z;
  pcap_description : Z -> bytes;
  pcap_compile : bytes -> Z;
  pcap_setfilter : Z;
  pcap_error : bytes;
  pcap_next_ex : nat -> Z * bytes
}.

(** What the variable [p_hdl] points to: a handle in use, or one that
    [pcap_close] has freed. *)
Inductive pcap_t := Capturing | Freed.

Definition pcap_close (p_hdl : pcap_t) : pcap_t := Freed.

(** The error text lives in the handle; what the library does with a handle that
    was freed is not defined. *)
Definition pcap_geterr `{Pcap} (p_hdl : pcap_t) : outcome bytes :=
  match p_hdl with Capturing => Ret pcap_error | Freed => Throw use_after_free end.

Module Tcpdump.

(** The values of the link types that are handled. *)
Definition datalink_of (dlt : Z) : option datalink :=
  if dlt =? 12 then Some DLT_RAW
  else if dlt =? 0 then Some DLT_NULL
  else if dlt =? 1 then Some DLT_EN10MB
  else if dlt =? 113 then Some DLT_LINUX_SLL
  else if dlt =? 276 then Some DLT_LINUX_SLL2
  else None.

Section tcpdump.
Context `{Ntop} `{Pcap}.

(** The arguments that are left, each with a blank after it. *)
Definition filter_expression (args : list string) : bytes :=
  out (fold_left (fun f_stream arg => outs f_stream [Str (text arg); Chr 32]) args ostream_new).

(** The main loop and the value of [next_ret] that ended it. *)
Fixpoint capture (rounds t : nat) (dl_type : datalink) (cout : ostream) : option (outcome (Z * ostream)) :=
  match rounds with
  | O => None
  | S rounds =>
      let '(next_ret, pkt_data) := pcap_next_ex t in
      if next_ret <? 0 then Some (Ret (next_ret, cout))
      else if next_ret =? 0 then capture rounds (S t) dl_type cout
      else
        match print_packet dl_type pkt_data cout with
        | None => None
        | Some (Throw e) => Some (Throw e)
        | Some (Ret cout) => capture rounds (S t) dl_type cout
        end
  end.

(** The usage text, after which the program exits. *)
Definition show_usage (arg0 : bytes) (errmsg : option bytes) : ostream :=
  let cout := outs ostream_new
    [Str (text "Usage: "); Str arg0; Str (text " [-i <intf>] [-F <file>] [-h|--help] <expression>" ++ [10; 10]);
     Str (text "  -i <intf>    only capture packets from <intf> (default: all)" ++ [10; 10]);
     Str (text "  -F <file>    reads in a filter expression from <file>" ++ [10]);
     Str (text "               <expression> is ignored if -F is supplied." ++ [10; 10]);
     Str (text "  -h, --help   show this message" ++ [10; 10]);
     Str (text "  <expression> a filter expression in pcap-filter(7) syntax" ++ [10])] in
  let cout := match errmsg with Some e => outs cout [Chr 10; Str e] | None => cout end in
  outs cout [Chr 10].

(** After the options; [argv] holds the arguments after the program's name. *)
Definition run (argv : list string) (exp_start : Z) (dev : option string) (rounds : nat) : option (outcome (Z * ostream)) :=
  let cout := match dev with
    | Some dev => outs ostream_new [Str (text "Capturing on interface "); Str (text dev)]
    | None => outs ostream_new [Str (text "Capturing on all interfaces")] end in
  match pcap_open_live dev with
  | inl errbuf => Some (Ret (1, outs cout [Str ([10] ++ text "Error initiating capture: "); Str errbuf; Chr 10]))
  | inr dlt =>
      match datalink_of dlt with
      | None => Some (Ret (1, outs cout [Str ([10] ++ text "Error: unsupported datalink type "); Str (pcap_description dlt); Chr 10]))
      | Some dl_type =>
          let cout := outs cout [Str (text " (type: "); Str (pcap_description dlt); Str (text ")" ++ [10])] in
          let filter := filter_expression (drop (Z.to_nat (exp_start - 1)) argv) in
          let cout := outs cout [Str (text "Using filter expression: "); Str filter; Str [10]] in
          let p_hdl := Capturing in
          if negb (pcap_compile filter =? 0) then Some (
            try: e <- pcap_geterr p_hdl;
            Ret (EXIT_FAILURE, outs cout [Str (text "Error compiling filter expression: "); Str e; Chr 10]))
          else if negb (pcap_setfilter =? 0) then Some (
            try: e <- pcap_geterr p_hdl;
            Ret (EXIT_FAILURE, outs cout [Str (text "Error configuring packet filter: "); Str e; Chr 10]))
          else
            let cout := outs cout [Setfill 48] in
            match capture rounds 0 dl_type cout with
            | Some (Ret (next_ret, cout)) => Some (
                let p_hdl := pcap_close p_hdl in
                if next_ret =? -1 then
                  try: e <- pcap_geterr p_hdl;
                  Ret (EXIT_FAILURE, outs cout [Str (text "Error listening for packet: "); Str e; Chr 10])
                else Ret (EXIT_SUCCESS, cout))
            | r => r
            end
      end
  end.

(** The exits of the command line: a missing argument, and help. *)
Definition main (arg0 : bytes) (argv : list string) (rounds : nat) : option (outcome (Z * ostream)) :=
  match parse_arguments argv 1 None with
  | Exit code =>
      Some (Ret (code, show_usage arg0 (if code =? 0 then None else Some (text "ERROR: -i requires an argument"))))
  | Parsed exp_start dev => run argv exp_start dev rounds
  end.
End tcpdump.
End Tcpdump.

(** ** Lemmas: what is printed of one packet *)

(** The stream of [udp_tcpdump] during its loop. *)
Definition quiet (o : bytes) : ostream := mkOstream o false false 0 48.

Section lines.
Context `{Ntop}.

Lemma quiet_prefixed o : quiet o = prefixed o (quiet []).
Proof. unfold quiet, prefixed. simpl. by rewrite app_nil_r. Qed.

Lemma show_report_prefixed p s r : show_report (prefixed p s) r = prefixed p (show_report s r).
Proof. destruct r; cbn [show_report]; try done; [by rewrite outs_prefixed|]. destruct upto; by rewrite !outs_prefixed. Qed.

Definition report_text (r : report) : bytes := out (show_report (quiet []) r).

Lemma show_report_quiet o r : show_report (quiet o) r = quiet (o ++ report_text r).
Proof.
  rewrite quiet_prefixed, show_report_prefixed. unfold prefixed, report_text, quiet.
  destruct r; try done. cbn [show_report]. by destruct upto.
Qed.

(** The specification of what is printed of a packet ([print_packet_quiet] shows
    that [print_packet] prints it): the text of its report, and the reference dump
    of its payload. *)
Definition packet_text (dl : datalink) (data : bytes) : bytes :=
  match locate dl data with
  | Some (Ret (inr (loc, n, payload))) =>
      match report_of loc n payload with Ret r => report_text r ++ dump 8 payload | Throw _ => [] end
  | _ => []
  end.

Lemma print_packet_quiet dl data o :
  wf_bytes data -> zlen data < 2147483648 -> whole dl data ->
  print_packet dl data (quiet o) = Some (Ret (quiet (o ++ packet_text dl data))).
Proof.
  intros Hw Hl Hwhole. unfold print_packet, packet_text.
  destruct (locate_safe dl data Hw Hl Hwhole) as ([r|[[loc n] pl]] & -> & Hr); cbn [obind]; [by rewrite app_nil_r|].
  destruct Hr as [Hwp Hlp]. destruct (report_total loc n pl Hwp ltac:(lia)) as [r ->]. cbn [obind].
  rewrite show_report_quiet, hexdump_dump by done. unfold quiet. simpl. by rewrite app_assoc.
Qed.

(** Four digits of a checksum. *)
Definition cksum_text (c : Z) : bytes := replicate (Z.to_nat (4 - zlen (number true c))) 48 ++ number true c.

(** The line of a segment the UDP adapter sent. *)
Lemma segment_line a seg src dst n :
  report_text (shown_segment a seg src dst n) =
    let h := TCPSegment._header seg in
    let seqlen := length_in_sequence_space seg in
    address_text src ++ [58] ++ number false (port (source (config a))) ++ text " > " ++
    address_text dst ++ [58] ++ number false (port (destination (config a))) ++
    ([10] ++ text "    Flags [") ++ text (flag_text h) ++ text "] cksum 0x" ++ cksum_text (segment_cksum (set_ports a seg) 0) ++
    text " (correct)" ++ text " seq " ++ number false (raw_value (seqno h)) ++
    (if 0 <? seqlen then [58] ++ number false (raw_value (WrappingIntegers.add (seqno h) seqlen)) else []) ++
    text " ack " ++ number false (raw_value (ackno h)) ++ text " win " ++ number false (win h) ++
    text " length " ++ number false n ++ [10].
Proof.
  unfold report_text, shown_segment, quiet. cbv zeta. cbn [show_report].
  set (front := [Str (address_text src); Chr 58; Int (port (source (config a))); Str (text " > "); Str (address_text dst);
    Chr 58; Int (port (destination (config a))); Str ([10] ++ text "    Flags ["); Str (text (flag_text (TCPSegment._header seg)));
    Str (text "] cksum 0x")]).
  set (back := [Str (text " (correct)"); Str (text " seq "); Int (raw_value (seqno (TCPSegment._header seg)))]).
  set (c := segment_cksum (set_ports a seg) 0).
  change (outs (mkOstream [] false false 0 48) _) with
    (outs (outs (outs (mkOstream [] false false 0 48) front) [Hex; Setw 4; Int c; Dec]) back).
  rewrite outs_inert by done.
  assert (forall o, outs (mkOstream o false false 0 48) [Hex; Setw 4; Int c; Dec] =
    mkOstream (o ++ cksum_text c) false false 0 48) as -> by done.
  rewrite outs_inert by done. destruct (0 <? _); rewrite !outs_inert by done; cbn [out];
    unfold rendered, front, back; generalize number, truth; intros num tr; cbn [rendered_by app];
    repeat (progress (cbn [app]; rewrite ?app_nil_r, <- ?app_assoc)); done.
Qed.
End lines.

(** What [tun] prints of a packet: a banner, the dump, and what it makes of it. *)
Definition got_packet : bytes :=
  [10; 10] ++ text "***" ++ [10] ++ text "*** Got packet:" ++ [10] ++ text "***" ++ [10].
Definition failed : bytes := text "failed." ++ [10].

Definition segment_text (r : TCPSegment * ParseResult) : bytes :=
  let '(seg, res) := r in
  if negb (bool_decide (res = NoError)) then failed
  else
    text "success! payload len=" ++ number false (Buffer_size (TCPSegment._payload seg)) ++
    (text ", TCP header contents:" ++ [10]) ++ TCPText.to_string (TCPSegment._header seg) ++ [10].

Definition datagram_text (r : IPv4Datagram * ParseResult) : bytes :=
  let '(dg, res) := r in
  let h := IPv4Datagram._header dg in
  if negb (bool_decide (res = NoError)) then failed
  else
    text "success! totlen=" ++ number false (len h) ++ (text ", IPv4 header contents:" ++ [10]) ++ IPv4Text.to_string h ++
    if negb (proto h =? PROTO_TCP) then [10] ++ text "Not TCP, skipping." ++ [10]
    else
      ([10] ++ text "Attempting to parse as a TCP segment... ") ++
      match to_Buffer (IPv4Datagram._payload dg) with
      | Ret payload =>
          match TCPSegment.parse TCPSegment.new payload (pseudo_cksum h) with Ret r => segment_text r | Throw _ => [] end
      | Throw _ => []
      end.

Definition tun_text (buffer : bytes) : bytes :=
  got_packet ++ dump 0 buffer ++ text "attempting to parse as ipv4 datagram... " ++
  match IPv4Datagram.parse IPv4Datagram.new (Buffer_of buffer) with Ret r => datagram_text r | Throw _ => [] end.

Ltac join_text :=
  unfold rendered; generalize number, truth; intros ? ?; cbn [rendered_by];
  repeat (progress (cbn [app]; rewrite ?app_nil_r, <- ?app_assoc)); done.

Lemma show_packet_text o ba f buffer :
  wf_bytes buffer -> zlen buffer < 2147483648 ->
  Tun.show_packet (mkOstream o false ba 0 f) buffer = Ret (mkOstream (o ++ tun_text buffer) false ba 0 48).
Proof.
  intros Hw Hl. unfold Tun.show_packet, tun_text. fold got_packet failed. rewrite outs_inert, hexdump_dump by done.
  cbn [out hex boolalpha width fill]. pose proof (zlen_nonneg buffer).
  destruct (datagram_parse_total IPv4Datagram.new buffer Hw) as (h & b & res & -> & Hb & Hwb); [words; lia|].
  cbn [obind datagram_text IPv4Datagram._header IPv4Datagram._payload].
  change (to_Buffer (BufferList_of_Buffer b)) with (Ret b). cbn [obind].
  destruct (segment_parse_total TCPSegment.new b (pseudo_cksum h) Hb Hwb) as (seg & res' & ->). cbn [obind segment_text].
  destruct (bool_decide (res = NoError)); cbn [negb]; [|rewrite !outs_inert by done; do 2 f_equal; join_text].
  destruct (proto h =? PROTO_TCP); cbn [negb]; [|rewrite !outs_inert by done; do 2 f_equal; join_text].
  destruct (bool_decide (res' = NoError)); cbn [negb]; rewrite !outs_inert by done; do 2 f_equal; join_text.
Qed.

(** ** Properties *)

Section tun_program.
Context `{Kernel} `{SocketKernel}.

(** The [i]-th of the packets is what the device gives at the [i]-th read. *)
Definition device_gives (t : nat) (ps : list bytes) : Prop :=
  forall i p, ps !! i = Some p -> wf_bytes p /\ zlen p < 2147483648 /\
    forall w, exists w', FileDescriptor.read (t + i) w 18446744073709551615 = Ret (w', p).

Lemma device_gives_cons t p ps : device_gives t (p :: ps) ->
  (wf_bytes p /\ zlen p < 2147483648 /\ forall w, exists w', FileDescriptor.read t w 18446744073709551615 = Ret (w', p)) /\
  device_gives (S t) ps.
Proof.
  intros Hd. split; [destruct (Hd 0%nat p) as (? & ? & Hr); [done|]; by rewrite Nat.add_0_r in Hr|].
  intros i q Hq. destruct (Hd (S i) q) as (? & ? & Hr); [done|]. by rewrite Nat.add_succ_r in Hr.
Qed.

Lemma packets_text what ps e : forall t w o f, device_gives t ps ->
  (forall w, FileDescriptor.read (t + length ps) w 18446744073709551615 = Throw e) ->
  exists os, Tun.packets what (S (length ps)) t w (mkOstream o false false 0 f) = Some (EXIT_FAILURE, os) /\
    out os = o ++ concat (map tun_text ps) ++ text "Exception: " ++ what e ++ [10].
Proof.
  induction ps as [|p ps IH]; intros t w o f Hd He.
  - cbn [length] in *. rewrite Nat.add_0_r in He. cbn [Tun.packets]. rewrite He. eexists. split; [done|].
    unfold Tun.caught, snd. rewrite outs_rendered by done. join_text.
  - apply device_gives_cons in Hd as [(Hw & Hl & Hr) Hd]. destruct (Hr w) as [w' Er]. cbn [length] in *.
    remember (S (length ps)) as n eqn:En. cbn [Tun.packets]. rewrite Er, show_packet_text by done. subst n.
    destruct (IH (S t) w' (o ++ tun_text p) 48 Hd) as (os & -> & Ho).
    { intros w''. rewrite Nat.add_succ_comm. apply He. }
    exists os. split; [done|]. rewrite Ho. cbn [map concat]. by rewrite <- !app_assoc.
Qed.

(** [tun] prints every packet: whatever the packets are, the program shows each
    of them, in order, by the text of the packet, and no packet stops it; it ends
    when a read fails, with the error and the code of failure. *)
Theorem tun_prints_packets what ps e w :
  TunTapFD 0 (text "tun144") true = Ret w -> device_gives 2 ps ->
  (forall w, FileDescriptor.read (2 + length ps) w 18446744073709551615 = Throw e) ->
  exists os, Tun.main what (S (length ps)) = Some (EXIT_FAILURE, os) /\
    out os = concat (map tun_text ps) ++ text "Exception: " ++ what e ++ [10].
Proof.
  intros Ht Hd He. unfold Tun.main. rewrite Ht. by apply (packets_text what ps e 2 w [] 32).
Qed.
End tun_program.

(** A datagram with a segment. *)
Lemma datagram_text_tcp h b seg :
  TCPSegment.parse TCPSegment.new b (pseudo_cksum h) = Ret (seg, NoError) -> proto h = PROTO_TCP ->
  datagram_text (mkIPv4Datagram h (BufferList_of_Buffer b), NoError) =
    text "success! totlen=" ++ number false (len h) ++ (text ", IPv4 header contents:" ++ [10]) ++
    IPv4Text.to_string h ++ ([10] ++ text "Attempting to parse as a TCP segment... ") ++
    text "success! payload len=" ++ number false (zlen (payload seg)) ++ (text ", TCP header contents:" ++ [10]) ++
    TCPText.to_string (TCPSegment._header seg) ++ [10].
Proof.
  intros Es Hp. unfold datagram_text, segment_text. cbn [IPv4Datagram._header IPv4Datagram._payload].
  assert (to_Buffer (BufferList_of_Buffer b) = Ret b) as -> by done.
  rewrite Es, Hp, !bool_decide_eq_true_2, Z.eqb_refl by done. by cbn [negb].
Qed.

(** What [tun] shows of a packet that the IPv4 adapter sent: the text of both
    headers, as they are on the wire. *)
Theorem tun_shows_segment a seg :
  TCPSegment.wf seg -> tun_fits a seg ->
  let iph := ip_header a (set_ports a seg) in
  exists seg' l ip_cksum tcp_cksum, tun_write a seg = Ret (seg', l) /\
    tun_text (concatenate l) = got_packet ++ dump 0 (concatenate l) ++ text "attempting to parse as ipv4 datagram... " ++
      text "success! totlen=" ++ number false (20 + segment_size seg) ++ (text ", IPv4 header contents:" ++ [10]) ++
      IPv4Text.to_string (IPv4Datagram.set_cksum iph ip_cksum) ++
      ([10] ++ text "Attempting to parse as a TCP segment... ") ++
      text "success! payload len=" ++ number false (zlen (payload seg)) ++ (text ", TCP header contents:" ++ [10]) ++
      TCPText.to_string (TCPSegment.set_cksum (TCPSegment._header (set_ports a seg)) tcp_cksum) ++ [10].
Proof.
  intros Hw Hfit iph. pose proof (TCPHeader.wf_doff _ (TCPSegment.wf_header _ Hw)) as Hdo.
  destruct (TCPSegment.serialize_wire (set_ports a seg) (pseudo_cksum iph)) as (l & El & Hl); [simpl; lia|].
  pose proof (ip_datagram_wf a seg Hw Hfit l Hl) as Hdw. fold iph in Hdw. set (dg := mkIPv4Datagram iph l) in *.
  destruct (IPv4Datagram.datagram_serialize_wire dg Hdw) as (l' & El' & Hl').
  destruct (IPv4Datagram.datagram_parse_wire dg IPv4Datagram.new (Buffer_of (concatenate l')) Hdw) as (b' & Ep & Hs & Hb').
  { apply Buffer_of_wf. rewrite Hl', IPv4Datagram.datagram_zlen_wire by done.
    pose proof (IPv4Header.wf_len _ (IPv4Datagram.wf_header _ Hdw)). words. lia. }
  { by rewrite str_Buffer_of. }
  destruct (ported_roundtrip a seg (pseudo_cksum iph) b' (proj1 Hfit) Hw (ip_fits_checksum a seg Hfit) Hb') as (seg'' & Es & [_ Hp] & Hh).
  { by rewrite Hs. }
  exists (set_ports a seg), l', (header_cksum iph), (segment_cksum (set_ports a seg) (pseudo_cksum iph)). split.
  { unfold tun_write, wrap_tcp_in_ip. fold iph. rewrite El. cbn [obind]. fold dg. by rewrite El'. }
  unfold tun_text. rewrite Ep, (datagram_text_tcp (IPv4Datagram.set_cksum (IPv4Datagram._header dg) (header_cksum (IPv4Datagram._header dg))) b' seg'' Es)
    by done.
  assert (len (IPv4Datagram.set_cksum (IPv4Datagram._header dg) (header_cksum (IPv4Datagram._header dg))) = 20 + segment_size seg) as ->
    by apply (ip_len a seg Hw Hfit).
  by rewrite Hh, Hp.
Qed.

Section tcpdump_program.
Context `{Ntop} `{Pcap}.

(** The packets of [n] calls from the [t]-th on; a timeout gives none. *)
Definition captured (t n : nat) : list bytes :=
  omap (fun i => let '(next_ret, pkt_data) := pcap_next_ex i in if 0 <? next_ret then Some pkt_data else None) (seq t n).

Definition readable (dl : datalink) (p : bytes) : Prop := wf_bytes p /\ zlen p < 2147483648 /\ whole dl p.

Lemma capture_text dl n : forall t o, (forall i, (i < n)%nat -> 0 <= fst (pcap_next_ex (t + i))) ->
  fst (pcap_next_ex (t + n)) < 0 -> Forall (readable dl) (captured t n) ->
  Tcpdump.capture (S n) t dl (quiet o) =
    Some (Ret (fst (pcap_next_ex (t + n)), quiet (o ++ concat (map (packet_text dl) (captured t n))))).
Proof.
  induction n as [|n IH]; intros t o Hok Hend Hp.
  - rewrite Nat.add_0_r in *. cbn [Tcpdump.capture]. destruct (pcap_next_ex t) as [r p]. simpl in Hend.
    destruct (Z.ltb_spec r 0); [|lia]. cbn [captured seq omap list_omap map concat]. by rewrite app_nil_r.
  - assert (captured t (S n) = match pcap_next_ex t with (r, p) => if 0 <? r then [p] else [] end ++ captured (S t) n) as Hc.
    { unfold captured. cbn [seq omap list_omap]. destruct (pcap_next_ex t) as [r p]. by destruct (0 <? r). }
    rewrite Hc in *. apply Forall_app in Hp as [Hp1 Hp2].
    assert (forall i, (i < n)%nat -> 0 <= fst (pcap_next_ex (S t + i))) as Hok'.
    { intros i Hi. rewrite Nat.add_succ_comm. apply Hok. lia. }
    rewrite <- Nat.add_succ_comm in Hend |- *. specialize (Hok 0%nat ltac:(lia)). rewrite Nat.add_0_r in Hok.
    remember (S n) as m eqn:Em. cbn [Tcpdump.capture]. destruct (pcap_next_ex t) as [r p]. simpl in Hok.
    destruct (Z.ltb_spec r 0); [lia|]. destruct (Z.eqb_spec r 0) as [->|Hr]; [subst m; by rewrite IH|].
    destruct (Z.ltb_spec 0 r); [|lia]. apply Forall_inv in Hp1 as (Hw & Hl & Hwh). rewrite print_packet_quiet by done.
    subst m. rewrite IH by done. cbn [app map concat]. by rewrite app_assoc.
Qed.

(** What is printed before the first packet. *)
Definition preamble (argv : list string) (exp_start : Z) (dev : option string) (dlt : Z) : bytes :=
  match dev with Some dev => text "Capturing on interface " ++ text dev | None => text "Capturing on all interfaces" end ++
  text " (type: " ++ pcap_description dlt ++ (text ")" ++ [10]) ++
  text "Using filter expression: " ++ Tcpdump.filter_expression (drop (Z.to_nat (exp_start - 1)) argv) ++ [10].

(** C36 [udp_tcpdump] prints the capture: when it can be opened and the filter is
    accepted, the loop shows the packets that are captured until [pcap_next_ex]
    returns a negative number, in order, each by its report and the dump of its
    payload, whatever their bytes (they must reach to the end of their UDP
    header, and have less than 2^31 bytes).  If that number is not -1 the program then exits with success, and
    this is all it has printed.  If it is -1, the program asks for the error text
    of the handle it has just closed, which the library leaves undefined (a failure
    here): nothing is said of an error message or an exit code. *)
Theorem tcpdump_prints_capture arg0 argv exp_start dev dlt dl n :
  parse_arguments argv 1 None = Parsed exp_start dev -> pcap_open_live dev = inr dlt ->
  Tcpdump.datalink_of dlt = Some dl ->
  pcap_compile (Tcpdump.filter_expression (drop (Z.to_nat (exp_start - 1)) argv)) = 0 -> pcap_setfilter = 0 ->
  (forall i, (i < n)%nat -> 0 <= fst (pcap_next_ex i)) -> fst (pcap_next_ex n) < 0 ->
  Forall (readable dl) (captured 0 n) ->
  exists os, Tcpdump.capture (S n) 0 dl (quiet (preamble argv exp_start dev dlt)) = Some (Ret (fst (pcap_next_ex n), os)) /\
    out os = preamble argv exp_start dev dlt ++ concat (map (packet_text dl) (captured 0 n)) /\
    Tcpdump.main arg0 argv (S n) =
      Some (if fst (pcap_next_ex n) =? -1 then Throw use_after_free else Ret (EXIT_SUCCESS, os)).
Proof.
  intros Ha Ho Hd Hc Hs Hok Hend Hp. unfold Tcpdump.main. rewrite Ha. unfold Tcpdump.run. rewrite Ho, Hd, Hc, Hs.
  cbn [Z.eqb negb].
  set (start := outs (outs (outs _ _) _) _). assert (start = quiet (preamble argv exp_start dev dlt)) as ->.
  { unfold start, preamble, quiet, ostream_new. destruct dev; rewrite !outs_inert by done; unfold outs at 1; cbn [fold_left put out hex boolalpha width fill];
      f_equal; join_text. }
  rewrite (capture_text dl n 0) by done. rewrite Nat.add_0_l.
  eexists. split; [done|]. split; [done|]. by destruct (_ =? -1).
Qed.
End tcpdump_program.

(** C37 [udp_tcpdump] shows what the UDP adapter sends: for the datagram of a
    well-formed segment that fits in one, in an Ethernet frame and an IPv4 packet without options,
    the body of the loop prints two lines, the first with the addresses of the
    packet and the ports of the adapter, the second with the flags, the checksum
    (found correct), the numbers and the window of the segment and the length of
    the datagram, and then the dump of the datagram, eight blanks in; the stream's
    format is as before. *)
Theorem tcpdump_shows_segment `{Ntop} a seg eth ip udp o :
  base_wf a -> TCPSegment.wf seg -> udp_fits a seg -> framed eth ip udp ->
  let h := TCPSegment._header seg in
  let seqlen := length_in_sequence_space seg in
  exists seg' dst l, udp_write a seg = Ret (seg', (dst, l)) /\
    print_packet DLT_EN10MB (frame eth ip udp (concatenate l)) (quiet o) = Some (Ret (quiet (o ++
      dotted (be_val (ztake 4 (zdrop 12 ip))) ++ [58] ++ number false (port (source (config a))) ++ text " > " ++
      dotted (be_val (ztake 4 (zdrop 16 ip))) ++ [58] ++ number false (port (destination (config a))) ++ [10] ++
      text "    Flags [" ++ text (flag_text h) ++ text "] cksum 0x" ++ cksum_text (segment_cksum (set_ports a seg) 0) ++
      text " (correct)" ++ text " seq " ++ number false (raw_value (seqno h)) ++
      (if 0 <? seqlen then [58] ++ number false (raw_value (WrappingIntegers.add (seqno h) seqlen)) else []) ++
      text " ack " ++ number false (raw_value (ackno h)) ++ text " win " ++ number false (win h) ++
      text " length " ++ number false (zlen (concatenate l)) ++ [10] ++
      dump 8 (concatenate l)))).
Proof.
  intros Ha Hw Hf Hfr h seqlen. destruct (report_segment a seg Ha Hw Hf) as (l & El & Hl & Hwl & Hr).
  exists (set_ports a seg), (destination (config a)), l. split; [done|].
  unfold print_packet. rewrite locate_framed by first [done | lia]. cbn [obind]. rewrite Hr. cbn [obind].
  rewrite show_report_quiet, segment_line, hexdump_dump by done. cbn [src_addr dst_addr].
  assert (forall k, 0 <= k <= 16 -> address_text (ztake 4 (zdrop k ip)) = dotted (be_val (ztake 4 (zdrop k ip)))) as Ht.
  { intros k Hk. unfold address_text. destruct Hfr as [_ [Hi _] _]. by rewrite zlen_ztake, zlen_zdrop, Hi, Z.min_l by lia. }
  rewrite !Ht by lia. unfold quiet. cbn [out hex boolalpha width fill].
  do 3 f_equal. rewrite <- !app_assoc. done.
Qed.

(** ** Witnesses *)

(** A device with two packets: one that is no datagram, one the adapter sent. *)
Definition demo_packets : list bytes :=
  [[1; 2; 3]; match tun_write demo_adapter demo_segment with Ret (_, l) => concatenate l | Throw _ => [] end].

Local Instance demo_tun_kernel : Kernel := {|
  sys_read t _ := match demo_packets !! (t - 2)%nat with Some p => mkReply (zlen p) 0 p | None => mkReply (-1) 5 [] end;
  sys_writev _ _ := mkReply 0 0 [];
  sys_shutdown _ _ := mkReply 0 0 [];
  sys_close _ := mkReply 0 0 [] |}.

#[local] Existing Instance demo_sockets.

Lemma tun_prints_packets_witness :
  exists os, Tun.main (fun _ => text "read: error") 3 = Some (EXIT_FAILURE, os) /\
    out os = concat (map tun_text demo_packets) ++ text "Exception: read: error" ++ [10].
Proof.
  destruct (tun_prints_packets (fun _ => text "read: error") demo_packets (unix_error 5) (mkFD 5 false false 0 0))
    as (os & Hm & Ho); [reflexivity| |reflexivity|exists os; split; [exact Hm|rewrite Ho; reflexivity]].
  intros [|[|i]] p Hp; [injection Hp as <-|injection Hp as <-|discriminate].
  - split; [apply (bool_decide_unpack _); by vm_compute|]. split; [by vm_compute|]. intros w.
    destruct (read_data 2 w 18446744073709551615) as [w' E]; [by vm_compute..|]. exists w'. exact E.
  - split; [apply (bool_decide_unpack _); by vm_compute|]. split; [by vm_compute|].
    intros w. destruct (read_data 3 w 18446744073709551615) as [w' E]; [by vm_compute..|]. exists w'. exact E.
Defined.

Lemma tun_shows_segment_witness :
  exists seg' l iph, tun_write demo_adapter demo_segment = Ret (seg', l) /\
    tun_text (concatenate l) = got_packet ++ dump 0 (concatenate l) ++ text "attempting to parse as ipv4 datagram... " ++
      text "success! totlen=" ++ number false (20 + segment_size demo_segment) ++ iph.
Proof.
  destruct (tun_shows_segment demo_adapter demo_segment demo_dumped_wf) as (seg' & l & c1 & c2 & Hw & Ht);
    [split; [exact demo_adapter_wf|reflexivity]|].
  eexists seg', l, _. split; [exact Hw|exact Ht].
Defined.

Local Instance demo_ntop : Ntop := fun _ => None.

Definition demo_frame : bytes :=
  frame demo_eth demo_ipv4 demo_udp_header
    (match udp_write demo_adapter demo_segment with Ret (_, (_, l)) => concatenate l | Throw _ => [] end).

(** A capture of a frame, a timeout and the frame again. *)
Local Instance demo_pcap : Pcap := {|
  pcap_open_live _ := inr 1;
  pcap_description _ := text "Ethernet";
  pcap_compile _ := 0;
  pcap_setfilter := 0;
  pcap_error := text "none";
  pcap_next_ex t := nth t [(1, demo_frame); (0, []); (1, demo_frame)] (-2, []) |}.

Lemma tcpdump_prints_capture_witness :
  exists os, Tcpdump.main (text "udp_tcpdump") ["-i"; "eth0"; "udp"]%string 4 = Some (Ret (EXIT_SUCCESS, os)) /\
    out os = preamble ["-i"; "eth0"; "udp"]%string 3 (Some "eth0"%string) 1 ++
      packet_text DLT_EN10MB demo_frame ++ packet_text DLT_EN10MB demo_frame.
Proof.
  destruct (tcpdump_prints_capture (text "udp_tcpdump") ["-i"; "eth0"; "udp"]%string 3 (Some "eth0"%string) 1 DLT_EN10MB 3)
    as (os & _ & Ho & Hm); [reflexivity..| | | |exists os; split; [exact Hm|rewrite Ho; by cbn [concat map captured]]].
  - intros [|[|[|i]]] Hi; [by vm_compute..|lia].
  - by vm_compute.
  - assert (readable DLT_EN10MB demo_frame) as Hr; [|apply Forall_cons; split; [exact Hr|apply Forall_cons; split; [exact Hr|apply Forall_nil_2]]].
    split; [apply (bool_decide_unpack _); by vm_compute|]. split; [by vm_compute|].
    intros hdr Hh. assert (hdr = 14) as -> by (vm_compute in Hh; congruence). split; [by vm_compute|].
    intros loc Hl. vm_compute in Hl. injection Hl as <-. by vm_compute.
Defined.

Lemma tcpdump_shows_segment_witness :
  exists t, print_packet DLT_EN10MB demo_frame (quiet []) = Some (Ret (quiet (text "1.1.1.1:1000 > 2.2.2.2:2000" ++ [10] ++
    text "    Flags [S.] cksum 0x" ++ t))).
Proof.
  destruct (tcpdump_shows_segment demo_adapter demo_segment demo_eth demo_ipv4 demo_udp_header [] demo_adapter_wf demo_dumped_wf)
    as (seg' & dst & l & Hw & Ht); [split; [exact demo_adapter_wf|reflexivity]|exact demo_framed|].
  unfold demo_frame. rewrite Hw, Ht. eexists. reflexivity.
Defined.
