(* ===== verification/Options.v ===== *)
(** * Options: the command lines of the TCP programs

    Models [get_config] of [src/apps/tcp_ipv4.cc] and [src/apps/tcp_udp.cc]: the
    loop over the options, the positional arguments, and the exits.  The list of
    arguments is [argv] after the program's name.  [strtol] with base 0 is
    modelled; the conversion of a loss rate goes through floating point and is a
    parameter, [loss_of]: the 16-bit value of a text.  The usage
    texts are in [Usage].

    The theorems: what is written as options is what is configured, in any
    number and order; and a server ignores the host it is given. *)

From Stdlib Require Import String.
From S2P Require Import Prelude NetAddress Text TCPConfig TcpDump.
Local Open Scope Z_scope.

(** ** [strtol(s, nullptr, 0)] *)

Definition digit_value (base c : Z) : option Z :=
  let v := if is_digit c then c - 48
           else if (97 <=? c) && (c <=? 122) then c - 87
           else if (65 <=? c) && (c <=? 90) then c - 55 else 99 in
  if v <? base then Some v else None.

Fixpoint in_base (base : Z) (s : bytes) (acc : Z) : Z :=
  match s with
  | c :: s => match digit_value base c with Some v => in_base base s (acc * base + v) | None => acc end
  | [] => acc
  end.

(** A prefix chooses the base: 0x (with a digit after it) for 16, 0 for 8. *)
Definition unsigned (s : bytes) : Z :=
  match s with
  | 48 :: x :: c :: t =>
      if ((x =? 120) || (x =? 88)) && bool_decide (is_Some (digit_value 16 c))
      then in_base 16 (c :: t) 0 else in_base 8 s 0
  | 48 :: _ => in_base 8 s 0
  | _ => in_base 10 s 0
  end.

(** The result is clamped to a [long]. *)
Definition strtol (s : string) : Z :=
  let clamp v := Z.max (-9223372036854775808) (Z.min 9223372036854775807 v) in
  match skip_space (text s) with
  | 45 :: t => clamp (- unsigned t)
  | 43 :: t => clamp (unsigned t)
  | t => clamp (unsigned t)
  end.

(** ** The options *)

Record settings := mkSettings {
  c_fsm : TCPConfig;
  s_loss_up : Z;
  s_loss_dn : Z;
  s_listen : bool;
  source_address : string;
  source_port : string;
  tundev : option string
}.

Definition with_window (s : settings) (n : Z) : settings :=
  mkSettings (mkTCPConfig (rt_timeout (c_fsm s)) (u64 n) (send_capacity (c_fsm s)) (fixed_isn (c_fsm s)))
    (s_loss_up s) (s_loss_dn s) (s_listen s) (source_address s) (source_port s) (tundev s).
Definition with_timeout (s : settings) (n : Z) : settings :=
  mkSettings (mkTCPConfig (u16 n) (recv_capacity (c_fsm s)) (send_capacity (c_fsm s)) (fixed_isn (c_fsm s)))
    (s_loss_up s) (s_loss_dn s) (s_listen s) (source_address s) (source_port s) (tundev s).
Definition with_loss_up (s : settings) (n : Z) : settings :=
  mkSettings (c_fsm s) n (s_loss_dn s) (s_listen s) (source_address s) (source_port s) (tundev s).
Definition with_loss_dn (s : settings) (n : Z) : settings :=
  mkSettings (c_fsm s) (s_loss_up s) n (s_listen s) (source_address s) (source_port s) (tundev s).
Definition with_listen (s : settings) : settings :=
  mkSettings (c_fsm s) (s_loss_up s) (s_loss_dn s) true (source_address s) (source_port s) (tundev s).
Definition with_address (s : settings) (a : string) : settings :=
  mkSettings (c_fsm s) (s_loss_up s) (s_loss_dn s) (s_listen s) a (source_port s) (tundev s).
Definition with_port (s : settings) (p : string) : settings :=
  mkSettings (c_fsm s) (s_loss_up s) (s_loss_dn s) (s_listen s) (source_address s) p (tundev s).
Definition with_tun (s : settings) (d : string) : settings :=
  mkSettings (c_fsm s) (s_loss_up s) (s_loss_dn s) (s_listen s) (source_address s) (source_port s) (Some d).

(** [exit(code)], or a value. *)
Inductive command (A : Type) := Quit (code : Z) | Go (a : A).
Arguments Quit {A} _.
Arguments Go {A} _.

Section options.
Context (loss_of : string -> Z).

(** The options of one argument that both programs have. *)
Definition shared (arg value : string) (s : settings) : option settings :=
  if strncmp_eq 3 "-w" arg then Some (with_window s (strtol value))
  else if strncmp_eq 3 "-t" arg then Some (with_timeout s (strtol value))
  else None.
Definition losses (arg value : string) (s : settings) : option settings :=
  if strncmp_eq 3 "-Lu" arg then Some (with_loss_up s (loss_of value))
  else if strncmp_eq 3 "-Ld" arg then Some (with_loss_dn s (loss_of value))
  else None.

(** What [tcp_ipv4] does with an option of one argument, in the order of its
    tests. *)
Definition ipv4_option (arg value : string) (s : settings) : option settings :=
  if strncmp_eq 3 "-a" arg then Some (with_address s value)
  else if strncmp_eq 3 "-s" arg then Some (with_port s value)
  else match shared arg value s with
  | Some s => Some s
  | None => if strncmp_eq 3 "-d" arg then Some (with_tun s value) else losses arg value s
  end.
Definition udp_option (arg value : string) (s : settings) : option settings :=
  match shared arg value s with
  | Some s => Some s
  | None => losses arg value s
  end.

(** The [while] loop: it stops when at most two arguments are left; an option of
    one argument needs three more ([check_argc]). *)
Fixpoint parse_options (opt : string -> string -> settings -> option settings) (argv : list string) (s : settings)
    : command (settings * list string) :=
  match argv with
  | arg :: ((value :: rest) as next) =>
      match rest with
      | [] => Go (s, argv)
      | _ =>
          if strncmp_eq 3 "-l" arg then parse_options opt next (with_listen s)
          else
            match opt arg value s with
            | Some s' => if (length rest <=? 1)%nat then Quit 1 else parse_options opt rest s'
            | None => if strncmp_eq 3 "-h" arg then Quit 0 else Quit 1
            end
      end
  | _ => Go (s, argv)
  end.

(** ** The positional arguments *)

Context `{Resolver}.

Definition LOCAL_ADDRESS_DFLT : string := "169.254.144.9".

(** [TCPConfig c_fsm{}; FdAdapterConfig c_filt{};] and the locals. *)
Definition initial (random_port : string) : settings :=
  mkSettings default_config 0 0 false LOCAL_ADDRESS_DFLT random_port None.

Record configuration := mkConfiguration {
  cfg_settings : settings;
  cfg_source : option address;
  cfg_destination : option address
}.

Definition ipv4_config (argv : list string) (random_port : string) : outcome (command configuration) :=
  match parse_options ipv4_option argv (initial random_port) with
  | Quit code => Ret (Quit code)
  | Go (s, host :: port :: _) =>
      if s_listen s then
        try: a <- of_host (text "0") (text port);
        try: p <- port_of a;
        if p =? 0 then Ret (Quit 1) else Ret (Go (mkConfiguration s (Some a) None))
      else
        try: d <- of_host (text host) (text port);
        try: a <- of_host (text (source_address s)) (text (source_port s));
        Ret (Go (mkConfiguration s (Some a) (Some d)))
  | Go (_, _) => Throw out_of_range
  end.

(** The last two arguments are those the loop leaves. *)
Definition udp_config (argv : list string) : outcome (command configuration) :=
  match parse_options udp_option argv (initial "") with
  | Quit code => Ret (Quit code)
  | Go (s, host :: port :: _) =>
      if s_listen s then
        try: a <- of_host (text "0") (text port);
        Ret (Go (mkConfiguration s (Some a) None))
      else
        try: d <- of_host (text host) (text port);
        Ret (Go (mkConfiguration s None (Some d)))
  | Go (_, _) => Throw out_of_range
  end.

(** ** Properties *)

(** Options as a user means them, and as they are written. *)
Inductive setting :=
  | Listen | Window (v : string) | RtTimeout (v : string) | LossUp (v : string) | LossDown (v : string)
  | SourceAddress (v : string) | SourcePort (v : string) | TunDevice (v : string).

Definition written (o : setting) : list string :=
  match o with
  | Listen => ["-l"] | Window v => ["-w"; v] | RtTimeout v => ["-t"; v] | LossUp v => ["-Lu"; v]
  | LossDown v => ["-Ld"; v] | SourceAddress v => ["-a"; v] | SourcePort v => ["-s"; v] | TunDevice v => ["-d"; v]
  end%string.

Definition meant (o : setting) (s : settings) : settings :=
  match o with
  | Listen => with_listen s
  | Window v => with_window s (strtol v)
  | RtTimeout v => with_timeout s (strtol v)
  | LossUp v => with_loss_up s (loss_of v)
  | LossDown v => with_loss_dn s (loss_of v)
  | SourceAddress v => with_address s v
  | SourcePort v => with_port s v
  | TunDevice v => with_tun s v
  end.

(** The options [tcp_udp] has. *)
Definition udp_has (o : setting) : bool :=
  match o with SourceAddress _ | SourcePort _ | TunDevice _ => false | _ => true end.

Definition means (opt : string -> string -> settings -> option settings) (o : setting) : Prop :=
  match written o with
  | [flag; v] => strncmp_eq 3 "-l" flag = false /\ forall s, opt flag v s = Some (meant o s)
  | _ => True
  end.

Lemma parse_written opt l host port : forall s,
  Forall (means opt) l ->
  parse_options opt (flat_map written l ++ [host; port]) s = Go (fold_left (fun s o => meant o s) l s, [host; port]).
Proof.
  induction l as [|o l IH]; intros s Hl; [done|]. apply Forall_cons in Hl as [Ho Hl].
  assert (exists x y rest, flat_map written l ++ [host; port] = x :: y :: rest) as (x & y & rest & Ex).
  { destruct (flat_map written l) as [|x [|y rest]]; simpl; eauto. }
  simpl flat_map. rewrite <- app_assoc. specialize (IH (meant o s) Hl). simpl fold_left. rewrite <- IH, Ex. clear IH.
  destruct o; simpl in Ho; try (destruct Ho as [Hn Ho]); simpl;
    [reflexivity|..]; rewrite ?Ho; reflexivity.
Qed.

Lemma ipv4_means o : means ipv4_option o.
Proof. by destruct o. Qed.

Lemma udp_means o : udp_has o = true -> means udp_option o.
Proof. by destruct o. Qed.

(** What is written on the command line is what is configured: for any
    sequence of options followed by a host and a port, the loop of [get_config]
    ends with exactly those settings, later ones overriding earlier ones, and
    with the host and the port left over; for [tcp_ipv4] with all its options,
    for [tcp_udp] with the ones it has. *)
Theorem options_roundtrip l host port s :
  parse_options ipv4_option (flat_map written l ++ [host; port]) s =
    Go (fold_left (fun s o => meant o s) l s, [host; port]) /\
  (forallb udp_has l = true -> parse_options udp_option (flat_map written l ++ [host; port]) s =
    Go (fold_left (fun s o => meant o s) l s, [host; port])).
Proof.
  split.
  - apply parse_written. apply Forall_true. intros o. apply ipv4_means.
  - intros Hl. apply parse_written. apply Forall_forall. intros o Ho%list_elem_of_In. apply udp_means.
    rewrite forallb_forall in Hl. by apply Hl.
Qed.

(** Whatever is written, the configuration has the types of its members. *)
Definition keeps_types (opt : string -> string -> settings -> option settings) : Prop :=
  forall arg v s s', opt arg v s = Some s' -> config_wf (c_fsm s) -> config_wf (c_fsm s').

Lemma parse_options_step opt arg value x more s :
  parse_options opt (arg :: value :: x :: more) s =
  if strncmp_eq 3 "-l" arg then parse_options opt (value :: x :: more) (with_listen s)
  else match opt arg value s with
  | Some s' => if (length (x :: more) <=? 1)%nat then Quit 1 else parse_options opt (x :: more) s'
  | None => if strncmp_eq 3 "-h" arg then Quit 0 else Quit 1
  end.
Proof. reflexivity. Qed.

Lemma parse_options_typed opt : keeps_types opt -> forall argv s s' rest,
  config_wf (c_fsm s) -> parse_options opt argv s = Go (s', rest) -> config_wf (c_fsm s').
Proof.
  intros Hopt argv. induction argv as [argv IH] using (induction_ltof1 _ (@length string)). unfold ltof in IH.
  intros s s' rest Hs. destruct argv as [|arg [|value [|x more]]]; try (by intros [= <- _]).
  rewrite parse_options_step. destruct (strncmp_eq 3 "-l" arg); [apply IH; [simpl; lia|done]|].
  destruct (opt arg value s) as [s1|] eqn:E; [|by destruct (strncmp_eq 3 "-h" arg)].
  destruct (_ <=? _)%nat; [done|]. apply IH; [simpl; lia|]. by eapply Hopt.
Qed.

Lemma shared_types : keeps_types shared.
Proof.
  intros arg v s s'. unfold shared.
  destruct (strncmp_eq 3 "-w" arg); [|destruct (strncmp_eq 3 "-t" arg)]; intros [= <-] [H1 H2 H3 H4]; constructor; simpl; try done.
  - apply Z.mod_pos_bound. lia.
  - apply Z.mod_pos_bound. lia.
Qed.

Lemma losses_types : keeps_types losses.
Proof. intros arg v s s'. unfold losses. repeat case_match; intros [= <-]; done. Qed.

Lemma udp_types : keeps_types udp_option.
Proof.
  intros arg v s s'. unfold udp_option. destruct (shared arg v s) eqn:E; [intros [= <-]; by eapply shared_types|].
  apply losses_types.
Qed.

Lemma ipv4_types : keeps_types ipv4_option.
Proof.
  intros arg v s s'. unfold ipv4_option. destruct (strncmp_eq 3 "-a" arg); [by intros [= <-]|].
  destruct (strncmp_eq 3 "-s" arg); [by intros [= <-]|].
  destruct (shared arg v s) eqn:E; [intros [= <-]; by eapply shared_types|].
  destruct (strncmp_eq 3 "-d" arg); [by intros [= <-]|]. apply losses_types.
Qed.

Lemma initial_types port : config_wf (c_fsm (initial port)).
Proof. constructor; vm_compute; try split; congruence. Qed.

(** A server never looks at the host it is told to bind: only the port of the
    two positional arguments is used. *)
Theorem server_ignores_host l host host' port random_port :
  In Listen l ->
  ipv4_config (flat_map written l ++ [host; port]) random_port =
  ipv4_config (flat_map written l ++ [host'; port]) random_port.
Proof.
  intros Hl. assert (s_listen (fold_left (fun s o => meant o s) l (initial random_port)) = true) as Hs.
  { assert (forall s, s_listen s = true \/ In Listen l -> s_listen (fold_left (fun s o => meant o s) l s) = true) as Hg.
    { clear. induction l as [|o l IH]; intros s; simpl; [by intros [|]|]. intros Hor. apply IH.
      destruct Hor as [Hs|[->|Hl]]; [left; by destruct o|by left|by right]. }
    apply Hg. by right. }
  unfold ipv4_config. rewrite !parse_written by (apply Forall_true; intros o; apply ipv4_means). by rewrite Hs.
Qed.
End options.

(** Witness *)

Definition demo_options : list setting := [Window "0x100"; Listen; RtTimeout "20"; Window "010"].

Lemma options_roundtrip_witness :
  parse_options (udp_option (fun _ => 0)) (flat_map written demo_options ++ ["here"%string; "80"%string]) (initial "") =
    Go (fold_left (fun s o => meant (fun _ => 0) o s) demo_options (initial ""), ["here"%string; "80"%string]) /\
  recv_capacity (c_fsm (fold_left (fun s o => meant (fun _ => 0) o s) demo_options (initial ""))) = 8.
Proof. split; [|reflexivity]. apply (options_roundtrip (fun _ => 0) demo_options). reflexivity. Defined.
