(* ===== verification/EventLoop.v ===== *)
(** * EventLoop: rules, polling and callbacks

    Models [src/libsponge/util/eventloop.hh] and [.cc].  The callbacks of a rule
    work on the state [S] of the program that installed it, which also holds
    the descriptors; the descriptor of a rule is a projection from that state.
    [poll] is a parameter: the answer of the kernel to the array it is given.

    [wait_next_event] is shown to keep a contract in two phases.  First the rules
    whose descriptor is finished are cancelled ([gone]), and what is asked of
    [poll] for each other rule is fixed when it is looked at ([asked]).  Then
    exactly the steps that the answer of [poll] calls for ([due]) are made, in
    order ([steps]).  Programs on top of the loop are verified with a proof rule,
    [wait_preserves]. *)

From S2P Require Import Prelude FileDescriptor.

(** The constants of [poll(2)]. *)
Definition POLLIN : Z := 1.
Definition POLLOUT : Z := 4.
Definition POLLERR : Z := 8.
Definition POLLHUP : Z := 16.
Definition POLLNVAL : Z := 32.
Definition EINTR : Z := 4.

Inductive Direction := In | Out.

Global Instance Direction_eq_dec : EqDecision Direction.
Proof. solve_decision. Defined.

(** [static_cast<short>(direction)] *)
Definition event_of (d : Direction) : Z := match d with In => POLLIN | Out => POLLOUT end.

Inductive Result := Success | Timeout | Exit.

Global Instance Result_eq_dec : EqDecision Result.
Proof. solve_decision. Defined.

Record pollfd := mkPollfd { p_fd : Z; events : Z; revents : Z }.

(** The value [poll] returns, [errno], and the [revents] it stored. *)
Record poll_reply := mkPollReply { p_ret : Z; p_errno : Z; p_revents : list Z }.

Section eventloop.
Context {S : Type}.

Record Rule := mkRule {
  fd : S -> FDWrapper;
  direction : Direction;
  callback : S -> outcome S;
  interest : S -> bool;
  cancel : S -> outcome S
}.

Definition service_count (r : Rule) (s : S) : Z :=
  match direction r with In => read_count (fd r s) | Out => write_count (fd r s) end.

Definition add_rule (rules : list Rule) (f : S -> FDWrapper) (d : Direction)
    (callback : S -> outcome S) (interest : S -> bool) (cancel : S -> outcome S) : list Rule :=
  rules ++ [mkRule f d callback interest cancel].

(** Nothing more can happen on the rule. *)
Definition at_eof (r : Rule) (s : S) : bool := bool_decide (direction r = In) && fd_eof (fd r s).

(** The first loop: the rules kept, the array for [poll], and
    [something_to_poll]. *)
Fixpoint setup (rules : list Rule) (s : S) : outcome (list Rule * list pollfd * bool * S) :=
  match rules with
  | [] => Ret ([], [], false, s)
  | r :: rules =>
      if at_eof r s then try: s <- cancel r s; setup rules s
      else if closed (fd r s) then try: s <- cancel r s; setup rules s
      else
        let p := mkPollfd (fd_num (fd r s)) (if interest r s then event_of (direction r) else 0) 0 in
        try: (kept, pollfds, something_to_poll, s') <- setup rules s;
        Ret (r :: kept, p :: pollfds, interest r s || something_to_poll, s')
  end.

(** The [revents] that [poll] stores; one that fails stores nothing. *)
Definition store_revents (pollfds : list pollfd) (k : poll_reply) : list pollfd :=
  if p_ret k <? 0 then pollfds
  else zip_with (fun p r => mkPollfd (p_fd p) (events p) r) pollfds (p_revents k).

(** What the second loop does when the event of the rule is ready. *)
Definition service (r : Rule) (s : S) : outcome S :=
  let count_before := service_count r s in
  try: s <- callback r s;
  if (count_before =? service_count r s) && interest r s then Throw runtime_error else Ret s.

Definition has (z mask : Z) : bool := negb (Z.land z mask =? 0).

(** The second loop; there is one element of the array for each rule. *)
Fixpoint dispatch (rules : list Rule) (pollfds : list pollfd) (s : S) : outcome (list Rule * S) :=
  match rules, pollfds with
  | [], _ => Ret ([], s)
  | _ :: _, [] => Throw out_of_range
  | r :: rules, p :: pollfds =>
      if has (revents p) (Z.lor POLLERR POLLNVAL) then Throw runtime_error
      else
        let poll_ready := has (revents p) (events p) in
        let poll_hup := has (revents p) POLLHUP in
        if poll_hup && negb (events p =? 0) && negb poll_ready then
          try: s <- cancel r s; dispatch rules pollfds s
        else
          try: s <- (if poll_ready then service r s else Ret s);
          try: (kept, s) <- dispatch rules pollfds s;
          Ret (r :: kept, s)
  end.

(** The error of a [poll] other than an interruption is caught and dropped. *)
Definition wait_next_event (poll : list pollfd -> poll_reply) (rules : list Rule) (s : S)
    : outcome (Result * list Rule * S) :=
  try: (rules, pollfds, something_to_poll, s) <- setup rules s;
  if negb something_to_poll then Ret (Exit, rules, s)
  else
    let k := poll pollfds in
    let go :=
      try: (rules, s) <- dispatch rules (store_revents pollfds k) s;
      Ret (Success, rules, s) in
    match SystemCall (p_ret k) (p_errno k) 0 with
    | Ret n => if n =? 0 then Ret (Timeout, rules, s) else go
    | Throw (unix_error code) => if code =? EINTR then Ret (Exit, rules, s) else go
    | Throw e => Throw e
    end.

(** ** The contract *)

(** Nothing more will come from the descriptor. *)
Definition finished (r : Rule) (s : S) : Prop := at_eof r s = true \/ closed (fd r s) = true.

(** Before [poll]: a finished rule is cancelled and removed. *)
Inductive gone : list Rule * S -> list Rule * S -> Prop :=
  | gone_step pre r post s s' :
      finished r s -> cancel r s = Ret s' -> gone (pre ++ r :: post, s) (pre ++ post, s').

(** The request made for a rule: when the rule was looked at, on the way from
    [x] to [z], it was not finished, and its event is asked for if it was
    interested. *)
Definition asked (x z : list Rule * S) (r : Rule) (p : pollfd) : Prop :=
  exists rs s, rtc gone x (rs, s) /\ rtc gone (rs, s) z /\ r ∈ rs /\ ~ finished r s /\
    p = mkPollfd (fd_num (fd r s)) (if interest r s then event_of (direction r) else 0) 0.

(** After [poll]: what can happen to a rule. *)
Inductive occurrence := Cancelled (r : Rule) | Called (r : Rule).

Inductive loop_step : list Rule * S -> occurrence -> list Rule * S -> Prop :=
  | step_cancel pre r post s s' :
      cancel r s = Ret s' -> loop_step (pre ++ r :: post, s) (Cancelled r) (pre ++ post, s')
  | step_call rules r s s' :
      r ∈ rules -> callback r s = Ret s' ->
      service_count r s <> service_count r s' \/ interest r s' = false ->
      loop_step (rules, s) (Called r) (rules, s').

Inductive steps : list Rule * S -> list occurrence -> list Rule * S -> Prop :=
  | steps_nil x : steps x [] x
  | steps_cons x o y os z : loop_step x o y -> steps y os z -> steps x (o :: os) z.

(** What the answer of [poll] calls for: the callback when the event that was
    asked for is ready; the end of the rule when it was asked for and the only
    answer is a hangup. *)
Definition due (a : Rule * pollfd) : option occurrence :=
  let '(r, p) := a in
  if has (revents p) (events p) then Some (Called r)
  else if negb (events p =? 0) && has (revents p) POLLHUP then Some (Cancelled r)
  else None.

Definition no_error (a : Rule * pollfd) : Prop := has (revents (snd a)) (Z.lor POLLERR POLLNVAL) = false.
Definition nothing_asked (pollfds : list pollfd) : Prop := Forall (fun p => events p = 0) pollfds.

Lemma event_of_nonzero d : event_of d <> 0.
Proof. by destruct d. Qed.

Lemma asked_earlier x y z r p : gone x y -> asked y z r p -> asked x z r p.
Proof. intros Hg (rs & s & H1 & H2). exists rs, s. split; [by eapply rtc_l|done]. Qed.

Lemma setup_contract rules : forall s kept pollfds something s' pre,
  setup rules s = Ret (kept, pollfds, something, s') ->
  let x := (pre ++ rules, s) in let z := (pre ++ kept, s') in
  rtc gone x z /\ sublist kept rules /\ Forall2 (asked x z) kept pollfds /\
  (something = false <-> nothing_asked pollfds).
Proof.
  induction rules as [|r rules IH]; intros s kept pollfds something s' pre; simpl.
  { intros [= <- <- <- <-]. split; [done|]. split; [done|]. split; [constructor|]. split; [constructor|done]. }
  assert (finished r s -> (try: s0 <- cancel r s; setup rules s0) = Ret (kept, pollfds, something, s') ->
    rtc gone (pre ++ r :: rules, s) (pre ++ kept, s') /\ sublist kept (r :: rules) /\
    Forall2 (asked (pre ++ r :: rules, s) (pre ++ kept, s')) kept pollfds /\
    (something = false <-> nothing_asked pollfds)) as Hgone.
  { intros Hf. destruct (cancel r s) as [s1|] eqn:Ec; [|done]. cbn [obind].
    intros (Hs & Hsub & Ha & Hb)%(IH _ _ _ _ _ pre).
    assert (gone (pre ++ r :: rules, s) (pre ++ rules, s1)) as Hg by by constructor.
    split; [by eapply rtc_l|]. split; [by constructor|]. split; [|done].
    eapply Forall2_impl; [exact Ha|]. intros r' p. by apply asked_earlier. }
  destruct (at_eof r s) eqn:Ee; [apply Hgone; by left|].
  destruct (closed (fd r s)) eqn:Ecl; [apply Hgone; by right|]. clear Hgone.
  destruct (setup rules s) as [[[[kept' p'] b'] s1]|] eqn:E; [|done]. cbn [obind]. intros [= <- <- <- <-].
  destruct (IH _ _ _ _ _ (pre ++ [r]) E) as (Hs & Hsub & Ha & Hb). rewrite <- !app_assoc in Hs, Ha.
  split; [done|]. split; [by constructor|]. split; [constructor; [|done]|].
  - exists (pre ++ r :: rules), s. split_and!; [done|done|set_solver| |done].
    intros [?|?]; congruence.
  - unfold nothing_asked in *. rewrite orb_false_iff, Forall_cons, Hb. cbn [events]. pose proof (event_of_nonzero (direction r)).
    destruct (interest r s); naive_solver.
Qed.

Lemma has_0 z : has z 0 = false.
Proof. unfold has. by rewrite Z.land_0_r. Qed.

Lemma service_step r s s' :
  service r s = Ret s' -> callback r s = Ret s' /\ (service_count r s <> service_count r s' \/ interest r s' = false).
Proof.
  unfold service. destruct (callback r s) as [s1|]; [|done]. cbn [obind]. case_match eqn:E; [done|].
  intros [= ->]. split; [done|]. apply andb_false_iff in E as [E|E]; [left; by apply Z.eqb_neq|by right].
Qed.

Lemma dispatch_contract rules : forall pollfds s kept s' pre,
  dispatch rules pollfds s = Ret (kept, s') ->
  steps (pre ++ rules, s) (omap due (zip rules pollfds)) (pre ++ kept, s') /\ sublist kept rules /\
  Forall no_error (zip rules pollfds).
Proof.
  induction rules as [|r rules IH]; intros pollfds s kept s' pre; simpl.
  { intros [= <- <-]. split_and!; constructor. }
  destruct pollfds as [|p pollfds]; [done|]. case_match eqn:Eerr; [done|].
  change (zip (r :: rules) (p :: pollfds)) with ((r, p) :: zip rules pollfds). cbn [omap list_omap due].
  destruct (has (revents p) (events p)) eqn:Er; cbn [negb andb]; rewrite ?andb_false_r, ?andb_true_r.
  - destruct (service r s) as [s1|] eqn:Es; [|done]. cbn [obind]. apply service_step in Es as [Ecb Ecnt].
    destruct (dispatch rules pollfds s1) as [[kept' s2]|] eqn:E; [|done]. intros [= <- <-].
    destruct (IH _ _ _ _ (pre ++ [r]) E) as (Hs & Hsub & Hn). rewrite <- !app_assoc in Hs.
    split_and!; [|by constructor|by constructor]. eapply steps_cons; [|exact Hs]. constructor; [set_solver|done..].
  - rewrite andb_comm. destruct (negb (events p =? 0) && has (revents p) POLLHUP) eqn:Ehup.
    + destruct (cancel r s) as [s1|] eqn:Ec; [|done]. cbn [obind].
      intros (Hs & Hsub & Hn)%(IH _ _ _ _ pre). split_and!; [|by constructor|by constructor].
      eapply steps_cons; [by constructor|exact Hs].
    + cbn [obind]. destruct (dispatch rules pollfds s) as [[kept' s2]|] eqn:E; [|done]. intros [= <- <-].
      destruct (IH _ _ _ _ (pre ++ [r]) E) as (Hs & Hsub & Hn). rewrite <- !app_assoc in Hs.
      split_and!; [done|by constructor|by constructor].
Qed.

(** ** A proof rule for programs on top of the loop

    [I rules s] is the invariant while [rules] are installed.  [P r] holds
    whenever the rule [r] was polled with interest in this round, until its turn
    comes: the other rules do not disturb it. *)

Record loop_spec (I : list Rule -> S -> Prop) (P : Rule -> S -> Prop) : Prop := mkLoopSpec {
  ls_asked rules r s :
    I rules s -> r ∈ rules -> at_eof r s = false -> closed (fd r s) = false -> interest r s = true -> P r s;
  ls_call rules r s s' : I rules s -> r ∈ rules -> P r s -> callback r s = Ret s' -> I rules s';
  ls_cancel pre r post s s' :
    I (pre ++ r :: post) s -> at_eof r s = true \/ closed (fd r s) = true \/ P r s ->
    cancel r s = Ret s' -> I (pre ++ post) s';
  ls_frame rules r r' s s' :
    I rules s -> r ∈ rules -> r' ∈ rules -> r <> r' ->
    (P r s /\ callback r s = Ret s') \/ cancel r s = Ret s' -> P r' s -> P r' s'
}.

Section proof_rule.
Context (I : list Rule -> S -> Prop) (P : Rule -> S -> Prop) (Hspec : loop_spec I P).

(** The rules that were asked for still have their [P]. *)
Definition ready_for (s : S) (r : Rule) (p : pollfd) : Prop := events p <> 0 -> P r s.

Lemma ready_frame rules r s s' rs ps :
  I rules s -> r ∈ rules -> (forall r', r' ∈ rs -> r' ∈ rules /\ r <> r') ->
  (P r s /\ callback r s = Ret s') \/ cancel r s = Ret s' ->
  Forall2 (ready_for s) rs ps -> Forall2 (ready_for s') rs ps.
Proof.
  intros HI Hr Hin Hdo. induction 1 as [|r' p rs ps Hp Hrs IH]; constructor.
  - intros Hev. destruct (Hin r') as [Hr' Hne]; [by left|]. by eapply (ls_frame _ _ Hspec rules r r'); eauto.
  - apply IH. intros r2 H2. apply Hin. by right.
Qed.

Lemma nodup_others pre (r : Rule) post : NoDup (pre ++ r :: post) ->
  forall r', r' ∈ pre ++ post -> r' ∈ pre ++ r :: post /\ r <> r'.
Proof.
  intros Hnd r' Hin. rewrite <- Permutation_middle in Hnd. apply NoDup_cons in Hnd as [Hni _].
  split; [|by intros ->]. rewrite elem_of_app in *. rewrite elem_of_cons. tauto.
Qed.

Lemma nodup_drop pre (r : Rule) post : NoDup (pre ++ r :: post) -> NoDup (pre ++ post).
Proof. rewrite <- Permutation_middle. by intros [_ ?]%NoDup_cons. Qed.

Lemma setup_spec rules : forall pre pps s kept ps b s',
  NoDup (pre ++ rules) -> I (pre ++ rules) s -> Forall2 (ready_for s) pre pps ->
  setup rules s = Ret (kept, ps, b, s') ->
  NoDup (pre ++ kept) /\ I (pre ++ kept) s' /\ Forall2 (ready_for s') (pre ++ kept) (pps ++ ps).
Proof.
  induction rules as [|r rules IH]; intros pre pps s kept ps b s' Hnd HI Hpre; simpl.
  { intros [= <- <- <- <-]. split_and!; try done. by rewrite !app_nil_r. }
  assert (at_eof r s = true \/ closed (fd r s) = true ->
    (try: s0 <- cancel r s; setup rules s0) = Ret (kept, ps, b, s') ->
    NoDup (pre ++ kept) /\ I (pre ++ kept) s' /\ Forall2 (ready_for s') (pre ++ kept) (pps ++ ps)) as Hgone.
  { intros Hdead. destruct (cancel r s) as [s1|] eqn:Ec; [|done]. cbn [obind]. intros Hset.
    eapply (IH pre pps s1); [by eapply nodup_drop| |  |exact Hset].
    - eapply (ls_cancel _ _ Hspec); [exact HI| |exact Ec]. tauto.
    - eapply (ready_frame _ r s s1); [exact HI| | |by right|done].
      + rewrite elem_of_app, elem_of_cons. tauto.
      + intros r' Hr'. eapply nodup_others; [done|]. rewrite elem_of_app. by left. }
  destruct (at_eof r s) eqn:Ee; [apply Hgone; by left|].
  destruct (closed (fd r s)) eqn:Ecl; [apply Hgone; by right|]. clear Hgone.
  destruct (setup rules s) as [[[[kept' p'] b'] s1]|] eqn:E; [|done]. cbn [obind]. intros [= <- <- <- <-].
  specialize (IH (pre ++ [r]) (pps ++ [mkPollfd (fd_num (fd r s)) (if interest r s then event_of (direction r) else 0) 0])).
  rewrite (cons_middle r pre), (cons_middle _ pps), !app_assoc. eapply IH; [by rewrite <- app_assoc..| |exact E].
  apply Forall2_app; [done|]. constructor; [|constructor]. unfold ready_for. simpl.
  destruct (interest r s) eqn:Ei; [|done]. intros _. eapply (ls_asked _ _ Hspec); try done.
  rewrite elem_of_app, elem_of_cons. tauto.
Qed.

Lemma has_nonzero z m : has z m = true -> m <> 0.
Proof. intros Hh ->. by rewrite has_0 in Hh. Qed.

Lemma dispatch_spec rules : forall pre ps s kept s',
  NoDup (pre ++ rules) -> I (pre ++ rules) s -> Forall2 (ready_for s) rules ps ->
  dispatch rules ps s = Ret (kept, s') -> NoDup (pre ++ kept) /\ I (pre ++ kept) s'.
Proof.
  induction rules as [|r rules IH]; intros pre ps s kept s' Hnd HI Ha; simpl.
  { by intros [= <- <-]. }
  inversion Ha as [|? p ? ps' Hp Ha']; subst. case_match eqn:Eerr; [done|].
  assert (r ∈ pre ++ r :: rules) as Hr by (rewrite elem_of_app, elem_of_cons; tauto).
  assert (forall r', r' ∈ rules -> r' ∈ pre ++ r :: rules /\ r <> r') as Hothers.
  { intros r' Hr'. eapply nodup_others; [done|]. rewrite elem_of_app. by right. }
  destruct (has (revents p) POLLHUP && negb (events p =? 0) && negb (has (revents p) (events p))) eqn:Ehup.
  - destruct (cancel r s) as [s1|] eqn:Ec; [|done]. cbn [obind].
    apply andb_true_iff in Ehup as [[_ Ez%negb_true_iff%Z.eqb_neq]%andb_true_iff _].
    apply IH; [by eapply nodup_drop| |].
    + eapply (ls_cancel _ _ Hspec); [exact HI| |exact Ec]. right; right. by apply Hp.
    + eapply ready_frame; [exact HI|exact Hr|exact Hothers|by right|done].
  - clear Ehup. intros Hd.
    assert (exists s1, I (pre ++ r :: rules) s1 /\ Forall2 (ready_for s1) rules ps' /\
      exists kept', dispatch rules ps' s1 = Ret (kept', s') /\ kept = r :: kept') as (s1 & HI1 & Ha1 & kept' & Hrest & ->).
    { destruct (has (revents p) (events p)) eqn:Eready.
      - apply has_nonzero in Eready. destruct (service r s) as [s1|] eqn:Es; [|done]. cbn [obind] in Hd.
        apply service_step in Es as [Ecb _]. exists s1. split; [by eapply (ls_call _ _ Hspec); eauto|].
        split; [eapply ready_frame; [exact HI|exact Hr|exact Hothers|left; auto|done]|].
        destruct (dispatch rules ps' s1) as [[kept' s2]|]; [|done]. injection Hd as <- <-. eauto.
      - cbn [obind] in Hd. exists s. split; [done|]. split; [done|].
        destruct (dispatch rules ps' s) as [[kept' s2]|]; [|done]. injection Hd as <- <-. eauto. }
    rewrite (cons_middle r pre), app_assoc. eapply IH; [..|exact Hrest]; [by rewrite <- app_assoc..|done].
Qed.

Lemma store_ready s kept ps k :
  Forall2 (ready_for s) kept ps -> (length ps <= length (p_revents k))%nat ->
  Forall2 (ready_for s) kept (store_revents ps k).
Proof.
  intros Ha Hl. unfold store_revents. case_match; [done|]. clear H.
  revert Hl. generalize (p_revents k) as rs. induction Ha as [|r p kept ps Hp Ha IH]; intros rs Hl; simpl.
  - constructor.
  - destruct rs as [|x rs]; simpl in *; [lia|]. constructor; [done|]. apply IH. lia.
Qed.
End proof_rule.

(** ** Properties *)

(** [poll] fills the array it is given. *)
Definition poll_fills (poll : list pollfd -> poll_reply) : Prop :=
  forall pollfds, (length pollfds <= length (p_revents (poll pollfds)))%nat.

Definition interrupted (k : poll_reply) : Prop := SystemCall (p_ret k) (p_errno k) 0 = Throw (unix_error EINTR).

(** The three ways out of [wait_next_event]. *)
Lemma wait_cases poll rules s res rules' s' :
  wait_next_event poll rules s = Ret (res, rules', s') ->
  exists kept pollfds something s1, setup rules s = Ret (kept, pollfds, something, s1) /\
  ((res <> Success /\ rules' = kept /\ s' = s1 /\
    (res = Exit -> something = false \/ interrupted (poll pollfds)) /\
    (res = Timeout -> something = true /\ i32 (p_ret (poll pollfds)) = 0)) \/
   (res = Success /\ something = true /\ i32 (p_ret (poll pollfds)) <> 0 /\ ~ interrupted (poll pollfds) /\
    dispatch kept (store_revents pollfds (poll pollfds)) s1 = Ret (rules', s'))).
Proof.
  unfold wait_next_event. destruct (setup rules s) as [[[[kept ps] b] s1]|]; [|done]. cbn [obind].
  intros Hw. exists kept, ps, b, s1. split; [done|].
  destruct b; cbn [negb] in Hw; [|injection Hw as <- <- <-; left; naive_solver].
  unfold interrupted. destruct (SystemCall _ _ _) as [n|e] eqn:Ek.
  - assert (i32 (p_ret (poll ps)) = n) as Hn by (clear Hw; unfold SystemCall in Ek; case_match; congruence).
    destruct (Z.eqb_spec n 0) as [->|].
    + injection Hw as <- <- <-. left. by split_and!.
    + right. apply obind_Ret in Hw as ([r2 s2] & -> & [= <- <- <-]). split_and!; (done || congruence).
  - destruct e as [| | |code|]; try done. destruct (Z.eqb_spec code EINTR) as [->|].
    + injection Hw as <- <- <-. left. naive_solver.
    + right. apply obind_Ret in Hw as ([r2 s2] & -> & [= <- <- <-]). split_and!; try congruence.
      unfold SystemCall in Ek. intros H0. by rewrite H0 in Ek.
Qed.

Lemma wait_sublist poll rules s res rules' s' :
  wait_next_event poll rules s = Ret (res, rules', s') -> sublist rules' rules.
Proof.
  intros Hw. apply wait_cases in Hw as (kept & ps & b & s1 & Hset & Hres).
  destruct (setup_contract _ _ _ _ _ _ [] Hset) as (_ & Hsub & _).
  destruct Hres as [(_ & -> & _)|(_ & _ & _ & _ & Hd)]; [done|].
  destruct (dispatch_contract _ _ _ _ _ [] Hd) as (_ & Hsub' & _). by etrans.
Qed.

(** The proof rule: a round of the loop keeps the invariant. *)
Lemma wait_preserves I P poll rules s res rules' s' :
  loop_spec I P -> poll_fills poll -> NoDup rules -> I rules s ->
  wait_next_event poll rules s = Ret (res, rules', s') -> NoDup rules' /\ I rules' s'.
Proof.
  intros Hspec Hp Hnd HI Hw. apply wait_cases in Hw as (kept & ps & b & s1 & Hset & Hres).
  destruct (setup_spec I P Hspec rules [] [] s kept ps b s1 Hnd HI ltac:(constructor) Hset) as (Hnd1 & HI1 & Ha).
  destruct Hres as [(_ & -> & -> & _)|(_ & _ & _ & _ & Hd)]; [done|].
  eapply (dispatch_spec I P Hspec kept []); [done|done| |exact Hd]. by apply store_ready.
Qed.

(** A rule that lost interest does not regain it when a later rule is
    cancelled. *)
Fixpoint stable (rules : list Rule) : Prop :=
  match rules with
  | [] => True
  | r :: rules =>
      (forall r' s s', r' ∈ rules -> cancel r' s = Ret s' -> interest r s = false -> interest r s' = false) /\
      stable rules
  end.

Lemma stable_sublist rules rules' : sublist rules' rules -> stable rules -> stable rules'.
Proof.
  induction 1 as [|r l1 l2 Hsub IH|r l1 l2 Hsub IH]; simpl; [done|..]; intros [Hr Hst]; [|auto].
  split; [|auto]. intros r' s s' Hin. eapply Hr, elem_of_sublist; eauto.
Qed.

Lemma setup_keeps (r : Rule) rules : forall s kept ps b s',
  (forall r' s s', r' ∈ rules -> cancel r' s = Ret s' -> interest r s = false -> interest r s' = false) ->
  setup rules s = Ret (kept, ps, b, s') -> interest r s = false -> interest r s' = false.
Proof.
  induction rules as [|r' rules IH]; intros s kept ps b s' Hst; simpl; [by intros [= <- <- <- <-]|].
  assert (forall s1, (try: s0 <- cancel r' s; setup rules s0) = Ret (kept, ps, b, s1) ->
    interest r s = false -> interest r s1 = false) as Hgo.
  { intros s1. destruct (cancel r' s) as [s2|] eqn:Ec; [|done]. cbn [obind]. intros Hs Hi.
    eapply IH; [|exact Hs|]; [intros r2 ? ? Hin; apply Hst; by right|]. eapply Hst; [by left|done..]. }
  case_match; [apply Hgo|]. case_match; [apply Hgo|].
  destruct (setup rules s) as [[[[kept' p'] b'] s1]|] eqn:E; [|done]. cbn [obind].
  intros [= <- <- <- <-]. eapply IH; [|exact E]. intros r2 ? ? Hin; apply Hst; by right.
Qed.

Lemma setup_idle rules : forall s kept ps s',
  stable rules -> setup rules s = Ret (kept, ps, false, s') -> Forall (fun r => interest r s' = false) kept.
Proof.
  induction rules as [|r rules IH]; intros s kept ps s' Hst; simpl; [by intros [= <- <- <-]|].
  destruct Hst as [Hr Hst].
  assert ((try: s0 <- cancel r s; setup rules s0) = Ret (kept, ps, false, s') ->
    Forall (fun r => interest r s' = false) kept) as Hgo.
  { destruct (cancel r s) as [s2|] eqn:Ec; [|done]. cbn [obind]. by apply IH. }
  case_match; [apply Hgo|]. case_match; [apply Hgo|].
  destruct (setup rules s) as [[[[kept' p'] b'] s1]|] eqn:E; [|done]. cbn [obind].
  intros [= <- <- Hb <-]. apply orb_false_iff in Hb as [Hi ->]. constructor.
  - by eapply setup_keeps.
  - by eapply IH.
Qed.

Lemma exit_idle poll rules s rules' s' :
  stable rules -> (forall ps, ~ interrupted (poll ps)) ->
  wait_next_event poll rules s = Ret (Exit, rules', s') -> Forall (fun r => interest r s' = false) rules'.
Proof.
  intros Hst Hi Hw. apply wait_cases in Hw as (kept & ps & b & s1 & Hset & Hres).
  destruct Hres as [(_ & -> & -> & He & _)|[? _]]; [|done].
  destruct (He eq_refl) as [->|?]; [|by destruct (Hi ps)]. by eapply setup_idle.
Qed.

(** C22 When it returns, [wait_next_event] has kept its contract, whatever [poll]
    answers.  First it
    cancels and removes rules whose descriptor is at the end of its file or
    closed, and nothing else; for every rule it keeps it asks [poll] for the event
    of the rule if the rule was interested when it was looked at, and for nothing
    otherwise.  It returns [Exit] when nothing is asked for (then no rule is
    interested at the end either, provided that cancelling a rule does not revive
    the interest of an earlier one) or when a signal interrupted [poll], and
    [Timeout] when something is asked for and [poll] returned 0; in both cases no
    callback ran.  Otherwise it returns [Success], no descriptor had an error, and
    what happened is exactly what the answer of [poll] calls for, once for each
    rule and in their order: a rule whose event is ready has its callback called
    (which used its descriptor or lost interest: a busy callback makes
    [wait_next_event] throw), a rule that was asked for and only hung up is
    cancelled and removed, and the others are left alone. *)
Theorem wait_refines poll rules s res rules' s' :
  wait_next_event poll rules s = Ret (res, rules', s') ->
  exists kept pollfds s1,
    rtc gone (rules, s) (kept, s1) /\ Forall2 (asked (rules, s) (kept, s1)) kept pollfds /\
    let reply := poll pollfds in
    match res with
    | Exit => rules' = kept /\ s' = s1 /\
        ((nothing_asked pollfds /\ (stable rules -> Forall (fun r => interest r s' = false) rules')) \/ interrupted reply)
    | Timeout => rules' = kept /\ s' = s1 /\ ~ nothing_asked pollfds /\ i32 (p_ret reply) = 0
    | Success =>
        let answer := zip kept (store_revents pollfds reply) in
        ~ nothing_asked pollfds /\ i32 (p_ret reply) <> 0 /\ ~ interrupted reply /\
        Forall no_error answer /\ steps (kept, s1) (omap due answer) (rules', s')
    end.
Proof.
  intros Hw. apply wait_cases in Hw as (kept & ps & b & s1 & Hset & Hres).
  destruct (setup_contract _ _ _ _ _ _ [] Hset) as (Hs & _ & Ha & Hb). exists kept, ps, s1. split; [done|]. split; [done|].
  assert (b = true -> ~ nothing_asked ps) as Hsome by (intros -> ?%Hb; done).
  destruct Hres as [(Hne & -> & -> & He & Ht)|(-> & Hbt & Hr & Hi & Hd)].
  - destruct res; [done| |]; (split; [done|]); (split; [done|]).
    + destruct (Ht eq_refl). auto.
    + destruct (He eq_refl) as [->|?]; [left|by right]. split; [by apply Hb|]. intros Hst. by eapply setup_idle.
  - destruct (dispatch_contract _ _ _ _ _ [] Hd) as (Hst & _ & Hn). split_and!; auto.
Qed.

Lemma dispatch_quiet rules : forall pollfds s,
  Forall2 (fun _ p => revents p = 0) rules pollfds -> dispatch rules pollfds s = Ret (rules, s).
Proof.
  intros pollfds s Hq. induction Hq as [|r p rules pollfds Hp Hq IH]; simpl; [done|].
  unfold has. rewrite Hp, !Z.land_0_l. simpl. by rewrite IH.
Qed.

Lemma setup_zero rules : forall s kept pollfds b s',
  setup rules s = Ret (kept, pollfds, b, s') -> Forall2 (fun _ p => revents p = 0) kept pollfds.
Proof.
  induction rules as [|r rules IH]; intros s kept pollfds b s'; simpl; [intros [= <- <- <- <-]; constructor|].
  assert ((try: s0 <- cancel r s; setup rules s0) = Ret (kept, pollfds, b, s') ->
    Forall2 (fun _ p => revents p = 0) kept pollfds) as Hgo.
  { destruct (cancel r s); [|done]. cbn [obind]. apply IH. }
  case_match; [apply Hgo|]. case_match; [apply Hgo|].
  destruct (setup rules s) as [[[[kept' p'] b'] s1]|] eqn:E; [|done]. cbn [obind].
  intros [= <- <- <- <-]. constructor; [done|]. by eapply IH.
Qed.

(** A failing [poll] goes unnoticed: when it returns an error other than an
    interruption, the exception is caught, no rule is looked at, and the result
    is [Success], although the documentation announces a runtime error. *)
Theorem poll_error_swallowed poll rules s kept pollfds s1 code :
  setup rules s = Ret (kept, pollfds, true, s1) ->
  p_ret (poll pollfds) = -1 -> p_errno (poll pollfds) = code -> code <> 0 -> code <> EINTR ->
  wait_next_event poll rules s = Ret (Success, kept, s1).
Proof.
  intros Hset Hr He H0 Hi. unfold wait_next_event. rewrite Hset. cbn [obind negb].
  unfold SystemCall. rewrite Hr, He. change (0 <=? i32 (-1)) with false. simpl.
  destruct (Z.eqb_spec code 0); [done|]. destruct (Z.eqb_spec code EINTR); [done|].
  unfold store_revents. rewrite Hr. simpl. by rewrite dispatch_quiet by by eapply setup_zero.
Qed.

End eventloop.
Arguments Rule S : clear implicits.

(** Witnesses: one rule that reads its descriptor. *)

Definition demo_rule : Rule FDWrapper :=
  mkRule id In (fun w => Ret (register_read w)) (fun _ => true) (fun w => Ret w).
Definition demo_fd : FDWrapper := mkFD 3 false false 0 0.
Definition demo_poll (pollfds : list pollfd) : poll_reply :=
  mkPollReply 1 0 (map (fun _ => POLLIN) pollfds).

(** A rule whose file is finished, one that is ready, and one that hung up. *)
Definition demo_slot (i : nat) (d : Direction) : Rule (list FDWrapper) :=
  mkRule (fun fds => nth i fds (mkFD 0 true true 0 0)) d (fun fds => Ret (alter register_read i fds)) (fun _ => true) (fun fds => Ret fds).
Definition demo_slots : list (Rule (list FDWrapper)) := [demo_slot 0 In; demo_slot 1 In; demo_slot 2 Out].
Definition demo_fds : list FDWrapper := [mkFD 3 true false 0 0; mkFD 4 false false 0 0; mkFD 5 false false 0 0].
Definition demo_answer (pollfds : list pollfd) : poll_reply := mkPollReply 2 0 [POLLIN; POLLHUP].

Lemma wait_refines_witness :
  wait_next_event demo_answer demo_slots demo_fds = Ret (Success, [demo_slot 1 In], alter register_read 1%nat demo_fds) /\
  exists kept pollfds s1, rtc gone (demo_slots, demo_fds) (kept, s1) /\
    let answer := zip kept (store_revents pollfds (demo_answer pollfds)) in
    steps (kept, s1) (omap due answer) ([demo_slot 1 In], alter register_read 1%nat demo_fds).
Proof.
  split; [reflexivity|].
  destruct (wait_refines demo_answer demo_slots demo_fds Success [demo_slot 1 In] (alter register_read 1%nat demo_fds) eq_refl)
    as (kept & pollfds & s1 & Hg & _ & _ & _ & _ & _ & Hs).
  exists kept, pollfds, s1. split; [exact Hg|exact Hs].
Defined.

Lemma poll_error_swallowed_witness :
  wait_next_event (fun _ => mkPollReply (-1) 22 []) [demo_rule] demo_fd = Ret (Success, [demo_rule], demo_fd).
Proof.
  apply (poll_error_swallowed (fun _ => mkPollReply (-1) 22 []) [demo_rule] demo_fd [demo_rule]
    [mkPollfd 3 POLLIN 0] demo_fd 22); [reflexivity..|lia|discriminate].
Defined.
