(* ===== verification/StreamCopy.v ===== *)
(** * StreamCopy: standard input to a socket, and back to standard output

    Models [src/apps/bidirectional_stream_copy.cc]: the four rules installed in
    the event loop and the loop that runs them.  The state holds the three
    descriptors, the two byte streams and the two flags of the function; next to
    them it records what was read from and written to each descriptor.

    The theorems hold for every kernel and every order of events: what reached
    the socket followed by what is buffered is what was read from the input
    (and the same in the other direction); the socket is shut down, and the
    output closed, only after everything was passed on; and when the function
    returns without an error on a stream nothing is left in it. *)

From S2P Require Import Prelude ByteStream Buffer FileDescriptor EventLoop.

Definition max_copy_length : Z := 65536.
Definition buffer_size_limit : Z := 1048576.

Record copy := mkCopy {
  _input : FDWrapper;
  _output : FDWrapper;
  socket : FDWrapper;
  _outbound : ByteStream;
  _inbound : ByteStream;
  _outbound_shutdown : bool;
  _inbound_shutdown : bool;
  clock : nat;
  from_input : bytes;
  to_socket : bytes;
  from_socket : bytes;
  to_output : bytes
}.

(** The state when the loop starts, for a connected socket; [set_blocking] does
    not change the descriptors' wrappers. *)
Definition start (sock : FDWrapper) : copy :=
  mkCopy (mkFD 0 false false 0 0) (mkFD 1 false false 0 0) sock
    (ByteStream.new buffer_size_limit) (ByteStream.new buffer_size_limit) false false 0 [] [] [] [].

Section rules.
Context `{Kernel}.

(** *** Rule 1: from the input into the outbound stream *)

Definition read_input (s : copy) : outcome copy :=
  try: (fd, data) <- FileDescriptor.read (clock s) (_input s) (remaining_capacity (_outbound s));
  let o := fst (ByteStream.write (_outbound s) data) in
  let o := if fd_eof fd then end_input o else o in
  Ret (mkCopy fd (_output s) (socket s) o (_inbound s) (_outbound_shutdown s) (_inbound_shutdown s)
         (S (clock s)) (from_input s ++ data) (to_socket s) (from_socket s) (to_output s)).

Definition wants_input (s : copy) : bool :=
  negb (error (_outbound s)) && (0 <? remaining_capacity (_outbound s)) && negb (error (_inbound s)).

Definition set_outbound (s : copy) (o : ByteStream) : copy :=
  mkCopy (_input s) (_output s) (socket s) o (_inbound s) (_outbound_shutdown s) (_inbound_shutdown s)
    (clock s) (from_input s) (to_socket s) (from_socket s) (to_output s).

Definition input_cancelled (s : copy) : outcome copy := Ret (set_outbound s (end_input (_outbound s))).

(** *** Rule 2: from the outbound stream into the socket *)

Definition write_socket (s : copy) : outcome copy :=
  let bytes_to_write := Z.min max_copy_length (buffer_size (_outbound s)) in
  try: r <- FileDescriptor.write (clock s) (socket s)
              (BufferViewList_of (peek_output (_outbound s) bytes_to_write)) false;
  let o := pop_output (_outbound s) (wr_total r) in
  let next (sock : FDWrapper) (shut : bool) (t : nat) :=
    mkCopy (_input s) (_output s) sock o (_inbound s) shut (_inbound_shutdown s)
      t (from_input s) (to_socket s ++ taken r) (from_socket s) (to_output s) in
  if eof o then try: sock <- shutdown (wr_time r) (wr_fd r) SHUT_WR; Ret (next sock true (S (wr_time r)))
  else Ret (next (wr_fd r) (_outbound_shutdown s) (wr_time r)).

Definition wants_socket (s : copy) : bool :=
  negb (buffer_empty (_outbound s)) || (eof (_outbound s) && negb (_outbound_shutdown s)).

Definition socket_cancelled (s : copy) : outcome copy := Ret (set_outbound s (set_error (_outbound s))).

(** *** Rule 3: from the socket into the inbound stream *)

Definition read_socket (s : copy) : outcome copy :=
  try: (fd, data) <- FileDescriptor.read (clock s) (socket s) (remaining_capacity (_inbound s));
  let i := fst (ByteStream.write (_inbound s) data) in
  let i := if fd_eof fd then end_input i else i in
  Ret (mkCopy (_input s) (_output s) fd (_outbound s) i (_outbound_shutdown s) (_inbound_shutdown s)
         (S (clock s)) (from_input s) (to_socket s) (from_socket s ++ data) (to_output s)).

Definition wants_reply (s : copy) : bool :=
  negb (error (_inbound s)) && (0 <? remaining_capacity (_inbound s)) && negb (error (_outbound s)).

Definition set_inbound (s : copy) (i : ByteStream) : copy :=
  mkCopy (_input s) (_output s) (socket s) (_outbound s) i (_outbound_shutdown s) (_inbound_shutdown s)
    (clock s) (from_input s) (to_socket s) (from_socket s) (to_output s).

Definition reply_cancelled (s : copy) : outcome copy := Ret (set_inbound s (end_input (_inbound s))).

(** *** Rule 4: from the inbound stream into the output *)

Definition write_output (s : copy) : outcome copy :=
  let bytes_to_write := Z.min max_copy_length (buffer_size (_inbound s)) in
  try: r <- FileDescriptor.write (clock s) (_output s)
              (BufferViewList_of (peek_output (_inbound s) bytes_to_write)) false;
  let i := pop_output (_inbound s) (wr_total r) in
  let next (out : FDWrapper) (shut : bool) (t : nat) :=
    mkCopy (_input s) out (socket s) (_outbound s) i (_outbound_shutdown s) shut
      t (from_input s) (to_socket s) (from_socket s) (to_output s ++ taken r) in
  if eof i then try: out <- close (wr_time r) (wr_fd r); Ret (next out true (S (wr_time r)))
  else Ret (next (wr_fd r) (_inbound_shutdown s) (wr_time r)).

Definition wants_output (s : copy) : bool :=
  negb (buffer_empty (_inbound s)) || (eof (_inbound s) && negb (_inbound_shutdown s)).

Definition output_cancelled (s : copy) : outcome copy := Ret (set_inbound s (set_error (_inbound s))).

(** *** The loop *)

Definition rules : list (Rule copy) :=
  let rules := add_rule [] _input In read_input wants_input input_cancelled in
  let rules := add_rule rules socket Out write_socket wants_socket socket_cancelled in
  let rules := add_rule rules socket In read_socket wants_reply reply_cancelled in
  add_rule rules _output Out write_output wants_output output_cancelled.

(** [n] rounds at most; the rules and the state, and whether the function
    returned.  [poll t] answers the [poll] of round [t]. *)
Fixpoint copy_loop (n : nat) (poll : nat -> list pollfd -> poll_reply) (rs : list (Rule copy)) (s : copy)
    : outcome (bool * list (Rule copy) * copy) :=
  match n with
  | O => Ret (false, rs, s)
  | S n =>
      try: (res, rs, s) <- wait_next_event (poll 0%nat) rs s;
      if bool_decide (res = Exit) then Ret (true, rs, s)
      else copy_loop n (fun t => poll (S t)) rs s
  end.

Definition bidirectional_stream_copy (n : nat) (poll : nat -> list pollfd -> poll_reply) (sock : FDWrapper)
    : outcome (bool * list (Rule copy) * copy) := copy_loop n poll rules (start sock).

(** ** Invariant *)

Definition rule1 : Rule copy := mkRule _input In read_input wants_input input_cancelled.
Definition rule2 : Rule copy := mkRule socket Out write_socket wants_socket socket_cancelled.
Definition rule3 : Rule copy := mkRule socket In read_socket wants_reply reply_cancelled.
Definition rule4 : Rule copy := mkRule _output Out write_output wants_output output_cancelled.

Lemma rules_eq : rules = [rule1; rule2; rule3; rule4].
Proof. done. Qed.

(** One direction: [src] was put into the stream [st], [sink] was taken from it.
    [alive] says whether its source can still deliver, [shut] whether its sink
    was told the end. *)
Record flows (src sink : bytes) (st : ByteStream) (alive shut : bool) : Prop := mkFlows {
  fl_inv : ByteStream.inv st;
  fl_cap : _capacity st = buffer_size_limit;
  fl_data : sink ++ _buf st = src;
  fl_end : input_ended st = true -> alive = false;
  fl_shut : shut = true -> eof st = true
}.

(** Membership of a rule, by its position among the four. *)
Record inv (rs : list (Rule copy)) (s : copy) : Prop := mkInv {
  inv_rules : sublist rs rules;
  inv_out : exists alive, flows (from_input s) (to_socket s) (_outbound s) alive (_outbound_shutdown s) /\
    (rule1 ∈ rs -> fd_eof (_input s) = false -> alive = true);
  inv_in : exists alive, flows (from_socket s) (to_output s) (_inbound s) alive (_inbound_shutdown s) /\
    (rule3 ∈ rs -> fd_eof (socket s) = false -> alive = true);
  inv_sink2 : rule2 ∈ rs \/ error (_outbound s) = true;
  inv_sink4 : rule4 ∈ rs \/ error (_inbound s) = true
}.

(** What a rule that was polled with interest relies on. *)
Definition polled (r : Rule copy) (s : copy) : Prop := at_eof r s = false.

(** *** The streams *)
Lemma flows_dead src sink st alive shut : flows src sink st alive shut -> flows src sink st false shut.
Proof. by intros []. Qed.

Lemma flows_end src sink st alive shut : flows src sink st alive shut -> flows src sink (end_input st) false shut.
Proof.
  intros [Hi Hc Hd He Hs]. constructor; auto with sponge. intros Hsh. specialize (Hs Hsh).
  unfold eof in *. apply andb_true_iff in Hs as [_ Hs]. exact Hs.
Qed.

Lemma flows_error src sink st alive shut : flows src sink st alive shut -> flows src sink (set_error st) alive shut.
Proof. intros [Hi Hc Hd He Hs]. constructor; auto with sponge. Qed.

(** A source that is alive delivers [data], which fits. *)
Lemma flows_write src sink st shut data :
  flows src sink st true shut -> zlen data <= remaining_capacity st ->
  flows (src ++ data) sink (fst (ByteStream.write st data)) true shut.
Proof.
  intros [Hi Hc Hd He Hs] Hfit. constructor; auto with sponge.
  - rewrite write_buf, ztake_all by done. by rewrite app_assoc, Hd.
  - intros Hsh. specialize (Hs Hsh). unfold eof in Hs. apply andb_true_iff in Hs as [Hen _].
    by specialize (He Hen).
Qed.

(** The sink takes [n] bytes. *)
Lemma flows_pop src sink st alive shut n :
  flows src sink st alive shut -> 0 <= n <= zlen (_buf st) ->
  flows src (sink ++ ztake n (_buf st)) (pop_output st n) alive shut.
Proof.
  intros [Hi Hc Hd He Hs] Hn. constructor; auto using inv_pop_output; simpl.
  - rewrite <- app_assoc, ztake_zdrop. done.
  - intros Hsh. specialize (Hs Hsh). unfold eof, buffer_empty in *. simpl.
    apply andb_true_iff in Hs as [He' Hb%Z.eqb_eq]. apply zlen_0_inv in Hb. rewrite Hb in *.
    apply andb_true_iff. split; [done|]. by rewrite zdrop_all by (lens_nil; lia).
Qed.

Lemma flows_shut src sink st alive shut :
  flows src sink st alive shut -> eof st = true -> flows src sink st alive true.
Proof. by intros []. Qed.

Lemma write_error st data : error (fst (ByteStream.write st data)) = error st.
Proof. done. Qed.

(** *** One call on a descriptor *)

(** What a partial write of the front of a stream takes from it. *)
Lemma drain_spec t w st r :
  FileDescriptor.write t w (BufferViewList_of (peek_output st (Z.min max_copy_length (ByteStream.buffer_size st)))) false
    = Ret r ->
  0 <= wr_total r <= zlen (_buf st) /\ taken r = ztake (wr_total r) (_buf st) /\ _eof (wr_fd r) = _eof w.
Proof.
  unfold peek_output, ByteStream.buffer_size, max_copy_length. pose proof (zlen_nonneg (_buf st)).
  apply write_front; lia.
Qed.

Lemma shutdown_eof t w how w' : shutdown t w how = Ret w' -> _eof w' = _eof w.
Proof.
  unfold shutdown. destruct (checked _); [|done]. cbn [obind]. repeat case_match; by intros [= <-].
Qed.

(** *** The rules keep the invariant *)
Lemma read_input_inv rs s s' :
  inv rs s -> rule1 ∈ rs -> polled rule1 s -> read_input s = Ret s' -> inv rs s' /\ socket s' = socket s.
Proof.
  intros [Hsub (al & Hf & Hal) Hin H2 H4] Hr Hp Hc. unfold polled, at_eof in Hp. simpl in Hp.
  rewrite (Hal Hr Hp) in Hf. unfold read_input in Hc.
  destruct (FileDescriptor.read _ _ _) as [[w data]|] eqn:Er; [|done]. injection Hc as <-.
  apply read_spec in Er as [Hlen Heof _ _].
  pose proof (flows_write _ _ _ _ data Hf ltac:(lia)) as Hf'. split; [|done].
  constructor; simpl; try done.
  - unfold fd_eof. destruct (_eof w) eqn:Ew.
    + exists false. split; [by eapply flows_end|]. by intros _ ?.
    + exists true. split; done.
  - destruct H2 as [?|He]; [by left|right]. by destruct (fd_eof w).
Qed.

Lemma read_socket_inv rs s s' :
  inv rs s -> rule3 ∈ rs -> polled rule3 s -> read_socket s = Ret s' -> inv rs s' /\ _input s' = _input s.
Proof.
  intros [Hsub Hout (al & Hf & Hal) H2 H4] Hr Hp Hc. unfold polled, at_eof in Hp. simpl in Hp.
  rewrite (Hal Hr Hp) in Hf. unfold read_socket in Hc.
  destruct (FileDescriptor.read _ _ _) as [[w data]|] eqn:Er; [|done]. injection Hc as <-.
  apply read_spec in Er as [Hlen Heof _ _].
  pose proof (flows_write _ _ _ _ data Hf ltac:(lia)) as Hf'. split; [|done].
  constructor; simpl; try done.
  - unfold fd_eof. destruct (_eof w) eqn:Ew.
    + exists false. split; [by eapply flows_end|]. by intros _ ?.
    + exists true. split; done.
  - destruct H4 as [?|He]; [by left|right]. by destruct (fd_eof w).
Qed.

Lemma write_socket_inv rs s s' :
  inv rs s -> write_socket s = Ret s' ->
  inv rs s' /\ _input s' = _input s /\ _eof (socket s') = _eof (socket s).
Proof.
  intros [Hsub (al & Hf & Hal) (al3 & Hf3 & Hal3) H2 H4] Hc. unfold write_socket in Hc.
  destruct (FileDescriptor.write _ _ _ _) as [r|] eqn:Ew; [|done]. cbn [obind] in Hc.
  apply drain_spec in Ew as (Hn & Ht & He).
  pose proof (flows_pop _ _ _ _ _ (wr_total r) Hf Hn) as Hf'. rewrite <- Ht in Hf'.
  destruct (eof (pop_output (_outbound s) (wr_total r))) eqn:Eeof.
  - destruct (shutdown _ _ _) as [sock|] eqn:Esh; [|done]. cbn [obind] in Hc. injection Hc as <-.
    apply shutdown_eof in Esh. split; [|by rewrite <- He, <- Esh]. constructor; simpl; try done.
    + exists al. split; [by eapply flows_shut|done].
    + exists al3. split; [done|]. unfold fd_eof. by rewrite Esh, He.
  - injection Hc as <-. split; [|done]. constructor; simpl; try done.
    + by exists al.
    + exists al3. split; [done|]. unfold fd_eof. by rewrite He.
Qed.

Lemma write_output_inv rs s s' :
  inv rs s -> write_output s = Ret s' -> inv rs s' /\ _input s' = _input s /\ socket s' = socket s.
Proof.
  intros [Hsub Hout (al & Hf & Hal) H2 H4] Hc. unfold write_output in Hc.
  destruct (FileDescriptor.write _ _ _ _) as [r|] eqn:Ew; [|done]. cbn [obind] in Hc.
  apply drain_spec in Ew as (Hn & Ht & He).
  pose proof (flows_pop _ _ _ _ _ (wr_total r) Hf Hn) as Hf'. rewrite <- Ht in Hf'.
  destruct (eof (pop_output (_inbound s) (wr_total r))) eqn:Eeof.
  - destruct (close _ _) as [out|] eqn:Esh; [|done]. cbn [obind] in Hc. injection Hc as <-.
    split; [|done]. constructor; simpl; try done. exists al. split; [by eapply flows_shut|done].
  - injection Hc as <-. split; [|done]. constructor; simpl; try done. by exists al.
Qed.

(** Rules on different descriptors differ. *)
Lemma rules_apart (r r' : Rule copy) s : fd r s <> fd r' s -> r <> r'.
Proof. by intros Hne ->. Qed.

Definition apart_state : copy :=
  mkCopy (mkFD 0 false false 0 0) (mkFD 1 false false 0 0) (mkFD 2 false false 0 0)
    (ByteStream.new 0) (ByteStream.new 0) false false 0 [] [] [] [].

Lemma rule1_rule3 : rule1 <> rule3.
Proof. by apply (rules_apart _ _ apart_state). Qed.

Lemma rule2_rule4 : rule2 <> rule4.
Proof. by apply (rules_apart _ _ apart_state). Qed.

Lemma rules_nodup : NoDup rules.
Proof.
  pose proof rule1_rule3. pose proof rule2_rule4. rewrite rules_eq.
  repeat constructor; rewrite ?elem_of_cons, ?elem_of_nil; intuition; discriminate.
Qed.

Lemma inv_nodup rs s : inv rs s -> NoDup rs.
Proof. intros [Hsub _ _ _ _]. by eapply sublist_NoDup; [apply rules_nodup|]. Qed.

Lemma inv_member rs s r : inv rs s -> r ∈ rs -> r = rule1 \/ r = rule2 \/ r = rule3 \/ r = rule4.
Proof.
  intros [Hsub _ _ _ _] Hr. assert (r ∈ rules) as Hr' by by eapply elem_of_sublist.
  rewrite rules_eq, !elem_of_cons, elem_of_nil in Hr'. tauto.
Qed.

Lemma kept_in (x r : Rule copy) pre post : x ∈ pre ++ post -> x ∈ pre ++ r :: post.
Proof. rewrite !elem_of_app, elem_of_cons. tauto. Qed.

Lemma kept_other (x r : Rule copy) pre post P : x ∈ pre ++ r :: post \/ P -> x <> r -> x ∈ pre ++ post \/ P.
Proof. rewrite !elem_of_app, elem_of_cons. tauto. Qed.

Lemma removed (r : Rule copy) pre post : NoDup (pre ++ r :: post) -> r ∉ pre ++ post.
Proof. rewrite <- Permutation_middle. by intros [? _]%NoDup_cons. Qed.

(** Cancelling a rule, in any state. *)
Lemma cancel_inv pre r post s s' :
  inv (pre ++ r :: post) s -> cancel r s = Ret s' ->
  inv (pre ++ post) s' /\ _input s' = _input s /\ socket s' = socket s.
Proof.
  intros HI Hc. pose proof (inv_nodup _ _ HI) as Hnd. pose proof (removed _ _ _ Hnd) as Hrem.
  destruct (inv_member _ _ r HI) as [-> | [-> | [-> | ->]]]; [rewrite elem_of_app, elem_of_cons; tauto|..];
    injection Hc as <-; destruct HI as [Hsub (al & Hf & Hal) (al3 & Hf3 & Hal3) H2 H4];
    (split; [|done]); constructor; simpl.
  all: try (etrans; [|exact Hsub]; by apply sublist_app, sublist_cons).
  all: try (apply (kept_other _ _ _ _ _ H2); discriminate).
  all: try (apply (kept_other _ _ _ _ _ H4); discriminate).
  all: try by right.
  - exists false. split; [by eapply flows_end|done].
  - exists al3. split; [done|]. eauto using kept_in.
  - exists al. split; [by apply flows_error|]. eauto using kept_in.
  - exists al3. split; [done|]. eauto using kept_in.
  - apply (kept_other _ _ _ _ _ H4). by intros ?%eq_sym%rule2_rule4.
  - exists al. split; [done|]. eauto using kept_in.
  - exists false. split; [by eapply flows_end|done].
  - exists al. split; [done|]. eauto using kept_in.
  - exists al3. split; [by apply flows_error|]. eauto using kept_in.
  - apply (kept_other _ _ _ _ _ H2), rule2_rule4.
Qed.

(** The end-of-file flags a callback can raise are its own. *)
Lemma callback_frame rs r s s' :
  inv rs s -> r ∈ rs -> polled r s -> callback r s = Ret s' ->
  inv rs s' /\ (r <> rule1 -> _eof (_input s') = _eof (_input s)) /\
  (r <> rule3 -> _eof (socket s') = _eof (socket s)).
Proof.
  intros HI Hr Hp Hc. destruct (inv_member _ _ r HI Hr) as [-> | [-> | [-> | ->]]].
  - destruct (read_input_inv _ _ _ HI Hr Hp Hc) as [? ->]. done.
  - destruct (write_socket_inv _ _ _ HI Hc) as (? & -> & ?). done.
  - destruct (read_socket_inv _ _ _ HI Hr Hp Hc) as [? ->]. done.
  - destruct (write_output_inv _ _ _ HI Hc) as (? & -> & ->). done.
Qed.

Lemma copy_spec : loop_spec inv polled.
Proof.
  constructor.
  - done.
  - intros rs r s s' HI Hr Hp Hc. by eapply callback_frame.
  - intros pre r post s s' HI _ Hc. by eapply cancel_inv.
  - intros rs r r' s s' HI Hr Hr' Hne Hdo Hp. unfold polled, at_eof, fd_eof in *.
    assert ((r <> rule1 -> _eof (_input s') = _eof (_input s)) /\
      (r <> rule3 -> _eof (socket s') = _eof (socket s))) as [H1 H3].
    { destruct Hdo as [[Hpr Hc]|Hc]; [by eapply callback_frame|].
      apply list_elem_of_split in Hr as (pre & post & ->).
      destruct (cancel_inv _ _ _ _ _ HI Hc) as (_ & -> & ->). done. }
    destruct (inv_member _ _ r' HI Hr') as [-> | [-> | [-> | ->]]]; simpl in *; try done.
    + by rewrite H1.
    + by rewrite H3.
Qed.

(** *** The loop *)
Lemma copy_inv_start sock : inv rules (start sock).
Proof.
  assert (flows [] [] (ByteStream.new buffer_size_limit) true false) as Hf.
  { constructor; [by apply stream_inv_new|done..]. }
  rewrite rules_eq. constructor; simpl.
  - done.
  - by exists true.
  - by exists true.
  - left. rewrite !elem_of_cons. tauto.
  - left. rewrite !elem_of_cons. tauto.
Qed.

Lemma rules_stable : stable rules.
Proof.
  rewrite rules_eq. simpl. split_and!; try done.
  all: intros r s s' Hin Hc; rewrite ?elem_of_cons, ?elem_of_nil in Hin;
    repeat (destruct Hin as [-> | Hin]; [injection Hc as <-; unfold wants_input, wants_socket, wants_reply; simpl;
      rewrite ?andb_false_r; done|]); done.
Qed.

(** A run of the loop, and what its last round found when it returned. *)
Lemma copy_loop_spec n : forall poll rs s fin rs' s',
  (forall t, poll_fills (poll t)) -> inv rs s -> copy_loop n poll rs s = Ret (fin, rs', s') ->
  inv rs' s' /\
  (fin = true -> (forall t ps, ~ interrupted (poll t ps)) -> Forall (fun r => interest r s' = false) rs').
Proof.
  induction n as [|n IH]; intros poll rs s fin rs' s' Hp HI; simpl; [by intros [= <- <- <-]|].
  destruct (wait_next_event _ rs s) as [[[res rs1] s1]|] eqn:Ew; [|done]. cbn [obind].
  destruct (wait_preserves _ _ _ _ _ _ _ _ copy_spec (Hp 0%nat) (inv_nodup _ _ HI) HI Ew) as [_ HI1].
  case_bool_decide as Hres.
  - intros [= <- <- <-]. split; [done|]. intros _ Hint. subst res. eapply exit_idle; [|apply Hint|exact Ew].
    eapply stable_sublist; [apply HI|apply rules_stable].
  - intros Hl. destruct (IH _ _ _ _ _ _ (fun t => Hp (S t)) HI1 Hl) as [HI' Hfin]. split; [done|].
    intros Hf Hint. apply Hfin; [done|]. intros t. apply Hint.
Qed.

Lemma flows_shut_all src sink st alive : flows src sink st alive true -> sink = src /\ input_ended st = true.
Proof.
  intros [_ _ Hd _ Hs]. specialize (Hs eq_refl). unfold eof, buffer_empty in Hs.
  apply andb_true_iff in Hs as [He Hb%Z.eqb_eq%zlen_0_inv]. rewrite Hb, app_nil_r in Hd. done.
Qed.

Lemma copy_prefixes n poll sock fin rs s :
  (forall t, poll_fills (poll t)) -> bidirectional_stream_copy n poll sock = Ret (fin, rs, s) ->
  to_socket s `prefix_of` from_input s /\ to_output s `prefix_of` from_socket s.
Proof.
  intros Hp Hc. destruct (copy_loop_spec _ _ _ _ _ _ _ Hp (copy_inv_start sock) Hc) as [[_ (? & Ho & _) (? & Hi & _) _ _] _].
  split; [exists (_buf (_outbound s)); symmetry; apply Ho|exists (_buf (_inbound s)); symmetry; apply Hi].
Qed.

(** ** Properties *)

(** C20 The copy loses, invents and reorders nothing, for every kernel and every
    order of events: after any number of rounds the bytes written to the socket
    followed by the buffered ones are the bytes read from the input, and the
    bytes written to the output followed by the buffered ones are the bytes read
    from the socket; and the socket has been shut down for writing (the output
    closed) only after everything was passed on and the source had ended. *)
Theorem copy_faithful n poll sock fin rs s :
  (forall t, poll_fills (poll t)) -> bidirectional_stream_copy n poll sock = Ret (fin, rs, s) ->
  to_socket s ++ _buf (_outbound s) = from_input s /\
  to_output s ++ _buf (_inbound s) = from_socket s /\
  (_outbound_shutdown s = true -> to_socket s = from_input s /\ input_ended (_outbound s) = true) /\
  (_inbound_shutdown s = true -> to_output s = from_socket s /\ input_ended (_inbound s) = true).
Proof.
  intros Hp Hc. destruct (copy_loop_spec _ _ _ _ _ _ _ Hp (copy_inv_start sock) Hc) as [[_ (? & Ho & _) (? & Hi & _) _ _] _].
  split_and!; [apply Ho|apply Hi|..]; intros Hsh; rewrite Hsh in *; by eapply flows_shut_all.
Qed.

(** When the function returns, and not because of a signal, nothing is left
    behind: a direction whose stream has no error has passed on everything it
    read, and has told its sink the end if its source had ended. *)
Theorem copy_complete n poll sock rs s :
  (forall t, poll_fills (poll t)) -> (forall t ps, ~ interrupted (poll t ps)) ->
  bidirectional_stream_copy n poll sock = Ret (true, rs, s) ->
  (error (_outbound s) = false -> to_socket s = from_input s /\
    (input_ended (_outbound s) = true -> _outbound_shutdown s = true)) /\
  (error (_inbound s) = false -> to_output s = from_socket s /\
    (input_ended (_inbound s) = true -> _inbound_shutdown s = true)).
Proof.
  intros Hp Hint Hc. destruct (copy_loop_spec _ _ _ _ _ _ _ Hp (copy_inv_start sock) Hc)
    as [[_ (? & Ho & _) (? & Hi & _) H2 H4] Hidle]. specialize (Hidle eq_refl Hint). rewrite Forall_forall in Hidle.
  assert (forall st shut, negb (buffer_empty st) || (eof st && negb shut) = false ->
    _buf st = [] /\ (input_ended st = true -> shut = true)) as Hwant.
  { intros st shut [Hb%negb_false_iff He]%orb_false_iff. unfold eof in He. rewrite Hb in He.
    unfold buffer_empty in Hb. apply Z.eqb_eq, zlen_0_inv in Hb. split; [done|]. intros Hend.
    rewrite Hend in He. simpl in He. by apply negb_false_iff in He. }
  split; intros He.
  - destruct H2 as [H2|]; [|congruence]. apply Hidle, Hwant in H2 as [Hb Hs]. split; [|done].
    pose proof (fl_data _ _ _ _ _ Ho) as Hd. by rewrite Hb, app_nil_r in Hd.
  - destruct H4 as [H4|]; [|congruence]. apply Hidle, Hwant in H4 as [Hb Hs]. split; [|done].
    pose proof (fl_data _ _ _ _ _ Hi) as Hd. by rewrite Hb, app_nil_r in Hd.
Qed.

End rules.

(** ** A scenario: the peer ends first

    The socket is at its end before anything was read from the input. *)

Definition peer_ends_kernel : Kernel := {|
  sys_read := fun t _ => if (t =? 3)%nat then mkReply 1 0 [7] else mkReply 0 0 [];
  sys_writev := fun _ iovecs => mkReply (zlen (iov_bytes iovecs)) 0 [];
  sys_shutdown := fun _ _ => mkReply 0 0 [];
  sys_close := fun _ => mkReply 0 0 []
|}.

(** The element [i] of the array is ready for what was asked, the others not. *)
Definition only (i : nat) (ps : list pollfd) : poll_reply :=
  mkPollReply 1 0 (imap (fun j p => if (i =? j)%nat then events p else 0) ps).

Definition peer_ends_poll (t : nat) : list pollfd -> poll_reply :=
  match t with 0 => only 2 | 1 => only 2 | 2 => only 0 | _ => only 1 end%nat.

Lemma only_fills i : poll_fills (only i).
Proof. intros ps. simpl. by rewrite length_imap. Qed.

Lemma peer_ends_fills t : poll_fills (peer_ends_poll t).
Proof. destruct t as [|[|[|t]]]; apply only_fills. Qed.

Definition demo_socket : FDWrapper := mkFD 5 false false 0 0.

Definition peer_ends_run :=
  @bidirectional_stream_copy peer_ends_kernel 5 peer_ends_poll demo_socket.

Lemma peer_ends_facts :
  match peer_ends_run with
  | Ret (fin, _, s) =>
      fin = true /\ _inbound_shutdown s = true /\ error (_outbound s) = false /\ error (_inbound s) = true /\
      from_input s = [7] /\ fd_eof (_input s) = false /\ input_ended (_outbound s) = false /\
      _outbound_shutdown s = false
  | Throw _ => False
  end.
Proof. vm_compute. repeat split. Qed.

(** The two directions are not independent: when the peer ends its direction,
    the output is closed, the closed output cancels its rule in the next round,
    and that marks the inbound stream with an error, which ends the interest in
    the input.  Here the function returns after one byte was copied, with the
    input open and not at its end, and the socket was never shut down. *)
Theorem half_close_stops_input :
  match peer_ends_run with
  | Ret (fin, _, s) =>
      fin = true /\ _inbound_shutdown s = true /\ error (_inbound s) = true /\
      from_input s = [7] /\ fd_eof (_input s) = false /\ input_ended (_outbound s) = false /\
      _outbound_shutdown s = false
  | Throw _ => False
  end.
Proof. pose proof peer_ends_facts as F. destruct peer_ends_run as [[[fin rs] s]|e]; tauto. Qed.

(** Witnesses *)
Lemma copy_faithful_witness :
  match peer_ends_run with
  | Ret (_, _, s) => to_socket s ++ _buf (_outbound s) = from_input s /\ to_output s = from_socket s
  | Throw _ => False
  end.
Proof.
  pose proof peer_ends_facts as F. destruct peer_ends_run as [[[fin rs] s]|e] eqn:E; [|exact F].
  destruct (@copy_faithful peer_ends_kernel 5 peer_ends_poll demo_socket fin rs s peer_ends_fills E)
    as (H1 & _ & _ & H2). split; [exact H1|]. apply H2, F.
Defined.

Lemma copy_complete_witness :
  match peer_ends_run with
  | Ret (_, _, s) => to_socket s = from_input s
  | Throw _ => False
  end.
Proof.
  pose proof peer_ends_facts as F. destruct peer_ends_run as [[[fin rs] s]|e] eqn:E; [|exact F].
  destruct F as (-> & _ & F & _).
  refine (proj1 (proj1 (@copy_complete peer_ends_kernel 5 peer_ends_poll demo_socket rs s peer_ends_fills _ E) F)).
  intros t ps Hi. destruct t as [|[|[|t]]]; discriminate Hi.
Defined.
