(* ===== verification/Native.v ===== *)
(** * Native: the program [tcp_native]

    Models [src/apps/tcp_native.cc], which copies its input and output through a
    TCP socket of the operating system: the command line, the socket of a client
    or the one connection of a server, the copy, and the exit code.  The usage
    text and the text of an exception go to the standard error stream and are
    left out.

    The theorem: whatever the kernel does, the program passes on its input and
    the socket's data in order; and two of them at the ends of a stream of the
    operating system write to their outputs prefixes of each other's inputs. *)

From Stdlib Require Import String.
From S2P Require Import Prelude NetAddress Text ByteStream Buffer FileDescriptor Sockets TcpDump Monitors EventLoop StreamCopy.
Local Open Scope Z_scope.

Section native.
Context `{Kernel} `{SocketKernel} `{Resolver}.

Definition BACKLOG : Z := 16.

(** The command line: the mode, the host and the port, or the usage text. *)
Definition native_args (argv : list string) : option (bool * string * string) :=
  match argv with
  | arg1 :: arg2 :: rest =>
      if strncmp_eq 3 "-l" arg1 then
        match rest with
        | arg3 :: _ => Some (true, arg2, arg3)
        | [] => None
        end
      else Some (false, arg1, arg2)
  | _ => None
  end.

(** The lambda: the listening socket goes out of scope once it has accepted. *)
Definition native_socket (server_mode : bool) (host port : string) (t : nat) : outcome FDWrapper :=
  if server_mode then
    try: listening_socket <- TCPSocket t;
    try: _ <- set_reuseaddr (t + 1);
    try: a <- of_host (text host) (text port);
    try: _ <- bind (t + 2) a;
    try: _ <- listen (t + 3) BACKLOG;
    try: (_, socket) <- accept (t + 4) listening_socket;
    Ret socket
  else
    try: connecting_socket <- TCPSocket t;
    try: a <- of_host (text host) (text port);
    try: _ <- connect (t + 1) a;
    Ret connecting_socket.

(** The socket and the copy, whose rounds are limited to [n]. *)
Definition native_run (argv : list string) (t n : nat) (poll : nat -> list pollfd -> poll_reply)
    : option (outcome (bool * list (Rule copy) * copy)) :=
  match native_args argv with
  | None => None
  | Some (server_mode, host, port) => Some (
      try: sock <- native_socket server_mode host port t;
      bidirectional_stream_copy n poll sock)
  end.

(** The exit code; [None] while the copy goes on. *)
Definition native_main (argv : list string) (t n : nat) (poll : nat -> list pollfd -> poll_reply) : option Z :=
  match native_run argv t n poll with
  | None | Some (Throw _) => Some EXIT_FAILURE
  | Some (Ret (true, _, _)) => Some EXIT_SUCCESS
  | Some (Ret (false, _, _)) => None
  end.

Lemma native_run_copies argv t n poll fin rs s :
  (forall t, poll_fills (poll t)) -> native_run argv t n poll = Some (Ret (fin, rs, s)) ->
  to_socket s `prefix_of` from_input s /\ to_output s `prefix_of` from_socket s.
Proof.
  intros Hp Hr. unfold native_run in Hr. destruct (native_args argv) as [[[mode host] port]|]; [|done].
  injection Hr as (sock & _ & Hc)%obind_Ret. by eapply copy_prefixes.
Qed.
End native.

(** ** Properties *)

(** What one [tcp_native] program writes to its output is a prefix of what the
    other read from its input, after any rounds of either and for all kernels,
    as long as the stream of the operating system between them delivers in order
    what is written to it. *)
Theorem native_programs_prefix (KA KB : Kernel) (SA SB : SocketKernel) (RA RB : Resolver)
    argvA tA nA pollA finA rsA cA argvB tB nB pollB finB rsB cB :
  (forall t, poll_fills (pollA t)) -> (forall t, poll_fills (pollB t)) ->
  native_run (H := KA) (H0 := SA) (H1 := RA) argvA tA nA pollA = Some (Ret (finA, rsA, cA)) ->
  native_run (H := KB) (H0 := SB) (H1 := RB) argvB tB nB pollB = Some (Ret (finB, rsB, cB)) ->
  from_socket cB `prefix_of` to_socket cA ->
  to_output cB `prefix_of` from_input cA.
Proof.
  intros HpA HpB HA HB Hs. destruct (native_run_copies _ _ _ _ _ _ _ HpA HA) as [Ho _].
  destruct (native_run_copies _ _ _ _ _ _ _ HpB HB) as [_ Hi]. etrans; [exact Hi|]. by etrans.
Qed.

(** The program succeeds only if the copy returned: a command line without its
    arguments, a socket that cannot be had, or an exception of the copy make it
    fail. *)
Theorem native_exit `{Kernel} `{SocketKernel} `{Resolver} argv t n poll :
  native_main argv t n poll = Some EXIT_SUCCESS <->
  exists mode host port sock rs s, native_args argv = Some (mode, host, port) /\
    native_socket mode host port t = Ret sock /\ bidirectional_stream_copy n poll sock = Ret (true, rs, s).
Proof.
  unfold native_main, native_run. split.
  - destruct (native_args argv) as [[[mode host] port]|]; [|done].
    destruct (native_socket mode host port t) as [sock|] eqn:Es; [|done]. cbn [obind].
    destruct (bidirectional_stream_copy n poll sock) as [[[[] rs] s]|] eqn:Ec; [|done..]. intros _. do 6 eexists. eauto.
  - intros (mode & host & port & sock & rs & s & -> & Hs & Hc). rewrite Hs. cbn [obind]. by rewrite Hc.
Qed.

(** ** Witness: a client that sends a byte and a server that writes it out *)

(** [getsockopt] tells what the program asks for. *)
Definition demo_native_host : SocketKernel := {|
  sys_socket _ _ _ := mkReply 5 0 [];
  sys_getsockopt _ option := (mkReply 0 0 [], if option =? SO_DOMAIN then AF_INET else SOCK_STREAM, 4);
  sys_getname _ _ := (mkReply 0 0 [], sockaddr_in 0 0, 16);
  sys_bind _ _ := mkReply 0 0 []; sys_connect _ _ := mkReply 0 0 []; sys_listen _ _ := mkReply 0 0 [];
  sys_accept _ := mkReply 5 0 []; sys_setsockopt _ _ _ _ := mkReply 0 0 [];
  sys_open _ := mkReply 5 0 []; sys_ioctl _ _ _ := mkReply 0 0 []; sys_fcntl _ _ _ := mkReply 0 0 [];
  sys_socketpair _ _ _ := (mkReply 0 0 [], 6, 7)
|}.

Definition demo_native_kernel : Kernel := {|
  sys_read t _ := if (t =? 0)%nat then mkReply 1 0 [7] else mkReply 0 0 [];
  sys_writev _ iovecs := mkReply (zlen (iov_bytes iovecs)) 0 [];
  sys_shutdown _ _ := mkReply 0 0 [];
  sys_close _ := mkReply 0 0 []
|}.

Definition demo_native_poll (t : nat) : list pollfd -> poll_reply := match t with 0 => only 2 | _ => only 3 end%nat.

Definition native_client := native_run (H := peer_ends_kernel) (H0 := demo_native_host) (H1 := numeric_resolver)
  ["2.2.2.2"; "2000"]%string 0 5 peer_ends_poll.
Definition native_server := native_run (H := demo_native_kernel) (H0 := demo_native_host) (H1 := numeric_resolver)
  ["-l"; "0"; "2000"]%string 0 2 demo_native_poll.

Lemma native_programs_prefix_witness :
  match native_client, native_server with
  | Some (Ret (_, _, cA)), Some (Ret (_, _, cB)) =>
      to_output cB = [7] /\ from_input cA = [7] /\ to_output cB `prefix_of` from_input cA
  | _, _ => False
  end.
Proof.
  assert (match native_client, native_server with
    | Some (Ret (_, _, cA)), Some (Ret (_, _, cB)) =>
        to_output cB = [7] /\ from_input cA = [7] /\ from_socket cB = [7] /\ to_socket cA = [7]
    | _, _ => False
    end) as F by (vm_compute; repeat split).
  destruct native_client as [[[[fA rA] cA]|]|] eqn:EA; [|exact F|exact F].
  destruct native_server as [[[[fB rB] cB]|]|] eqn:EB; [|exact F|exact F].
  destruct F as (H1 & H2 & H3 & H4). split; [exact H1|]. split; [exact H2|].
  refine (native_programs_prefix _ _ _ _ _ _ _ _ _ _ _ _ _ _ _ _ _ _ _ _ peer_ends_fills _ EA EB _); [|by rewrite H3, H4].
  intros [|t]; apply only_fills.
Defined.
