(* ===== verification/SpongeSocket.v ===== *)
(** * SpongeSocket: a connection in a thread

    Models [src/libsponge/tcp_helpers/tcp_sponge_socket.hh] and [.cc]: the four
    rules that tie a [TCPConnection] to a datagram adapter and to the socket
    pair shared with the owner, the loop of the TCP thread, [connect],
    [listen_and_accept] and [_tcp_main] (the owner's side, [wait_until_closed] and
    the destructor, is in [Lifecycle]).  It also models the device operations
    of [src/libsponge/util/socket.cc] ([UDPSocket::recv] and [sendto]) and of
    the TUN device (plain reads and writes) behind the class [Device].

    The two threads share the socket pair, whose other end is part of the kernel
    here, and the flag [_abort], read by the loop after each round: its values
    are an input.  Next to the members, the state records what was read from and
    written to the owner, the segments sent, and the operations performed on
    the connection.

    The main theorem is a refinement: whatever the kernel, the peer and the
    owner do, the connection inside the socket is in a state reached by legal
    operations, with the owner's bytes as the data written. *)

From S2P Require Import Prelude WrappingIntegers ByteStream Buffer TCPHeader TCPSegment TCPConfig SegmentOf.
From S2P Require Import TCPSender TCPReceiver TCPState TCPConnection ConnectionPair FdAdapter FileDescriptor Sockets EventLoop.

(** ** Devices *)

Class Device (In Out : Type) := {
  dev_read : nat -> FDWrapper -> outcome (FDWrapper * nat * In);
  dev_write : nat -> FDWrapper -> Out -> outcome (FDWrapper * nat)
}.

(** The system calls of a UDP socket; [recvfrom] also returns the source. *)
Class UDPKernel := {
  sys_recvfrom : nat -> Z -> reply * Address;
  sys_sendmsg : nat -> option Address -> list (bytes * Z) -> reply
}.

Section udp.
Context `{UDPKernel}.

(** With [MSG_TRUNC], the length returned may exceed the buffer. *)
Definition recv (t : nat) (w : FDWrapper) (mtu : Z) : outcome (FDWrapper * datagram) :=
  let '(k, from) := sys_recvfrom t mtu in
  try: recv_len <- checked k;
  if mtu <? recv_len then Throw runtime_error
  else if recv_len <? 0 then Throw length_error
  else Ret (register_read w, mkDatagram from (resize (ztake mtu (r_data k)) recv_len)).

(** Without a destination the socket's peer is meant. *)
Definition sendmsg_helper (t : nat) (destination : option Address) (payload : BufferViewList) : outcome unit :=
  try: bytes_sent <- checked (sys_sendmsg t destination (as_iovecs payload));
  if negb (u64 bytes_sent =? BufferViewList_size payload) then Throw runtime_error else Ret tt.

Definition sendto (t : nat) (w : FDWrapper) (destination : Address) (payload : BufferViewList) : outcome FDWrapper :=
  try: _ <- sendmsg_helper t (Some destination) payload;
  Ret (register_write w).

Definition send (t : nat) (w : FDWrapper) (payload : BufferViewList) : outcome FDWrapper :=
  try: _ <- sendmsg_helper t None payload;
  Ret (register_write w).

Global Instance UDPDevice : Device datagram (Address * BufferList) := {|
  dev_read t w := try: (w, d) <- recv t w 65536; Ret (w, S t, d);
  dev_write t w o := try: w <- sendto t w (fst o) (BufferViewList_of_list (snd o)); Ret (w, S t)
|}.
End udp.

(** The default [limit] of [FileDescriptor::read]. *)
Definition size_max : Z := 18446744073709551615.

Global Instance TunDevice `{Kernel} : Device bytes BufferList := {|
  dev_read t w := try: (w, d) <- FileDescriptor.read t w size_max; Ret (w, S t, d);
  dev_write t w l := try: r <- FileDescriptor.write t w (BufferViewList_of_list l) true; Ret (wr_fd r, wr_time r)
|}.

(** Under [LossyFdAdapter] a dropped segment does not reach the device. *)
Global Instance LossyDevice {In Out : Type} `{Device In Out} : Device In (option Out) := {|
  dev_read := dev_read;
  dev_write t w o := match o with Some o => dev_write t w o | None => Ret (w, t) end
|}.

Section socket.
Context `{Kernel} {A In Out : Type} `{Adapter A In Out} `{Device In Out}.

Record sponge := mkSponge {
  self_fd : FDWrapper;
  _thread_data : FDWrapper;
  _datagram_adapter : A;
  adapter_fd : FDWrapper;
  _tcp : option TCPConnection;
  _inbound_shutdown : bool;
  _outbound_shutdown : bool;
  _fully_acked : bool;
  clock : nat;
  from_owner : bytes;
  to_owner : bytes;
  log : list op;
  sent : list TCPSegment
}.

(** *** Assignments *)

Definition set_tcp (s : sponge) (c : TCPConnection) (o : list op) : sponge :=
  mkSponge (self_fd s) (_thread_data s) (_datagram_adapter s) (adapter_fd s) (Some c) (_inbound_shutdown s)
    (_outbound_shutdown s) (_fully_acked s) (clock s) (from_owner s) (to_owner s) (log s ++ o) (sent s).
Definition set_adapter (s : sponge) (a : A) (fd : FDWrapper) (t : nat) : sponge :=
  mkSponge (self_fd s) (_thread_data s) a fd (_tcp s) (_inbound_shutdown s)
    (_outbound_shutdown s) (_fully_acked s) t (from_owner s) (to_owner s) (log s) (sent s).
Definition set_thread (s : sponge) (fd : FDWrapper) (t : nat) (got put : bytes) : sponge :=
  mkSponge (self_fd s) fd (_datagram_adapter s) (adapter_fd s) (_tcp s) (_inbound_shutdown s)
    (_outbound_shutdown s) (_fully_acked s) t (from_owner s ++ got) (to_owner s ++ put) (log s) (sent s).
Definition set_flags (s : sponge) (i o f : bool) : sponge :=
  mkSponge (self_fd s) (_thread_data s) (_datagram_adapter s) (adapter_fd s) (_tcp s) i o f
    (clock s) (from_owner s) (to_owner s) (log s) (sent s).
Definition add_sent (s : sponge) (seg : TCPSegment) : sponge :=
  mkSponge (self_fd s) (_thread_data s) (_datagram_adapter s) (adapter_fd s) (_tcp s) (_inbound_shutdown s)
    (_outbound_shutdown s) (_fully_acked s) (clock s) (from_owner s) (to_owner s) (log s) (sent s ++ [seg]).

(** [_tcp->...]; an empty optional is not dereferenced while the rules run. *)
Definition deref (s : sponge) (f : TCPConnection -> outcome sponge) : outcome sponge :=
  match _tcp s with Some c => f c | None => Throw runtime_error end.
Definition test (s : sponge) (f : TCPConnection -> bool) : bool :=
  match _tcp s with Some c => f c | None => false end.

(** *** Rule 1: datagrams into the connection *)

Definition datagram_arrives (s : sponge) : outcome sponge :=
  try: (fd, t, i) <- dev_read (clock s) (adapter_fd s);
  try: (a, seg) <- a_read (_datagram_adapter s) i;
  let s := set_adapter s a fd t in
  try: s <- (match seg with
             | Some seg => deref s (fun c => Ret (set_tcp s (TCPConnection.segment_received c seg) [SegmentReceived seg]))
             | None => Ret s
             end);
  deref s (fun c =>
    if fd_eof (_thread_data s) && (TCPConnection.bytes_in_flight c =? 0) && negb (_fully_acked s)
    then Ret (set_flags s (_inbound_shutdown s) (_outbound_shutdown s) true) else Ret s).

Definition wants_datagram (s : sponge) : bool := test s TCPConnection.active.

(** *** Rule 2: the owner's bytes into the connection *)

Definition end_outbound (s : sponge) (c : TCPConnection) : sponge :=
  let s := set_tcp s (end_input_stream c) [EndInputStream] in
  set_flags s (_inbound_shutdown s) true (_fully_acked s).

Definition owner_writes (s : sponge) : outcome sponge :=
  deref s (fun c =>
    try: (fd, data) <- FileDescriptor.read (clock s) (_thread_data s) (remaining_outbound_capacity c);
    let '(c, amount_written) := TCPConnection.write c data in
    let s := set_tcp (set_thread s fd (S (clock s)) data []) c [AppWrite data] in
    if negb (amount_written =? zlen data) then Throw runtime_error
    else if fd_eof (_thread_data s) then Ret (end_outbound s c) else Ret s).

Definition wants_owner (s : sponge) : bool :=
  test s (fun c => TCPConnection.active c && negb (_outbound_shutdown s) && (0 <? remaining_outbound_capacity c)).

Definition owner_cancelled (s : sponge) : outcome sponge := deref s (fun c => Ret (end_outbound s c)).

(** *** Rule 3: reassembled bytes to the owner *)

(** The reference [inbound], written through. *)
Definition set_inbound_stream (c : TCPConnection) (st : ByteStream) : TCPConnection :=
  set_receiver c (set_stream_out (_receiver c) st).

Definition owner_reads (s : sponge) : outcome sponge :=
  deref s (fun c =>
    let inbound := inbound_stream c in
    let amount_to_write := Z.min 65536 (ByteStream.buffer_size inbound) in
    let buffer := peek_output inbound amount_to_write in
    try: r <- FileDescriptor.write (clock s) (_thread_data s) (BufferViewList_of buffer) false;
    let inbound := pop_output inbound (wr_total r) in
    let s := set_tcp (set_thread s (wr_fd r) (wr_time r) [] (taken r))
               (set_inbound_stream c inbound) [AppRead (wr_total r)] in
    if ByteStream.eof inbound || ByteStream.error inbound then
      try: fd <- FileDescriptor.shutdown (clock s) (_thread_data s) SHUT_WR;
      let s := set_thread s fd (S (clock s)) [] [] in
      Ret (set_flags s true (_outbound_shutdown s) (_fully_acked s))
    else Ret s).

Definition wants_reader (s : sponge) : bool :=
  test s (fun c =>
    let inbound := inbound_stream c in
    negb (buffer_empty inbound) ||
    ((ByteStream.eof inbound || ByteStream.error inbound) && negb (_inbound_shutdown s))).

(** *** Rule 4: segments into datagrams *)

(** The [while] loop; the segments come off the queue of the connection. *)
Fixpoint send_queue (q : list TCPSegment) (s : sponge) : outcome sponge :=
  match q with
  | [] => Ret s
  | seg :: q =>
      try: (a, _, o) <- a_write (_datagram_adapter s) seg;
      try: (fd, t) <- dev_write (clock s) (adapter_fd s) o;
      send_queue q (add_sent (set_adapter s a fd t) seg)
  end.

Definition segments_leave (s : sponge) : outcome sponge :=
  deref s (fun c =>
    try: s <- send_queue (TCPConnection._segments_out c) s;
    Ret (set_tcp s (dequeue c) [Dequeue])).

Definition wants_sending (s : sponge) : bool :=
  test s (fun c => negb (bool_decide (TCPConnection._segments_out c = []))).

(** *** The thread *)

(** [_initialize_TCP]: the connection and the rules. *)
Definition rules : list (Rule sponge) :=
  let rules := add_rule [] adapter_fd EventLoop.In datagram_arrives wants_datagram (fun s => Ret s) in
  let rules := add_rule rules _thread_data EventLoop.In owner_writes wants_owner owner_cancelled in
  let rules := add_rule rules _thread_data EventLoop.Out owner_reads wants_reader (fun s => Ret s) in
  add_rule rules adapter_fd EventLoop.Out segments_leave wants_sending (fun s => Ret s).

Definition _initialize_TCP (s : sponge) (config : TCPConfig) (random : Z) : sponge :=
  mkSponge (self_fd s) (_thread_data s) (_datagram_adapter s) (adapter_fd s) (Some (TCPConnection.new config random))
    (_inbound_shutdown s) (_outbound_shutdown s) (_fully_acked s) (clock s) (from_owner s) (to_owner s) (log s) (sent s).

(** What happens around the loop in its [t]-th round: the answer of [poll], the
    clock, and the value of [_abort]. *)
Record round := mkRound { r_poll : list pollfd -> poll_reply; r_now : Z; r_abort : bool }.

(** The ticks after a round. *)
Definition after_round (s : sponge) (base_time now : Z) : sponge * Z :=
  match _tcp s with
  | Some c =>
      if TCPConnection.active c then
        let s := set_tcp s (TCPConnection.tick c (u64 (now - base_time))) [TimePasses (u64 (now - base_time))] in
        (set_adapter s (a_tick (_datagram_adapter s) (u64 (now - base_time))) (adapter_fd s) (clock s), now)
      else (s, base_time)
  | None => (s, base_time)
  end.

(** [_tcp_loop] over the given rounds; the flag says whether it ended. *)
Fixpoint _tcp_loop (condition : sponge -> bool) (rounds : list round) (base_time : Z)
    (rs : list (Rule sponge)) (s : sponge) : outcome (bool * list (Rule sponge) * sponge) :=
  if negb (condition s) then Ret (true, rs, s)
  else
    match rounds with
    | [] => Ret (false, rs, s)
    | r :: rounds =>
        try: (res, rs, s) <- wait_next_event (r_poll r) rs s;
        if bool_decide (res = Exit) || r_abort r then Ret (true, rs, s)
        else
          let '(s, base_time) := after_round s base_time (r_now r) in
          _tcp_loop condition rounds base_time rs s
    end.

Definition in_state (s : sponge) (st : TCPState.State) : bool :=
  test s (fun c => TCPState.eqb (TCPConnection.state c) (of_State st)).

(** The constructor, given the two ends of the socket pair; the clock counts the
    system calls made. *)
Definition new (first second : FDWrapper) (datagram_interface : A) (device : FDWrapper) : sponge :=
  mkSponge first second datagram_interface device None false false false 0 [] [] [] [].

(** The public constructor: a pair of Unix-domain sockets is made, each end is
    verified, and the thread's end does not block. *)
Definition create `{SocketKernel} (t : nat) (datagram_interface : A) (device : FDWrapper) : outcome sponge :=
  try: (first, second) <- socket_pair_helper t SOCK_STREAM;
  try: first <- LocalStreamSocket (t + 1) first;
  try: second <- LocalStreamSocket (t + 3) second;
  try: _ <- set_blocking (t + 5) false;
  Ret (new first second datagram_interface device).

(** [connect], up to the start of the thread. *)
Definition connect (s : sponge) (c_tcp : TCPConfig) (random : Z) (c_ad : FdAdapterConfig)
    (rounds : list round) (base_time : Z) : outcome (bool * list (Rule sponge) * sponge) :=
  if bool_decide (is_Some (_tcp s)) then Throw runtime_error
  else
    let s := _initialize_TCP s c_tcp random in
    let s := set_adapter s (a_set_config (_datagram_adapter s) c_ad) (adapter_fd s) (clock s) in
    try: s <- deref s (fun c => Ret (set_tcp s (TCPConnection.connect c) [Connect]));
    if negb (in_state s SYN_SENT) then Throw runtime_error
    else _tcp_loop (fun s => in_state s SYN_SENT) rounds base_time rules s.

Definition listen_and_accept (s : sponge) (c_tcp : TCPConfig) (random : Z) (c_ad : FdAdapterConfig)
    (rounds : list round) (base_time : Z) : outcome (bool * list (Rule sponge) * sponge) :=
  if bool_decide (is_Some (_tcp s)) then Throw runtime_error
  else
    let s := _initialize_TCP s c_tcp random in
    let s := set_adapter s (a_set_listening (a_set_config (_datagram_adapter s) c_ad) true) (adapter_fd s) (clock s) in
    _tcp_loop (fun s => in_state s LISTEN || in_state s SYN_RCVD || in_state s SYN_SENT) rounds base_time rules s.

(** [_tcp_main]: the loop, and when it ends the owner's socket is shut down and
    the connection destroyed. *)
Definition _tcp_main (rounds : list round) (base_time : Z) (rs : list (Rule sponge)) (s : sponge)
    : outcome (bool * list (Rule sponge) * sponge) :=
  if bool_decide (_tcp s = None) then Throw runtime_error
  else
    try: (fin, rs, s) <- _tcp_loop (fun _ => true) rounds base_time rs s;
    if negb fin then Ret (false, rs, s)
    else
      try: self <- FileDescriptor.shutdown (clock s) (self_fd s) SHUT_RDWR;
      Ret (true, rs, mkSponge self (_thread_data s) (_datagram_adapter s) (adapter_fd s) None (_inbound_shutdown s)
        (_outbound_shutdown s) (_fully_acked s) (S (clock s)) (from_owner s) (to_owner s) (log s) (sent s)).

(** [CS144TCPSocket::connect]: a short timeout, the local address 169.254.144.9 and
    a random port. *)
Definition cs144_connect (s : sponge) (address : Address) (random_port random : Z) (rounds : list round) (base_time : Z)
    : outcome (bool * list (Rule sponge) * sponge) :=
  let tcp_config := mkTCPConfig 100 (recv_capacity default_config) (send_capacity default_config) (fixed_isn default_config) in
  let multiplexer_config :=
    mkFdAdapterConfig (mkAddress (((169 * 256 + 254) * 256 + 144) * 256 + 9) (u16 random_port)) address
      (loss_rate_dn default_adapter_config) (loss_rate_up default_adapter_config) in
  connect s tcp_config random multiplexer_config rounds base_time.

(** The life of a socket: it connects or accepts, and then its thread runs. *)
Definition session (active_open : bool) (s : sponge) (c_tcp : TCPConfig) (random : Z) (c_ad : FdAdapterConfig)
    (opening : list round) (open_time : Z) (running : list round) (run_time : Z)
    : outcome (bool * list (Rule sponge) * sponge) :=
  try: (fin, rs, s) <- (if active_open then connect s c_tcp random c_ad opening open_time
                        else listen_and_accept s c_tcp random c_ad opening open_time);
  if fin then _tcp_main running run_time rs s else Ret (false, rs, s).
End socket.
Arguments sponge A : clear implicits.

(** ** The socket drives its connection legally *)

Section correct.
Context `{Kernel} {A In Out : Type} `{Adapter A In Out} `{!AdapterTyped A In Out} `{Device In Out}.
Context (dev_ok : forall t w w' t' i, dev_read t w = Ret (w', t', i) -> a_in_ok i).
Context (c0 : TCPConnection) (Hc0 : TCPConnection.inv [] c0).
Context (Hopen : input_ended (stream_in (_sender c0)) = false).

(** The log explains the state: run from [c0], it gives the connection, takes
    the owner's bytes, sends what was sent and delivers what was delivered. *)
Record follows (s : sponge A) : Prop := mkFollows {
  fo_run : exists c, _tcp s = Some c /\ TCPConnection.run (log s) c0 = (c, from_owner s, sent s);
  fo_delivered : delivered (log s) c0 = to_owner s;
  fo_legal : roomy (log s) c0 -> zlen (from_owner s) + 2 < 18446744073709551616 -> TCPConnection.ops_ok (log s) c0;
  fo_ended : existsb ends_stream (log s) = true -> _outbound_shutdown s = true
}.

(** Only the other members change. *)
Lemma follows_same s s' :
  follows s -> _tcp s' = _tcp s -> log s' = log s -> from_owner s' = from_owner s -> sent s' = sent s ->
  to_owner s' = to_owner s -> (_outbound_shutdown s = true -> _outbound_shutdown s' = true) -> follows s'.
Proof. intros [] Et El Ef Es Eo Hs. constructor; rewrite ?Et, ?El, ?Ef, ?Es, ?Eo; auto. Qed.

(** One operation on the connection. *)
Lemma follows_act s s' o c c' d segs :
  follows s -> _tcp s = Some c -> TCPConnection.step o c = (c', d, segs) ->
  _tcp s' = Some c' -> log s' = log s ++ [o] -> from_owner s' = from_owner s ++ d -> sent s' = sent s ++ segs ->
  to_owner s' = to_owner s ++ match o with AppRead len => snd (ByteStream.read (inbound_stream c) len) | _ => [] end ->
  (TCPConnection.ops_ok (log s) c0 -> zlen (from_owner s) + 2 < 18446744073709551616 ->
   match o with SegmentReceived seg => headroom (_receiver c) seg | _ => True end -> TCPConnection.op_ok o c) ->
  (_outbound_shutdown s = true \/ ends_stream o = true -> _outbound_shutdown s' = true) -> follows s'.
Proof.
  intros [(c1 & Et & Hrun) Hdel Hleg Hend] Hc Hstep Et' El Ef Es Eo Hok Hsh.
  assert (c1 = c) as -> by congruence. constructor.
  - exists c'. split; [done|]. rewrite El, Ef, Es. by eapply run_snoc.
  - by rewrite El, Eo, (delivered_snoc c0 _ _ _ _ _ Hrun), Hdel.
  - rewrite El, Ef. intros [Hr Hroom]%(roomy_snoc c0 _ _ _ _ _ Hrun). rewrite zlen_app. intros Hz.
    pose proof (zlen_nonneg d). pose proof (Hleg Hr ltac:(lia)) as Hops.
    eapply ops_ok_snoc; [done..|]. apply Hok; [done|lia|done].
  - rewrite El, existsb_app. intros [Hx|Hx]%orb_true_iff; [auto|]. simpl in Hx. rewrite orb_false_r in Hx. auto.
Qed.

(** An operation that only concerns the connection. *)
Lemma follows_op s c o c' :
  follows s -> _tcp s = Some c -> TCPConnection.step o c = (c', [], []) ->
  match o with AppRead _ => False | _ => True end -> ends_stream o = false ->
  (match o with SegmentReceived seg => headroom (_receiver c) seg | _ => True end -> TCPConnection.op_ok o c) ->
  follows (set_tcp s c' [o]).
Proof.
  intros Hf Hc Hs Ho He Hok. eapply (follows_act s); [done|exact Hc|exact Hs|done|done|..]; simpl;
    try (symmetry; apply app_nil_r).
  - destruct o; try (symmetry; apply app_nil_r). done.
  - auto.
  - rewrite He. intros [?|?]; done.
Qed.

Lemma deref_Ret s f s' : deref (A := A) s f = Ret s' -> exists c, _tcp s = Some c /\ f c = Ret s'.
Proof. unfold deref. destruct (_tcp s) as [c|]; [eauto|done]. Qed.

Lemma datagram_arrives_follows s s' :
  follows s -> datagram_arrives s = Ret s' -> follows s' /\ _outbound_shutdown s' = _outbound_shutdown s.
Proof.
  intros Hf Hd. unfold datagram_arrives in Hd.
  destruct (dev_read _ _) as [[[fd t] i]|] eqn:Ed; [|done]. cbn [obind] in Hd. apply dev_ok in Ed.
  destruct (a_read _ i) as [[a seg]|] eqn:Er; [|done]. cbn [obind] in Hd.
  set (s1 := set_adapter s a fd t) in *.
  assert (follows s1) as Hf1 by by eapply follows_same.
  assert (exists s2, follows s2 /\ _outbound_shutdown s2 = _outbound_shutdown s /\
    deref s2 (fun c => if fd_eof (_thread_data s2) && (TCPConnection.bytes_in_flight c =? 0) && negb (_fully_acked s2)
      then Ret (set_flags s2 (_inbound_shutdown s2) (_outbound_shutdown s2) true) else Ret s2) = Ret s')
    as (s2 & Hf2 & Hsh & Hd2).
  { destruct seg as [seg|]; [|by exists s1]. apply obind_Ret in Hd as (s2 & Hs2 & Hd).
    exists s2. apply deref_Ret in Hs2 as (c & Hc & [= <-]). split_and!; [|done|done].
    eapply (follows_op s1 c (SegmentReceived seg)); try done.
    intros Hroom. destruct (a_read_typed _ _ _ _ Ed Er). by constructor. }
  apply deref_Ret in Hd2 as (c & _ & Hd2). case_match; injection Hd2 as <-; [|done].
  split; [by eapply follows_same|done].
Qed.

Lemma end_outbound_follows s c : follows s -> _tcp s = Some c -> follows (end_outbound s c).
Proof.
  intros Hf Hc. eapply (follows_act s _ EndInputStream c); [done|exact Hc|reflexivity|done|done|..];
    simpl; try (symmetry; apply app_nil_r); done.
Qed.

Lemma write_accepts c d c' n :
  TCPConnection.write c d = (c', n) -> TCPConnection.step (AppWrite d) c = (c', ztake n d, []).
Proof. intros E. cbn [TCPConnection.step]. by rewrite E. Qed.

Lemma owner_writes_follows s s' :
  follows s -> _outbound_shutdown s = false -> owner_writes s = Ret s' -> follows s'.
Proof.
  intros Hf Hsh Hw. apply deref_Ret in Hw as (c & Hc & Hw).
  destruct (FileDescriptor.read _ _ _) as [[fd data]|] eqn:Er; [|done]. cbn [obind] in Hw.
  destruct (TCPConnection.write c data) as [c' n] eqn:Ew. apply write_accepts in Ew.
  destruct (Z.eqb_spec n (zlen data)) as [->|]; [|done]. cbn [negb] in Hw.
  rewrite ztake_all in Ew by lia.
  set (s1 := set_tcp (set_thread s fd (S (clock s)) data []) c' [AppWrite data]) in *.
  assert (follows s1) as Hf1.
  { eapply (follows_act s); [done|exact Hc|exact Ew|done|done|done|symmetry; apply app_nil_r|done| |by intros [?|?]].
    intros Hops Hz _. destruct Hf as [(c1 & Hc1 & Hrun) _ _ Hend]. assert (c1 = c) as -> by congruence.
    eapply run_not_ended; [exact Hc0|exact Hopen|exact Hrun|done..|].
    destruct (existsb ends_stream (log s)); [|done]. specialize (Hend eq_refl). congruence. }
  destruct (fd_eof (_thread_data s1)); injection Hw as <-; [|done]. by apply end_outbound_follows.
Qed.

Lemma owner_reads_follows s s' :
  follows s -> owner_reads s = Ret s' -> follows s' /\ _outbound_shutdown s' = _outbound_shutdown s.
Proof.
  intros Hf Hw. apply deref_Ret in Hw as (c & Hc & Hw). cbv zeta in Hw.
  destruct (FileDescriptor.write _ _ _ _) as [r|] eqn:Ew; [|done]. cbn [obind] in Hw.
  unfold peek_output, ByteStream.buffer_size in Ew. pose proof (zlen_nonneg (_buf (inbound_stream c))).
  apply write_front in Ew as (Hn & Ht & _); [|lia..].
  set (s1 := set_tcp _ _ _) in Hw.
  assert (follows s1) as Hf1.
  { eapply (follows_act s _ (AppRead (wr_total r)) c); [done|exact Hc|reflexivity|..];
      cbn [from_owner sent to_owner log _tcp _outbound_shutdown set_tcp set_thread s1];
      try (symmetry; apply app_nil_r); try done.
    - simpl. destruct (Z.ltb_spec (zlen (_buf (inbound_stream c))) (wr_total r)); [lia|done].
    - f_equal. rewrite Ht. by rewrite read_pop by lia.
    - intros _ _ _. simpl. lia.
    - by intros [?|?]. }
  destruct (ByteStream.eof _ || ByteStream.error _); [|injection Hw as <-; done].
  destruct (FileDescriptor.shutdown _ _ _) as [fd|]; [|done]. injection Hw as <-. split; [|done].
  eapply follows_same; [exact Hf1|done|done|..]; simpl; try apply app_nil_r; done.
Qed.

Lemma send_queue_spec q : forall (s s' : sponge A),
  send_queue q s = Ret s' ->
  _tcp s' = _tcp s /\ log s' = log s /\ from_owner s' = from_owner s /\ to_owner s' = to_owner s /\
  sent s' = sent s ++ q /\ _outbound_shutdown s' = _outbound_shutdown s.
Proof.
  induction q as [|seg q IH]; intros s s'; simpl.
  - intros [= <-]. by rewrite app_nil_r.
  - destruct (a_write _ _) as [[[a sg] o]|]; [|done]. cbn [obind].
    destruct (dev_write _ _ _) as [[fd t]|]; [|done]. cbn [obind].
    intros (-> & -> & -> & -> & -> & ->)%IH. simpl. by rewrite <- app_assoc.
Qed.

Lemma segments_leave_follows s s' :
  follows s -> segments_leave s = Ret s' -> follows s' /\ _outbound_shutdown s' = _outbound_shutdown s.
Proof.
  intros Hf Hw. apply deref_Ret in Hw as (c & Hc & Hw). apply obind_Ret in Hw as (s1 & Hq & [= <-]).
  destruct (send_queue_spec _ _ _ Hq) as (Et & El & Ef & Eo & Es & Esh). split; [|done].
  eapply (follows_act s _ Dequeue c); [done|exact Hc|reflexivity|..]; simpl;
    rewrite ?El, ?Ef, ?Eo, ?Es, ?Esh; try (symmetry; apply app_nil_r); try done. by intros [?|?].
Qed.

(** *** The proof rule of the loop *)

Definition rule1 : Rule (sponge A) := mkRule adapter_fd EventLoop.In datagram_arrives wants_datagram (fun s => Ret s).
Definition rule2 : Rule (sponge A) := mkRule _thread_data EventLoop.In owner_writes wants_owner owner_cancelled.
Definition rule3 : Rule (sponge A) := mkRule _thread_data EventLoop.Out owner_reads wants_reader (fun s => Ret s).
Definition rule4 : Rule (sponge A) := mkRule adapter_fd EventLoop.Out segments_leave wants_sending (fun s => Ret s).

Lemma socket_rules : rules = [rule1; rule2; rule3; rule4].
Proof. done. Qed.

Definition linv (rs : list (Rule (sponge A))) (s : sponge A) : Prop := sublist rs rules /\ follows s.
Definition lpolled (r : Rule (sponge A)) (s : sponge A) : Prop := r = rule2 -> _outbound_shutdown s = false.

Lemma linv_member rs s r : linv rs s -> r ∈ rs -> r = rule1 \/ r = rule2 \/ r = rule3 \/ r = rule4.
Proof.
  intros [Hsub _] Hr. assert (r ∈ rules) as Hr' by by eapply elem_of_sublist.
  rewrite socket_rules, !elem_of_cons, elem_of_nil in Hr'. tauto.
Qed.

(** Two descriptors of a state can be told apart. *)
Lemma socket_rules_nodup (s : sponge A) : NoDup (rules (A := A)).
Proof.
  assert (exists s1 : sponge A, adapter_fd s1 <> _thread_data s1) as [s1 Hne].
  { exists (mkSponge (self_fd s) (mkFD 0 false false 0 0) (_datagram_adapter s) (mkFD 1 false false 0 0)
      None false false false 0 [] [] [] []). done. }
  assert (rule1 <> rule2) by (intros E; apply Hne; exact (f_equal (fun r => fd r s1) E)).
  assert (rule3 <> rule4) by (intros E; apply Hne; symmetry; exact (f_equal (fun r => fd r s1) E)).
  rewrite socket_rules. repeat constructor; rewrite ?elem_of_cons, ?elem_of_nil; intuition; discriminate.
Qed.

Lemma socket_callback rs r s s' :
  linv rs s -> r ∈ rs -> lpolled r s -> callback r s = Ret s' ->
  follows s' /\ (r <> rule2 -> _outbound_shutdown s' = _outbound_shutdown s).
Proof.
  intros HI Hr Hp Hc. destruct (linv_member _ _ r HI Hr) as [-> | [-> | [-> | ->]]]; destruct HI as [_ Hf]; simpl in Hc.
  - destruct (datagram_arrives_follows _ _ Hf Hc). done.
  - split; [|done]. eapply owner_writes_follows; [done|by apply Hp|done].
  - destruct (owner_reads_follows _ _ Hf Hc). done.
  - destruct (segments_leave_follows _ _ Hf Hc). done.
Qed.

Lemma socket_cancel rs r s s' :
  linv rs s -> r ∈ rs -> cancel r s = Ret s' ->
  follows s' /\ (r <> rule2 -> _outbound_shutdown s' = _outbound_shutdown s).
Proof.
  intros HI Hr Hc. destruct (linv_member _ _ r HI Hr) as [-> | [-> | [-> | ->]]]; destruct HI as [_ Hf]; simpl in Hc;
    try (injection Hc as <-; done).
  apply deref_Ret in Hc as (c & Hc & [= <-]). split; [by apply end_outbound_follows|done].
Qed.

Lemma socket_spec : loop_spec linv lpolled.
Proof.
  constructor.
  - intros rs r s HI Hr _ _ Hi ->. simpl in Hi. unfold wants_owner, test in Hi.
    destruct (_tcp s); [|done]. apply andb_true_iff in Hi as [[_ Hi]%andb_true_iff _]. by apply negb_true_iff in Hi.
  - intros rs r s s' HI Hr Hp Hc. split; [apply HI|]. by eapply socket_callback.
  - intros pre r post s s' HI _ Hc. split.
    + etrans; [|apply HI]. by apply sublist_app, sublist_cons.
    + eapply socket_cancel; [exact HI| |exact Hc]. rewrite elem_of_app, elem_of_cons. tauto.
  - intros rs r r' s s' HI Hr Hr' Hne Hdo Hp ->. rewrite <- (Hp eq_refl). destruct Hdo as [[Hpr Hc]|Hc].
    + by apply (socket_callback _ _ _ _ HI Hr Hpr Hc).
    + by apply (socket_cancel _ _ _ _ HI Hr Hc).
Qed.

(** *** The loop *)
Lemma after_round_follows s base now : follows s -> follows (fst (after_round s base now)).
Proof.
  intros Hf. unfold after_round. destruct (_tcp s) as [c|] eqn:Hc; [|done].
  destruct (TCPConnection.active c); [|done]. cbn [fst].
  set (s1 := set_tcp s _ _). assert (follows s1) as Hf1 by by eapply follows_op.
  by eapply follows_same.
Qed.

(** In every round [poll] fills its array. *)
Definition polls (rounds : list round) : Prop := Forall (fun r => poll_fills (r_poll r)) rounds.

Lemma loop_follows condition rounds : forall base rs s fin rs' s',
  polls rounds -> NoDup rs -> linv rs s -> _tcp_loop condition rounds base rs s = Ret (fin, rs', s') ->
  NoDup rs' /\ linv rs' s'.
Proof.
  induction rounds as [|r rounds IH]; intros base rs s fin rs' s' Hp Hnd HI; simpl;
    destruct (negb (condition s)); try by intros [= _ <- <-].
  apply Forall_cons in Hp as [Hp1 Hp].
  destruct (wait_next_event (r_poll r) rs s) as [[[res rs1] s1]|] eqn:Ew; [|done]. cbn [obind].
  destruct (wait_preserves _ _ _ _ _ _ _ _ socket_spec Hp1 Hnd HI Ew) as [Hnd1 HI1].
  destruct (_ || _); [by intros [= _ <- <-]|].
  destruct HI1 as [Hsub1 Hf1]. pose proof (after_round_follows s1 base (r_now r) Hf1) as Hf2.
  destruct (after_round s1 base (r_now r)) as [s2 base']. apply IH; done.
Qed.

End correct.

(** ** Sessions *)

(** The log explains the socket, whose connection may be gone. *)
Record explained {A} (c0 : TCPConnection) (s : sponge A) : Prop := mkExplained {
  ex_run : exists c, TCPConnection.run (log s) c0 = (c, from_owner s, sent s) /\ (_tcp s = Some c \/ _tcp s = None);
  ex_delivered : delivered (log s) c0 = to_owner s;
  ex_legal : roomy (log s) c0 -> zlen (from_owner s) + 2 < 18446744073709551616 -> TCPConnection.ops_ok (log s) c0
}.

Section sessions.
Context `{Kernel} {A In Out : Type} `{Adapter A In Out} `{!AdapterTyped A In Out} `{Device In Out}.
Context (dev_ok : forall t w w' t' i, dev_read t w = Ret (w', t', i) -> a_in_ok i).
Context (first second device : FDWrapper) (a : A) (c_tcp : TCPConfig) (random : Z) (c_ad : FdAdapterConfig).
Context (Hcfg : config_wf c_tcp).

Local Notation s0 := (new first second a device).
Local Notation c0 := (TCPConnection.new c_tcp random).

Lemma open_new : TCPConnection.inv [] c0 /\ input_ended (stream_in (_sender c0)) = false.
Proof. split; [by apply connection_inv_new|done]. Qed.

Lemma connect_follows rounds base fin rs s' :
  polls rounds -> connect s0 c_tcp random c_ad rounds base = Ret (fin, rs, s') ->
  NoDup rs /\ linv c0 rs s'.
Proof.
  intros Hp. unfold connect. simpl. set (s1 := set_tcp _ _ _).
  destruct (negb (in_state s1 SYN_SENT)); [done|]. destruct open_new as [Hi Ho].
  eapply loop_follows; try done; [exact (socket_rules_nodup s1)|]. split; [done|].
  constructor; simpl; try done. by eexists.
Qed.

Lemma listen_follows rounds base fin rs s' :
  polls rounds -> listen_and_accept s0 c_tcp random c_ad rounds base = Ret (fin, rs, s') ->
  NoDup rs /\ linv c0 rs s'.
Proof.
  intros Hp. unfold listen_and_accept. simpl. set (s1 := set_adapter _ _ _ _). destruct open_new as [Hi Ho].
  eapply loop_follows; try done; [exact (socket_rules_nodup s1)|]. split; [done|].
  constructor; simpl; try done. by eexists.
Qed.

Lemma follows_explained (s : sponge A) : follows c0 s -> explained c0 s.
Proof. intros [(c & Hc & Hr) Hd Hl _]. constructor; eauto. Qed.

Lemma main_explained rounds base rs (s : sponge A) fin rs' s' :
  polls rounds -> NoDup rs -> linv c0 rs s -> _tcp_main rounds base rs s = Ret (fin, rs', s') -> explained c0 s'.
Proof.
  intros Hp Hnd HI. unfold _tcp_main. case_bool_decide; [done|].
  destruct (_tcp_loop _ _ _ _ _) as [[[fin1 rs1] s1]|] eqn:El; [|done]. cbn [obind].
  destruct open_new as [Hi Ho]. destruct (loop_follows dev_ok c0 Hi Ho _ _ _ _ _ _ _ _ Hp Hnd HI El) as [_ [_ Hf]].
  apply follows_explained in Hf. destruct (negb fin1); [by intros [= _ _ <-]|].
  destruct (FileDescriptor.shutdown _ _ _); [|done]. intros [= _ _ <-].
  destruct Hf as [(c & Hr & _) Hd Hl]. constructor; simpl; eauto.
Qed.

(** *** The end of the thread *)
Lemma inactive_send_one c seg : _active c = false -> _active (send_one c seg) = false.
Proof.
  intros Ha. unfold send_one. destruct (syn (_header seg)); simpl;
    (destruct (TCPReceiver.ackno (_receiver c)); simpl; [destruct (_rec_fin_seqno c); simpl; [destruct (_ <? _); simpl|]|]);
    (destruct (_rst_set c); simpl; [reflexivity|exact Ha]).
Qed.

Lemma inactive_sendseg c : _active c = false -> _active (sendseg c) = false.
Proof.
  intros Ha. rewrite sendseg_eq.
  assert (_active (fold_left send_one (to_send c) (set_queue c [])) = false) as Hf.
  { assert (_active (set_queue c []) = false) as Hq by done. revert Hq. generalize (set_queue c []).
    induction (to_send c) as [|seg q IH]; intros c1 Hq; simpl; [done|]. by apply IH, inactive_send_one. }
  destruct (clean_shutdown_eq (fold_left send_one (to_send c) (set_queue c []))) as (l & b & -> & Hb & _).
  simpl. destruct b; [|done]. specialize (Hb eq_refl). congruence.
Qed.

Lemma socket_stable : stable (rules (A := A)).
Proof.
  rewrite socket_rules. simpl. split_and!; try done; intros r s s' Hr; rewrite ?elem_of_cons, ?elem_of_nil in Hr;
    try (destruct_or! Hr; subst; simpl; by intros [= <-]).
  destruct Hr as [-> | [-> | [-> | []]]]; simpl; try by intros [= <-].
  intros Hc. apply deref_Ret in Hc as (c & Hc & [= <-]). unfold wants_datagram, test. rewrite Hc.
  intros Ha. by apply (inactive_sendseg (set_closed (set_sender c _) true)).
Qed.

(** No interruption by a signal and no abort. *)
Definition undisturbed (rounds : list round) : Prop :=
  Forall (fun r => r_abort r = false /\ forall ps, ~ interrupted (r_poll r ps)) rounds.

Lemma loop_idle rounds : forall base rs (s : sponge A) rs' s',
  polls rounds -> undisturbed rounds -> sublist rs rules ->
  _tcp_loop (fun _ => true) rounds base rs s = Ret (true, rs', s') ->
  Forall (fun r => interest r s' = false) rs'.
Proof.
  induction rounds as [|r rounds IH]; intros base rs s rs' s' Hp Hu Hs; simpl; [done|].
  apply Forall_cons in Hp as [Hp1 Hp]. apply Forall_cons in Hu as [[Hab Hint] Hu].
  destruct (wait_next_event (r_poll r) rs s) as [[[res rs1] s1]|] eqn:Ew; [|done]. cbn [obind].
  rewrite Hab, orb_false_r. case_bool_decide as Hres.
  - intros [= <- <-]. subst res. eapply exit_idle; [eapply stable_sublist; [exact Hs|exact socket_stable]|exact Hint|exact Ew].
  - pose proof (wait_sublist _ _ _ _ _ _ Ew) as Hsub.
    destruct (after_round s1 base (r_now r)) as [s2 base']. apply IH; [done..|]. by etrans.
Qed.

Lemma opened_sublist (active_open : bool) opening t1 fin rs s' :
  polls opening ->
  (if active_open then connect s0 c_tcp random c_ad opening t1
   else listen_and_accept s0 c_tcp random c_ad opening t1) = Ret (fin, rs, s') -> sublist rs rules /\ NoDup rs /\ follows c0 s'.
Proof.
  intros Hp E. destruct active_open.
  - destruct (connect_follows _ _ _ _ _ Hp E) as [? []]. done.
  - destruct (listen_follows _ _ _ _ _ Hp E) as [? []]. done.
Qed.


Lemma session_split active_open opening t1 running t2 fin rs s' :
  polls opening -> session active_open s0 c_tcp random c_ad opening t1 running t2 = Ret (fin, rs, s') ->
  exists fin1 rs1 s1, sublist rs1 rules /\ NoDup rs1 /\ follows c0 s1 /\
    (if fin1 : bool then _tcp_main running t2 rs1 s1 else Ret (false, rs1, s1)) = Ret (fin, rs, s').
Proof.
  intros Hp. unfold session. set (first_part := if active_open then _ else _).
  destruct first_part as [[[fin1 rs1] s1]|] eqn:E; [|done]. cbn [obind]. intros Hs.
  destruct (opened_sublist _ _ _ _ _ _ Hp E) as (? & ? & ?). by exists fin1, rs1, s1.
Qed.

Lemma session_explained active_open opening t1 running t2 fin rs s' :
  polls opening -> polls running ->
  session active_open s0 c_tcp random c_ad opening t1 running t2 = Ret (fin, rs, s') -> explained c0 s'.
Proof.
  intros Hp1 Hp2 Hs. destruct (session_split _ _ _ _ _ _ _ _ Hp1 Hs) as (fin1 & rs1 & s1 & Hsub & Hnd & Hf & Hm).
  destruct fin1; [by eapply main_explained|]. injection Hm as _ _ <-. by apply follows_explained.
Qed.

(** When the thread ends by itself. *)
Lemma main_idle running t2 rs1 s1 rs s' :
  polls running -> undisturbed running -> sublist rs1 rules -> NoDup rs1 -> follows c0 s1 ->
  _tcp_main running t2 rs1 s1 = Ret (true, rs, s') ->
  exists c, TCPConnection.run (log s') c0 = (c, from_owner s', sent s') /\ _tcp s' = None /\
    (rule1 ∈ rs -> TCPConnection.active c = false) /\
    (rule3 ∈ rs -> _buf (inbound_stream c) = [] /\
       (ByteStream.eof (inbound_stream c) = true -> _inbound_shutdown s' = true)) /\
    (rule4 ∈ rs -> TCPConnection._segments_out c = []).
Proof.
  intros Hp2 Hu Hsub Hnd Hf Hm. unfold _tcp_main in Hm. case_bool_decide; [done|].
  destruct (_tcp_loop _ _ _ _ _) as [[[fin2 rs2] s2]|] eqn:El; [|done]. cbn [obind] in Hm.
  destruct fin2; [|done]. cbn [negb] in Hm. pose proof (loop_idle _ _ _ _ _ _ Hp2 Hu Hsub El) as Hidle.
  destruct open_new as [Hi Ho].
  destruct (loop_follows dev_ok c0 Hi Ho _ _ _ _ _ _ _ _ Hp2 Hnd (conj Hsub Hf) El) as [_ [_ [(c & Hc & Hr) _ _ _]]].
  destruct (FileDescriptor.shutdown _ _ _); [|done]. injection Hm as <- <-.
  exists c. rewrite Forall_forall in Hidle. split_and!; [done|done|..]; intros Hin%Hidle; simpl in Hin;
    unfold wants_datagram, wants_reader, wants_sending, test in Hin; rewrite Hc in Hin.
  - done.
  - apply orb_false_iff in Hin as [Hb He]. unfold buffer_empty in Hb. apply negb_false_iff in Hb.
    apply Z.eqb_eq in Hb. split; [destruct (_buf (inbound_stream c)); [done|lens; lia]|]. intros Heof. rewrite Heof in He. simpl in He. by apply negb_false_iff in He.
  - apply negb_false_iff, bool_decide_eq_true in Hin. done.
Qed.

(** ** Properties *)

(** C7 The socket drives its connection by the book: whatever the kernel, the
    peer, the owner and the clock do, what happened in a session of a socket is
    a run of the operations of its [TCPConnection].  The bytes read from the
    owner are the bytes written to the connection, all of them and in order; the
    bytes handed to the owner are the bytes read from the inbound stream; the
    segments handed to the device are those the connection queued; and, as long
    as the receiver has room to count, every operation is a legal one: nothing
    is written after the end of the outbound stream. *)
Theorem socket_refines active_open opening t1 running t2 fin rs s' :
  polls opening -> polls running ->
  session active_open s0 c_tcp random c_ad opening t1 running t2 = Ret (fin, rs, s') ->
  exists c, TCPConnection.run (log s') c0 = (c, from_owner s', sent s') /\
    (_tcp s' = Some c \/ _tcp s' = None) /\ delivered (log s') c0 = to_owner s' /\
    (roomy (log s') c0 -> zlen (from_owner s') + 2 < 18446744073709551616 -> TCPConnection.ops_ok (log s') c0).
Proof.
  intros Hp1 Hp2 Hs. destruct (session_explained _ _ _ _ _ _ _ _ Hp1 Hp2 Hs) as [(c & ? & ?) ? ?]. by exists c.
Qed.

(** The thread stops only when nothing is left to do: when [_tcp_main] is
    neither aborted nor interrupted by a signal and ends, then, for as long as
    their rules are installed, no segment is waiting to be sent, no byte is
    waiting for the owner, the owner has been told of the end of the inbound
    stream if there was one, and the connection is no longer active. *)
Theorem thread_ends_when_idle active_open opening t1 running t2 rs s' :
  polls opening -> polls running -> undisturbed running ->
  session active_open s0 c_tcp random c_ad opening t1 running t2 = Ret (true, rs, s') ->
  exists c, TCPConnection.run (log s') c0 = (c, from_owner s', sent s') /\ _tcp s' = None /\
    (rule1 ∈ rs -> TCPConnection.active c = false) /\
    (rule3 ∈ rs -> _buf (inbound_stream c) = [] /\
       (ByteStream.eof (inbound_stream c) = true -> _inbound_shutdown s' = true)) /\
    (rule4 ∈ rs -> TCPConnection._segments_out c = []).
Proof.
  intros Hp1 Hp2 Hu Hs. destruct (session_split _ _ _ _ _ _ _ _ Hp1 Hs) as (fin1 & rs1 & s1 & Hsub & Hnd & Hf & Hm).
  destruct fin1; [|done]. by eapply main_idle.
Qed.

End sessions.

(** *** What the devices deliver *)
Lemma resize_ok (data : bytes) n limit :
  wf_bytes data -> 0 <= n <= limit -> limit < 18446744073709551616 -> bytes_ok (resize (ztake limit data) n).
Proof.
  intros Hw Hn Hl. unfold bytes_ok, resize. split.
  - apply Forall_app. split; [rewrite !ztake_take; by apply Forall_take, Forall_take|].
    apply Forall_replicate. by split.
  - pose proof (zlen_nonneg data). rewrite zlen_app, zlen_replicate, !zlen_ztake by lia. words. lia.
Qed.

(** A kernel that stores bytes. *)
Lemma udp_device_ok `{UDPKernel} :
  (forall t mtu, wf_bytes (r_data (fst (sys_recvfrom t mtu)))) ->
  forall t w w' t' i, dev_read (Device := UDPDevice) t w = Ret (w', t', i) -> a_in_ok i.
Proof.
  intros Hk t w w' t' i. simpl. unfold recv. specialize (Hk t 65536). destruct (sys_recvfrom t 65536) as [k from].
  destruct (checked k) as [n|]; [|done]. cbn [obind].
  destruct (Z.ltb_spec 65536 n); [done|]. destruct (Z.ltb_spec n 0); [done|]. intros [= _ _ <-].
  apply resize_ok; [done|lia|lia].
Qed.

Lemma tun_device_ok `{Kernel} :
  (forall t n, wf_bytes (r_data (sys_read t n))) ->
  forall t w w' t' i, dev_read (Device := TunDevice) t w = Ret (w', t', i) -> a_in_ok i.
Proof.
  intros Hk t w w' t' i. simpl. unfold FileDescriptor.read. change (Z.min BUFFER_SIZE size_max) with 1048576.
  destruct (checked _) as [n|]; [|done]. cbn [obind].
  destruct (Z.ltb_spec 1048576 n); [done|]. destruct (Z.ltb_spec n 0); [done|]. intros [= _ _ <-].
  apply resize_ok; [done|lia|lia].
Qed.

(** *** Two sockets *)
Lemma explained_prefix {A1 A2} cfgA randomA (a : sponge A1) cfgB randomB (b : sponge A2) :
  config_wf cfgA -> config_wf cfgB ->
  explained (TCPConnection.new cfgA randomA) a -> explained (TCPConnection.new cfgB randomB) b ->
  roomy (log a) (TCPConnection.new cfgA randomA) -> roomy (log b) (TCPConnection.new cfgB randomB) ->
  zlen (from_owner a) < 2147483646 -> zlen (from_owner b) + 2 < 18446744073709551616 ->
  carries (sent a) (arrivals (log b)) ->
  to_owner b `prefix_of` from_owner a.
Proof.
  intros HA HB [(ca & Era & _) _ Hla] [(cb & Erb & _) Hdb Hlb] HroomA HroomB HzA HzB Hnet.
  pose proof (pair_prefix cfgA randomA (log a) cfgB randomB (log b) HA HB (Hla HroomA ltac:(lia)) (Hlb HroomB HzB)) as Hp.
  rewrite Era, Erb in Hp. destruct (Hp HzA HzB Hnet) as [E _]. rewrite Hdb in E.
  exists (_buf (inbound_stream cb) ++ zdrop (bytes_written (inbound_stream cb)) (from_owner a)).
  rewrite app_assoc, E. symmetry. apply ztake_zdrop.
Qed.

Section pair.
Context {KA : Kernel} {A1 In1 Out1 : Type} {adA : Adapter A1 In1 Out1} {tyA : AdapterTyped A1 In1 Out1} {devA : Device In1 Out1}.
Context {KB : Kernel} {A2 In2 Out2 : Type} {adB : Adapter A2 In2 Out2} {tyB : AdapterTyped A2 In2 Out2} {devB : Device In2 Out2}.
Context (okA : forall t w w' t' i, dev_read (Device := devA) t w = Ret (w', t', i) -> a_in_ok i).
Context (okB : forall t w w' t' i, dev_read (Device := devB) t w = Ret (w', t', i) -> a_in_ok i).

(** What the owner of one socket reads is a prefix of what the owner of the
    other wrote: for two sockets over any adapters, kernels and schedules, if
    every segment that reaches the second is a copy of one the first sent, then
    the bytes its owner was handed are the first bytes read from the owner of the
    first (up to 2^31 - 2 of them). *)
Theorem socket_pair_prefix actA fA sA aA dA cfgA randomA adcA oA tA rA uA finA rsA a
    actB fB sB aB dB cfgB randomB adcB oB tB rB uB finB rsB b :
  config_wf cfgA -> config_wf cfgB -> polls oA -> polls rA -> polls oB -> polls rB ->
  @session KA A1 In1 Out1 adA devA actA (new fA sA aA dA) cfgA randomA adcA oA tA rA uA = Ret (finA, rsA, a) ->
  @session KB A2 In2 Out2 adB devB actB (new fB sB aB dB) cfgB randomB adcB oB tB rB uB = Ret (finB, rsB, b) ->
  roomy (log a) (TCPConnection.new cfgA randomA) -> roomy (log b) (TCPConnection.new cfgB randomB) ->
  zlen (from_owner a) < 2147483646 -> zlen (from_owner b) + 2 < 18446744073709551616 ->
  carries (sent a) (arrivals (log b)) ->
  to_owner b `prefix_of` from_owner a.
Proof.
  intros HA HB HoA HrA HoB HrB HsA HsB HroomA HroomB HzA HzB Hnet.
  eapply explained_prefix; [exact HA|exact HB| | |done..].
  - exact (session_explained okA fA sA dA aA cfgA randomA adcA HA _ _ _ _ _ _ _ _ HoA HrA HsA).
  - exact (session_explained okB fB sB dB aB cfgB randomB adcB HB _ _ _ _ _ _ _ _ HoB HrB HsB).
Qed.
End pair.

(** ** Witnesses

    Two sockets over UDP: the first connects and its owner writes three bytes;
    the second accepts, and its owner takes two of them. *)

Definition demo_ip_a : Address := mkAddress 16843009 1000.
Definition demo_ip_b : Address := mkAddress 33686018 2000.
Definition demo_cfg_a : FdAdapterConfig := mkFdAdapterConfig demo_ip_a demo_ip_b 0 0.
Definition demo_cfg_b : FdAdapterConfig := mkFdAdapterConfig demo_ip_b demo_ip_a 0 0.

(** The datagram a segment becomes. *)
Definition demo_wire (cfg : FdAdapterConfig) (segs : list TCPSegment) (i : nat) : bytes :=
  match segs !! i with
  | Some seg => match udp_write (mkBase cfg false) seg with Ret (_, (_, l)) => concatenate l | Throw _ => [] end
  | None => []
  end.

(** A kernel that takes everything it is given, and delivers by a script. *)
Definition demo_kernel (script : nat -> bytes) (room : Z) : Kernel := {|
  sys_read t n := mkReply (zlen (script t)) 0 (script t);
  sys_writev t iov := mkReply (Z.min room (zlen (iov_bytes iov))) 0 [];
  sys_shutdown t how := mkReply 0 0 [];
  sys_close t := mkReply 0 0 []
|}.
Definition demo_udp (from : Address) (script : nat -> bytes) : UDPKernel := {|
  sys_recvfrom t mtu := (mkReply (zlen (script t)) 0 (script t), from);
  sys_sendmsg t dst iov := mkReply (zlen (iov_bytes iov)) 0 []
|}.

(** Some descriptors are ready, for reading or for writing. *)
Definition demo_ready (l : list (Z * Z)) (ps : list pollfd) : poll_reply :=
  mkPollReply 1 0 (map (fun p => if existsb (fun '(f, e) => (f =? p_fd p) && (e =? events p)) l then events p else 0) ps).
Definition demo_round (l : list (Z * Z)) : round := mkRound (demo_ready l) 0 false.

Lemma demo_polls ls : polls (map demo_round ls).
Proof. unfold polls. apply Forall_map, Forall_true. intros l ps. simpl. by rewrite length_map. Qed.

Definition demo_script_a (t : nat) : bytes :=
  match t with
  | 1%nat => demo_wire demo_cfg_b (sent_by demo_b1 demo_b0) 0
  | 2%nat => [1; 2; 3]
  | _ => []
  end.
Definition demo_script_b (t : nat) : bytes :=
  match t with
  | 0%nat => demo_wire demo_cfg_a (sent_by demo_a2 demo_a0) 0
  | 2%nat => demo_wire demo_cfg_a (sent_by demo_a2 demo_a0) 1
  | 3%nat => demo_wire demo_cfg_a (sent_by demo_a2 demo_a0) 2
  | _ => []
  end.

Definition demo_socket : sponge FdAdapterBase :=
  new (mkFD 4 false false 0 0) (mkFD 5 false false 0 0) (mkBase default_adapter_config false) (mkFD 6 false false 0 0).

Definition demo_session_a :=
  @session (demo_kernel demo_script_a 100) _ _ _ UDPAdapter (@UDPDevice (demo_udp demo_ip_b demo_script_a)) true
    demo_socket demo_cfg 5 demo_cfg_a (map demo_round [[(6, POLLOUT)]; [(6, POLLIN)]]) 0
    (map demo_round [[(5, POLLIN); (6, POLLOUT)]]) 0.
Definition demo_session_b :=
  @session (demo_kernel demo_script_b 2) _ _ _ UDPAdapter (@UDPDevice (demo_udp demo_ip_a demo_script_b)) false
    demo_socket demo_cfg 11 demo_cfg_b (map demo_round [[(6, POLLIN)]; [(6, POLLOUT)]; [(6, POLLIN)]]) 0
    (map demo_round [[(6, POLLIN)]; [(5, POLLOUT); (6, POLLOUT)]]) 0.

Definition outcome_of {A} (o : outcome (bool * list (Rule (sponge A)) * sponge A)) : option (bool * sponge A) :=
  match o with Ret (fin, _, s) => Some (fin, s) | Throw _ => None end.
Definition ending {A} (o : outcome (bool * list (Rule (sponge A)) * sponge A)) (s0 : sponge A) : sponge A :=
  match o with Ret (_, _, s) => s | Throw _ => s0 end.

Lemma outcome_ends {A} (o : outcome (bool * list (Rule (sponge A)) * sponge A)) s0 fin :
  option_map fst (outcome_of o) = Some fin -> exists rs s, o = Ret (fin, rs, s) /\ s = ending o s0.
Proof. destruct o as [[[fin' rs] s]|]; simpl; [|done]. intros [= <-]. by exists rs, s. Qed.

Fixpoint roomyb (ops : list op) (c : TCPConnection) : bool :=
  match ops with
  | [] => true
  | o :: ops =>
      match o with
      | SegmentReceived seg =>
          (TCPReceiver._capacity (_receiver c) <? 9223372036854775808) &&
          (bytes_written (inbound_stream c) + zlen (payload seg) <? 9223372028264841216)
      | _ => true
      end && roomyb ops (fst (fst (TCPConnection.step o c)))
  end.

Lemma roomyb_sound ops : forall c, roomyb ops c = true -> roomy ops c.
Proof.
  induction ops as [|o ops IH]; intros c; cbn [roomyb roomy]; [done|].
  intros [Ho Hr]%andb_true_iff. split; [|auto]. destruct o; try done.
  apply andb_true_iff in Ho as [?%Z.ltb_lt ?%Z.ltb_lt]. by split.
Qed.

Lemma wf_bytesb_sound s : forallb (fun b => (0 <=? b) && (b <? 256)) s = true -> wf_bytes s.
Proof.
  intros Hs. apply Forall_forall. intros b Hb%list_elem_of_In. rewrite forallb_forall in Hs.
  apply Hs, andb_true_iff in Hb as [?%Z.leb_le ?%Z.ltb_lt]. by split.
Qed.

Lemma demo_script_a_wf t mtu : wf_bytes (r_data (fst (sys_recvfrom (UDPKernel := demo_udp demo_ip_b demo_script_a) t mtu))).
Proof.
  simpl. destruct t as [|[|[|t]]]; apply wf_bytesb_sound; vm_compute; reflexivity.
Qed.
Lemma demo_script_b_wf t mtu : wf_bytes (r_data (fst (sys_recvfrom (UDPKernel := demo_udp demo_ip_a demo_script_b) t mtu))).
Proof.
  simpl. destruct t as [|[|[|[|t]]]]; apply wf_bytesb_sound; vm_compute; reflexivity.
Qed.

Definition demo_end_a : sponge FdAdapterBase := ending demo_session_a demo_socket.
Definition demo_end_b : sponge FdAdapterBase := ending demo_session_b demo_socket.

Lemma socket_refines_witness :
  exists c, TCPConnection.run (log demo_end_a) (TCPConnection.new demo_cfg 5) = (c, [1; 2; 3], sent demo_end_a) /\
    length (sent demo_end_a) = 3%nat.
Proof.
  destruct (outcome_ends demo_session_a demo_socket false) as (rs & s & E & Hs); [vm_compute; reflexivity|].
  unfold demo_session_a, demo_socket in E.
  apply (socket_refines (udp_device_ok demo_script_a_wf)) in E as (c & Hr & _);
    [|exact demo_cfg_wf|apply demo_polls|apply demo_polls].
  exists c. split; [|vm_compute; reflexivity]. fold demo_end_a in Hs. subst s.
  assert (from_owner demo_end_a = [1; 2; 3]) as Hd by (vm_compute; reflexivity). by rewrite Hd in Hr.
Defined.

Lemma socket_pair_prefix_witness : to_owner demo_end_b = [1; 2] /\ to_owner demo_end_b `prefix_of` [1; 2; 3].
Proof.
  split; [vm_compute; reflexivity|].
  destruct (outcome_ends demo_session_a demo_socket false) as (rsA & a & EA & Ha); [vm_compute; reflexivity|].
  destruct (outcome_ends demo_session_b demo_socket false) as (rsB & b & EB & Hb); [vm_compute; reflexivity|].
  unfold demo_session_a, demo_socket in EA. unfold demo_session_b, demo_socket in EB.
  fold demo_end_a in Ha. fold demo_end_b in Hb.
  assert (from_owner demo_end_a = [1; 2; 3]) as Hd by (vm_compute; reflexivity). rewrite <- Hd.
  rewrite <- Ha, <- Hb.
  eapply (socket_pair_prefix (udp_device_ok demo_script_a_wf) (udp_device_ok demo_script_b_wf));
    [| | | | | |exact EA|exact EB|..]; [exact demo_cfg_wf|exact demo_cfg_wf|apply demo_polls..| | | | |];
    rewrite ?Ha, ?Hb; clear.
  - apply roomyb_sound. vm_compute. reflexivity.
  - apply roomyb_sound. vm_compute. reflexivity.
  - vm_compute. reflexivity.
  - vm_compute. reflexivity.
  - apply (bool_decide_eq_true_1 _). vm_compute. reflexivity.
Defined.

(** The peer answers and then resets the connection: the owner is told, and the
    thread ends. *)
Definition demo_script_c (t : nat) : bytes :=
  match t with
  | 1%nat => demo_wire demo_cfg_b (sent_by demo_b1 demo_b0) 0
  | 3%nat => demo_wire demo_cfg_b (map set_rst_flag (sent_by demo_b1 demo_b0)) 0
  | _ => []
  end.
Definition demo_session_c :=
  @session (demo_kernel demo_script_c 100) _ _ _ UDPAdapter (@UDPDevice (demo_udp demo_ip_b demo_script_c)) true
    demo_socket demo_cfg 5 demo_cfg_a (map demo_round [[(6, POLLOUT)]; [(6, POLLIN)]]) 0
    (map demo_round [[(6, POLLOUT)]; [(6, POLLIN)]; [(5, POLLOUT)]; []]) 0.
Definition demo_end_c : sponge FdAdapterBase := ending demo_session_c demo_socket.

Lemma demo_script_c_wf t mtu : wf_bytes (r_data (fst (sys_recvfrom (UDPKernel := demo_udp demo_ip_b demo_script_c) t mtu))).
Proof. simpl. destruct t as [|[|[|[|t]]]]; apply wf_bytesb_sound; vm_compute; reflexivity. Qed.

Lemma demo_undisturbed ls : undisturbed (map demo_round ls).
Proof. unfold undisturbed. apply Forall_map, Forall_true. by intros l. Qed.

Lemma thread_ends_when_idle_witness :
  exists c, TCPConnection.run (log demo_end_c) (TCPConnection.new demo_cfg 5) = (c, [], sent demo_end_c) /\
    _inbound_shutdown demo_end_c = true /\ _tcp demo_end_c = None.
Proof.
  destruct (outcome_ends demo_session_c demo_socket true) as (rs & s & E & Hs); [vm_compute; reflexivity|].
  unfold demo_session_c, demo_socket in E.
  apply (thread_ends_when_idle (udp_device_ok demo_script_c_wf)) in E as (c & Hr & Ht & _);
    [|exact demo_cfg_wf|apply demo_polls|apply demo_polls|apply demo_undisturbed].
  fold demo_end_c in Hs. subst s. exists c. split; [|split; [vm_compute; reflexivity|exact Ht]].
  assert (from_owner demo_end_c = []) as Hd by (vm_compute; reflexivity). by rewrite Hd in Hr.
Defined.
