(* ===== verification/Lifecycle.v ===== *)
(** * Lifecycle: the owner's side of a socket

    Models what the owner thread of [src/libsponge/tcp_helpers/tcp_sponge_socket.cc]
    does with the TCP thread: [connect] and [listen_and_accept] start it,
    [wait_until_closed] and the destructor join it.  The state is the socket, the
    rules of its event loop, and whether the thread can be joined.  Joining is
    running the rounds of the thread that are left; [None] when there are not
    enough of them for it to end.  From the moment the destructor has stored
    [_abort], the thread reads it as true.

    The theorems: a destroyed socket ends its thread within one round, and what
    it promises, a RST to the peer, is not sent; and [wait_until_closed] returns
    only when the connection is finished and everything was passed on. *)

From S2P Require Import Prelude ByteStream TCPHeader TCPSegment TCPConfig TCPConnection FdAdapter FileDescriptor EventLoop SpongeSocket.

Section owner.
Context `{Kernel} {A In Out : Type} `{Adapter A In Out} `{Device In Out}.

Record owner := mkOwner {
  o_socket : sponge A;
  o_rules : list (Rule (sponge A));
  joinable : bool
}.

Definition set_self (s : sponge A) (fd : FDWrapper) : sponge A :=
  mkSponge fd (_thread_data s) (_datagram_adapter s) (adapter_fd s) (_tcp s) (_inbound_shutdown s)
    (_outbound_shutdown s) (_fully_acked s) (S (clock s)) (from_owner s) (to_owner s) (log s) (sent s).

(** The end of [connect] and of [listen_and_accept]: [_tcp_thread] is assigned. *)
Definition opened (active_open : bool) (s : sponge A) (c_tcp : TCPConfig) (random : Z) (c_ad : FdAdapterConfig)
    (rounds : list round) (base_time : Z) : outcome (option owner) :=
  try: (fin, rs, s) <- (if active_open then connect s c_tcp random c_ad rounds base_time
                        else listen_and_accept s c_tcp random c_ad rounds base_time);
  Ret (if fin : bool then Some (mkOwner s rs true) else None).

(** [_tcp_thread.join()] *)
Definition join (o : owner) (rounds : list round) (base_time : Z) : outcome (option owner) :=
  try: (fin, rs, s) <- _tcp_main rounds base_time (o_rules o) (o_socket o);
  Ret (if fin : bool then Some (mkOwner s rs false) else None).

(** [shutdown(SHUT_RDWR)] *)
Definition shut (o : owner) : outcome owner :=
  try: fd <- FileDescriptor.shutdown (clock (o_socket o)) (self_fd (o_socket o)) SHUT_RDWR;
  Ret (mkOwner (set_self (o_socket o) fd) (o_rules o) (joinable o)).

Definition wait_until_closed (o : owner) (rounds : list round) (base_time : Z) : outcome (option owner) :=
  try: o <- shut o;
  if joinable o then join o rounds base_time else Ret (Some o).

(** A round of the thread after [_abort.store(true)]. *)
Definition aborted (r : round) : round := mkRound (r_poll r) (r_now r) true.

Definition destroy_socket (o : owner) (rounds : list round) (base_time : Z) : outcome (option owner) :=
  if joinable o then join o (map aborted rounds) base_time else Ret (Some o).

(** ** Lemmas *)

(** Rules whose descriptors are open and not at their end stay installed. *)
Definition steady (rs : list (Rule (sponge A))) (s : sponge A) : Prop :=
  Forall (fun r => at_eof r s = false /\ closed (EventLoop.fd r s) = false) rs.

Lemma setup_steady rs s : steady rs s -> exists ps b, setup rs s = Ret (rs, ps, b, s).
Proof.
  induction 1 as [|r rs [He Hc] _ IH]; simpl; [by eauto|]. rewrite He, Hc. destruct IH as (ps & b & ->). cbn [obind]. eauto.
Qed.

(** Nothing is ready before the timeout. *)
Definition times_out (poll : list pollfd -> poll_reply) : Prop := forall ps, p_ret (poll ps) = 0.

Lemma wait_times_out poll rs s : steady rs s -> times_out poll ->
  exists res, wait_next_event poll rs s = Ret (res, rs, s).
Proof.
  intros Hs Ht. unfold wait_next_event. destruct (setup_steady rs s Hs) as (ps & b & ->). cbn [obind].
  destruct b; cbn [negb]; [|by eauto]. unfold SystemCall. rewrite Ht. by eauto.
Qed.

(** With [_abort] set, the loop ends after the round it is in. *)
Lemma abort_ends rs s r rounds base : _tcp_loop (fun _ => true) (map aborted (r :: rounds)) base rs s =
  try: (_, rs, s) <- wait_next_event (r_poll r) rs s; Ret (true, rs, s).
Proof.
  simpl. destruct (wait_next_event (r_poll r) rs s) as [[[res rs1] s1]|e]; [|done]. cbn [obind].
  by rewrite orb_true_r.
Qed.

Lemma destroy_main o r rounds base o' : joinable o = true -> destroy_socket o (r :: rounds) base = Ret o' ->
  exists res rs1 s1, wait_next_event (r_poll r) (o_rules o) (o_socket o) = Ret (res, rs1, s1) /\
    exists fd, o' = Some (mkOwner (mkSponge fd (_thread_data s1) (_datagram_adapter s1) (adapter_fd s1) None
      (_inbound_shutdown s1) (_outbound_shutdown s1) (_fully_acked s1) (S (clock s1)) (from_owner s1) (to_owner s1)
      (log s1) (sent s1)) rs1 false).
Proof.
  intros Hj. unfold destroy_socket, join, _tcp_main. rewrite Hj. case_bool_decide; [done|]. rewrite abort_ends.
  destruct (wait_next_event _ _ _) as [[[res rs1] s1]|]; [|done]. cbn [obind negb].
  destruct (FileDescriptor.shutdown _ _ _) as [fd|]; [|done]. cbn [obind]. intros [= <-]. do 3 eexists. split; [done|]. by exists fd.
Qed.
End owner.
Arguments owner A : clear implicits.

(** A connection that is destroyed while it is active has a RST in its queue. *)
Lemma send_one_rst c seg : TCPConnection._rst_set c = true ->
  TCPConnection._rst_set (TCPConnection.send_one c seg) = true /\
  exists seg', TCPConnection._segments_out (TCPConnection.send_one c seg) = TCPConnection._segments_out c ++ [seg'] /\
    rst (_header seg') = true.
Proof.
  intros Hr. unfold TCPConnection.send_one. destruct (syn (_header seg)); simpl;
    (destruct (TCPReceiver.ackno (TCPConnection._receiver c)); simpl;
      [destruct (TCPConnection._rec_fin_seqno c); simpl; [destruct (_ <? _); simpl|]|]);
    rewrite Hr; simpl; rewrite Hr; eauto.
Qed.

Lemma send_fold_rst q : forall c, TCPConnection._rst_set c = true ->
  exists segs, TCPConnection._segments_out (fold_left TCPConnection.send_one q c) = TCPConnection._segments_out c ++ segs /\
    length segs = length q /\ Forall (fun seg => rst (_header seg) = true) segs.
Proof.
  induction q as [|seg q IH]; intros c Hr; cbn [fold_left]; [exists []; by rewrite app_nil_r|].
  destruct (send_one_rst c seg Hr) as (Hr1 & seg' & Ho & Hs). destruct (IH _ Hr1) as (segs & Hos & Hl & Hf).
  exists (seg' :: segs). rewrite Hos, Ho, <- app_assoc. split_and!; [done|simpl; lia|by constructor].
Qed.

Lemma destroy_queues_rst c : TCPConnection.active c = true ->
  exists segs, segs <> [] /\ Forall (fun seg => rst (_header seg) = true) segs /\
    TCPConnection._segments_out (TCPConnection.destroy c) = TCPConnection._segments_out c ++ segs.
Proof.
  intros Ha. unfold TCPConnection.destroy. rewrite Ha, TCPConnection.sendseg_eq. set (c1 := TCPConnection.set_rst c true).
  destruct (send_fold_rst (TCPConnection.to_send c1) (TCPConnection.set_queue c1 []) eq_refl) as (segs & Ho & Hl & Hf).
  destruct (TCPConnection.clean_shutdown_eq (fold_left TCPConnection.send_one (TCPConnection.to_send c1) (TCPConnection.set_queue c1 [])))
    as (l & b & -> & _). exists segs. simpl. split_and!; [|done|done].
  intros ->. pose proof (TCPConnection.to_send_nonempty c1). by destruct (TCPConnection.to_send c1).
Qed.

(** ** Properties *)

Section lifecycle.
Context `{Kernel} {A In Out : Type} `{Adapter A In Out} `{Device In Out}.

(** A socket that is destroyed ends its thread: one more round of the thread is
    enough, whatever happens in it, and then the connection is gone. *)
Theorem destructor_ends_thread (o : owner A) r rounds base res :
  joinable o = true -> destroy_socket o (r :: rounds) base = Ret res ->
  exists o', res = Some o' /\ joinable o' = false /\ _tcp (o_socket o') = None /\
    destroy_socket o [r] base = Ret (Some o').
Proof.
  intros Hj Hd. destruct (destroy_main o r rounds base res Hj Hd) as (ev & rs1 & s1 & Ew & fd & ->).
  eexists. split_and!; try done. revert Hd. unfold destroy_socket, join, _tcp_main. rewrite Hj.
  case_bool_decide; [done|]. by rewrite !abort_ends.
Qed.

(** C39 The RST of a destroyed socket does not leave it: if an established
    connection is destroyed while nothing else happens, the thread ends in its
    next round, the segments queued by [~TCPConnection], all with the RST flag,
    are destroyed with the connection, and what was sent to the peer is what had
    been sent before. *)
Theorem destructor_sends_no_reset (o : owner A) c r rounds base fd :
  joinable o = true -> _tcp (o_socket o) = Some c -> TCPConnection.active c = true ->
  steady (o_rules o) (o_socket o) -> times_out (r_poll r) ->
  FileDescriptor.shutdown (clock (o_socket o)) (self_fd (o_socket o)) SHUT_RDWR = Ret fd ->
  (exists segs, segs <> [] /\ Forall (fun seg => rst (_header seg) = true) segs /\
     TCPConnection._segments_out (TCPConnection.destroy c) = TCPConnection._segments_out c ++ segs) /\
  exists o', destroy_socket o (r :: rounds) base = Ret (Some o') /\
    joinable o' = false /\ _tcp (o_socket o') = None /\ sent (o_socket o') = sent (o_socket o).
Proof.
  intros Hj Hc Ha Hst Ht Hfd. split; [by apply destroy_queues_rst|].
  unfold destroy_socket, join, _tcp_main. rewrite Hj, Hc, bool_decide_eq_false_2, abort_ends by done.
  destruct (wait_times_out (r_poll r) (o_rules o) (o_socket o) Hst Ht) as (ev & ->). cbn [obind negb].
  rewrite Hfd. cbn [obind]. by eexists.
Qed.
End lifecycle.

Section closing.
Context `{Kernel} {A In Out : Type} `{Adapter A In Out} `{!AdapterTyped A In Out} `{Device In Out}.
Context (dev_ok : forall t w w' t' i, dev_read t w = Ret (w', t', i) -> a_in_ok i).

(** What is known of a connected socket when the call returns. *)
Lemma wait_finished c_tcp random (o : owner A) running t2 (o' : owner A) :
  let c0 := TCPConnection.new c_tcp random in
  config_wf c_tcp -> polls running -> undisturbed running ->
  sublist (o_rules o) rules -> NoDup (o_rules o) -> follows c0 (o_socket o) -> joinable o = true ->
  wait_until_closed o running t2 = Ret (Some o') ->
  let s' := o_socket o' in
  exists c, TCPConnection.run (log s') c0 = (c, from_owner s', sent s') /\ joinable o' = false /\ _tcp s' = None /\
    (rule1 ∈ o_rules o' -> TCPConnection.active c = false) /\
    (rule3 ∈ o_rules o' -> _buf (TCPConnection.inbound_stream c) = []) /\
    (rule4 ∈ o_rules o' -> TCPConnection._segments_out c = []).
Proof.
  intros c0 Hcfg Hp Hu Hsub Hnd Hf Hj Hw s'. unfold wait_until_closed, shut in Hw.
  apply obind_Ret in Hw as (o1 & Ho & Hw). apply obind_Ret in Ho as (fd & _ & [= <-]). cbn [joinable] in Hw.
  rewrite Hj in Hw. unfold join in Hw. cbn [o_socket o_rules] in Hw.
  apply obind_Ret in Hw as ([[fin rs2] s2] & Hm & Hw). destruct fin; [|done]. injection Hw as <-.
  assert (follows c0 (set_self (o_socket o) fd)) as Hf' by (by eapply follows_same).
  destruct (main_idle dev_ok _ _ Hcfg _ _ _ _ _ _ Hp Hu Hsub Hnd Hf' Hm) as (c & Hr & Ht & Hr1 & Hr3 & Hr4).
  exists c. split_and!; [done..|by intros [? _]%Hr3|done].
Qed.

(** [wait_until_closed] waits for the end of the connection: when the owner of a
    new socket connects or accepts, and then waits, the call returns, if the
    thread is not interrupted by a signal, only after the connection has become
    inactive, all its segments were sent, and all bytes for the owner were passed
    on, as far as the rules for them were still installed. *)
Theorem wait_means_finished first second a device c_tcp random c_ad active_open opening t1 running t2 o o' :
  config_wf c_tcp -> polls opening -> polls running -> undisturbed running ->
  opened active_open (new first second a device) c_tcp random c_ad opening t1 = Ret (Some o) ->
  wait_until_closed o running t2 = Ret (Some o') ->
  let c0 := TCPConnection.new c_tcp random in
  let s' := o_socket o' in
  exists c, TCPConnection.run (log s') c0 = (c, from_owner s', sent s') /\ joinable o' = false /\ _tcp s' = None /\
    (rule1 ∈ o_rules o' -> TCPConnection.active c = false) /\
    (rule3 ∈ o_rules o' -> _buf (TCPConnection.inbound_stream c) = []) /\
    (rule4 ∈ o_rules o' -> TCPConnection._segments_out c = []).
Proof.
  intros Hcfg Hp1 Hp2 Hu Ho Hw. unfold opened in Ho.
  destruct (if active_open then _ else _) as [[[fin rs1] s1]|] eqn:E; [|done]. cbn [obind] in Ho.
  destruct (opened_sublist dev_ok _ _ _ _ _ _ _ Hcfg _ _ _ _ _ _ Hp1 E) as (Hsub & Hnd & Hf).
  destruct fin; [|done]. injection Ho as <-. exact (wait_finished _ _ (mkOwner s1 rs1 true) _ _ _ Hcfg Hp2 Hu Hsub Hnd Hf eq_refl Hw).
Qed.
End closing.

(** ** Witnesses *)

Section demo.
Let K : Kernel := demo_kernel demo_script_a 100.
Let D : Device datagram (Address * Buffer.BufferList) := @UDPDevice (demo_udp demo_ip_b demo_script_a).
#[local] Existing Instances K D.

(** A client that has connected. *)
Definition demo_owner : option (owner FdAdapterBase) :=
  match opened (H0 := UDPAdapter) true demo_socket demo_cfg 5 demo_cfg_a (map demo_round [[(6, POLLOUT)]; [(6, POLLIN)]]) 0 with
  | Ret o => o
  | Throw _ => None
  end.

Definition idle_round : round := mkRound (fun ps => mkPollReply 0 0 (map (fun _ => 0) ps)) 10 false.

(** It is connected, its descriptors are open, and it has sent its SYN. *)
Definition demo_facts (o : owner FdAdapterBase) : bool :=
  joinable o && match _tcp (o_socket o) with Some c => TCPConnection.active c | None => false end &&
  (length (sent (o_socket o)) =? 1)%nat &&
  forallb (fun r => negb (at_eof r (o_socket o)) && negb (closed (EventLoop.fd r (o_socket o)))) (o_rules o) &&
  match FileDescriptor.shutdown (clock (o_socket o)) (self_fd (o_socket o)) SHUT_RDWR with Ret _ => true | Throw _ => false end.

Lemma destructor_sends_no_reset_witness :
  match demo_owner with
  | Some o => exists o', destroy_socket (H0 := UDPAdapter) o [idle_round] 0 = Ret (Some o') /\
      length (sent (o_socket o)) = 1%nat /\ sent (o_socket o') = sent (o_socket o)
  | None => False
  end.
Proof.
  assert (match demo_owner with Some o => demo_facts o | None => false end = true) as Hf by (vm_compute; reflexivity).
  destruct demo_owner as [o|]; [|discriminate Hf]. unfold demo_facts in Hf.
  destruct (joinable o) eqn:Hj; [|discriminate Hf]. destruct (_tcp (o_socket o)) as [c|] eqn:Hc; [|discriminate Hf].
  destruct (TCPConnection.active c) eqn:Ha; [|discriminate Hf].
  destruct (length (sent (o_socket o)) =? 1)%nat eqn:Hl; [|discriminate Hf].
  destruct (forallb _ (o_rules o)) eqn:Hs; [|discriminate Hf].
  destruct (FileDescriptor.shutdown _ _ _) as [fd|] eqn:Hfd; [|discriminate Hf].
  destruct (destructor_sends_no_reset (H0 := UDPAdapter) o c idle_round [] 0 fd Hj Hc Ha) as (_ & o' & Hd & _ & _ & He);
    [|exact (fun _ => eq_refl)|exact Hfd|].
  - apply Forall_forall. intros r Hr%list_elem_of_In. rewrite forallb_forall in Hs.
    apply Hs, andb_true_iff in Hr as [?%negb_true_iff ?%negb_true_iff]. by split.
  - exists o'. split; [exact Hd|]. split; [by apply Nat.eqb_eq|exact He].
Defined.
End demo.
