(* ===== verification/Programs.v ===== *)
(** * Programs: [tcp_udp] and [tcp_ipv4] as wholes

    Models the mains of [src/apps/tcp_udp.cc] and [src/apps/tcp_ipv4.cc] up to the
    start of the connection ([udp_open], [ipv4_open]), and a run of either
    program from there ([ran]): the TCP thread is a session of the socket, the
    owner runs [bidirectional_stream_copy] over the other end of the socket pair,
    and what one thread reads from the pair is an initial part of what the other
    wrote to it, as Unix-domain stream sockets promise.  The rest
    of the mains, with [wait_until_closed] and the exit code, is in [Mains].

    The theorems are about two such programs: what one writes to its output is a
    prefix of what the other read from its input. *)

From Stdlib Require Import String.
From S2P Require Import Prelude Parser TCPConfig NetAddress ByteStream Buffer TCPSegment TCPConnection ConnectionPair FdAdapter.
From S2P Require Import FileDescriptor Sockets Text Options EventLoop StreamCopy SpongeSocket.
Local Open Scope Z_scope.

(** The number and the port that the adapters see of an IPv4 address. *)
Definition numeric (a : address) : Address :=
  mkAddress (be_val (ztake 4 (zdrop 4 (_address a)))) (be_val (ztake 2 (zdrop 2 (_address a)))).

Definition adapter_config (cfg : configuration) : FdAdapterConfig :=
  let member (a : option address) := match a with Some a => numeric a | None => mkAddress 0 0 end in
  mkFdAdapterConfig (member (cfg_source cfg)) (member (cfg_destination cfg))
    (s_loss_dn (cfg_settings cfg)) (s_loss_up (cfg_settings cfg)).

(** What the main has when it calls [connect] or [listen_and_accept]. *)
Record launch (A : Type) := mkLaunch {
  l_listen : bool;
  l_tcp : TCPConfig;
  l_adapter : FdAdapterConfig;
  l_socket : sponge A
}.
Arguments mkLaunch {A} _ _ _ _.
Arguments l_listen {A} _.
Arguments l_tcp {A} _.
Arguments l_adapter {A} _.
Arguments l_socket {A} _.

Section mains.
Context {G : Type} `{Generator G} `{SocketKernel} `{Resolver} (loss_of : string -> Z).
Local Notation lossy := (LossyFdAdapter G FdAdapterBase).

(** The members' initial values. *)
Definition fresh_adapter (rand : G) : lossy := mkLossy rand (mkBase default_adapter_config false).

Definition udp_open (argv : list string) (t : nat) (rand : G) : outcome (command (launch lossy)) :=
  if (length argv <? 2)%nat then Ret (Quit 1)
  else
    try: r <- udp_config loss_of argv;
    match r with
    | Quit code => Ret (Quit code)
    | Go cfg =>
        let listen := s_listen (cfg_settings cfg) in
        try: udp_sock <- UDPSocket t;
        try: _ <- (match cfg_source cfg with
                   | Some source => if listen then bind (t + 1) source else Ret tt
                   | None => Ret tt
                   end);
        try: tcp_socket <- create (t + 2) (fresh_adapter rand) udp_sock;
        Ret (Go (mkLaunch listen (c_fsm (cfg_settings cfg)) (adapter_config cfg) tcp_socket))
    end.

Definition TUN_DFLT : string := "tun144".

Definition ipv4_open (argv : list string) (random_port : string) (t : nat) (rand : G) : outcome (command (launch lossy)) :=
  if (length argv <? 2)%nat then Ret (Quit 1)
  else
    try: r <- ipv4_config loss_of argv random_port;
    match r with
    | Quit code => Ret (Quit code)
    | Go cfg =>
        let tun_dev_name := match tundev (cfg_settings cfg) with Some d => d | None => TUN_DFLT end in
        try: tun <- TunTapFD t (text tun_dev_name) true;
        try: tcp_socket <- create (t + 2) (fresh_adapter rand) tun;
        Ret (Go (mkLaunch (s_listen (cfg_settings cfg)) (c_fsm (cfg_settings cfg)) (adapter_config cfg) tcp_socket))
    end.

(** *** What the mains set up *)

(** A new socket, and a configuration with the types of its members. *)
Definition ready (l : launch lossy) : Prop :=
  config_wf (l_tcp l) /\ exists first second a device, l_socket l = new first second a device.

Lemma create_new {A} t (a : A) device s : create t a device = Ret s -> exists first second, s = new first second a device.
Proof.
  unfold create. intros (p & _ & Hc)%obind_Ret. destruct p as [first second].
  apply obind_Ret in Hc as (f & _ & Hc). apply obind_Ret in Hc as (g & _ & Hc).
  apply obind_Ret in Hc as (u & _ & [= <-]). eauto.
Qed.

Lemma udp_config_typed argv cfg : udp_config loss_of argv = Ret (Go cfg) -> config_wf (c_fsm (cfg_settings cfg)).
Proof.
  unfold udp_config. destruct (parse_options _ _ _) as [code|[s rest]] eqn:E; [done|].
  apply (parse_options_typed _ (udp_types loss_of)) in E; [|apply initial_types].
  destruct rest as [|host [|port rest]]; [done..|].
  destruct (s_listen s); intros (a & _ & Hc)%obind_Ret; by injection Hc as <-.
Qed.

Lemma ipv4_config_typed argv port cfg : ipv4_config loss_of argv port = Ret (Go cfg) -> config_wf (c_fsm (cfg_settings cfg)).
Proof.
  unfold ipv4_config. destruct (parse_options _ _ _) as [code|[s rest]] eqn:E; [done|].
  apply (parse_options_typed _ (ipv4_types loss_of)) in E; [|apply initial_types].
  destruct rest as [|host [|p rest]]; [done..|].
  destruct (s_listen s); intros (a & _ & Hc)%obind_Ret; apply obind_Ret in Hc as (b & _ & Hc);
    [destruct (b =? 0); [done|]|]; by injection Hc as <-.
Qed.

Lemma udp_ready argv t rand l : udp_open argv t rand = Ret (Go l) -> ready l.
Proof.
  unfold udp_open. destruct (_ <? _)%nat; [done|]. intros (r & Hcfg & Hc)%obind_Ret. destruct r as [|cfg]; [done|].
  apply obind_Ret in Hc as (sock & _ & Hc). apply obind_Ret in Hc as (u & _ & Hc).
  apply obind_Ret in Hc as (s & Hs & [= <-]). split; [by eapply udp_config_typed|].
  apply create_new in Hs as (first & second & ->). simpl. eauto.
Qed.

Lemma ipv4_ready argv port t rand l : ipv4_open argv port t rand = Ret (Go l) -> ready l.
Proof.
  unfold ipv4_open. destruct (_ <? _)%nat; [done|]. intros (r & Hcfg & Hc)%obind_Ret. destruct r as [|cfg]; [done|].
  apply obind_Ret in Hc as (tun & _ & Hc). apply obind_Ret in Hc as (s & Hs & [= <-]).
  split; [by eapply ipv4_config_typed|]. apply create_new in Hs as (first & second & ->). simpl. eauto.
Qed.
End mains.

(** ** A run of a program *)

Section run.
Context {G In Out : Type} `{Generator G} `{Adapter FdAdapterBase In Out} `{Device In Out}.
Context (thread_kernel owner_kernel : Kernel).

(** [s] is the socket after some rounds of the TCP thread, and [c] the state of
    the owner's copy after some rounds of its own; the socket pair is between
    them. *)
Record ran (l : launch (LossyFdAdapter G FdAdapterBase)) (random : Z) (s : sponge (LossyFdAdapter G FdAdapterBase)) (c : copy)
    : Prop := mkRan {
  ran_thread : exists opening t1 running t2 fin rs, polls opening /\ polls running /\
    session (H := thread_kernel) (In := In) (Out := option Out) (negb (l_listen l)) (l_socket l) (l_tcp l) random
      (l_adapter l) opening t1 running t2 = Ret (fin, rs, s);
  ran_copy : exists n poll fin rs, (forall t, poll_fills (poll t)) /\
    bidirectional_stream_copy (H := owner_kernel) n poll (self_fd (l_socket l)) = Ret (fin, rs, c);
  ran_outbound : from_owner s `prefix_of` to_socket c;
  ran_inbound : from_socket c `prefix_of` to_owner s
}.

Context `{!AdapterTyped FdAdapterBase In Out}.
Context (dev_ok : forall t w w' t' i, dev_read (In := In) (Out := Out) t w = Ret (w', t', i) -> a_in_ok (Out := Out) i).

Lemma ran_explained l random s c :
  ready l -> ran l random s c -> explained (TCPConnection.new (l_tcp l) random) s.
Proof.
  intros [Hcfg (first & second & a & device & Hs)] [(o & t1 & r & t2 & fin & rs & Ho & Hr & E) _ _ _]. rewrite Hs in E.
  eapply (session_explained (H := thread_kernel) (In := In) (Out := option Out)); [|exact Hcfg|exact Ho|exact Hr|exact E].
  intros t w w' t' i Hi. exact (dev_ok _ _ _ _ _ Hi).
Qed.
End run.

(** ** Two programs *)
Lemma zlen_prefix (s t : bytes) : s `prefix_of` t -> zlen s <= zlen t.
Proof. intros [u ->]. rewrite zlen_app. pose proof (zlen_nonneg u). lia. Qed.

(** The outputs of two programs that were set up by their mains, whatever their
    adapters are. *)
Lemma programs_prefix {G1 In1 Out1 G2 In2 Out2 : Type} {g1 : Generator G1} {g2 : Generator G2}
    {ad1 : Adapter FdAdapterBase In1 Out1} {dev1 : Device In1 Out1} {ty1 : AdapterTyped FdAdapterBase In1 Out1}
    {ad2 : Adapter FdAdapterBase In2 Out2} {dev2 : Device In2 Out2} {ty2 : AdapterTyped FdAdapterBase In2 Out2}
    (KT1 KO1 KT2 KO2 : Kernel) lA randomA sA cA lB randomB sB cB :
  (forall t w w' t' i, dev_read (Device := dev1) t w = Ret (w', t', i) -> a_in_ok (Out := Out1) i) ->
  (forall t w w' t' i, dev_read (Device := dev2) t w = Ret (w', t', i) -> a_in_ok (Out := Out2) i) ->
  ready lA -> ready lB ->
  ran (G := G1) (In := In1) (Out := Out1) KT1 KO1 lA randomA sA cA ->
  ran (G := G2) (In := In2) (Out := Out2) KT2 KO2 lB randomB sB cB ->
  roomy (log sA) (TCPConnection.new (l_tcp lA) randomA) -> roomy (log sB) (TCPConnection.new (l_tcp lB) randomB) ->
  zlen (from_input cA) < 2147483646 -> zlen (from_input cB) + 2 < 18446744073709551616 ->
  carries (sent sA) (arrivals (log sB)) ->
  to_output cB `prefix_of` from_input cA.
Proof.
  intros ok1 ok2 HrA HrB HA HB HroomA HroomB HzA HzB Hnet.
  pose proof (ran_explained _ _ ok1 _ _ _ _ HrA HA) as HeA. pose proof (ran_explained _ _ ok2 _ _ _ _ HrB HB) as HeB.
  destruct HA as [_ (nA & pA & fA & rsA & HpA & EA) HoA _], HB as [_ (nB & pB & fB & rsB & HpB & EB) HoB HiB].
  apply copy_prefixes in EA as [HsA _]; [|done]. apply copy_prefixes in EB as [HsB HuB]; [|done].
  assert (from_owner sA `prefix_of` from_input cA) as HinA by by etrans.
  assert (from_owner sB `prefix_of` from_input cB) as HinB by by etrans.
  pose proof (zlen_prefix _ _ HinA). pose proof (zlen_prefix _ _ HinB).
  etrans; [exact HuB|]. etrans; [exact HiB|]. etrans; [|exact HinA].
  eapply explained_prefix; [apply HrA|apply HrB|done|done|done|done|lia|lia|done].
Qed.

(** ** Properties *)

Section programs.
Context {G : Type} `{Generator G} (loss_of : string -> Z).

(** C1 What one [tcp_udp] program writes to its output is a prefix of what the
    other read from its input: for any command lines the two mains accept, any
    kernels that store bytes, any interleaving of events in the four threads and
    any loss rates and random numbers, as long as every segment that reaches the
    second program is a copy of one the first sent (however often, in whatever
    order, and with any of them missing) and the input is shorter than
    2^31 - 2 bytes. *)
Theorem udp_programs_prefix (SA SB : SocketKernel) (RA RB : Resolver) (UA UB : UDPKernel) (KTA KOA KTB KOB : Kernel)
    argvA tA randA lA randomA sA cA argvB tB randB lB randomB sB cB :
  (forall t mtu, wf_bytes (r_data (fst (sys_recvfrom (UDPKernel := UA) t mtu)))) ->
  (forall t mtu, wf_bytes (r_data (fst (sys_recvfrom (UDPKernel := UB) t mtu)))) ->
  udp_open (G := G) (H0 := SA) (H1 := RA) loss_of argvA tA randA = Ret (Go lA) ->
  udp_open (G := G) (H0 := SB) (H1 := RB) loss_of argvB tB randB = Ret (Go lB) ->
  ran (H0 := UDPAdapter) (H1 := UDPDevice (H := UA)) KTA KOA lA randomA sA cA ->
  ran (H0 := UDPAdapter) (H1 := UDPDevice (H := UB)) KTB KOB lB randomB sB cB ->
  roomy (log sA) (TCPConnection.new (l_tcp lA) randomA) -> roomy (log sB) (TCPConnection.new (l_tcp lB) randomB) ->
  zlen (from_input cA) < 2147483646 -> zlen (from_input cB) + 2 < 18446744073709551616 ->
  carries (sent sA) (arrivals (log sB)) ->
  to_output cB `prefix_of` from_input cA.
Proof.
  intros HUA HUB HA HB. eapply programs_prefix;
    [exact (udp_device_ok HUA)|exact (udp_device_ok HUB)|exact (udp_ready _ _ _ _ _ HA)|exact (udp_ready _ _ _ _ _ HB)].
Qed.

(** C2 The same for two [tcp_ipv4] programs, whose segments travel in IPv4
    datagrams over TUN devices. *)
Theorem ipv4_programs_prefix (SA SB : SocketKernel) (RA RB : Resolver) (KTA KOA KTB KOB : Kernel)
    argvA portA tA randA lA randomA sA cA argvB portB tB randB lB randomB sB cB :
  (forall t n, wf_bytes (r_data (sys_read (Kernel := KTA) t n))) ->
  (forall t n, wf_bytes (r_data (sys_read (Kernel := KTB) t n))) ->
  ipv4_open (G := G) (H0 := SA) (H1 := RA) loss_of argvA portA tA randA = Ret (Go lA) ->
  ipv4_open (G := G) (H0 := SB) (H1 := RB) loss_of argvB portB tB randB = Ret (Go lB) ->
  ran (H0 := TunAdapter) (H1 := TunDevice (H := KTA)) KTA KOA lA randomA sA cA ->
  ran (H0 := TunAdapter) (H1 := TunDevice (H := KTB)) KTB KOB lB randomB sB cB ->
  roomy (log sA) (TCPConnection.new (l_tcp lA) randomA) -> roomy (log sB) (TCPConnection.new (l_tcp lB) randomB) ->
  zlen (from_input cA) < 2147483646 -> zlen (from_input cB) + 2 < 18446744073709551616 ->
  carries (sent sA) (arrivals (log sB)) ->
  to_output cB `prefix_of` from_input cA.
Proof.
  intros HKA HKB HA HB. eapply programs_prefix;
    [exact (tun_device_ok HKA)|exact (tun_device_ok HKB)|exact (ipv4_ready _ _ _ _ _ _ HA)|exact (ipv4_ready _ _ _ _ _ _ HB)].
Qed.
End programs.

(** ** Witnesses

    A client and a server; the client's input is three bytes. *)

Definition demo_host : SocketKernel := {|
  sys_socket _ _ _ := mkReply 6 0 [];
  sys_getsockopt _ _ := (mkReply 0 0 [], 1, 4);
  sys_getname _ _ := (mkReply 0 0 [], sockaddr_in 0 0, 16);
  sys_bind _ _ := mkReply 0 0 [];
  sys_connect _ _ := mkReply 0 0 [];
  sys_listen _ _ := mkReply 0 0 [];
  sys_accept _ := mkReply 4 0 [];
  sys_setsockopt _ _ _ _ := mkReply 0 0 [];
  sys_open _ := mkReply 6 0 [];
  sys_ioctl _ _ _ := mkReply 0 0 [];
  sys_fcntl _ _ _ := mkReply 0 0 [];
  sys_socketpair _ _ _ := (mkReply 0 0 [], 4, 5)
|}.

Definition demo_client : list string := ["-w"; "4096"; "2.2.2.2"; "2000"]%string.
Definition demo_ip_client : list string := ["-a"; "1.1.1.1"; "-w"; "4096"; "2.2.2.2"; "2000"]%string.
Definition demo_server : list string := ["-w"; "4096"; "-l"; "anything"; "2000"]%string.

(** The segments of the two ends. *)
Definition demo_conf : TCPConfig := mkTCPConfig 1000 4096 64000 None.
Definition demo_x0 : TCPConnection := TCPConnection.new demo_conf 5.
Definition demo_y0 : TCPConnection := TCPConnection.new demo_conf 11.
Definition demo_y1 : list op := map SegmentReceived (sent_by demo_a1 demo_x0) ++ [Dequeue].
Definition demo_x2 : list op :=
  demo_a1 ++ map SegmentReceived (sent_by demo_y1 demo_y0) ++ [AppWrite [1; 2; 3]; Dequeue].

(** What the device of either end delivers at which call. *)
Definition demo_reads_x (wire : list TCPSegment -> nat -> bytes) (t : nat) : bytes :=
  match t with 1%nat => wire (sent_by demo_y1 demo_y0) 0%nat | 2%nat => [1; 2; 3] | _ => [] end.
Definition demo_reads_y (wire : list TCPSegment -> nat -> bytes) (t : nat) : bytes :=
  match t with
  | 0%nat => wire (sent_by demo_x2 demo_x0) 0%nat
  | 2%nat => wire (sent_by demo_x2 demo_x0) 1%nat
  | 3%nat => wire (sent_by demo_x2 demo_x0) 2%nat
  | _ => []
  end.

Definition demo_cfg_x : FdAdapterConfig := mkFdAdapterConfig demo_ip_a demo_ip_b 0 0.
Definition demo_cfg_y : FdAdapterConfig := mkFdAdapterConfig demo_ip_b demo_ip_a 0 0.
Definition demo_packet (cfg : FdAdapterConfig) (segs : list TCPSegment) (i : nat) : bytes :=
  match segs !! i with
  | Some seg => match tun_write (mkBase cfg false) seg with Ret (_, l) => concatenate l | Throw _ => [] end
  | None => []
  end.

Definition demo_open_rounds (listen : bool) : list round :=
  map demo_round (if listen then [[(6, POLLIN)]; [(6, POLLOUT)]; [(6, POLLIN)]] else [[(6, POLLOUT)]; [(6, POLLIN)]]).
Definition demo_run_rounds (listen : bool) : list round :=
  map demo_round (if listen then [[(6, POLLIN)]; [(5, POLLOUT); (6, POLLOUT)]] else [[(5, POLLIN); (6, POLLOUT)]]).

(** The launch of a program. *)
Definition demo_launch {A} (o : outcome (command (launch A))) (d : launch A) : launch A :=
  match o with Ret (Go l) => l | _ => d end.
Local Notation lossy := (LossyFdAdapter (list Z) FdAdapterBase).
Definition no_launch : launch lossy :=
  mkLaunch false demo_conf default_adapter_config
    (new (mkFD 0 false false 0 0) (mkFD 0 false false 0 0) (fresh_adapter []) (mkFD 0 false false 0 0)).

Definition udp_launch (argv : list string) : outcome (command (launch lossy)) :=
  udp_open (H0 := demo_host) (H1 := numeric_resolver) (fun _ => 0) argv 0 [].
Definition ipv4_launch (argv : list string) : outcome (command (launch lossy)) :=
  ipv4_open (H0 := demo_host) (H1 := numeric_resolver) (fun _ => 0) argv "1000" 0 [].

Definition udp_x_reads := demo_reads_x (SpongeSocket.demo_wire demo_cfg_y).
Definition udp_y_reads := demo_reads_y (SpongeSocket.demo_wire demo_cfg_x).
Definition tun_x_reads := demo_reads_x (demo_packet demo_cfg_y).
Definition tun_y_reads := demo_reads_y (demo_packet demo_cfg_x).

Definition udp_session (l : launch lossy) (reads : nat -> bytes) (from : Address) (random : Z) :=
  @session (demo_kernel reads 2) _ _ _ (LossyAdapter (H0 := UDPAdapter)) (@LossyDevice _ _ (@UDPDevice (demo_udp from reads)))
    (negb (l_listen l)) (l_socket l) (l_tcp l) random (l_adapter l) (demo_open_rounds (l_listen l)) 0 (demo_run_rounds (l_listen l)) 0.
Definition tun_session (l : launch lossy) (reads : nat -> bytes) (random : Z) :=
  @session (demo_kernel reads 100) _ _ _ (LossyAdapter (H0 := TunAdapter)) (@LossyDevice _ _ (@TunDevice (demo_kernel reads 100)))
    (negb (l_listen l)) (l_socket l) (l_tcp l) random (l_adapter l) (demo_open_rounds (l_listen l)) 0 (demo_run_rounds (l_listen l)) 0.

(** The owner's side. *)
Definition demo_owner (data : bytes) : Kernel := demo_kernel (fun t => match t with O => data | _ => [] end) 100.
Definition demo_copy_poll (ls : list (list (Z * Z))) (t : nat) : list pollfd -> poll_reply := demo_ready (nth t ls []).
Definition demo_copies (data : bytes) (ls : list (list (Z * Z))) :=
  @bidirectional_stream_copy (demo_owner data) 2 (demo_copy_poll ls) (mkFD 4 false false 0 0).
Definition demo_copy_x := demo_copies [1; 2; 3] [[(0, POLLIN)]; [(4, POLLOUT)]].
Definition demo_copy_y (data : bytes) := demo_copies data [[(4, POLLIN)]; [(1, POLLOUT)]].

Definition udp_end (l : launch lossy) (reads : nat -> bytes) (from : Address) (random : Z) : sponge lossy :=
  ending (udp_session l reads from random) (l_socket l).
Definition tun_end (l : launch lossy) (reads : nat -> bytes) (random : Z) : sponge lossy :=
  ending (tun_session l reads random) (l_socket l).
Definition copied (o : outcome (bool * list (Rule copy) * copy)) : copy :=
  match o with Ret (_, _, c) => c | Throw _ => start (mkFD 4 false false 0 0) end.

Lemma demo_copied data ls : match demo_copies data ls with Ret _ => True | Throw _ => False end ->
  exists n poll fin rs, (forall t, poll_fills (poll t)) /\
    @bidirectional_stream_copy (demo_owner data) n poll (mkFD 4 false false 0 0) = Ret (fin, rs, copied (demo_copies data ls)).
Proof.
  destruct (demo_copies data ls) as [[[fin rs] c]|] eqn:E; [|done]. intros _.
  exists 2%nat, (demo_copy_poll ls), fin, rs. split; [|exact E]. intros t ps. simpl. by rewrite length_map.
Qed.

Lemma demo_opening_polls b : polls (demo_open_rounds b).
Proof. apply demo_polls. Qed.
Lemma demo_running_polls b : polls (demo_run_rounds b).
Proof. apply demo_polls. Qed.

Lemma udp_ran l reads from random data ls :
  self_fd (l_socket l) = mkFD 4 false false 0 0 ->
  option_map fst (outcome_of (udp_session l reads from random)) = Some false ->
  match demo_copies data ls with Ret _ => True | Throw _ => False end ->
  bool_decide (from_owner (udp_end l reads from random) `prefix_of` to_socket (copied (demo_copies data ls))) = true ->
  bool_decide (from_socket (copied (demo_copies data ls)) `prefix_of` to_owner (udp_end l reads from random)) = true ->
  ran (H0 := UDPAdapter) (H1 := UDPDevice (H := demo_udp from reads)) (demo_kernel reads 2) (demo_owner data) l random
    (udp_end l reads from random) (copied (demo_copies data ls)).
Proof.
  intros Hfd Hs Hc Ho%bool_decide_eq_true_1 Hi%bool_decide_eq_true_1.
  destruct (outcome_ends (udp_session l reads from random) (l_socket l) false Hs) as (rs & s & E & Es).
  fold (udp_end l reads from random) in Es. subst s. constructor; [|rewrite Hfd; by apply demo_copied|done|done].
  exists (demo_open_rounds (l_listen l)), 0, (demo_run_rounds (l_listen l)), 0, false, rs.
  split; [apply demo_opening_polls|]. split; [apply demo_running_polls|exact E].
Qed.

Lemma tun_ran l reads random data ls :
  self_fd (l_socket l) = mkFD 4 false false 0 0 ->
  option_map fst (outcome_of (tun_session l reads random)) = Some false ->
  match demo_copies data ls with Ret _ => True | Throw _ => False end ->
  bool_decide (from_owner (tun_end l reads random) `prefix_of` to_socket (copied (demo_copies data ls))) = true ->
  bool_decide (from_socket (copied (demo_copies data ls)) `prefix_of` to_owner (tun_end l reads random)) = true ->
  ran (H0 := TunAdapter) (H1 := TunDevice (H := demo_kernel reads 100)) (demo_kernel reads 100) (demo_owner data) l random
    (tun_end l reads random) (copied (demo_copies data ls)).
Proof.
  intros Hfd Hs Hc Ho%bool_decide_eq_true_1 Hi%bool_decide_eq_true_1.
  destruct (outcome_ends (tun_session l reads random) (l_socket l) false Hs) as (rs & s & E & Es).
  fold (tun_end l reads random) in Es. subst s. constructor; [|rewrite Hfd; by apply demo_copied|done|done].
  exists (demo_open_rounds (l_listen l)), 0, (demo_run_rounds (l_listen l)), 0, false, rs.
  split; [apply demo_opening_polls|]. split; [apply demo_running_polls|exact E].
Qed.

Lemma demo_bytes (reads : nat -> bytes) n :
  (forall t, (n <= t)%nat -> reads t = []) ->
  forallb (fun t => forallb (fun b => (0 <=? b) && (b <? 256)) (reads t)) (seq 0 n) = true -> forall t, wf_bytes (reads t).
Proof.
  intros Hz Hs t. destruct (le_lt_dec n t); [rewrite Hz by lia; constructor|].
  apply wf_bytesb_sound. rewrite forallb_forall in Hs. apply Hs, in_seq. lia.
Qed.

Definition udp_x : launch lossy := demo_launch (udp_launch demo_client) no_launch.
Definition udp_y : launch lossy := demo_launch (udp_launch demo_server) no_launch.
Definition tun_x : launch lossy := demo_launch (ipv4_launch demo_ip_client) no_launch.
Definition tun_y : launch lossy := demo_launch (ipv4_launch demo_server) no_launch.

Lemma udp_x_bytes t : wf_bytes (udp_x_reads t).
Proof. apply (demo_bytes _ 3); [|by vm_compute]. intros [|[|[|u]]]; [lia..|done]. Qed.
Lemma udp_y_bytes t : wf_bytes (udp_y_reads t).
Proof. apply (demo_bytes _ 4); [|by vm_compute]. intros [|[|[|[|u]]]]; [lia..|done]. Qed.
Lemma tun_x_bytes t : wf_bytes (tun_x_reads t).
Proof. apply (demo_bytes _ 3); [|by vm_compute]. intros [|[|[|u]]]; [lia..|done]. Qed.
Lemma tun_y_bytes t : wf_bytes (tun_y_reads t).
Proof. apply (demo_bytes _ 4); [|by vm_compute]. intros [|[|[|[|u]]]]; [lia..|done]. Qed.

Lemma udp_programs_prefix_witness :
  to_output (copied (demo_copy_y [1; 2])) = [1; 2] /\
  to_output (copied (demo_copy_y [1; 2])) `prefix_of` from_input (copied demo_copy_x).
Proof.
  split; [vm_compute; reflexivity|].
  apply (udp_programs_prefix (fun _ => 0) demo_host demo_host numeric_resolver numeric_resolver
    (demo_udp demo_ip_b udp_x_reads) (demo_udp demo_ip_a udp_y_reads) (demo_kernel udp_x_reads 2) (demo_owner [1; 2; 3])
    (demo_kernel udp_y_reads 2) (demo_owner [1; 2]) demo_client 0 [] udp_x 5 (udp_end udp_x udp_x_reads demo_ip_b 5)
    (copied demo_copy_x) demo_server 0 [] udp_y 11 (udp_end udp_y udp_y_reads demo_ip_a 11) (copied (demo_copy_y [1; 2]))).
  - intros t mtu. exact (udp_x_bytes t).
  - intros t mtu. exact (udp_y_bytes t).
  - vm_compute. reflexivity.
  - vm_compute. reflexivity.
  - apply udp_ran; vm_compute; constructor.
  - apply udp_ran; vm_compute; constructor.
  - apply roomyb_sound. vm_compute. reflexivity.
  - apply roomyb_sound. vm_compute. reflexivity.
  - vm_compute. reflexivity.
  - vm_compute. reflexivity.
  - apply (bool_decide_eq_true_1 _). vm_compute. reflexivity.
Defined.

Lemma ipv4_programs_prefix_witness :
  to_output (copied (demo_copy_y [1; 2])) `prefix_of` from_input (copied demo_copy_x) /\ from_input (copied demo_copy_x) = [1; 2; 3].
Proof.
  split; [|vm_compute; reflexivity].
  apply (ipv4_programs_prefix (fun _ => 0) demo_host demo_host numeric_resolver numeric_resolver
    (demo_kernel tun_x_reads 100) (demo_owner [1; 2; 3]) (demo_kernel tun_y_reads 100) (demo_owner [1; 2])
    demo_ip_client "1000" 0 [] tun_x 5 (tun_end tun_x tun_x_reads 5)
    (copied demo_copy_x) demo_server "1000" 0 [] tun_y 11 (tun_end tun_y tun_y_reads 11) (copied (demo_copy_y [1; 2]))).
  - intros t n. exact (tun_x_bytes t).
  - intros t n. exact (tun_y_bytes t).
  - vm_compute. reflexivity.
  - vm_compute. reflexivity.
  - apply tun_ran; vm_compute; constructor.
  - apply tun_ran; vm_compute; constructor.
  - apply roomyb_sound. vm_compute. reflexivity.
  - apply roomyb_sound. vm_compute. reflexivity.
  - vm_compute. reflexivity.
  - vm_compute. reflexivity.
  - apply (bool_decide_eq_true_1 _). vm_compute. reflexivity.
Defined.
