(* ===== verification/Mains.v ===== *)
(** * Mains: [tcp_udp] and [tcp_ipv4] from the command line to the exit code

    Models [main] of [src/apps/tcp_udp.cc] and [src/apps/tcp_ipv4.cc] as wholes:
    what [Programs] sets up, the opening of the connection, the copy,
    [wait_until_closed], and the destruction of the socket when an exception
    leaves the block.  The owner's thread runs for a number of rounds of the copy
    and the TCP thread for a list of rounds of its own; the program is [Running]
    when they are used up.  An exception that leaves the function of the TCP
    thread terminates the process.  Messages on the standard error stream are
    left out.

    The theorem: the exit code 0 means, unless only the usage text was asked for,
    that the copy passed on everything it read in the directions without an
    error, and that the connection was finished before the program ended. *)

From Stdlib Require Import String.
From S2P Require Import Prelude TCPConfig NetAddress ByteStream TCPConnection ConnectionPair FdAdapter FileDescriptor Sockets Text Options.
From S2P Require Import EventLoop StreamCopy Native SpongeSocket Lifecycle Programs Monitors.
Local Open Scope Z_scope.

(** What happens around a program. *)
Record environment := mkEnvironment {
  e_random : Z;                              (** for the initial sequence number *)
  e_opening : list round;                    (** the rounds of [connect] or [listen_and_accept] *)
  e_opening_time : Z;
  e_copies : nat;                            (** the rounds of the copy *)
  e_poll : nat -> list pollfd -> poll_reply;
  e_running : list round;                    (** the rounds of the TCP thread *)
  e_running_time : Z;
  e_unwound : nat                            (** how many of them are over when an exception destroys the socket *)
}.

Section main.
Context {A In Out : Type} `{Adapter A In Out} `{Device In Out} (thread_kernel owner_kernel : Kernel) (e : environment).
#[local] Existing Instance thread_kernel.

(** The socket is destroyed while its thread runs. *)
Definition unwind (o : owner A) : finish :=
  let rounds := take (e_unwound e) (e_running e) ++ map aborted (drop (e_unwound e) (e_running e)) in
  match (if joinable o then join o rounds (e_running_time e) else Ret (Some o)) with
  | Throw _ => Terminated
  | Ret None => Running
  | Ret (Some _) => Exited EXIT_FAILURE
  end.

(** The copy works on the socket's own descriptor. *)
Definition copied_through (o : owner A) (c : copy) : owner A :=
  mkOwner (set_self (o_socket o) (socket c)) (o_rules o) (joinable o).

(** [bidirectional_stream_copy(tcp_socket); tcp_socket.wait_until_closed();] *)
Definition serve (o : owner A) : finish :=
  match bidirectional_stream_copy (H := owner_kernel) (e_copies e) (e_poll e) (self_fd (o_socket o)) with
  | Throw _ => unwind o
  | Ret (false, _, _) =>
      match join o (e_running e) (e_running_time e) with Throw _ => Terminated | Ret _ => Running end
  | Ret (true, _, c) =>
      let o := copied_through o c in
      match shut o with
      | Throw _ => unwind o
      | Ret _ =>
          match wait_until_closed o (e_running e) (e_running_time e) with
          | Throw _ => Terminated
          | Ret None => Running
          | Ret (Some _) => Exited EXIT_SUCCESS
          end
      end
  end.

Definition open_launch (l : launch A) : outcome (option (owner A)) :=
  opened (negb (l_listen l)) (l_socket l) (l_tcp l) (e_random e) (l_adapter l) (e_opening e) (e_opening_time e).

(** The rest of [main], once the socket is there; no thread runs while it is
    opened. *)
Definition program (start : outcome (command (launch A))) : finish :=
  match start with
  | Throw _ => Exited EXIT_FAILURE
  | Ret (Quit code) => Exited code
  | Ret (Go l) =>
      match open_launch l with
      | Throw _ => Exited EXIT_FAILURE
      | Ret None => Running
      | Ret (Some o) => serve o
      end
  end.

(** ** What an exit code means *)
Lemma serve_success o : serve o = Exited EXIT_SUCCESS ->
  exists rs c o', bidirectional_stream_copy (H := owner_kernel) (e_copies e) (e_poll e) (self_fd (o_socket o)) = Ret (true, rs, c) /\
    wait_until_closed (copied_through o c) (e_running e) (e_running_time e) = Ret (Some o').
Proof.
  unfold serve. destruct (bidirectional_stream_copy _ _ _) as [[[fin rs] c]|].
  - destruct fin; [|by destruct (join _ _ _)]. destruct (shut _); [|unfold unwind; by repeat case_match].
    destruct (wait_until_closed _ _ _) as [[o'|]|] eqn:Ew; [|done..]. intros _. eauto.
  - unfold unwind. by repeat case_match.
Qed.

Context `{!AdapterTyped A In Out}.
Context (dev_ok : forall t w w' t' i, dev_read t w = Ret (w', t', i) -> a_in_ok i).

(** Nothing disturbs the program: [poll] fills its array, is not interrupted by
    a signal, and the socket is not destroyed. *)
Record peaceful : Prop := mkPeaceful {
  pe_opening : polls (e_opening e);
  pe_running : polls (e_running e);
  pe_undisturbed : undisturbed (e_running e);
  pe_poll : forall t, poll_fills (e_poll e t);
  pe_uninterrupted : forall t ps, ~ interrupted (e_poll e t ps)
}.

(** The program has done its work: [c] is the copy and [o] the owner's view of
    the socket at the end.  What the TCP thread no longer has a rule for (its
    device failed) it cannot finish. *)
Record done_with (l : launch A) (c : copy) (o : owner A) : Prop := mkDone {
  dn_input : error (_outbound c) = false -> to_socket c = from_input c /\
    (input_ended (_outbound c) = true -> StreamCopy._outbound_shutdown c = true);
  dn_output : error (_inbound c) = false -> to_output c = from_socket c /\
    (input_ended (_inbound c) = true -> StreamCopy._inbound_shutdown c = true);
  dn_joined : joinable o = false /\ _tcp (o_socket o) = None;
  dn_connection : exists conn,
    TCPConnection.run (log (o_socket o)) (TCPConnection.new (l_tcp l) (e_random e)) =
      (conn, from_owner (o_socket o), SpongeSocket.sent (o_socket o)) /\
    (SpongeSocket.rule1 ∈ o_rules o -> TCPConnection.active conn = false) /\
    (SpongeSocket.rule3 ∈ o_rules o -> _buf (TCPConnection.inbound_stream conn) = []) /\
    (SpongeSocket.rule4 ∈ o_rules o -> TCPConnection._segments_out conn = [])
}.

Lemma program_success start :
  (forall l, start = Ret (Go l) -> config_wf (l_tcp l) /\ exists first second a device, l_socket l = new first second a device) ->
  peaceful -> program start = Exited EXIT_SUCCESS ->
  start = Ret (Quit EXIT_SUCCESS) \/
  exists l o rs c o', start = Ret (Go l) /\ open_launch l = Ret (Some o) /\
    bidirectional_stream_copy (H := owner_kernel) (e_copies e) (e_poll e) (self_fd (o_socket o)) = Ret (true, rs, c) /\
    wait_until_closed (copied_through o c) (e_running e) (e_running_time e) = Ret (Some o') /\ done_with l c o'.
Proof.
  intros Hstart [Hp1 Hp2 Hu Hp3 Hi] Hx. unfold program in Hx. destruct start as [[code|l]|]; [|right|done].
  { injection Hx as ->. by left. }
  destruct (open_launch l) as [[o|]|] eqn:Eo; [|done..]. destruct (serve_success o Hx) as (rs & c & o' & Ec & Ew).
  exists l, o, rs, c, o'. split_and!; try done. destruct (Hstart l eq_refl) as (Hcfg & first & second & a & device & Hs).
  destruct (StreamCopy.copy_complete (H := owner_kernel) _ _ _ _ _ Hp3 Hi Ec) as [Hout Hin].
  unfold open_launch, opened in Eo. rewrite Hs in Eo.
  destruct (if negb (l_listen l) then _ else _) as [[[fin rs1] s1]|] eqn:E; [|done]. cbn [obind] in Eo.
  destruct (opened_sublist dev_ok _ _ _ _ _ _ _ Hcfg _ _ _ _ _ _ Hp1 E) as (Hsub & Hnd & Hf).
  destruct fin; [|done]. injection Eo as <-.
  destruct (wait_finished dev_ok (l_tcp l) (e_random e) (mkOwner (set_self s1 (socket c)) rs1 true) _ _ _ Hcfg Hp2 Hu Hsub Hnd
    (follows_same _ _ (set_self s1 (socket c)) Hf eq_refl eq_refl eq_refl eq_refl eq_refl (fun h => h)) eq_refl Ew)
    as (conn & Hr & Hj & Ht & H1 & H3 & H4).
  constructor; [done..|by exists conn].
Qed.
End main.

(** ** The two programs *)
Section mains.
Context {G : Type} `{Generator G} (loss_of : string -> Z) (S0 : SocketKernel) (R0 : Resolver).

Definition udp_main (U : UDPKernel) (thread_kernel owner_kernel : Kernel) (argv : list string) (t : nat) (rand : G)
    (e : environment) : finish :=
  program (H0 := LossyDevice (H := UDPDevice (H := U))) thread_kernel owner_kernel e (udp_open loss_of argv t rand).

Definition ipv4_main (thread_kernel owner_kernel : Kernel) (argv : list string) (random_port : string) (t : nat) (rand : G)
    (e : environment) : finish :=
  program (H0 := LossyDevice (H := TunDevice (H := thread_kernel))) thread_kernel owner_kernel e
    (ipv4_open loss_of argv random_port t rand).
End mains.

(** ** Properties *)

(** C21 The exit code 0 of [tcp_udp], if nothing disturbs its threads, means that the
    user asked for the usage text, or that the program has done its work: the
    connection was opened; the copy returned, having passed on everything that
    was read in the directions whose stream has no error, and told the end; and
    the TCP thread ended after its connection had become inactive, with no
    segment and no byte for the owner left, as far as the thread still had rules
    for them. *)
Theorem exit_success_means_done {G : Type} `{Generator G} loss_of (S0 : SocketKernel) (R0 : Resolver) (U : UDPKernel)
    (thread_kernel owner_kernel : Kernel) argv t (rand : G) e :
  (forall t mtu, wf_bytes (r_data (fst (sys_recvfrom t mtu)))) -> peaceful e ->
  udp_main loss_of S0 R0 U thread_kernel owner_kernel argv t rand e = Exited EXIT_SUCCESS ->
  udp_open loss_of argv t rand = Ret (Quit EXIT_SUCCESS) \/
  exists l o rs c o', udp_open loss_of argv t rand = Ret (Go l) /\
    open_launch (H0 := LossyDevice (H := UDPDevice (H := U))) thread_kernel e l = Ret (Some o) /\
    bidirectional_stream_copy (H := owner_kernel) (e_copies e) (e_poll e) (self_fd (o_socket o)) = Ret (true, rs, c) /\
    wait_until_closed (H := thread_kernel) (H0 := LossyAdapter (H0 := UDPAdapter)) (copied_through o c)
      (e_running e) (e_running_time e) = Ret (Some o') /\
    done_with (H0 := LossyDevice (H := UDPDevice (H := U))) thread_kernel e l c o'.
Proof.
  intros Hdev Hp Hm. eapply program_success; [|intros l Hl; exact (udp_ready _ _ _ _ _ Hl)|exact Hp|exact Hm].
  intros t' w w' t'' i Hi. exact (udp_device_ok Hdev _ _ _ _ _ Hi).
Qed.

(** The same for [tcp_ipv4]. *)
Theorem ipv4_exit_success {G : Type} `{Generator G} loss_of (S0 : SocketKernel) (R0 : Resolver)
    (thread_kernel owner_kernel : Kernel) argv port t (rand : G) e :
  (forall t n, wf_bytes (r_data (sys_read (Kernel := thread_kernel) t n))) -> peaceful e ->
  ipv4_main loss_of S0 R0 thread_kernel owner_kernel argv port t rand e = Exited EXIT_SUCCESS ->
  ipv4_open loss_of argv port t rand = Ret (Quit EXIT_SUCCESS) \/
  exists l o rs c o', ipv4_open loss_of argv port t rand = Ret (Go l) /\
    open_launch (H0 := LossyDevice (H := TunDevice (H := thread_kernel))) thread_kernel e l = Ret (Some o) /\
    bidirectional_stream_copy (H := owner_kernel) (e_copies e) (e_poll e) (self_fd (o_socket o)) = Ret (true, rs, c) /\
    wait_until_closed (H := thread_kernel) (H0 := LossyAdapter (H0 := TunAdapter)) (copied_through o c)
      (e_running e) (e_running_time e) = Ret (Some o') /\
    done_with (H0 := LossyDevice (H := TunDevice (H := thread_kernel))) thread_kernel e l c o'.
Proof.
  intros Hdev Hp Hm. eapply program_success; [|intros l Hl; exact (ipv4_ready _ _ _ _ _ _ Hl)|exact Hp|exact Hm].
  intros t' w w' t'' i Hi. exact (tun_device_ok Hdev _ _ _ _ _ Hi).
Qed.

(** ** Witness: a client whose peer resets the connection after the copy *)
Definition demo_script (t : nat) : bytes :=
  match t with
  | 1%nat => demo_wire demo_cfg_y (sent_by demo_y1 demo_y0) 0
  | 5%nat => demo_wire demo_cfg_y (map set_rst_flag (sent_by demo_y1 demo_y0)) 0
  | _ => []
  end.
Definition demo_environment : environment :=
  mkEnvironment 5 (map demo_round [[(6, POLLOUT)]; [(6, POLLIN)]]) 0
    7 (demo_copy_poll [[(0, POLLIN); (4, POLLIN)]; [(4, POLLOUT); (1, POLLOUT)]])
    (map demo_round [[(6, POLLOUT)]; [(6, POLLIN)]; [(5, POLLOUT)]; []]) 0 0.
Definition demo_main : finish :=
  udp_main (fun _ => 0) demo_host numeric_resolver (demo_udp demo_ip_b demo_script) (demo_kernel demo_script 100)
    (Programs.demo_owner [1; 2]) demo_client 0 [] demo_environment.

Lemma demo_script_wf t mtu : wf_bytes (r_data (fst (sys_recvfrom (UDPKernel := demo_udp demo_ip_b demo_script) t mtu))).
Proof. apply (demo_bytes demo_script 6); [|by vm_compute]. intros [|[|[|[|[|[|u]]]]]]; [lia..|done]. Qed.

Lemma demo_peaceful : peaceful demo_environment.
Proof.
  constructor; [apply demo_polls|apply demo_polls|apply demo_undisturbed| |done]. intros t ps. simpl. by rewrite length_map.
Qed.

Lemma exit_success_means_done_witness :
  demo_main = Exited EXIT_SUCCESS /\
  exists l c o', udp_launch demo_client = Ret (Go l) /\
    done_with (H := LossyAdapter (H0 := UDPAdapter)) (H0 := LossyDevice (H := UDPDevice (H := demo_udp demo_ip_b demo_script)))
      (demo_kernel demo_script 100) demo_environment l c o'.
Proof.
  assert (demo_main = Exited EXIT_SUCCESS) as Hm by (vm_compute; reflexivity). split; [exact Hm|].
  unfold demo_main in Hm. apply exit_success_means_done in Hm as [Hq|(l & o & rs & c & o' & Hl & _ & _ & _ & Hd)];
    [| |exact demo_script_wf|exact demo_peaceful].
  - exfalso. vm_compute in Hq. discriminate Hq.
  - exists l, c, o'. split; [exact Hl|exact Hd].
Defined.
