(* ===== verification/Usage.v ===== *)
(** * Usage: what the TCP programs say of their options

    Models [show_usage] of [src/apps/tcp_ipv4.cc], [src/apps/tcp_udp.cc] and
    [src/apps/tcp_native.cc].

    The theorem compares the texts with the parsers of [Options]: an argument is
    taken as an option exactly if one of the listed options is equal to it in the
    first three characters; for the options of three characters that admits
    longer arguments. *)

From Stdlib Require Import String.
From S2P Require Import Prelude NetAddress Text TCPConfig TcpDump Options Programs.
Local Open Scope Z_scope.

(** ** The texts *)

(** The optional message and the end of line. *)
Definition usage_end (cout : ostream) (msg : option bytes) : ostream :=
  let cout := match msg with Some m => outs cout [Str m] | None => cout end in
  outs cout [Chr 10].

Definition ipv4_usage (argv0 : bytes) (msg : option bytes) : ostream :=
  usage_end (outs ostream_new
    [Str (text "Usage: "); Str argv0; Str (text " [options] <host> <port>" ++ [10; 10]);
     Str (text "   Option                                                          Default" ++ [10]);
     Str (text "   --                                                              --" ++ [10; 10]);
     Str (text "   -l              Server (listen) mode.                           (client mode)" ++ [10]);
     Str (text "                   In server mode, <host>:<port> is the address to bind." ++ [10; 10]);
     Str (text "   -a <addr>       Set source address (client mode only)           "); Str (text LOCAL_ADDRESS_DFLT); Str [10];
     Str (text "   -s <port>       Set source port (client mode only)              (random)" ++ [10; 10]);
     Str (text "   -w <winsz>      Use a window of <winsz> bytes                   "); Int MAX_PAYLOAD_SIZE; Str [10; 10];
     Str (text "   -t <tmout>      Set rt_timeout to tmout                         "); Int TIMEOUT_DFLT; Str [10; 10];
     Str (text "   -d <tundev>     Connect to tun <tundev>                         "); Str (text TUN_DFLT); Str [10; 10];
     Str (text "   -Lu <loss>      Set uplink loss to <rate> (float in 0..1)       (no loss)" ++ [10]);
     Str (text "   -Ld <loss>      Set downlink loss to <rate> (float in 0..1)     (no loss)" ++ [10; 10]);
     Str (text "   -h              Show this message." ++ [10; 10])]) msg.

Definition udp_usage (argv0 : bytes) (msg : option bytes) : ostream :=
  usage_end (outs ostream_new
    [Str (text "Usage: "); Str argv0; Str (text " [options] <host> <port>" ++ [10; 10]);
     Str (text "   Option                                                          Default" ++ [10]);
     Str (text "   --                                                              --" ++ [10; 10]);
     Str (text "   -l              Server (listen) mode.                           (client mode)" ++ [10]);
     Str (text "                   In server mode, <host>:<port> is the address to bind." ++ [10; 10]);
     Str (text "   -w <winsz>      Use a window of <winsz> bytes                   "); Int MAX_PAYLOAD_SIZE; Str [10; 10];
     Str (text "   -t <tmout>      Set rt_timeout to tmout                         "); Int TIMEOUT_DFLT; Str [10; 10];
     Str (text "   -Lu <loss>      Set uplink loss to <rate> (float in 0..1)       (no loss)" ++ [10]);
     Str (text "   -Ld <loss>      Set downlink loss to <rate> (float in 0..1)     (no loss)" ++ [10; 10]);
     Str (text "   -h              Show this message and quit." ++ [10; 10])]) msg.

(** On the standard error stream. *)
Definition native_usage (argv0 : bytes) : ostream :=
  outs ostream_new
    [Str (text "Usage: "); Str argv0; Str (text " [-l] <host> <port>" ++ [10; 10]);
     Str (text "  -l specifies listen mode; <host>:<port> is the listening address."); Chr 10].

(** ** Reading the options from a text *)

Fixpoint text_lines (fuel : nat) (s : bytes) : list bytes :=
  match fuel, s with
  | S fuel, _ :: _ => let '(l, r) := cut_line s in l :: text_lines fuel r
  | _, _ => []
  end.

(** The word at the start of a line of the table: three blanks, a dash, a letter. *)
Fixpoint word (s : bytes) : string :=
  match s with
  | c :: s => if c =? 32 then EmptyString else String (Ascii.ascii_of_nat (Z.to_nat c)) (word s)
  | [] => EmptyString
  end.
Definition option_of_line (l : bytes) : option string :=
  match l with
  | 32 :: 32 :: 32 :: 45 :: c :: rest => if c =? 45 then None else Some (word (45 :: c :: rest))
  | _ => None
  end.
Definition listed (usage : ostream) : list string := omap option_of_line (text_lines (length (out usage)) (out usage)).

(** ** Properties *)

(** What the loop of [get_config] takes as an option. *)
Definition accepted (opt : string -> string -> settings -> option settings) (arg : string) : bool :=
  strncmp_eq 3 "-l"%string arg || bool_decide (is_Some (opt arg EmptyString (initial EmptyString))) || strncmp_eq 3 "-h"%string arg.

Lemma ipv4_listed : listed (ipv4_usage [] None) = ["-l"; "-a"; "-s"; "-w"; "-t"; "-d"; "-Lu"; "-Ld"; "-h"]%string.
Proof. vm_compute. reflexivity. Qed.

Lemma udp_listed : listed (udp_usage [] None) = ["-l"; "-w"; "-t"; "-Lu"; "-Ld"; "-h"]%string.
Proof. vm_compute. reflexivity. Qed.

(** The options listed are those accepted, by their first three characters. *)
Theorem usage_accurate loss_of arg :
  accepted (ipv4_option loss_of) arg = existsb (fun o => strncmp_eq 3 o arg) (listed (ipv4_usage [] None)) /\
  accepted (udp_option loss_of) arg = existsb (fun o => strncmp_eq 3 o arg) (listed (udp_usage [] None)).
Proof.
  rewrite ipv4_listed, udp_listed. unfold accepted, ipv4_option, udp_option, shared, losses. cbn [existsb].
  split; repeat (match goal with |- context [strncmp_eq 3 ?o arg] => destruct (strncmp_eq 3 o arg) end); reflexivity.
Qed.

(** An option of two characters is only itself; [-Lu] and [-Ld] are accepted with
    anything behind them. *)
Lemma strncmp_short a b arg : strncmp_eq 3 (String a (String b EmptyString)) arg = true <-> arg = String a (String b EmptyString).
Proof.
  split; [|intros ->; simpl; by rewrite !Ascii.eqb_refl].
  destruct arg as [|x [|y [|z arg]]]; simpl; rewrite ?andb_false_r; try done.
  intros [->%Ascii.eqb_eq [->%Ascii.eqb_eq _]%andb_true_iff]%andb_true_iff. done.
Qed.

Theorem loss_options_take_suffixes loss_of suffix :
  accepted (udp_option loss_of) ("-Lu" ++ suffix)%string = true /\ accepted (ipv4_option loss_of) ("-Ld" ++ suffix)%string = true.
Proof. by destruct suffix. Qed.
